(** * STM tip-etching controller: a shallow embedding of the firmware

    The firmware runs on an 8-bit AVR Arduino: [int] is 16 bits, [long] and
    [unsigned long] are 32 bits, [float] (and [double]) is IEEE-754 binary32.
    Integers are modelled in [Z] with the wrap-around written out, floats
    with the Standard Library's executable specification of IEEE-754
    arithmetic ([SpecFloat]) at precision 24 and maximal exponent 128. *)

From Stdlib Require Import ZArith List Bool Lia String QArith Qabs Qpower Lqa.
From Stdlib Require Import Floats.SpecFloat.
Import ListNotations.

Local Open Scope Z_scope.

(** ** Machine integers *)

Module MachInt.

(** [unsigned long] / [uint32_t]: arithmetic modulo 2^32. *)
Definition wrap_u32 (z : Z) : Z := z mod 4294967296.

(** [(int32_t)x] / [long]: two's complement reading of the low 32 bits. *)
Definition to_i32 (z : Z) : Z :=
  let w := z mod 4294967296 in
  if w <? 2147483648 then w else w - 4294967296.

(** [(int16_t)x] / AVR [int]: two's complement reading of the low 16 bits. *)
Definition to_i16 (z : Z) : Z :=
  let w := z mod 65536 in
  if w <? 32768 then w else w - 65536.

(** [uint8_t]: arithmetic modulo 2^8. *)
Definition wrap_u8 (z : Z) : Z := z mod 256.

Definition LONG_MIN : Z := -2147483648.
Definition LONG_MAX : Z := 2147483647.

End MachInt.

(** ** binary32 floating point *)

Module F32.

Definition prec : Z := 24.
Definition emax : Z := 128.

Definition float : Type := spec_float.

Definition zero : float := S754_zero false.
Definition nan : float := S754_nan.

Definition add (x y : float) : float := SFadd prec emax x y.
Definition sub (x y : float) : float := SFsub prec emax x y.
Definition mul (x y : float) : float := SFmul prec emax x y.
Definition div (x y : float) : float := SFdiv prec emax x y.
Definition sqrtf (x : float) : float := SFsqrt prec emax x.
Definition fabsf (x : float) : float := SFabs x.
Definition neg (x : float) : float := SFopp x.

(** C comparisons: every one of them is false when an operand is NaN,
    except [!=], which is then true. *)
Definition ltb (x y : float) : bool := SFltb x y.
Definition leb (x y : float) : bool := SFleb x y.
Definition gtb (x y : float) : bool := SFltb y x.
Definition geb (x y : float) : bool := SFleb y x.
Definition eqb (x y : float) : bool := SFeqb x y.
Definition neqb (x y : float) : bool := negb (SFeqb x y).

(** Integer to float conversion, correctly rounded (exact below 2^24). *)
Definition of_Z (z : Z) : float := binary_normalize prec emax z 0 false.

(** A decimal literal [n / d] such as [0.05f]: the binary32 value nearest to
    the quotient, which is what the correctly rounded division returns. *)
Definition lit (n d : Z) : float := div (of_Z n) (of_Z d).

(** The conversion of a [bool] to [float] through [int]. *)
Definition of_bool (b : bool) : float := if b then of_Z 1 else zero.

(** Magnitude of a finite float rounded to the nearest integer, halfway
    cases away from zero. *)
Definition round_half_away (m : positive) (e : Z) : Z :=
  if 0 <=? e then Zpos m * 2 ^ e
  else (2 * Zpos m + 2 ^ (- e)) / (2 * 2 ^ (- e)).

(** avr-libc [lroundf]: nearest integer, halfway cases away from zero;
    [LONG_MIN] when the argument is not finite or the result overflows. *)
Definition lroundf (x : float) : Z :=
  match x with
  | S754_zero _ => 0
  | S754_finite s m e =>
      let r := round_half_away m e in
      let v := if s then - r else r in
      if (MachInt.LONG_MIN <=? v) && (v <=? MachInt.LONG_MAX) then v
      else MachInt.LONG_MIN
  | _ => MachInt.LONG_MIN
  end.

(** [(uint32_t)x]: truncation toward zero.  C leaves the conversion
    undefined for NaN and for values outside the target range; the model
    returns 0 there. *)
Definition to_u32 (x : float) : Z :=
  match x with
  | S754_finite false m e =>
      let r := if 0 <=? e then Zpos m * 2 ^ e else Zpos m / 2 ^ (- e) in
      if r <? 4294967296 then r else 0
  | _ => 0
  end.

(** The rational number a finite float stands for (0 for NaN and the
    infinities, which have none). *)
Definition to_Q (x : float) : Q :=
  match x with
  | S754_finite s m e =>
      let a := if s then Zneg m else Zpos m in
      if 0 <=? e then inject_Z (a * 2 ^ e) else Qmake a (Z.to_pos (2 ^ (- e)))
  | _ => 0%Q
  end.

Definition is_nan (x : float) : bool :=
  match x with S754_nan => true | _ => false end.

Definition is_finite (x : float) : bool :=
  match x with S754_zero _ | S754_finite _ _ _ => true | _ => false end.

End F32.

(** Float operations are computed with [vm_compute] on concrete values and
    kept folded by [simpl] on symbolic ones. *)
Arguments F32.add : simpl never.
Arguments F32.sub : simpl never.
Arguments F32.mul : simpl never.
Arguments F32.div : simpl never.
Arguments F32.sqrtf : simpl never.
Arguments F32.ltb : simpl never.
Arguments F32.leb : simpl never.
Arguments F32.gtb : simpl never.
Arguments F32.geb : simpl never.
Arguments F32.eqb : simpl never.
Arguments F32.neqb : simpl never.
Arguments F32.of_Z : simpl never.
Arguments F32.lit : simpl never.
Arguments F32.lroundf : simpl never.
Arguments F32.to_u32 : simpl never.
Arguments MachInt.wrap_u32 : simpl never.
Arguments MachInt.to_i32 : simpl never.
Arguments MachInt.to_i16 : simpl never.
Arguments MachInt.wrap_u8 : simpl never.

(** ** The Arduino runtime as seen by the firmware

    Outputs are recorded as a chronological trace of events; inputs
    ([micros()], [millis()], [digitalRead], [analogRead]) are arguments of
    the functions that read them. *)

Module Arduino.

Inductive Level : Type := LOW | HIGH.

Inductive PinModeKind : Type := INPUT | OUTPUT | INPUT_PULLUP.

(** Calls into the character display (an external collaborator). *)
Inductive LcdOp : Type :=
| LcdClear
| LcdSetCursor (col row : Z)
| LcdPrint (s : string)
| LcdPrintFloat (x : F32.float) (digits : Z).

Inductive Event : Type :=
| EvPinMode (pin : Z) (m : PinModeKind)
| EvDigitalWrite (pin : Z) (l : Level)
| EvDelay (ms : Z)
| EvDelayMicroseconds (us : Z)
| EvLcd (op : LcdOp)
| EvMoveRelativeMm (dx_mm v_mm_s : F32.float).

Definition Trace : Type := list Event.

Arguments LcdPrint s%_string.

Definition level_eqb (a b : Level) : bool :=
  match a, b with
  | LOW, LOW | HIGH, HIGH => true
  | _, _ => false
  end.

(** [Lcd1602::title2]. *)
Definition title2 (l1 l2 : string) : Trace :=
  [EvLcd LcdClear;
   EvLcd (LcdSetCursor 0 0); EvLcd (LcdPrint l1);
   EvLcd (LcdSetCursor 0 1); EvLcd (LcdPrint l2)].

Arguments title2 (l1 l2)%_string.

(** Level of an output pin after a trace, [d] if it was never written. *)
Definition pin_level (pin : Z) (d : Level) (tr : Trace) : Level :=
  fold_left
    (fun acc ev =>
       match ev with
       | EvDigitalWrite p l => if p =? pin then l else acc
       | _ => acc
       end) tr d.

(** Time, in microseconds, for which a trace keeps the processor in a
    blocking wait ([delay] and [delayMicroseconds]). *)
Definition blocking_us (ev : Event) : Z :=
  match ev with
  | EvDelay ms => 1000 * ms
  | EvDelayMicroseconds us => us
  | _ => 0
  end.

Definition blocked_us (tr : Trace) : Z :=
  fold_right (fun ev acc => blocking_us ev + acc) 0 tr.

(** The longest single blocking wait of a trace, in microseconds. *)
Definition longest_block_us (tr : Trace) : Z :=
  fold_right (fun ev acc => Z.max (blocking_us ev) acc) 0 tr.

End Arduino.

(** ** MovingAverage<N, SCALE> (MovingAverage.cpp) *)

Module MovingAverage.

Record t : Type := mk {
  buf_ : list Z;      (* int16_t buf_[N] *)
  idx_ : Z;           (* int *)
  filled_ : bool;
  sum_ : Z            (* long *)
}.

(** Array read and write; the index is always inside [0, N). *)
Definition get (i : Z) (b : list Z) : Z := nth (Z.to_nat i) b 0.

Fixpoint set_nth (i : nat) (x : Z) (b : list Z) : list Z :=
  match b, i with
  | [], _ => []
  | _ :: r, O => x :: r
  | y :: r, S j => y :: set_nth j x r
  end.

Definition set (i : Z) (x : Z) (b : list Z) : list Z := set_nth (Z.to_nat i) x b.

Section Template.

Variables N SCALE : Z.

Definition toFixed_ (xA : F32.float) : Z :=
  let xmA := F32.mul xA (F32.of_Z SCALE) in
  let xmA := if F32.gtb xmA (F32.of_Z 32767) then F32.of_Z 32767 else xmA in
  let xmA := if F32.ltb xmA (F32.of_Z (-32768)) then F32.of_Z (-32768) else xmA in
  MachInt.to_i16 (F32.lroundf xmA).

Definition update (xA : F32.float) (s : t) : F32.float * t :=
  let xmA := toFixed_ xA in
  let sum1 := MachInt.to_i32 (sum_ s - get (idx_ s) (buf_ s)) in
  let buf1 := set (idx_ s) xmA (buf_ s) in
  let sum2 := MachInt.to_i32 (sum1 + xmA) in
  let idx1 := MachInt.to_i16 (idx_ s + 1) in
  let wrapped := N <=? idx1 in
  let idx2 := if wrapped then 0 else idx1 in
  let filled2 := if wrapped then true else filled_ s in
  let denom := if filled2 then N else idx2 in
  let denom := if denom <=? 0 then 1 else denom in
  (F32.div (F32.div (F32.of_Z sum2) (F32.of_Z denom)) (F32.of_Z SCALE),
   {| buf_ := buf1; idx_ := idx2; filled_ := filled2; sum_ := sum2 |}).

(** The body of [for (int i = 0; i < N; i++) { buf_[i] = x0; sum_ += x0; }],
    run [n] times from index [i]. *)
Fixpoint reset_loop (n : nat) (i : Z) (x0 : Z) (b : list Z) (sum : Z) : list Z * Z :=
  match n with
  | O => (b, sum)
  | S n' => reset_loop n' (i + 1) x0 (set i x0 b) (MachInt.to_i32 (sum + x0))
  end.

Definition reset (x0A : F32.float) (s : t) : t :=
  let x0 := toFixed_ x0A in
  let '(b, sum) := reset_loop (Z.to_nat N) 0 x0 (buf_ s) 0 in
  {| buf_ := b; idx_ := 0; filled_ := negb (x0 =? 0); sum_ := sum |}.

(** The constructor: an array of N cells, then [reset()] with the default
    argument [0.0f]. *)
Definition ctor : t :=
  reset F32.zero {| buf_ := repeat 0 (Z.to_nat N); idx_ := 0; filled_ := false; sum_ := 0 |}.

Definition filled (s : t) : bool := filled_ s.

(** [update] called on each sample of a list in turn: the values the calls
    return, in order, and the final state. *)
Fixpoint run (xs : list F32.float) (s : t) : list F32.float * t :=
  match xs with
  | [] => ([], s)
  | x :: r =>
      let y := fst (update x s) in
      let out := run r (snd (update x s)) in
      (y :: fst out, snd out)
  end.

(** The object is well formed: its array has N cells. *)
Definition wf (s : t) : Prop := List.length (buf_ s) = Z.to_nat N.

End Template.

End MovingAverage.

(** ** CurrentSensor (CurrentSensor.cpp, CurrentSensor.h) *)

Module CurrentSensor.

Record t : Type := mk {
  pin_ : Z;
  Vref_ : F32.float;
  adcMaxValue_ : F32.float;
  k_cal_ : F32.float;
  enabled_ : bool;
  sampleWindow_us_ : Z;
  sampleInterval_us_ : Z;
  nextSampleTime_ : Z;
  windowStart_ : Z;
  adcMin_ : Z;
  adcMax_ : Z;
  Vpp_ : F32.float;
  Irms_ : F32.float;
  sumV_ : F32.float;
  sumV2_ : F32.float;
  nSamples_ : Z
}.

Definition ctor (analogPin : Z) (Vref adcMaxValue k_cal : F32.float)
  (sampleWindow_us sampleInterval_us : Z) : t :=
  {| pin_ := analogPin; Vref_ := Vref; adcMaxValue_ := adcMaxValue; k_cal_ := k_cal;
     enabled_ := false;
     sampleWindow_us_ := sampleWindow_us; sampleInterval_us_ := sampleInterval_us;
     nextSampleTime_ := 0; windowStart_ := 0;
     adcMin_ := 1023; adcMax_ := 0;
     Vpp_ := F32.zero; Irms_ := F32.zero;
     sumV_ := F32.zero; sumV2_ := F32.zero; nSamples_ := 0 |}.

Definition begin (now : Z) (s : t) : t * Arduino.Trace :=
  ({| pin_ := pin_ s; Vref_ := Vref_ s; adcMaxValue_ := adcMaxValue_ s; k_cal_ := k_cal_ s;
      enabled_ := enabled_ s;
      sampleWindow_us_ := sampleWindow_us_ s; sampleInterval_us_ := sampleInterval_us_ s;
      nextSampleTime_ := MachInt.wrap_u32 now; windowStart_ := MachInt.wrap_u32 now;
      adcMin_ := 1023; adcMax_ := 0;
      Vpp_ := Vpp_ s; Irms_ := Irms_ s;
      sumV_ := F32.zero; sumV2_ := F32.zero; nSamples_ := 0 |},
   [Arduino.EvPinMode (pin_ s) Arduino.INPUT]).

(** The sampling half of [update]: one ADC reading when the sampling
    interval has elapsed. *)
Definition take_sample (now adc : Z) (s : t) : t :=
  if 0 <=? MachInt.to_i32 (now - nextSampleTime_ s) then
    let v := F32.mul (F32.of_Z adc) (F32.div (Vref_ s) (adcMaxValue_ s)) in
    {| pin_ := pin_ s; Vref_ := Vref_ s; adcMaxValue_ := adcMaxValue_ s; k_cal_ := k_cal_ s;
       enabled_ := enabled_ s;
       sampleWindow_us_ := sampleWindow_us_ s; sampleInterval_us_ := sampleInterval_us_ s;
       nextSampleTime_ := MachInt.wrap_u32 (nextSampleTime_ s + sampleInterval_us_ s);
       windowStart_ := windowStart_ s;
       adcMin_ := if adc <? adcMin_ s then adc else adcMin_ s;
       adcMax_ := if adc >? adcMax_ s then adc else adcMax_ s;
       Vpp_ := Vpp_ s; Irms_ := Irms_ s;
       sumV_ := F32.add (sumV_ s) v;
       sumV2_ := F32.add (sumV2_ s) (F32.mul v v);
       nSamples_ := MachInt.wrap_u32 (nSamples_ s + 1) |}
  else s.

(** The RMS current of a closing window: the new value when the window
    holds samples, the previous one otherwise. *)
Definition window_Irms (s : t) : F32.float :=
  if nSamples_ s >? 0 then
    let meanV := F32.div (sumV_ s) (F32.of_Z (nSamples_ s)) in
    let meanV2 := F32.div (sumV2_ s) (F32.of_Z (nSamples_ s)) in
    let var := F32.sub meanV2 (F32.mul meanV meanV) in
    let var := if F32.ltb var F32.zero then F32.zero else var in
    let Vrms_ac := F32.sqrtf var in
    F32.mul (k_cal_ s) Vrms_ac
  else Irms_ s.

(** The second half of [update]: closing the integration window. *)
Definition close_window (now : Z) (s : t) : t :=
  if MachInt.to_i32 (sampleWindow_us_ s) <=? MachInt.to_i32 (now - windowStart_ s) then
    let span := MachInt.to_i16 (adcMax_ s - adcMin_ s) in
    let span := if span <? 0 then 0 else span in
    {| pin_ := pin_ s; Vref_ := Vref_ s; adcMaxValue_ := adcMaxValue_ s;
       k_cal_ := k_cal_ s; enabled_ := enabled_ s;
       sampleWindow_us_ := sampleWindow_us_ s;
       sampleInterval_us_ := sampleInterval_us_ s;
       nextSampleTime_ := nextSampleTime_ s;
       windowStart_ := MachInt.wrap_u32 (windowStart_ s + sampleWindow_us_ s);
       adcMin_ := 1023; adcMax_ := 0;
       Vpp_ := F32.mul (F32.of_Z span) (F32.div (Vref_ s) (adcMaxValue_ s));
       Irms_ := window_Irms s;
       sumV_ := F32.zero; sumV2_ := F32.zero; nSamples_ := 0 |}
  else s.

(** [CurrentSensor::update], given the readings of [micros()] and of
    [analogRead(pin_)]. *)
Definition update (now adc : Z) (s : t) : t :=
  if negb (enabled_ s) then s
  else close_window now (take_sample now adc s).

(** The same function with its two divisions by the sample count checked:
    [None] records a division by a zero count. *)
Definition div_count (x : F32.float) (n : Z) : option F32.float :=
  if n =? 0 then None else Some (F32.div x (F32.of_Z n)).

Definition window_Irms_checked (s : t) : option F32.float :=
  if nSamples_ s >? 0 then
    match div_count (sumV_ s) (nSamples_ s), div_count (sumV2_ s) (nSamples_ s) with
    | Some meanV, Some meanV2 =>
        let var := F32.sub meanV2 (F32.mul meanV meanV) in
        let var := if F32.ltb var F32.zero then F32.zero else var in
        let Vrms_ac := F32.sqrtf var in
        Some (F32.mul (k_cal_ s) Vrms_ac)
    | _, _ => None
    end
  else Some (Irms_ s).

Definition close_window_checked (now : Z) (s : t) : option t :=
  if MachInt.to_i32 (sampleWindow_us_ s) <=? MachInt.to_i32 (now - windowStart_ s) then
    let span := MachInt.to_i16 (adcMax_ s - adcMin_ s) in
    let span := if span <? 0 then 0 else span in
    match window_Irms_checked s with
    | Some irms =>
        Some {| pin_ := pin_ s; Vref_ := Vref_ s; adcMaxValue_ := adcMaxValue_ s;
                k_cal_ := k_cal_ s; enabled_ := enabled_ s;
                sampleWindow_us_ := sampleWindow_us_ s;
                sampleInterval_us_ := sampleInterval_us_ s;
                nextSampleTime_ := nextSampleTime_ s;
                windowStart_ := MachInt.wrap_u32 (windowStart_ s + sampleWindow_us_ s);
                adcMin_ := 1023; adcMax_ := 0;
                Vpp_ := F32.mul (F32.of_Z span) (F32.div (Vref_ s) (adcMaxValue_ s));
                Irms_ := irms;
                sumV_ := F32.zero; sumV2_ := F32.zero; nSamples_ := 0 |}
    | None => None
    end
  else Some s.

Definition update_checked (now adc : Z) (s : t) : option t :=
  if negb (enabled_ s) then Some s
  else close_window_checked now (take_sample now adc s).

(** The integration window closes in this call of [update]. *)
Definition window_closes (now : Z) (s : t) : bool :=
  enabled_ s &&
  (MachInt.to_i32 (sampleWindow_us_ s) <=? MachInt.to_i32 (now - windowStart_ s)).

(** The number of samples the window holds when [update] reaches the
    window check (a sample taken earlier in the same call counts). *)
Definition samples_at_close (now adc : Z) (s : t) : Z :=
  nSamples_ (take_sample now adc s).

Definition lastVpp (s : t) : F32.float := Vpp_ s.
Definition lastIrms (s : t) : F32.float := Irms_ s.
Definition isEnabled (s : t) : bool := enabled_ s.

Definition setEnabled (en : bool) (s : t) : t :=
  {| pin_ := pin_ s; Vref_ := Vref_ s; adcMaxValue_ := adcMaxValue_ s; k_cal_ := k_cal_ s;
     enabled_ := en;
     sampleWindow_us_ := sampleWindow_us_ s; sampleInterval_us_ := sampleInterval_us_ s;
     nextSampleTime_ := nextSampleTime_ s; windowStart_ := windowStart_ s;
     adcMin_ := adcMin_ s; adcMax_ := adcMax_ s;
     Vpp_ := Vpp_ s; Irms_ := Irms_ s;
     sumV_ := sumV_ s; sumV2_ := sumV2_ s; nSamples_ := nSamples_ s |}.

(** [correctedIrms], with the global [baselineCurrent] as an argument. *)
Definition correctedIrms (baselineCurrent : F32.float) (s : t) : F32.float :=
  let I := F32.sub (Irms_ s) baselineCurrent in
  if F32.ltb I F32.zero then F32.zero else I.

End CurrentSensor.

(** ** StepperDriver (StepperDriver.cpp, StepperDriver.h) *)

Module StepperDriver.

Inductive Motion : Type := Idle | Velocity | ToTarget.

Definition motion_eqb (a b : Motion) : bool :=
  match a, b with
  | Idle, Idle | Velocity, Velocity | ToTarget, ToTarget => true
  | _, _ => false
  end.

Record t : Type := mk {
  pSTEP_ : Z;
  pDIR_ : Z;
  pEN_ : Z;
  stepsPerMm_ : F32.float;      (* const *)
  default_mm_s_ : F32.float;    (* const *)
  pos_steps_ : Z;               (* volatile long *)
  speed_mm_s_ : F32.float;
  dir_ : bool;
  tNextStep_ : Z;               (* uint32_t *)
  motion_ : Motion;
  target_steps_ : Z             (* long *)
}.

Definition set_pos_steps (x : Z) (s : t) : t :=
  mk (pSTEP_ s) (pDIR_ s) (pEN_ s) (stepsPerMm_ s) (default_mm_s_ s)
     x (speed_mm_s_ s) (dir_ s) (tNextStep_ s) (motion_ s) (target_steps_ s).

Definition set_speed_mm_s (x : F32.float) (s : t) : t :=
  mk (pSTEP_ s) (pDIR_ s) (pEN_ s) (stepsPerMm_ s) (default_mm_s_ s)
     (pos_steps_ s) x (dir_ s) (tNextStep_ s) (motion_ s) (target_steps_ s).

Definition set_dir (x : bool) (s : t) : t :=
  mk (pSTEP_ s) (pDIR_ s) (pEN_ s) (stepsPerMm_ s) (default_mm_s_ s)
     (pos_steps_ s) (speed_mm_s_ s) x (tNextStep_ s) (motion_ s) (target_steps_ s).

Definition set_tNextStep (x : Z) (s : t) : t :=
  mk (pSTEP_ s) (pDIR_ s) (pEN_ s) (stepsPerMm_ s) (default_mm_s_ s)
     (pos_steps_ s) (speed_mm_s_ s) (dir_ s) x (motion_ s) (target_steps_ s).

Definition set_motion (x : Motion) (s : t) : t :=
  mk (pSTEP_ s) (pDIR_ s) (pEN_ s) (stepsPerMm_ s) (default_mm_s_ s)
     (pos_steps_ s) (speed_mm_s_ s) (dir_ s) (tNextStep_ s) x (target_steps_ s).

Definition set_target_steps (x : Z) (s : t) : t :=
  mk (pSTEP_ s) (pDIR_ s) (pEN_ s) (stepsPerMm_ s) (default_mm_s_ s)
     (pos_steps_ s) (speed_mm_s_ s) (dir_ s) (tNextStep_ s) (motion_ s) x.

Definition dir_level (d : bool) : Arduino.Level :=
  if d then Arduino.HIGH else Arduino.LOW.

Definition ctor (stepPin dirPin enablePin : Z) (stepsPerRev : F32.float)
  (microsteps : Z) (lead_mm max_mm_s : F32.float) : t * Arduino.Trace :=
  ({| pSTEP_ := stepPin; pDIR_ := dirPin; pEN_ := enablePin;
      stepsPerMm_ := F32.div (F32.mul stepsPerRev (F32.of_Z microsteps)) lead_mm;
      default_mm_s_ := F32.div max_mm_s (F32.of_Z 2);
      pos_steps_ := 0; speed_mm_s_ := F32.zero; dir_ := true; tNextStep_ := 0;
      motion_ := Idle; target_steps_ := 0 |},
   [Arduino.EvPinMode stepPin Arduino.OUTPUT;
    Arduino.EvPinMode dirPin Arduino.OUTPUT;
    Arduino.EvPinMode enablePin Arduino.OUTPUT;
    Arduino.EvDigitalWrite stepPin Arduino.LOW;
    Arduino.EvDigitalWrite dirPin Arduino.LOW;
    Arduino.EvDigitalWrite enablePin Arduino.HIGH]).

Definition enable (on : bool) (s : t) : t * Arduino.Trace :=
  (s, [Arduino.EvDigitalWrite (pEN_ s) (if on then Arduino.LOW else Arduino.HIGH)]).

(** The speed limit both motion modes clamp to: [default_mm_s_ * 2.0f]. *)
Definition vmax (s : t) : F32.float := F32.mul (default_mm_s_ s) (F32.of_Z 2).

Definition setSpeedMmPerSec (v : F32.float) (s : t) : t * Arduino.Trace :=
  let vmax := vmax s in
  let v := if F32.gtb v vmax then vmax else v in
  let v := if F32.ltb v (F32.neg vmax) then F32.neg vmax else v in
  let wasIdle := motion_eqb (motion_ s) Idle || F32.eqb (speed_mm_s_ s) F32.zero in
  let s1 := set_speed_mm_s v s in
  let s2 := set_motion (if F32.eqb v F32.zero then Idle else Velocity) s1 in
  let newDir := F32.geb v F32.zero in
  let '(s3, tr) :=
    if negb (Bool.eqb newDir (dir_ s2))
    then (set_dir newDir s2, [Arduino.EvDigitalWrite (pDIR_ s2) (dir_level newDir)])
    else (s2, []) in
  let s4 := if F32.neqb v F32.zero && wasIdle then set_tNextStep 0 s3 else s3 in
  (s4, tr).

(** One STEP pulse on the wire. *)
Definition pulse (s : t) : Arduino.Trace :=
  [Arduino.EvDigitalWrite (pSTEP_ s) Arduino.HIGH;
   Arduino.EvDelayMicroseconds 2;
   Arduino.EvDigitalWrite (pSTEP_ s) Arduino.LOW].

Definition stepOnce_ (s : t) : t * Arduino.Trace :=
  (set_pos_steps (MachInt.to_i32 (pos_steps_ s + (if dir_ s then 1 else -1))) s,
   pulse s).

(** The speed magnitude [moveToMm] settles on for a requested speed. *)
Definition move_speed (v_mm_s : F32.float) (s : t) : F32.float :=
  let v := F32.fabsf v_mm_s in
  let v := if F32.leb v F32.zero then default_mm_s_ s else v in
  let vmax := vmax s in
  if F32.gtb v vmax then vmax else v.

Definition moveToMm (x_mm v_mm_s : F32.float) (s : t) : t * Arduino.Trace :=
  let tgt := F32.lroundf (F32.mul x_mm (stepsPerMm_ s)) in
  let s1 := set_target_steps tgt s in
  let goPos := target_steps_ s1 >? pos_steps_ s1 in
  let s2 := set_dir goPos s1 in
  let v := move_speed v_mm_s s2 in
  let s3 := set_speed_mm_s (if dir_ s2 then v else F32.neg v) s2 in
  let s4 := set_motion ToTarget s3 in
  (set_tNextStep 0 s4, [Arduino.EvDigitalWrite (pDIR_ s) (dir_level goPos)]).

(** The magnitude of the commanded speed. *)
Definition speed_magnitude (s : t) : F32.float := F32.fabsf (speed_mm_s_ s).

(** A sound configuration: the nominal speed is positive and not above the
    speed limit. *)
Definition config_ok (s : t) : bool :=
  F32.ltb F32.zero (default_mm_s_ s) && F32.leb (default_mm_s_ s) (vmax s).

Definition positionMm (s : t) : F32.float :=
  F32.div (F32.of_Z (pos_steps_ s)) (stepsPerMm_ s).

Definition setPositionMm (pos_mm : F32.float) (s : t) : t :=
  set_pos_steps (F32.lroundf (F32.mul pos_mm (stepsPerMm_ s))) s.

(** The trace records the call itself first, then what [moveToMm] writes. *)
Definition moveRelativeMm (dx_mm v_mm_s : F32.float) (s : t) : t * Arduino.Trace :=
  let '(s', tr) := moveToMm (F32.add (positionMm s) dx_mm) v_mm_s s in
  (s', Arduino.EvMoveRelativeMm dx_mm v_mm_s :: tr).

Definition isBusy (s : t) : bool := motion_eqb (motion_ s) ToTarget.

(** The step period [update] computes from the commanded speed, in
    microseconds; [None] below one step per second (no stepping). *)
Definition period_us (s : t) : option Z :=
  let v := F32.fabsf (speed_mm_s_ s) in
  let stepsPerSec := F32.mul v (stepsPerMm_ s) in
  if F32.ltb stepsPerSec (F32.of_Z 1) then None
  else Some (F32.to_u32 (F32.div (F32.of_Z 1000000) stepsPerSec)).

(** The deadline [update] compares the clock with: the stored one, or the
    current time when the stored one is 0 ("first start"). *)
Definition deadline (now : Z) (s : t) : Z :=
  if tNextStep_ s =? 0 then MachInt.wrap_u32 now else tNextStep_ s.

(** A step pulse is due at time [now]: [(int32_t)(now - tNextStep_) >= 0]. *)
Definition step_due (now : Z) (s : t) : bool :=
  0 <=? MachInt.to_i32 (now - deadline now s).

(** The position has reached the target in the direction of travel. *)
Definition reaches_target (s : t) : bool :=
  if dir_ s then pos_steps_ s >=? target_steps_ s
  else pos_steps_ s <=? target_steps_ s.

(** The end of a target move, checked after each pulse. *)
Definition check_target (s : t) : t :=
  match motion_ s with
  | ToTarget =>
      if reaches_target s
      then set_motion Idle (set_speed_mm_s F32.zero s) else s
  | _ => s
  end.

(** [update] returns at once: no motion is commanded. *)
Definition idle (s : t) : bool :=
  motion_eqb (motion_ s) Idle && F32.eqb (speed_mm_s_ s) F32.zero.

(** [StepperDriver::update], given the reading of [micros()]. *)
Definition update (now : Z) (s : t) : t * Arduino.Trace :=
  if idle s then
    (set_tNextStep (MachInt.wrap_u32 now) s, [])
  else
    match period_us s with
    | None => (s, [])
    | Some period =>
        let s1 := set_tNextStep (deadline now s) s in
        if step_due now s then
          let s2 := set_tNextStep (MachInt.wrap_u32 (now + period)) s1 in
          let '(s3, tr) := stepOnce_ s2 in
          (check_target s3, tr)
        else (s1, [])
    end.

End StepperDriver.

(** ** Parameters (Parameters.h, Parameters.cpp) *)

Module Parameters.

Record Mod1Params : Type := mkMod1Params {
  m1_plungeAfterSurface_mm : F32.float;
  m1_etchingThreshold_A : F32.float;
  m1_retractSpeed_mm_s : F32.float
}.

Record Mod2Params : Type := mkMod2Params {
  plungeAfterSurface_mm : F32.float;
  etchingThreshold_A : F32.float;
  plungeAfterEtch_mm : F32.float;
  pulseCount : Z;                 (* int *)
  pulseOn_s : F32.float;
  pulseOff_s : F32.float
}.

Record AllParams : Type := mkAllParams {
  mod1 : Mod1Params;
  mod2 : Mod2Params
}.

(** The defaults of Parameters.cpp. *)
Definition gParams_default : AllParams :=
  {| mod1 := {| m1_plungeAfterSurface_mm := F32.of_Z 4;
                m1_etchingThreshold_A := F32.lit 5 100;
                m1_retractSpeed_mm_s := F32.lit 15 1000 |};
     mod2 := {| plungeAfterSurface_mm := F32.of_Z 4;
                etchingThreshold_A := F32.lit 5 100;
                plungeAfterEtch_mm := F32.of_Z 3;
                pulseCount := 5;
                pulseOn_s := F32.lit 5 10;
                pulseOff_s := F32.of_Z 2 |} |}.

End Parameters.

(** ** The objects the modes share (the globals of the sketch) *)

Module World.

(** [IAvg_t = MovingAverage<200, 1000>], [IAvg_s = MovingAverage<20, 1000>]. *)
Definition N_long : Z := 200.
Definition N_short : Z := 20.
Definition SCALE : Z := 1000.

Record t : Type := mk {
  stepper : StepperDriver.t;
  current : CurrentSensor.t;
  Iavg : MovingAverage.t;
  IavgS : MovingAverage.t;
  baselineCurrent : F32.float;
  gParams : Parameters.AllParams;
  trace : Arduino.Trace
}.

Definition set_stepper (x : StepperDriver.t) (w : t) : t :=
  mk x (current w) (Iavg w) (IavgS w) (baselineCurrent w) (gParams w) (trace w).

Definition set_current (x : CurrentSensor.t) (w : t) : t :=
  mk (stepper w) x (Iavg w) (IavgS w) (baselineCurrent w) (gParams w) (trace w).

Definition set_Iavg (x : MovingAverage.t) (w : t) : t :=
  mk (stepper w) (current w) x (IavgS w) (baselineCurrent w) (gParams w) (trace w).

Definition set_IavgS (x : MovingAverage.t) (w : t) : t :=
  mk (stepper w) (current w) (Iavg w) x (baselineCurrent w) (gParams w) (trace w).

Definition set_baselineCurrent (x : F32.float) (w : t) : t :=
  mk (stepper w) (current w) (Iavg w) (IavgS w) x (gParams w) (trace w).

Definition set_gParams (x : Parameters.AllParams) (w : t) : t :=
  mk (stepper w) (current w) (Iavg w) (IavgS w) (baselineCurrent w) x (trace w).

(** Appending to the output trace. *)
Definition emit (tr : Arduino.Trace) (w : t) : t :=
  mk (stepper w) (current w) (Iavg w) (IavgS w) (baselineCurrent w) (gParams w)
     (trace w ++ tr).

(** A call of a [StepperDriver] method on the shared driver. *)
Definition stepper_call (f : StepperDriver.t -> StepperDriver.t * Arduino.Trace) (w : t) : t :=
  let r := f (stepper w) in
  emit (snd r) (set_stepper (fst r) w).

Definition digitalWrite (pin : Z) (l : Arduino.Level) (w : t) : t :=
  emit [Arduino.EvDigitalWrite pin l] w.

Definition pinMode (pin : Z) (m : Arduino.PinModeKind) (w : t) : t :=
  emit [Arduino.EvPinMode pin m] w.

Definition lcd_title2 (l1 l2 : string) (w : t) : t := emit (Arduino.title2 l1 l2) w.

Arguments lcd_title2 (l1 l2)%_string w.

Definition lcd (op : Arduino.LcdOp) (w : t) : t := emit [Arduino.EvLcd op] w.

Definition current_setEnabled (en : bool) (w : t) : t :=
  set_current (CurrentSensor.setEnabled en (current w)) w.

Definition correctedIrms (w : t) : F32.float :=
  CurrentSensor.correctedIrms (baselineCurrent w) (current w).

(** [Iavg_.update(x)] and [IavgS_.update(x)]. *)
Definition Iavg_update (x : F32.float) (w : t) : F32.float * t :=
  let r := MovingAverage.update N_long SCALE x (Iavg w) in
  (fst r, set_Iavg (snd r) w).

Definition IavgS_update (x : F32.float) (w : t) : F32.float * t :=
  let r := MovingAverage.update N_short SCALE x (IavgS w) in
  (fst r, set_IavgS (snd r) w).

Definition Iavg_reset (w : t) : t :=
  set_Iavg (MovingAverage.reset N_long SCALE F32.zero (Iavg w)) w.

Definition IavgS_reset (w : t) : t :=
  set_IavgS (MovingAverage.reset N_short SCALE F32.zero (IavgS w)) w.

(** The part of the trace of [w'] written after [w]. *)
Definition emitted (w w' : t) : Arduino.Trace :=
  skipn (List.length (trace w)) (trace w').

End World.

Arguments MovingAverage.update : simpl never.
Arguments MovingAverage.reset : simpl never.
Arguments StepperDriver.update : simpl never.
Arguments StepperDriver.setSpeedMmPerSec : simpl never.
Arguments StepperDriver.moveToMm : simpl never.
Arguments StepperDriver.moveRelativeMm : simpl never.
Arguments StepperDriver.positionMm : simpl never.
Arguments CurrentSensor.correctedIrms : simpl never.
Arguments CurrentSensor.update : simpl never.

(** What one call of a mode's [step()] reads from the environment. *)
Record Inputs : Type := mkInputs {
  in_micros : Z;              (* micros(), read by StepperDriver::update *)
  in_millis : Z;              (* millis() *)
  in_limit : Arduino.Level    (* digitalRead(limitPin_) *)
}.

(** ** HomeMode (Modes.cpp) *)

Module HomeMode.

Record t : Type := mk {
  limitPin_ : Z;
  homed_ : bool;
  target_ : F32.float;
  baselineMeasuring_ : bool;
  baselineDone_ : bool;
  baselineStart_ : Z;
  baselineSum_ : F32.float;
  baselineCount_ : Z
}.

Definition set_homed (x : bool) (m : t) : t :=
  mk (limitPin_ m) x (target_ m) (baselineMeasuring_ m) (baselineDone_ m)
     (baselineStart_ m) (baselineSum_ m) (baselineCount_ m).

Definition set_target (x : F32.float) (m : t) : t :=
  mk (limitPin_ m) (homed_ m) x (baselineMeasuring_ m) (baselineDone_ m) (baselineStart_
     m) (baselineSum_ m) (baselineCount_ m).

Definition set_baselineMeasuring (x : bool) (m : t) : t :=
  mk (limitPin_ m) (homed_ m) (target_ m) x (baselineDone_ m) (baselineStart_ m)
     (baselineSum_ m) (baselineCount_ m).

Definition set_baselineDone (x : bool) (m : t) : t :=
  mk (limitPin_ m) (homed_ m) (target_ m) (baselineMeasuring_ m) x (baselineStart_ m)
     (baselineSum_ m) (baselineCount_ m).

Definition set_baselineStart (x : Z) (m : t) : t :=
  mk (limitPin_ m) (homed_ m) (target_ m) (baselineMeasuring_ m) (baselineDone_ m) x
     (baselineSum_ m) (baselineCount_ m).

Definition set_baselineSum (x : F32.float) (m : t) : t :=
  mk (limitPin_ m) (homed_ m) (target_ m) (baselineMeasuring_ m) (baselineDone_ m)
     (baselineStart_ m) x (baselineCount_ m).

Definition set_baselineCount (x : Z) (m : t) : t :=
  mk (limitPin_ m) (homed_ m) (target_ m) (baselineMeasuring_ m) (baselineDone_ m)
     (baselineStart_ m) (baselineSum_ m) x.

Definition ctor (limitPin : Z) : t :=
  {| limitPin_ := limitPin; homed_ := false; target_ := F32.zero;
     baselineMeasuring_ := false; baselineDone_ := false; baselineStart_ := 0;
     baselineSum_ := F32.zero; baselineCount_ := 0 |}.

Definition begin (m : t) (w : World.t) : t * World.t :=
  let w := World.lcd_title2 "HOMING..." "Moving up" w in
  let w := World.pinMode (limitPin_ m) Arduino.INPUT_PULLUP w in
  let w := World.stepper_call (StepperDriver.enable true) w in
  let w := World.stepper_call (StepperDriver.setSpeedMmPerSec (F32.neg (F32.of_Z 5))) w in
  let m := set_homed false m in
  let m := set_baselineMeasuring false m in
  let m := set_baselineDone false m in
  let m := set_baselineSum F32.zero m in
  let m := set_baselineCount 0 m in
  (m, w).

(** Phase 1: homing toward the limit switch. *)
Definition step_homing (i : Inputs) (m : t) (w : World.t) : bool * t * World.t :=
  let w := World.stepper_call (StepperDriver.update (in_micros i)) w in
  match in_limit i with
  | Arduino.LOW =>
      let w := World.stepper_call (StepperDriver.setSpeedMmPerSec F32.zero) w in
      let w := World.set_stepper (StepperDriver.setPositionMm F32.zero (World.stepper w)) w in
      let m := set_homed true m in
      let w := World.emit [Arduino.EvDelay 200] w in
      let w := World.stepper_call (StepperDriver.setSpeedMmPerSec (F32.of_Z 5)) w in
      let m := set_target (F32.of_Z 30) m in
      let w := World.lcd_title2 "HOMING" "Move to Z=30 mm" w in
      (false, m, w)
  | Arduino.HIGH => (false, m, w)
  end.

(** Phase 2: moving to Z = 30 mm. *)
Definition step_moving (now : Z) (m : t) (w : World.t) : bool * t * World.t :=
  if F32.geb (StepperDriver.positionMm (World.stepper w)) (target_ m) then
    let w := World.stepper_call (StepperDriver.setSpeedMmPerSec F32.zero) w in
    let w := World.current_setEnabled true w in
    let m := set_baselineMeasuring true m in
    let m := set_baselineStart now m in
    let m := set_baselineSum F32.zero m in
    let m := set_baselineCount 0 m in
    let w := World.lcd_title2 "HOMING" "Measuring I0" w in
    (false, m, w)
  else (false, m, w).

(** Phase 3: the 5 s baseline measurement. *)
Definition step_measuring (now : Z) (m : t) (w : World.t) : bool * t * World.t :=
  let I_ := CurrentSensor.lastIrms (World.current w) in
  let m := set_baselineSum (F32.add (baselineSum_ m) I_) m in
  let m := set_baselineCount (MachInt.wrap_u32 (baselineCount_ m + 1)) m in
  if 5000 <=? MachInt.wrap_u32 (now - baselineStart_ m) then
    let w := World.current_setEnabled false w in
    let m := set_baselineMeasuring false m in
    let m := set_baselineDone true m in
    let I0 :=
      if baselineCount_ m >? 0
      then F32.div (baselineSum_ m) (F32.of_Z (baselineCount_ m))
      else F32.zero in
    let w := World.set_baselineCurrent I0 w in
    let w := World.lcd Arduino.LcdClear w in
    let w := World.lcd (Arduino.LcdSetCursor 0 0) w in
    let w := World.lcd (Arduino.LcdPrint "HOME OK") w in
    let w := World.lcd (Arduino.LcdSetCursor 0 1) w in
    let w := World.lcd (Arduino.LcdPrint "I0=") w in
    let w := World.lcd (Arduino.LcdPrintFloat I0 3) w in
    let w := World.lcd (Arduino.LcdPrint " A") w in
    (false, m, w)
  else (false, m, w).

(** Phase 4: completion. *)
Definition step_done (m : t) (w : World.t) : bool * t * World.t :=
  let w := World.emit [Arduino.EvDelay 2000] w in
  (true, m, w).

Definition step (i : Inputs) (m : t) (w : World.t) : bool * t * World.t :=
  if negb (homed_ m) then step_homing i m w
  else
    let w := World.stepper_call (StepperDriver.update (in_micros i)) w in
    let now := MachInt.wrap_u32 (in_millis i) in
    if negb (baselineMeasuring_ m) && negb (baselineDone_ m) then step_moving now m w
    else if baselineMeasuring_ m then step_measuring now m w
    else if baselineDone_ m then step_done m w
    else (false, m, w).

Definition end_ (m : t) (w : World.t) : t * World.t :=
  (m, World.stepper_call (StepperDriver.enable true) w).

End HomeMode.

(** The soft travel limits of the etching modes. *)
Definition Z_MIN : F32.float := F32.lit 15 10.
Definition Z_MAX : F32.float := F32.of_Z 75.

(** [z <= Z_MIN || z >= Z_MAX]. *)
Definition out_of_range (z : F32.float) : bool :=
  F32.leb z Z_MIN || F32.geb z Z_MAX.

(** The position the etching modes test against the soft limits: the one
    [step()] reads after its call of [stepper_.update()]. *)
Definition position_seen (i : Inputs) (w : World.t) : F32.float :=
  StepperDriver.positionMm
    (World.stepper (World.stepper_call (StepperDriver.update (in_micros i)) w)).

(** ** Mod1Mode (Modes.cpp) *)

Module Mod1Mode.

Inductive State : Type :=
| MovingDownDetect | Wait1 | MoveDown1 | Wait2 | Validate30V | RelayHold
| Etching | MoveUpBump | FinalLift | Done.

Definition state_eqb (a b : State) : bool :=
  match a, b with
  | MovingDownDetect, MovingDownDetect | Wait1, Wait1 | MoveDown1, MoveDown1
  | Wait2, Wait2 | Validate30V, Validate30V | RelayHold, RelayHold
  | Etching, Etching | MoveUpBump, MoveUpBump | FinalLift, FinalLift
  | Done, Done => true
  | _, _ => false
  end.

Record t : Type := mk {
  relayPin1_ : Z;
  relayPin2_ : Z;
  threshold_ : F32.float;
  etchingThreshold_ : F32.float;
  etchStart_ : Z;
  st_ : State;
  waitStart_ : Z;
  validateStart_ : Z;
  pulseCount_ : Z;
  pulseStart_ : Z;
  relayOn_ : bool;
  stopTime_ : Z;
  bumpedUp1mm_ : bool
}.

Definition set_etchStart (x : Z) (m : t) : t :=
  mk (relayPin1_ m) (relayPin2_ m) (threshold_ m) (etchingThreshold_ m) x (st_ m)
     (waitStart_ m) (validateStart_ m) (pulseCount_ m) (pulseStart_ m) (relayOn_ m)
     (stopTime_ m) (bumpedUp1mm_ m).

Definition set_st (x : State) (m : t) : t :=
  mk (relayPin1_ m) (relayPin2_ m) (threshold_ m) (etchingThreshold_ m) (etchStart_ m) x
     (waitStart_ m) (validateStart_ m) (pulseCount_ m) (pulseStart_ m) (relayOn_ m)
     (stopTime_ m) (bumpedUp1mm_ m).

Definition set_waitStart (x : Z) (m : t) : t :=
  mk (relayPin1_ m) (relayPin2_ m) (threshold_ m) (etchingThreshold_ m) (etchStart_ m)
     (st_ m) x (validateStart_ m) (pulseCount_ m) (pulseStart_ m) (relayOn_ m)
     (stopTime_ m) (bumpedUp1mm_ m).

Definition set_validateStart (x : Z) (m : t) : t :=
  mk (relayPin1_ m) (relayPin2_ m) (threshold_ m) (etchingThreshold_ m) (etchStart_ m)
     (st_ m) (waitStart_ m) x (pulseCount_ m) (pulseStart_ m) (relayOn_ m) (stopTime_ m)
     (bumpedUp1mm_ m).

Definition set_pulseCount (x : Z) (m : t) : t :=
  mk (relayPin1_ m) (relayPin2_ m) (threshold_ m) (etchingThreshold_ m) (etchStart_ m)
     (st_ m) (waitStart_ m) (validateStart_ m) x (pulseStart_ m) (relayOn_ m) (stopTime_
     m) (bumpedUp1mm_ m).

Definition set_pulseStart (x : Z) (m : t) : t :=
  mk (relayPin1_ m) (relayPin2_ m) (threshold_ m) (etchingThreshold_ m) (etchStart_ m)
     (st_ m) (waitStart_ m) (validateStart_ m) (pulseCount_ m) x (relayOn_ m) (stopTime_
     m) (bumpedUp1mm_ m).

Definition set_relayOn (x : bool) (m : t) : t :=
  mk (relayPin1_ m) (relayPin2_ m) (threshold_ m) (etchingThreshold_ m) (etchStart_ m)
     (st_ m) (waitStart_ m) (validateStart_ m) (pulseCount_ m) (pulseStart_ m) x
     (stopTime_ m) (bumpedUp1mm_ m).

Definition set_stopTime (x : Z) (m : t) : t :=
  mk (relayPin1_ m) (relayPin2_ m) (threshold_ m) (etchingThreshold_ m) (etchStart_ m)
     (st_ m) (waitStart_ m) (validateStart_ m) (pulseCount_ m) (pulseStart_ m) (relayOn_
     m) x (bumpedUp1mm_ m).

Definition set_bumpedUp1mm (x : bool) (m : t) : t :=
  mk (relayPin1_ m) (relayPin2_ m) (threshold_ m) (etchingThreshold_ m) (etchStart_ m)
     (st_ m) (waitStart_ m) (validateStart_ m) (pulseCount_ m) (pulseStart_ m) (relayOn_
     m) (stopTime_ m) x.

Definition ctor (relayPin1 relayPin2 : Z) (currentThreshold etchingThreshold : F32.float) : t :=
  {| relayPin1_ := relayPin1; relayPin2_ := relayPin2;
     threshold_ := currentThreshold; etchingThreshold_ := etchingThreshold;
     etchStart_ := 0; st_ := MovingDownDetect; waitStart_ := 0; validateStart_ := 0;
     pulseCount_ := 0; pulseStart_ := 0; relayOn_ := false; stopTime_ := 0;
     bumpedUp1mm_ := false |}.

Definition begin (m : t) (w : World.t) : t * World.t :=
  let w := World.lcd_title2 "MOD1: Surface detection" "Move down" w in
  let w := World.pinMode (relayPin1_ m) Arduino.OUTPUT w in
  let w := World.pinMode (relayPin2_ m) Arduino.OUTPUT w in
  let w := World.digitalWrite (relayPin1_ m) Arduino.LOW w in
  let w := World.digitalWrite (relayPin2_ m) Arduino.HIGH w in
  let m := set_st MovingDownDetect m in
  let m := set_relayOn false m in
  let m := set_pulseCount 0 m in
  let m := set_etchStart 0 m in
  let w := World.Iavg_reset w in
  let w := World.IavgS_reset w in
  let m := set_bumpedUp1mm false m in
  let w := World.stepper_call (StepperDriver.enable true) w in
  let w := World.stepper_call (StepperDriver.setSpeedMmPerSec (F32.lit 15 10)) w in
  let w := World.current_setEnabled true w in
  (m, w).

(** The global safety limit: immediate abort. *)
Definition abort (m : t) (w : World.t) : bool * t * World.t :=
  let w := World.stepper_call (StepperDriver.setSpeedMmPerSec F32.zero) w in
  let w := World.current_setEnabled false w in
  let w := World.digitalWrite (relayPin1_ m) Arduino.HIGH w in
  let w := World.digitalWrite (relayPin2_ m) Arduino.HIGH w in
  let w := World.lcd_title2 "MOD1: ABORT" "Z limit reached" w in
  (true, set_st Done m, w).

Definition step_MovingDownDetect (now : Z) (m : t) (w : World.t) : bool * t * World.t :=
  let Iraw := World.correctedIrms w in
  let '(I_, w) := World.IavgS_update Iraw w in
  if F32.geb I_ (threshold_ m) then
    let w := World.stepper_call (StepperDriver.setSpeedMmPerSec F32.zero) w in
    let m := set_stopTime now m in
    let w := World.digitalWrite (relayPin1_ m) Arduino.HIGH w in
    let w := World.digitalWrite (relayPin2_ m) Arduino.HIGH w in
    let w := World.lcd_title2 "MOD1: Surface detected!" EmptyString w in
    let w := World.lcd (Arduino.LcdSetCursor 0 1) w in
    let w := World.lcd (Arduino.LcdPrint "I=") w in
    let w := World.lcd (Arduino.LcdPrintFloat I_ 4) w in
    let w := World.lcd (Arduino.LcdPrint " A   ") w in
    let m := set_waitStart now m in
    (false, set_st Wait1 m, w)
  else (false, m, w).

Definition step_Wait1 (now : Z) (m : t) (w : World.t) : bool * t * World.t :=
  if 1000 <=? MachInt.wrap_u32 (now - waitStart_ m) then
    let plunge := Parameters.m1_plungeAfterSurface_mm (Parameters.mod1 (World.gParams w)) in
    let w := World.lcd_title2 "MOD1: Step" "Down ..." w in
    let w := World.lcd (Arduino.LcdSetCursor 0 1) w in
    let w := World.lcd (Arduino.LcdPrint "Down ") w in
    let w := World.lcd (Arduino.LcdPrintFloat plunge 2) w in
    let w := World.lcd (Arduino.LcdPrint "mm") w in
    let w := World.stepper_call (StepperDriver.moveRelativeMm plunge (F32.of_Z 1)) w in
    (false, set_st MoveDown1 m, w)
  else (false, m, w).

Definition step_MoveDown1 (now : Z) (m : t) (w : World.t) : bool * t * World.t :=
  if negb (StepperDriver.isBusy (World.stepper w)) then
    let m := set_waitStart now m in
    (false, set_st Wait2 m, w)
  else (false, m, w).

Definition step_Wait2 (now : Z) (m : t) (w : World.t) : bool * t * World.t :=
  if 1000 <=? MachInt.wrap_u32 (now - waitStart_ m) then
    let w := World.digitalWrite (relayPin1_ m) Arduino.HIGH w in
    let w := World.digitalWrite (relayPin2_ m) Arduino.LOW w in
    let m := set_validateStart now m in
    let w := World.Iavg_reset w in
    let w := World.IavgS_reset w in
    let w := World.lcd_title2 "MOD1: Surface Test" "Validating..." w in
    (false, set_st Validate30V m, w)
  else (false, m, w).

Definition CONFIRM_I : F32.float := F32.lit 5 10.
Definition VALIDATE_MS : Z := 500.

Definition step_Validate30V (now : Z) (m : t) (w : World.t) : bool * t * World.t :=
  let Iraw := World.correctedIrms w in
  let '(I_, w) := World.IavgS_update Iraw w in
  if F32.geb I_ CONFIRM_I then
    let w := World.lcd_title2 "MOD1: 30V ON" "Etching..." w in
    let m := set_etchStart now m in
    (false, set_st RelayHold m, w)
  else if VALIDATE_MS <=? MachInt.wrap_u32 (now - validateStart_ m) then
    let w := World.digitalWrite (relayPin1_ m) Arduino.HIGH w in
    let w := World.digitalWrite (relayPin2_ m) Arduino.HIGH w in
    let w := World.stepper_call (StepperDriver.setSpeedMmPerSec (F32.of_Z 3)) w in
    let w := World.lcd_title2 "MOD1: Continue" "Searching..." w in
    (false, set_st MovingDownDetect m, w)
  else (false, m, w).

Definition step_RelayHold (now : Z) (m : t) (w : World.t) : bool * t * World.t :=
  let Iraw := World.correctedIrms w in
  let '(I_, w) := World.Iavg_update Iraw w in
  if MachInt.wrap_u32 (now - etchStart_ m) <? 2000 then (false, m, w)
  else
    let retract := Parameters.m1_retractSpeed_mm_s (Parameters.mod1 (World.gParams w)) in
    let w := World.stepper_call (StepperDriver.setSpeedMmPerSec (F32.neg retract)) w in
    let w := World.lcd_title2 "MOD1: Etching" "Rising..." w in
    (false, set_st Etching m, w).

Definition step_Etching (now : Z) (m : t) (w : World.t) : bool * t * World.t :=
  let Iraw := World.correctedIrms w in
  let '(I_, w) := World.Iavg_update Iraw w in
  if F32.ltb I_ (Parameters.m1_etchingThreshold_A (Parameters.mod1 (World.gParams w))) then
    let w := World.stepper_call (StepperDriver.setSpeedMmPerSec F32.zero) w in
    let w := World.digitalWrite (relayPin1_ m) Arduino.HIGH w in
    let w := World.digitalWrite (relayPin2_ m) Arduino.HIGH w in
    let w := World.stepper_call
               (StepperDriver.moveRelativeMm (F32.neg (F32.of_Z 30)) (F32.of_Z 3)) w in
    (false, set_st FinalLift m, w)
  else (false, m, w).

Definition step_FinalLift (m : t) (w : World.t) : bool * t * World.t :=
  if negb (StepperDriver.isBusy (World.stepper w)) then
    let w := World.current_setEnabled false w in
    let w := World.lcd_title2 "MOD1: DONE" EmptyString w in
    (true, set_st Done m, w)
  else (false, m, w).

Definition step (i : Inputs) (m : t) (w : World.t) : bool * t * World.t :=
  let w := World.stepper_call (StepperDriver.update (in_micros i)) w in
  let now := MachInt.wrap_u32 (in_millis i) in
  let z := StepperDriver.positionMm (World.stepper w) in
  if out_of_range z then abort m w
  else
    match st_ m with
    | MovingDownDetect => step_MovingDownDetect now m w
    | Wait1 => step_Wait1 now m w
    | MoveDown1 => step_MoveDown1 now m w
    | Wait2 => step_Wait2 now m w
    | Validate30V => step_Validate30V now m w
    | RelayHold => step_RelayHold now m w
    | Etching => step_Etching now m w
    | FinalLift => step_FinalLift m w
    | MoveUpBump => (false, m, w)
    | Done => (true, m, w)
    end.

Definition end_ (m : t) (w : World.t) : t * World.t :=
  let w := World.stepper_call (StepperDriver.setSpeedMmPerSec F32.zero) w in
  let w := World.stepper_call (StepperDriver.enable true) w in
  let w := World.current_setEnabled false w in
  let w := World.digitalWrite (relayPin1_ m) Arduino.HIGH w in
  let w := World.digitalWrite (relayPin2_ m) Arduino.HIGH w in
  (m, w).

End Mod1Mode.

(** ** Mod2Mode (Modes.cpp) *)

Module Mod2Mode.

Inductive State : Type :=
| MovingDownDetect | Wait1 | MoveDown1 | Wait2 | Validate30V | RelayHold
| Wait3 | MoveDown2 | Wait4 | RelayPulse | FinalLift | Done.

Definition state_eqb (a b : State) : bool :=
  match a, b with
  | MovingDownDetect, MovingDownDetect | Wait1, Wait1 | MoveDown1, MoveDown1
  | Wait2, Wait2 | Validate30V, Validate30V | RelayHold, RelayHold
  | Wait3, Wait3 | MoveDown2, MoveDown2 | Wait4, Wait4 | RelayPulse, RelayPulse
  | FinalLift, FinalLift | Done, Done => true
  | _, _ => false
  end.

Record t : Type := mk {
  relayPin1_ : Z;
  relayPin2_ : Z;
  threshold_ : F32.float;
  etchingThreshold_ : F32.float;
  st_ : State;
  waitStart_ : Z;
  validateStart_ : Z;
  pulseStart_ : Z;
  etchStart_ : Z;
  relayOn_ : bool;
  pulseCount_ : Z
}.

Definition set_st (x : State) (m : t) : t :=
  mk (relayPin1_ m) (relayPin2_ m) (threshold_ m) (etchingThreshold_ m) x (waitStart_ m)
     (validateStart_ m) (pulseStart_ m) (etchStart_ m) (relayOn_ m) (pulseCount_ m).

Definition set_waitStart (x : Z) (m : t) : t :=
  mk (relayPin1_ m) (relayPin2_ m) (threshold_ m) (etchingThreshold_ m) (st_ m) x
     (validateStart_ m) (pulseStart_ m) (etchStart_ m) (relayOn_ m) (pulseCount_ m).

Definition set_validateStart (x : Z) (m : t) : t :=
  mk (relayPin1_ m) (relayPin2_ m) (threshold_ m) (etchingThreshold_ m) (st_ m)
     (waitStart_ m) x (pulseStart_ m) (etchStart_ m) (relayOn_ m) (pulseCount_ m).

Definition set_pulseStart (x : Z) (m : t) : t :=
  mk (relayPin1_ m) (relayPin2_ m) (threshold_ m) (etchingThreshold_ m) (st_ m)
     (waitStart_ m) (validateStart_ m) x (etchStart_ m) (relayOn_ m) (pulseCount_ m).

Definition set_etchStart (x : Z) (m : t) : t :=
  mk (relayPin1_ m) (relayPin2_ m) (threshold_ m) (etchingThreshold_ m) (st_ m)
     (waitStart_ m) (validateStart_ m) (pulseStart_ m) x (relayOn_ m) (pulseCount_ m).

Definition set_relayOn (x : bool) (m : t) : t :=
  mk (relayPin1_ m) (relayPin2_ m) (threshold_ m) (etchingThreshold_ m) (st_ m)
     (waitStart_ m) (validateStart_ m) (pulseStart_ m) (etchStart_ m) x (pulseCount_ m).

Definition set_pulseCount (x : Z) (m : t) : t :=
  mk (relayPin1_ m) (relayPin2_ m) (threshold_ m) (etchingThreshold_ m) (st_ m)
     (waitStart_ m) (validateStart_ m) (pulseStart_ m) (etchStart_ m) (relayOn_ m) x.

Definition ctor (relayPin1 relayPin2 : Z) (surfaceThreshold etchingThreshold : F32.float) : t :=
  {| relayPin1_ := relayPin1; relayPin2_ := relayPin2;
     threshold_ := surfaceThreshold; etchingThreshold_ := etchingThreshold;
     st_ := MovingDownDetect; waitStart_ := 0; validateStart_ := 0; pulseStart_ := 0;
     etchStart_ := 0; relayOn_ := false; pulseCount_ := 0 |}.

Definition begin (m : t) (w : World.t) : t * World.t :=
  let w := World.lcd_title2 "MOD2: Surface detection" "Move down..." w in
  let w := World.pinMode (relayPin1_ m) Arduino.OUTPUT w in
  let w := World.pinMode (relayPin2_ m) Arduino.OUTPUT w in
  let w := World.digitalWrite (relayPin1_ m) Arduino.HIGH w in
  let w := World.digitalWrite (relayPin2_ m) Arduino.HIGH w in
  let m := set_st MovingDownDetect m in
  let m := set_relayOn false m in
  let m := set_pulseCount 0 m in
  let m := set_etchStart 0 m in
  let w := World.stepper_call (StepperDriver.enable true) w in
  let w := World.stepper_call (StepperDriver.setSpeedMmPerSec (F32.of_Z 3)) w in
  let w := World.current_setEnabled true w in
  (m, w).

(** The global safety limit: immediate abort. *)
Definition abort (m : t) (w : World.t) : bool * t * World.t :=
  let w := World.stepper_call (StepperDriver.setSpeedMmPerSec F32.zero) w in
  let w := World.current_setEnabled false w in
  let w := World.digitalWrite (relayPin1_ m) Arduino.HIGH w in
  let w := World.digitalWrite (relayPin2_ m) Arduino.HIGH w in
  let w := World.lcd_title2 "MOD2: ABORT" "Z limit reached" w in
  (true, set_st Done m, w).

Definition step_MovingDownDetect (now : Z) (m : t) (w : World.t) : bool * t * World.t :=
  let I_ := World.correctedIrms w in
  if F32.geb I_ (threshold_ m) then
    let w := World.stepper_call (StepperDriver.setSpeedMmPerSec F32.zero) w in
    let w := World.digitalWrite (relayPin1_ m) Arduino.HIGH w in
    let w := World.digitalWrite (relayPin2_ m) Arduino.HIGH w in
    let w := World.lcd_title2 "MOD2: Surface detected!" EmptyString w in
    let w := World.lcd (Arduino.LcdSetCursor 0 1) w in
    let w := World.lcd (Arduino.LcdPrint "I=") w in
    let w := World.lcd (Arduino.LcdPrintFloat I_ 4) w in
    let w := World.lcd (Arduino.LcdPrint " A   ") w in
    let m := set_waitStart now m in
    (false, set_st Wait1 m, w)
  else (false, m, w).

Definition step_Wait1 (now : Z) (m : t) (w : World.t) : bool * t * World.t :=
  if 1000 <=? MachInt.wrap_u32 (now - waitStart_ m) then
    let plunge := Parameters.plungeAfterSurface_mm (Parameters.mod2 (World.gParams w)) in
    let w := World.lcd_title2 "MOD2: Step" "Down ..." w in
    let w := World.lcd (Arduino.LcdSetCursor 0 1) w in
    let w := World.lcd (Arduino.LcdPrint "Down ") w in
    let w := World.lcd (Arduino.LcdPrintFloat plunge 2) w in
    let w := World.lcd (Arduino.LcdPrint "mm") w in
    let w := World.stepper_call (StepperDriver.moveRelativeMm plunge (F32.of_Z 1)) w in
    (false, set_st MoveDown1 m, w)
  else (false, m, w).

Definition step_MoveDown1 (now : Z) (m : t) (w : World.t) : bool * t * World.t :=
  if negb (StepperDriver.isBusy (World.stepper w)) then
    let m := set_waitStart now m in
    (false, set_st Wait2 m, w)
  else (false, m, w).

Definition step_Wait2 (now : Z) (m : t) (w : World.t) : bool * t * World.t :=
  if 1000 <=? MachInt.wrap_u32 (now - waitStart_ m) then
    let w := World.digitalWrite (relayPin1_ m) Arduino.HIGH w in
    let w := World.digitalWrite (relayPin2_ m) Arduino.LOW w in
    let m := set_validateStart now m in
    let w := World.Iavg_reset w in
    let w := World.IavgS_reset w in
    let w := World.lcd_title2 "MOD2: Surface Test" "Validating..." w in
    (false, set_st Validate30V m, w)
  else (false, m, w).

Definition CONFIRM_I : F32.float := F32.lit 5 10.
Definition VALIDATE_MS : Z := 500.

Definition step_Validate30V (now : Z) (m : t) (w : World.t) : bool * t * World.t :=
  let Iraw := World.correctedIrms w in
  let '(I_, w) := World.IavgS_update Iraw w in
  if F32.geb I_ CONFIRM_I then
    let w := World.lcd_title2 "MOD2: 30V ON" "Etching..." w in
    let m := set_etchStart now m in
    (false, set_st RelayHold m, w)
  else if VALIDATE_MS <=? MachInt.wrap_u32 (now - validateStart_ m) then
    let w := World.digitalWrite (relayPin1_ m) Arduino.HIGH w in
    let w := World.digitalWrite (relayPin2_ m) Arduino.HIGH w in
    let w := World.stepper_call (StepperDriver.setSpeedMmPerSec (F32.of_Z 3)) w in
    let w := World.lcd_title2 "MOD2: Continue" "Searching..." w in
    (false, set_st MovingDownDetect m, w)
  else (false, m, w).

(** The condition of RelayHold as the source writes it,
    [I <= I <= gParams.mod2.etchingThreshold_A]: C++ reads it as
    [(I <= I) <= threshold], the inner comparison giving a [bool] that is
    converted to [float] for the outer one. *)
Definition hold_condition (I_ threshold : F32.float) : bool :=
  F32.leb (F32.of_bool (F32.leb I_ I_)) threshold.

Definition step_RelayHold (now : Z) (m : t) (w : World.t) : bool * t * World.t :=
  let Iraw := World.correctedIrms w in
  let '(I_, w) := World.Iavg_update Iraw w in
  if MachInt.wrap_u32 (now - etchStart_ m) <? 2000 then (false, m, w)
  else if hold_condition I_ (Parameters.etchingThreshold_A (Parameters.mod2 (World.gParams w))) then
    let w := World.digitalWrite (relayPin1_ m) Arduino.HIGH w in
    let w := World.digitalWrite (relayPin2_ m) Arduino.HIGH w in
    let w := World.lcd_title2 "MOD2: 30V OFF" EmptyString w in
    let w := World.lcd (Arduino.LcdSetCursor 0 1) w in
    let w := World.lcd (Arduino.LcdPrint "I=") w in
    let w := World.lcd (Arduino.LcdPrintFloat I_ 4) w in
    let w := World.lcd (Arduino.LcdPrint " A   ") w in
    let m := set_waitStart now m in
    (false, set_st Wait3 m, w)
  else (false, m, w).

Definition step_Wait3 (now : Z) (m : t) (w : World.t) : bool * t * World.t :=
  if 1000 <=? MachInt.wrap_u32 (now - waitStart_ m) then
    let plunge := Parameters.plungeAfterEtch_mm (Parameters.mod2 (World.gParams w)) in
    let w := World.lcd_title2 "MOD2: Step" "Down ..." w in
    let w := World.lcd (Arduino.LcdSetCursor 0 1) w in
    let w := World.lcd (Arduino.LcdPrint "Down ") w in
    let w := World.lcd (Arduino.LcdPrintFloat plunge 2) w in
    let w := World.lcd (Arduino.LcdPrint "mm") w in
    let w := World.stepper_call (StepperDriver.moveRelativeMm plunge (F32.of_Z 1)) w in
    (false, set_st MoveDown2 m, w)
  else (false, m, w).

Definition step_MoveDown2 (now : Z) (m : t) (w : World.t) : bool * t * World.t :=
  if negb (StepperDriver.isBusy (World.stepper w)) then
    let m := set_waitStart now m in
    (false, set_st Wait4 m, w)
  else (false, m, w).

Definition step_Wait4 (now : Z) (m : t) (w : World.t) : bool * t * World.t :=
  if 1000 <=? MachInt.wrap_u32 (now - waitStart_ m) then
    let w := World.current_setEnabled false w in
    let w := World.lcd_title2 "MOD2: 9V ON" "Pulses..." w in
    let m := set_pulseStart now m in
    let m := set_relayOn true m in
    let m := set_pulseCount 0 m in
    let w := World.digitalWrite (relayPin1_ m) Arduino.LOW w in
    let w := World.digitalWrite (relayPin2_ m) Arduino.HIGH w in
    (false, set_st RelayPulse m, w)
  else (false, m, w).

(** [now - pulseStart_ >= d] for a duration [d] held as a [float]: the
    unsigned difference is converted to [float] for the comparison. *)
Definition elapsed_f (now start : Z) (d : F32.float) : bool :=
  F32.geb (F32.of_Z (MachInt.wrap_u32 (now - start))) d.

Definition step_RelayPulse (now : Z) (m : t) (w : World.t) : bool * t * World.t :=
  let p := Parameters.mod2 (World.gParams w) in
  if relayOn_ m then
    if elapsed_f now (pulseStart_ m) (Parameters.pulseOn_s p) then
      let w := World.digitalWrite (relayPin1_ m) Arduino.HIGH w in
      let w := World.digitalWrite (relayPin2_ m) Arduino.HIGH w in
      let m := set_relayOn false m in
      let m := set_pulseStart now m in
      (false, m, w)
    else (false, m, w)
  else
    if elapsed_f now (pulseStart_ m) (Parameters.pulseOff_s p) then
      let m := set_pulseCount (MachInt.wrap_u8 (pulseCount_ m + 1)) m in
      if pulseCount_ m >=? Parameters.pulseCount p then
        let w := World.lcd_title2 "MOD2: DONE" EmptyString w in
        let w := World.stepper_call
                   (StepperDriver.moveRelativeMm (F32.neg (F32.of_Z 30)) (F32.of_Z 3)) w in
        (false, set_st FinalLift m, w)
      else
        let w := World.digitalWrite (relayPin1_ m) Arduino.LOW w in
        let w := World.digitalWrite (relayPin2_ m) Arduino.HIGH w in
        let m := set_relayOn true m in
        let m := set_pulseStart now m in
        (false, m, w)
    else (false, m, w).

Definition step_FinalLift (m : t) (w : World.t) : bool * t * World.t :=
  if negb (StepperDriver.isBusy (World.stepper w)) then
    let w := World.digitalWrite (relayPin1_ m) Arduino.HIGH w in
    let w := World.digitalWrite (relayPin2_ m) Arduino.HIGH w in
    (true, set_st Done m, w)
  else (false, m, w).

Definition step (i : Inputs) (m : t) (w : World.t) : bool * t * World.t :=
  let w := World.stepper_call (StepperDriver.update (in_micros i)) w in
  let now := MachInt.wrap_u32 (in_millis i) in
  let z := StepperDriver.positionMm (World.stepper w) in
  if out_of_range z then abort m w
  else
    match st_ m with
    | MovingDownDetect => step_MovingDownDetect now m w
    | Wait1 => step_Wait1 now m w
    | MoveDown1 => step_MoveDown1 now m w
    | Wait2 => step_Wait2 now m w
    | Validate30V => step_Validate30V now m w
    | RelayHold => step_RelayHold now m w
    | Wait3 => step_Wait3 now m w
    | MoveDown2 => step_MoveDown2 now m w
    | Wait4 => step_Wait4 now m w
    | RelayPulse => step_RelayPulse now m w
    | FinalLift => step_FinalLift m w
    | Done => (true, m, w)
    end.

Definition end_ (m : t) (w : World.t) : t * World.t :=
  let w := World.stepper_call (StepperDriver.setSpeedMmPerSec F32.zero) w in
  let w := World.stepper_call (StepperDriver.enable true) w in
  let w := World.current_setEnabled false w in
  let w := World.digitalWrite (relayPin1_ m) Arduino.HIGH w in
  let w := World.digitalWrite (relayPin2_ m) Arduino.HIGH w in
  (m, w).

End Mod2Mode.

(** ** The sketch (TipEtcingControler2.4_doc.ino) *)

Module Sketch.

(** Pin numbers on the Arduino Uno ([A0] is 14). *)
Definition PIN_STEP : Z := 12.
Definition PIN_DIR : Z := 13.
Definition PIN_EN : Z := 11.
Definition PIN_LIMIT : Z := 2.
Definition PIN_RELAY1 : Z := 15.
Definition PIN_RELAY2 : Z := 16.
Definition PIN_I_SENSOR : Z := 17.

Definition STEPS_PER_REV : F32.float := F32.of_Z 200.
Definition MICROSTEPS : Z := 16.
Definition LEAD_MM : F32.float := F32.of_Z 8.
Definition MAX_MM_S : F32.float := F32.of_Z 10.

Definition I_THRESHOLD : F32.float := F32.lit 5 100.
Definition I_ETCHING_THRESHOLD1 : F32.float := F32.lit 5 100.
Definition I_ETCHING_THRESHOLD2 : F32.float := F32.lit 5 100.

Definition stepper : StepperDriver.t :=
  fst (StepperDriver.ctor PIN_STEP PIN_DIR PIN_EN STEPS_PER_REV MICROSTEPS LEAD_MM MAX_MM_S).

Definition currentSensor : CurrentSensor.t :=
  CurrentSensor.ctor PIN_I_SENSOR (F32.of_Z 5) (F32.of_Z 1023) (F32.lit 2545 1000) 40000 200.

Definition home : HomeMode.t := HomeMode.ctor PIN_LIMIT.

Definition mod1 : Mod1Mode.t :=
  Mod1Mode.ctor PIN_RELAY1 PIN_RELAY2 I_THRESHOLD I_ETCHING_THRESHOLD1.

Definition mod2 : Mod2Mode.t :=
  Mod2Mode.ctor PIN_RELAY1 PIN_RELAY2 I_THRESHOLD I_ETCHING_THRESHOLD2.

(** The globals after their constructors have run. *)
Definition world : World.t :=
  {| World.stepper := stepper;
     World.current := currentSensor;
     World.Iavg := MovingAverage.ctor World.N_long World.SCALE;
     World.IavgS := MovingAverage.ctor World.N_short World.SCALE;
     World.baselineCurrent := F32.zero;
     World.gParams := Parameters.gParams_default;
     World.trace :=
       snd (StepperDriver.ctor PIN_STEP PIN_DIR PIN_EN STEPS_PER_REV MICROSTEPS
              LEAD_MM MAX_MM_S) |}.

(** What one iteration of [loop()] reads: the clock and the ADC for
    [currentSensor.update()], then the inputs of the running mode. *)
Record Tick : Type := mkTick {
  tk_micros : Z;
  tk_adc : Z;
  tk_in : Inputs
}.

Definition sensor_update (tk : Tick) (w : World.t) : World.t :=
  World.set_current (CurrentSensor.update (tk_micros tk) (tk_adc tk) (World.current w)) w.

(** One iteration of [loop()] while MOD2 is the running mode. *)
Definition loop_mod2 (tk : Tick) (m : Mod2Mode.t) (w : World.t) : bool * Mod2Mode.t * World.t :=
  Mod2Mode.step (tk_in tk) m (sensor_update tk w).

(** [loop()] iterated over a list of ticks, until the mode reports
    completion. *)
Fixpoint run_mod2 (tks : list Tick) (m : Mod2Mode.t) (w : World.t) : bool * Mod2Mode.t * World.t :=
  match tks with
  | [] => (false, m, w)
  | tk :: r =>
      let '(done, m', w') := loop_mod2 tk m w in
      if done then (true, m', w') else run_mod2 r m' w'
  end.

End Sketch.

(** ** Reading the relay outputs off a trace *)

Module Relays.

(** The two relay outputs: (relay 1, relay 2). *)
Definition Pair : Type := (Arduino.Level * Arduino.Level)%type.

(** Both HIGH: every voltage off. *)
Definition is_safe (p : Pair) : bool :=
  match p with (Arduino.HIGH, Arduino.HIGH) => true | _ => false end.

(** Relay 1 LOW, relay 2 HIGH: the secondary 9 V is on. *)
Definition is_9V (p : Pair) : bool :=
  match p with (Arduino.LOW, Arduino.HIGH) => true | _ => false end.

(** Relay 1 HIGH, relay 2 LOW: the primary 30 V is on. *)
Definition is_30V (p : Pair) : bool :=
  match p with (Arduino.HIGH, Arduino.LOW) => true | _ => false end.

(** The effect of one event on the pair. *)
Definition apply (r1 r2 : Z) (p : Pair) (ev : Arduino.Event) : Pair :=
  match ev with
  | Arduino.EvDigitalWrite pin l =>
      let a := if pin =? r1 then l else fst p in
      let b := if pin =? r2 then l else snd p in
      (a, b)
  | _ => p
  end.

Definition after (r1 r2 : Z) (p : Pair) (tr : Arduino.Trace) : Pair :=
  fold_left (apply r1 r2) tr p.

(** How many times a trace switches the 9 V on: the events after which the
    pair is in the 9 V combination and before which it was not. *)
Fixpoint count_9V_on (r1 r2 : Z) (p : Pair) (tr : Arduino.Trace) : nat :=
  match tr with
  | [] => O
  | ev :: r =>
      let p' := apply r1 r2 p ev in
      ((if is_9V p' && negb (is_9V p) then 1 else 0) + count_9V_on r1 r2 p' r)%nat
  end.

(** A trace that writes to neither relay pin. *)
Definition untouched (r1 r2 : Z) (tr : Arduino.Trace) : bool :=
  forallb
    (fun ev =>
       match ev with
       | Arduino.EvDigitalWrite pin _ => negb (pin =? r1) && negb (pin =? r2)
       | _ => true
       end) tr.

(** The relay pins are two different pins, and none of them is a pin of
    the stepper driver. *)
Definition wired (r1 r2 : Z) (s : StepperDriver.t) : bool :=
  negb (r1 =? r2) &&
  negb (StepperDriver.pSTEP_ s =? r1) && negb (StepperDriver.pSTEP_ s =? r2) &&
  negb (StepperDriver.pDIR_ s =? r1) && negb (StepperDriver.pDIR_ s =? r2) &&
  negb (StepperDriver.pEN_ s =? r1) && negb (StepperDriver.pEN_ s =? r2).

(** The final lift: [moveRelativeMm(-30.0f, 3.0f)]. *)
Definition is_final_lift (ev : Arduino.Event) : bool :=
  match ev with
  | Arduino.EvMoveRelativeMm dx v =>
      F32.eqb dx (F32.neg (F32.of_Z 30)) && F32.eqb v (F32.of_Z 3)
  | _ => false
  end.

Definition count_final_lifts (tr : Arduino.Trace) : nat :=
  List.length (filter is_final_lift tr).

End Relays.

(** ** What the claims speak of *)

(** The outputs of a safe stop between world [w] and world [w']: motion
    speed 0, current sensing disabled, and both relay outputs HIGH after the
    events written in between, whatever they were before. *)
Definition safe_stop (r1 r2 : Z) (w w' : World.t) : Prop :=
  StepperDriver.speed_mm_s_ (World.stepper w') = F32.zero /\
  StepperDriver.motion_ (World.stepper w') = StepperDriver.Idle /\
  CurrentSensor.isEnabled (World.current w') = false /\
  forall p, Relays.after r1 r2 p (World.emitted w w') = (Arduino.HIGH, Arduino.HIGH).

(** The value [MovingAverage::update] computes from the running sum and the
    denominator: [(sum_ / (float)denom) / SCALE]. *)
Definition average_of (SCALE sum denom : Z) : F32.float :=
  F32.div (F32.div (F32.of_Z sum) (F32.of_Z denom)) (F32.of_Z SCALE).

(** The last [n] elements of a list. *)
Definition lastn {A : Type} (n : nat) (l : list A) : list A :=
  skipn (List.length l - n) l.

Definition sumZ (l : list Z) : Z := fold_right Z.add 0 l.

(** The window of the [k] samples inserted so far: the fixed-point
    representations of the last [min(N, k)] of them. *)
Definition window (N SCALE : Z) (xs : list F32.float) : list Z :=
  lastn (Nat.min (Z.to_nat N) (List.length xs)) (map (MovingAverage.toFixed_ SCALE) xs).

(** The arithmetic mean of a list of fixed-point samples, as a rational
    number. *)
Definition mean_of (l : list Z) : Q :=
  (inject_Z (sumZ l) / inject_Z (Z.of_nat (List.length l)))%Q.

(** The rule the specification states for [reset]: a non-zero initial
    value marks the window as filled. *)
Definition nonzero_reset_is_filled (N SCALE : Z) : Prop :=
  forall x s,
    F32.eqb x F32.zero = false ->
    MovingAverage.filled (MovingAverage.reset N SCALE x s) = true.

(** The condition the specification states for leaving RelayHold: a single
    comparison of the smoothed current with the etch threshold. *)
Definition hold_is_threshold_comparison : Prop :=
  forall I_ threshold, Mod2Mode.hold_condition I_ threshold = F32.leb I_ threshold.

(** The deadline rule the specification states: on a due pulse the stored
    deadline advances by one period. *)
Definition deadline_advances_by_period : Prop :=
  forall now s p,
    StepperDriver.idle s = false -> StepperDriver.period_us s = Some p ->
    StepperDriver.step_due now s = true ->
    StepperDriver.tNextStep_ (fst (StepperDriver.update now s)) =
      MachInt.wrap_u32 (StepperDriver.deadline now s + p).

(** The rule the specification states: a non-positive requested speed
    selects the nominal speed. *)
Definition nonpositive_speed_selects_default : Prop :=
  forall x v s,
    StepperDriver.config_ok s = true -> F32.leb v F32.zero = true ->
    StepperDriver.speed_magnitude (fst (StepperDriver.moveToMm x v s)) =
      StepperDriver.default_mm_s_ s.

(** The rule the specification states: no call of a process machine's
    [step()] blocks for more than 10 microseconds at a time. *)
Definition steps_never_block : Prop :=
  forall (i : Inputs) (w : World.t),
    (forall m, Arduino.longest_block_us (World.emitted w (snd (HomeMode.step i m w))) <= 10) /\
    (forall m, Arduino.longest_block_us (World.emitted w (snd (Mod1Mode.step i m w))) <= 10) /\
    (forall m, Arduino.longest_block_us (World.emitted w (snd (Mod2Mode.step i m w))) <= 10).

(** ** States used as examples *)

Module Examples.

(** The driver of the sketch in continuous motion at 3 mm/s. *)
Definition stepper_velocity : StepperDriver.t :=
  fst (StepperDriver.setSpeedMmPerSec (F32.of_Z 3) Sketch.stepper).

(** The same, with the next step due at 1000 us. *)
Definition stepper_late : StepperDriver.t :=
  StepperDriver.set_tNextStep 1000 stepper_velocity.

(** The driver of the sketch one step short of a 1 mm target (400 steps). *)
Definition stepper_arriving : StepperDriver.t :=
  StepperDriver.set_pos_steps 399
    (fst (StepperDriver.moveToMm (F32.of_Z 1) (F32.of_Z 1) Sketch.stepper)).

(** The sensor of the sketch, enabled, with a reading of 0.25 A, its window
    started at 0 and its next sample scheduled for 100000 us. *)
Definition sensor_no_sample : CurrentSensor.t :=
  {| CurrentSensor.pin_ := Sketch.PIN_I_SENSOR;
     CurrentSensor.Vref_ := F32.of_Z 5;
     CurrentSensor.adcMaxValue_ := F32.of_Z 1023;
     CurrentSensor.k_cal_ := F32.lit 2545 1000;
     CurrentSensor.enabled_ := true;
     CurrentSensor.sampleWindow_us_ := 40000;
     CurrentSensor.sampleInterval_us_ := 200;
     CurrentSensor.nextSampleTime_ := 100000;
     CurrentSensor.windowStart_ := 0;
     CurrentSensor.adcMin_ := 1023;
     CurrentSensor.adcMax_ := 0;
     CurrentSensor.Vpp_ := F32.zero;
     CurrentSensor.Irms_ := F32.lit 25 100;
     CurrentSensor.sumV_ := F32.zero;
     CurrentSensor.sumV2_ := F32.zero;
     CurrentSensor.nSamples_ := 0 |}.

(** The world of the sketch with the axis at 40 mm (16000 steps), and with
    the axis at 1 mm (400 steps), below the lower soft limit. *)
Definition world_at_40mm : World.t :=
  World.set_stepper (StepperDriver.set_pos_steps 16000 Sketch.stepper) Sketch.world.

Definition world_at_1mm : World.t :=
  World.set_stepper (StepperDriver.set_pos_steps 400 Sketch.stepper) Sketch.world.

(** A sensor whose last RMS reading is [x]. *)
Definition sensor_reading (x : F32.float) : CurrentSensor.t :=
  {| CurrentSensor.pin_ := Sketch.PIN_I_SENSOR;
     CurrentSensor.Vref_ := F32.of_Z 5;
     CurrentSensor.adcMaxValue_ := F32.of_Z 1023;
     CurrentSensor.k_cal_ := F32.lit 2545 1000;
     CurrentSensor.enabled_ := true;
     CurrentSensor.sampleWindow_us_ := 40000;
     CurrentSensor.sampleInterval_us_ := 200;
     CurrentSensor.nextSampleTime_ := 0;
     CurrentSensor.windowStart_ := 0;
     CurrentSensor.adcMin_ := 1023;
     CurrentSensor.adcMax_ := 0;
     CurrentSensor.Vpp_ := F32.zero;
     CurrentSensor.Irms_ := x;
     CurrentSensor.sumV_ := F32.zero;
     CurrentSensor.sumV2_ := F32.zero;
     CurrentSensor.nSamples_ := 0 |}.

(** MOD2 in its RelayHold phase, entered at 0 ms, with the axis at 40 mm,
    the averages freshly reset and a current reading of 0.01 A. *)
Definition mod2_hold : Mod2Mode.t := Mod2Mode.set_st Mod2Mode.RelayHold Sketch.mod2.

Definition world_hold : World.t :=
  World.set_current (sensor_reading (F32.lit 1 100)) world_at_40mm.

Definition inputs_at (us ms : Z) : Inputs :=
  {| in_micros := us; in_millis := ms; in_limit := Arduino.HIGH |}.

(** Three current readings: 0.05 A, 0.1 A and 0.15 A. *)
Definition samples : list F32.float := [F32.lit 5 100; F32.lit 1 10; F32.lit 15 100].

(** A world with the pulse count of MOD2 set to [n], as the parameter
    editor sets it. *)
Definition with_pulseCount (n : Z) (w : World.t) : World.t :=
  let p := Parameters.mod2 (World.gParams w) in
  World.set_gParams
    {| Parameters.mod1 := Parameters.mod1 (World.gParams w);
       Parameters.mod2 :=
         {| Parameters.plungeAfterSurface_mm := Parameters.plungeAfterSurface_mm p;
            Parameters.etchingThreshold_A := Parameters.etchingThreshold_A p;
            Parameters.plungeAfterEtch_mm := Parameters.plungeAfterEtch_mm p;
            Parameters.pulseCount := n;
            Parameters.pulseOn_s := Parameters.pulseOn_s p;
            Parameters.pulseOff_s := Parameters.pulseOff_s p |} |} w.

(** MOD2 in its pause before the pulse train, entered at 0 ms, with the
    axis at rest at 40 mm. *)
Definition mod2_wait4 : Mod2Mode.t := Mod2Mode.set_st Mod2Mode.Wait4 Sketch.mod2.

(** [n] iterations of [loop()], one every 3 s: at 3000 ms, 6000 ms, ... *)
Definition ticks_every_3s (n : nat) : list Sketch.Tick :=
  map (fun j => Sketch.mkTick 0 0 (inputs_at 0 (3000 * Z.of_nat j))) (seq 1 n).

(** The run of [n] such iterations from the pause before the pulse train,
    with the pulse count [P]; and what it wrote. *)
Definition pulse_run (P : Z) (n : nat) : bool * Mod2Mode.t * World.t :=
  Sketch.run_mod2 (ticks_every_3s n) mod2_wait4 (with_pulseCount P world_at_40mm).

Definition pulse_trace (P : Z) (n : nat) : Arduino.Trace :=
  World.emitted (with_pulseCount P world_at_40mm) (snd (pulse_run P n)).

End Examples.

(** ** Measures used in the proofs *)

(** The range of [int16_t]. *)
Definition int16 (z : Z) : Prop := -32768 <= z <= 32767.

(** The rational [m * 2^e], and a rational with the sign bit of a float. *)
Definition val (m e : Z) : Q := (inject_Z m * 2 ^ e)%Q.

Definition signed (s : bool) (q : Q) : Q := if s then (- q)%Q else q.

(** The exponent [shr_fexp] moves a mantissa [m] at exponent [e] to, and
    the mantissa [binary_round_aux] has after its first shift and the
    rounding. *)
Definition exp_after (m e : Z) : Z :=
  Z.max e (fexp F32.prec F32.emax (Zdigits2 m + e)).

Definition rounded_m (mx ex : Z) (lx : location) : Z :=
  let mrs := fst (shr_fexp F32.prec F32.emax mx ex lx) in
  round_nearest_even (shr_m mrs) (loc_of_shr_record mrs).

(** The state of a window of [N] cells that was reset to 0 and then fed the
    fixed-point samples [fs], oldest first. *)
Record Inv (N : Z) (fs : list Z) (s : MovingAverage.t) : Prop := mkInv {
  inv_len : List.length (MovingAverage.buf_ s) = Z.to_nat N;
  inv_idx : MovingAverage.idx_ s = Z.of_nat (List.length fs mod Z.to_nat N);
  inv_filled : MovingAverage.filled_ s = (Z.to_nat N <=? List.length fs)%nat;
  inv_rot :
    skipn (List.length fs mod Z.to_nat N) (MovingAverage.buf_ s)
    ++ firstn (List.length fs mod Z.to_nat N) (MovingAverage.buf_ s)
    = lastn (Z.to_nat N) (repeat 0 (Z.to_nat N) ++ fs);
  inv_sum : MovingAverage.sum_ s = sumZ (MovingAverage.buf_ s);
  inv_rng : Forall int16 (MovingAverage.buf_ s)
}.

(** The invariant of a run of MOD2. *)
Module PulseInv.

(** No 9 V yet and no lift yet; relay 1 is HIGH, so that no write to relay
    2 can switch the 9 V on. *)
Definition early (pair : Relays.Pair) (c l : nat) : Prop :=
  fst pair = Arduino.HIGH /\ c = O /\ l = O.

(** What holds in each state of the machine run with the pulse count [P]:
    [pair] are the relay outputs, [c] the number of times the 9 V was
    switched on and [l] the number of final lifts issued since the mode
    began. *)
Definition state_facts (P : Z) (m : Mod2Mode.t) (s : StepperDriver.t)
  (pair : Relays.Pair) (c l : nat) : Prop :=
  match Mod2Mode.st_ m with
  | Mod2Mode.MoveDown2 =>
      early pair c l /\
      (StepperDriver.motion_ s = StepperDriver.ToTarget \/ StepperDriver.idle s = true)
  | Mod2Mode.Wait4 => early pair c l /\ StepperDriver.idle s = true
  | Mod2Mode.RelayPulse =>
      StepperDriver.idle s = true /\
      out_of_range (StepperDriver.positionMm s) = false /\
      l = O /\
      0 <= Mod2Mode.pulseCount_ m < P /\
      Z.of_nat c = Mod2Mode.pulseCount_ m + 1 /\
      pair = (if Mod2Mode.relayOn_ m then (Arduino.LOW, Arduino.HIGH)
              else (Arduino.HIGH, Arduino.HIGH))
  | Mod2Mode.FinalLift =>
      Z.of_nat c = P /\ l = 1%nat /\ pair = (Arduino.HIGH, Arduino.HIGH)
  | Mod2Mode.Done =>
      pair = (Arduino.HIGH, Arduino.HIGH) /\
      ((c = O /\ l = O) \/ (Z.of_nat c = P /\ l = 1%nat))
  | _ => early pair c l
  end.

(** The invariant of a run of MOD2 on the relay pins [r1] and [r2] with the
    pulse count [P], that began in world [w0] with the relay outputs [p0]. *)
Definition run_inv (r1 r2 P : Z) (w0 : World.t) (p0 : Relays.Pair)
  (m : Mod2Mode.t) (w : World.t) : Prop :=
  Mod2Mode.relayPin1_ m = r1 /\
  Mod2Mode.relayPin2_ m = r2 /\
  Relays.wired r1 r2 (World.stepper w) = true /\
  Parameters.pulseCount (Parameters.mod2 (World.gParams w)) = P /\
  exists tr,
    World.trace w = World.trace w0 ++ tr /\
    state_facts P m (World.stepper w)
      (Relays.after r1 r2 p0 tr)
      (Relays.count_9V_on r1 r2 p0 tr)
      (Relays.count_final_lifts tr).

(** MOD2 inside its pulse train with the pulse count [P], the axis at rest
    inside the soft limits. *)
Definition pulsing (P : Z) (m : Mod2Mode.t) (w : World.t) : Prop :=
  Mod2Mode.st_ m = Mod2Mode.RelayPulse /\
  StepperDriver.idle (World.stepper w) = true /\
  out_of_range (StepperDriver.positionMm (World.stepper w)) = false /\
  Parameters.pulseCount (Parameters.mod2 (World.gParams w)) = P.

End PulseInv.

(** * More of the firmware, and what its properties speak of *)

(** ** Runs of the stepper driver *)

Module StepperRuns.

(** [StepperDriver::update] called once for each clock reading of a list,
    in turn: the final state and everything written. *)
Fixpoint updates (nows : list Z) (s : StepperDriver.t) : StepperDriver.t * Arduino.Trace :=
  match nows with
  | [] => (s, [])
  | now :: r =>
      let r1 := StepperDriver.update now s in
      let r2 := updates r (fst r1) in
      (fst r2, snd r1 ++ snd r2)
  end.

(** The number of STEP pulses of a trace: the rising edges written to the
    pin. *)
Definition pulses (pin : Z) (tr : Arduino.Trace) : Z :=
  Z.of_nat
    (List.length
       (filter (fun ev =>
                  match ev with
                  | Arduino.EvDigitalWrite p Arduino.HIGH => p =? pin
                  | _ => false
                  end) tr)).

(** The range of [long]. *)
Definition long_range (z : Z) : Prop := MachInt.LONG_MIN <= z <= MachInt.LONG_MAX.

(** The invariant of a move to a target above the start [p0]. *)
Definition moving_up (p0 tgt : Z) (s : StepperDriver.t) : Prop :=
  StepperDriver.dir_ s = true /\ StepperDriver.target_steps_ s = tgt /\
  ((StepperDriver.motion_ s = StepperDriver.ToTarget /\ p0 <= StepperDriver.pos_steps_ s < tgt) \/
   (StepperDriver.idle s = true /\ StepperDriver.pos_steps_ s = tgt)).

(** The invariant of a move to a target at or below the start [p0]. *)
Definition moving_down (p0 tgt : Z) (s : StepperDriver.t) : Prop :=
  StepperDriver.dir_ s = false /\ StepperDriver.target_steps_ s = tgt /\
  ((StepperDriver.motion_ s = StepperDriver.ToTarget /\
    (tgt < StepperDriver.pos_steps_ s <= p0 \/ (StepperDriver.pos_steps_ s = p0 /\ p0 = tgt))) \/
   (StepperDriver.idle s = true /\ StepperDriver.pos_steps_ s = Z.min tgt (p0 - 1))).

End StepperRuns.

(** ** KeypadShield (KeypadShield.h, KeypadShield.cpp) *)

Module KeypadShield.

Inductive Key : Type := NONE | RIGHT | UP | DOWN | LEFT | SELECT.

Definition key_eqb (a b : Key) : bool :=
  match a, b with
  | NONE, NONE | RIGHT, RIGHT | UP, UP | DOWN, DOWN | LEFT, LEFT | SELECT, SELECT => true
  | _, _ => false
  end.

Record t : Type := mk {
  aPin_ : Z;
  dbMs_ : Z;          (* uint16_t *)
  lastChange_ : Z;    (* uint32_t *)
  stable_ : Key;
  last_ : Key;
  thRight_ : Z;       (* int *)
  thUp_ : Z;
  thDown_ : Z;
  thLeft_ : Z;
  thSel_ : Z
}.

(** The constructor, with the thresholds the class declares as defaults. *)
Definition ctor (analogPin debounceMs : Z) : t :=
  {| aPin_ := analogPin; dbMs_ := debounceMs; lastChange_ := 0;
     stable_ := NONE; last_ := NONE;
     thRight_ := 60; thUp_ := 200; thDown_ := 400; thLeft_ := 600; thSel_ := 800 |}.

Definition set_keys (stable last : Key) (lastChange : Z) (s : t) : t :=
  mk (aPin_ s) (dbMs_ s) lastChange stable last
     (thRight_ s) (thUp_ s) (thDown_ s) (thLeft_ s) (thSel_ s).

(** [begin] and [clear], given the reading of [millis()]. *)
Definition begin (now : Z) (s : t) : t := set_keys NONE NONE (MachInt.wrap_u32 now) s.

Definition clear (now : Z) (s : t) : t := set_keys NONE NONE (MachInt.wrap_u32 now) s.

Definition setThresholds (right up down left select : Z) (s : t) : t :=
  mk (aPin_ s) (dbMs_ s) (lastChange_ s) (stable_ s) (last_ s) right up down left select.

Definition classify_ (a : Z) (s : t) : Key :=
  if a <? thRight_ s then RIGHT
  else if a <? thUp_ s then UP
  else if a <? thDown_ s then DOWN
  else if a <? thLeft_ s then LEFT
  else if a <? thSel_ s then SELECT
  else NONE.

(** What one call of [poll] reads: the ADC, [millis()] when the raw key has
    changed, and [millis()] for the debounce test. *)
Record Reading : Type := mkReading {
  rd_adc : Z;
  rd_ms_change : Z;
  rd_ms_check : Z
}.

(** The time for which the raw key has been what it is, as [poll] computes
    it: [millis() - lastChange_] in [unsigned long]. *)
Definition held_ms (r : Reading) (s : t) : Z :=
  MachInt.wrap_u32 (rd_ms_check r - lastChange_ s).

Definition poll (r : Reading) (s : t) : Key * t :=
  let raw := classify_ (rd_adc r) s in
  let s1 :=
    if negb (key_eqb raw (last_ s))
    then set_keys (stable_ s) raw (MachInt.wrap_u32 (rd_ms_change r)) s
    else s in
  if (dbMs_ s1 <=? held_ms r s1) && negb (key_eqb (stable_ s1) (last_ s1)) then
    let prev := stable_ s1 in
    let s2 := set_keys (last_ s1) (last_ s1) (lastChange_ s1) s1 in
    let fell :=
      if negb (key_eqb prev (stable_ s2)) && negb (key_eqb (stable_ s2) NONE)
      then stable_ s2 else NONE in
    (fell, s2)
  else (NONE, s1).

Definition stable (s : t) : Key := stable_ s.

(** [poll] called once for each reading of a list: the keys returned, in
    order, and the final state. *)
Fixpoint polls (rs : list Reading) (s : t) : list Key * t :=
  match rs with
  | [] => ([], s)
  | r :: rest =>
      let p := poll r s in
      let q := polls rest (snd p) in
      (fst p :: fst q, snd q)
  end.

(** The thresholds are in ascending order. *)
Definition ascending (s : t) : Prop :=
  thRight_ s <= thUp_ s /\ thUp_ s <= thDown_ s /\
  thDown_ s <= thLeft_ s /\ thLeft_ s <= thSel_ s.

(** The key presses a list of results reports. *)
Definition presses (out : list Key) : list Key :=
  filter (fun x => negb (key_eqb x NONE)) out.

End KeypadShield.

(** ** ModeController (ModeController.h, ModeController.cpp) and IMode (IMode.h) *)

Module ModeController.

Inductive UiState : Type := MENU | RUNNING.

(** The interface [IMode], over the type [W] of everything outside the
    controller (the modes' own state, the hardware, the display, the
    clocks). *)
Record IMode (W : Type) : Type := mkIMode {
  name : string;
  begin : W -> W;
  step : W -> bool * W;
  end_ : W -> W
}.

Arguments name {W} _.
Arguments begin {W} _ _.
Arguments step {W} _ _.
Arguments end_ {W} _ _.

(** The calls the controller makes into the mode table, in order. *)
Inductive Call : Type :=
| CBegin (idx : Z)
| CStep (idx : Z)
| CEnd (idx : Z).

Record t : Type := mk {
  n_ : Z;           (* uint8_t *)
  ui_ : UiState;
  selected_ : Z;    (* uint8_t *)
  running_ : Z      (* uint8_t *)
}.

Definition ctor (modeCount : Z) : t :=
  {| n_ := modeCount; ui_ := MENU; selected_ := 0; running_ := 0 |}.

Section WithWorld.

Variable W : Type.
(** The table [modes_]; reading it out of range is an error ([None]). *)
Variable modes : list (IMode W).
(** The display and the keypad, which the modes share with the
    controller. *)
Variable lcd : Arduino.LcdOp -> W -> W.
Variable poll : W -> KeypadShield.Key * W.

Definition mode_at (idx : Z) : option (IMode W) :=
  if idx <? 0 then None else nth_error modes (Z.to_nat idx).

Definition menu_ops (nm : string) : list Arduino.LcdOp :=
  let used := 2 + Z.of_nat (String.length nm) in
  [Arduino.LcdClear;
   Arduino.LcdSetCursor 0 0; Arduino.LcdPrint "Select Mode:";
   Arduino.LcdSetCursor 0 1; Arduino.LcdPrint "< "; Arduino.LcdPrint nm]
  ++ repeat (Arduino.LcdPrint " ") (Z.to_nat (16 - used - 2))
  ++ [Arduino.LcdPrint " >"].

Definition drawMenu_ (c : t) (w : W) : option W :=
  match mode_at (selected_ c) with
  | None => None
  | Some m => Some (fold_left (fun w op => lcd op w) (menu_ops (name m)) w)
  end.

Definition start_ (idx : Z) (c : t) (w : W) : option (t * W * list Call) :=
  let c := mk (n_ c) (ui_ c) (selected_ c) idx in
  match mode_at (running_ c) with
  | None => None
  | Some m =>
      Some (mk (n_ c) RUNNING (selected_ c) (running_ c), begin m w, [CBegin (running_ c)])
  end.

Definition stop_ (c : t) (w : W) : option (t * W * list Call) :=
  match mode_at (running_ c) with
  | None => None
  | Some m =>
      let w := end_ m w in
      let c := mk (n_ c) MENU (selected_ c) (running_ c) in
      match drawMenu_ c w with
      | None => None
      | Some w => Some (c, w, [CEnd (running_ c)])
      end
  end.

Definition begin_ctrl (c : t) (w : W) : option (t * W * list Call) :=
  let c := mk (n_ c) MENU 0 (running_ c) in
  match drawMenu_ c w with
  | None => None
  | Some w => start_ 0 c w
  end.

(** The body of [loop()] after [keys_.poll()] has returned [k]. *)
Definition loop_with (k : KeypadShield.Key) (c : t) (w : W) : option (t * W * list Call) :=
  match ui_ c with
  | MENU =>
      match k with
      | KeypadShield.LEFT =>
          let sel := if selected_ c =? 0 then n_ c - 1 else selected_ c - 1 in
          let c := mk (n_ c) (ui_ c) (MachInt.wrap_u8 sel) (running_ c) in
          match drawMenu_ c w with
          | None => None
          | Some w => Some (c, w, [])
          end
      | KeypadShield.RIGHT =>
          if n_ c =? 0 then None
          else
            let c := mk (n_ c) (ui_ c) (MachInt.wrap_u8 ((selected_ c + 1) mod n_ c))
                       (running_ c) in
            match drawMenu_ c w with
            | None => None
            | Some w => Some (c, w, [])
            end
      | KeypadShield.SELECT => start_ (selected_ c) c w
      | _ => Some (c, w, [])
      end
  | RUNNING =>
      match mode_at (running_ c) with
      | None => None
      | Some m =>
          let '(done, w) := step m w in
          let isJog := String.eqb (name m) "JOG" || String.eqb (name m) "PARAM" in
          if negb isJog && KeypadShield.key_eqb k KeypadShield.SELECT then
            match stop_ c w with
            | None => None
            | Some (c', w, calls) => Some (c', w, CStep (running_ c) :: calls)
            end
          else if done then
            match stop_ c w with
            | None => None
            | Some (c', w, calls) => Some (c', w, CStep (running_ c) :: calls)
            end
          else Some (c, w, [CStep (running_ c)])
      end
  end.

Definition loop (c : t) (w : W) : option (t * W * list Call) :=
  let '(k, w) := poll w in loop_with k c w.

(** [loop()] called [n] times, the calls into the mode table collected. *)
Fixpoint loops (n : nat) (c : t) (w : W) : option (t * W * list Call) :=
  match n with
  | O => Some (c, w, [])
  | S n' =>
      match loop c w with
      | None => None
      | Some (c1, w1, calls1) =>
          match loops n' c1 w1 with
          | None => None
          | Some (c2, w2, calls2) => Some (c2, w2, calls1 ++ calls2)
          end
      end
  end.

(** [begin()] followed by [n] calls of [loop()]. *)
Definition run (n : nat) (c : t) (w : W) : option (t * W * list Call) :=
  match begin_ctrl c w with
  | None => None
  | Some (c1, w1, calls1) =>
      match loops n c1 w1 with
      | None => None
      | Some (c2, w2, calls2) => Some (c2, w2, calls1 ++ calls2)
      end
  end.

(** The controller's indices are inside the mode table. *)
Definition in_table (c : t) : Prop :=
  n_ c = Z.of_nat (List.length modes) /\ 1 <= n_ c <= 255 /\
  0 <= selected_ c < n_ c /\ 0 <= running_ c < n_ c.

End WithWorld.

(** The mode that is open after a log of calls, [open] being open before
    it: [begin] only when no mode is open, [step] and [end] only on the open
    mode.  [None] when the log breaks this discipline. *)
Fixpoint bracketed (open : option Z) (log : list Call) : option (option Z) :=
  match log with
  | [] => Some open
  | CBegin i :: r =>
      match open with
      | None => bracketed (Some i) r
      | Some _ => None
      end
  | CStep i :: r =>
      match open with
      | Some j => if i =? j then bracketed open r else None
      | None => None
      end
  | CEnd i :: r =>
      match open with
      | Some j => if i =? j then bracketed None r else None
      | None => None
      end
  end.

(** The mode the controller holds open. *)
Definition open_mode (c : t) : option Z :=
  match ui_ c with
  | RUNNING => Some (running_ c)
  | MENU => None
  end.

End ModeController.

(** A table of two modes over a world that is a tick counter: the first
    mode reports completion when the counter is a multiple of three, the
    second one never does, and the keypad reads SELECT on odd ticks. *)
Module ControllerExamples.

Definition two_modes : list (ModeController.IMode Z) :=
  [ ModeController.mkIMode Z "HOME" (fun w => w + 1)
      (fun w => (w mod 3 =? 0, w + 1)) (fun w => w + 1);
    ModeController.mkIMode Z "JOG" (fun w => w + 1)
      (fun w => (false, w + 1)) (fun w => w + 1) ].

Definition no_lcd (op : Arduino.LcdOp) (w : Z) : Z := w.

Definition select_on_odd (w : Z) : KeypadShield.Key * Z :=
  (if Z.odd w then KeypadShield.SELECT else KeypadShield.RIGHT, w + 1).

End ControllerExamples.

(** ** [loop()] while MOD1 or HOME is the running mode *)

Module ModeRuns.

(** One iteration of [loop()] while MOD1 is the running mode:
    [currentSensor.update()], then the mode's [step()]. *)
Definition loop_mod1 (tk : Sketch.Tick) (m : Mod1Mode.t) (w : World.t) : bool * Mod1Mode.t * World.t :=
  Mod1Mode.step (Sketch.tk_in tk) m (Sketch.sensor_update tk w).

(** [loop()] iterated over a list of ticks, until the mode reports
    completion. *)
Fixpoint run_mod1 (tks : list Sketch.Tick) (m : Mod1Mode.t) (w : World.t) : bool * Mod1Mode.t * World.t :=
  match tks with
  | [] => (false, m, w)
  | tk :: r =>
      let '(done, m', w') := loop_mod1 tk m w in
      if done then (true, m', w') else run_mod1 r m' w'
  end.

End ModeRuns.

(** ** The relay outputs along a run *)

Module RelaySafety.

(** Both relay outputs LOW: the 9 V and the 30 V switched on together. *)
Definition both_LOW (p : Relays.Pair) : bool :=
  match p with (Arduino.LOW, Arduino.LOW) => true | _ => false end.

(** The outputs are never both LOW, neither before the trace nor after any
    of its events. *)
Fixpoint never_both_LOW (r1 r2 : Z) (p : Relays.Pair) (tr : Arduino.Trace) : bool :=
  negb (both_LOW p) &&
  match tr with
  | [] => true
  | ev :: r => never_both_LOW r1 r2 (Relays.apply r1 r2 p ev) r
  end.

(** The states of MOD1 in which the 30 V is applied. *)
Definition mod1_30V_state (st : Mod1Mode.State) : bool :=
  match st with
  | Mod1Mode.Validate30V | Mod1Mode.RelayHold | Mod1Mode.Etching => true
  | _ => false
  end.

(** What holds in each state of MOD1: [sensing] is the enable flag of the
    current sensor, [pair] are the relay outputs and [l] the number of final
    lifts issued since the mode began. *)
Definition mod1_facts (m : Mod1Mode.t) (s : StepperDriver.t) (sensing : bool)
  (pair : Relays.Pair) (l : nat) : Prop :=
  match Mod1Mode.st_ m with
  | Mod1Mode.MovingDownDetect =>
      (pair = (Arduino.LOW, Arduino.HIGH) \/ pair = (Arduino.HIGH, Arduino.HIGH)) /\ l = O
  | Mod1Mode.Wait1 | Mod1Mode.MoveDown1 | Mod1Mode.Wait2 =>
      pair = (Arduino.HIGH, Arduino.HIGH) /\ l = O
  | Mod1Mode.Validate30V | Mod1Mode.RelayHold | Mod1Mode.Etching =>
      pair = (Arduino.HIGH, Arduino.LOW) /\ l = O
  | Mod1Mode.FinalLift =>
      pair = (Arduino.HIGH, Arduino.HIGH) /\ l = 1%nat /\
      (StepperDriver.motion_ s = StepperDriver.ToTarget \/ StepperDriver.idle s = true)
  | Mod1Mode.MoveUpBump => False
  | Mod1Mode.Done =>
      pair = (Arduino.HIGH, Arduino.HIGH) /\ (l <= 1)%nat /\
      StepperDriver.idle s = true /\ sensing = false
  end.

(** The invariant of a run of MOD1 on the relay pins [r1] and [r2] that
    began in world [w0] with the relay outputs [p0]. *)
Definition mod1_inv (r1 r2 : Z) (w0 : World.t) (p0 : Relays.Pair)
  (m : Mod1Mode.t) (w : World.t) : Prop :=
  Mod1Mode.relayPin1_ m = r1 /\
  Mod1Mode.relayPin2_ m = r2 /\
  Relays.wired r1 r2 (World.stepper w) = true /\
  StepperDriver.config_ok (World.stepper w) = true /\
  exists tr,
    World.trace w = World.trace w0 ++ tr /\
    never_both_LOW r1 r2 p0 tr = true /\
    (Relays.count_9V_on r1 r2 p0 tr <= 1)%nat /\
    mod1_facts m (World.stepper w) (CurrentSensor.isEnabled (World.current w))
      (Relays.after r1 r2 p0 tr) (Relays.count_final_lifts tr).

(** The states of MOD2 in which the 30 V is applied. *)
Definition mod2_30V_state (st : Mod2Mode.State) : bool :=
  match st with
  | Mod2Mode.Validate30V | Mod2Mode.RelayHold => true
  | _ => false
  end.

(** What holds in each state of MOD2, whatever the pulse count. *)
Definition mod2_facts (m : Mod2Mode.t) (s : StepperDriver.t) (sensing : bool)
  (pair : Relays.Pair) : Prop :=
  match Mod2Mode.st_ m with
  | Mod2Mode.Validate30V | Mod2Mode.RelayHold => pair = (Arduino.HIGH, Arduino.LOW)
  | Mod2Mode.RelayPulse =>
      pair = (if Mod2Mode.relayOn_ m then (Arduino.LOW, Arduino.HIGH)
              else (Arduino.HIGH, Arduino.HIGH)) /\
      sensing = false
  | Mod2Mode.FinalLift =>
      pair = (Arduino.HIGH, Arduino.HIGH) /\ sensing = false /\
      (StepperDriver.motion_ s = StepperDriver.ToTarget \/ StepperDriver.idle s = true)
  | Mod2Mode.Done =>
      pair = (Arduino.HIGH, Arduino.HIGH) /\ sensing = false /\
      StepperDriver.idle s = true
  | _ => pair = (Arduino.HIGH, Arduino.HIGH)
  end.

Definition mod2_inv (r1 r2 : Z) (w0 : World.t) (p0 : Relays.Pair)
  (m : Mod2Mode.t) (w : World.t) : Prop :=
  Mod2Mode.relayPin1_ m = r1 /\
  Mod2Mode.relayPin2_ m = r2 /\
  Relays.wired r1 r2 (World.stepper w) = true /\
  StepperDriver.config_ok (World.stepper w) = true /\
  exists tr,
    World.trace w = World.trace w0 ++ tr /\
    never_both_LOW r1 r2 p0 tr = true /\
    mod2_facts m (World.stepper w) (CurrentSensor.isEnabled (World.current w))
      (Relays.after r1 r2 p0 tr).

End RelaySafety.

(** Runs used as examples: one iteration every three seconds, the clock
    of the current sensor and the ADC held at 0. *)
Module RunExamples.

Definition mod1_run (w : World.t) (n : nat) : bool * Mod1Mode.t * World.t :=
  let b := Mod1Mode.begin Sketch.mod1 w in
  ModeRuns.run_mod1 (Examples.ticks_every_3s n) (fst b) (snd b).

Definition mod2_run (w : World.t) (n : nat) : bool * Mod2Mode.t * World.t :=
  let b := Mod2Mode.begin Sketch.mod2 w in
  Sketch.run_mod2 (Examples.ticks_every_3s n) (fst b) (snd b).

End RunExamples.

(** ** [loop()] while HOME is the running mode *)

Module HomeRun.

(** One iteration of [loop()] while HOME is the running mode. *)
Definition loop_home (tk : Sketch.Tick) (m : HomeMode.t) (w : World.t) : bool * HomeMode.t * World.t :=
  HomeMode.step (Sketch.tk_in tk) m (Sketch.sensor_update tk w).

(** [loop()] iterated over a list of ticks, until the mode reports
    completion. *)
Fixpoint run_home (tks : list Sketch.Tick) (m : HomeMode.t) (w : World.t) : bool * HomeMode.t * World.t :=
  match tks with
  | [] => (false, m, w)
  | tk :: r =>
      let '(done, m', w') := loop_home tk m w in
      if done then (true, m', w') else run_home r m' w'
  end.

(** The limit switch reads LOW in one of the ticks. *)
Definition limit_closed (tks : list Sketch.Tick) : bool :=
  existsb (fun tk => Arduino.level_eqb (in_limit (Sketch.tk_in tk)) Arduino.LOW) tks.

(** The axis at rest at or beyond Z = 30 mm. *)
Definition parked (s : StepperDriver.t) : Prop :=
  StepperDriver.idle s = true /\
  F32.geb (StepperDriver.positionMm s) (F32.of_Z 30) = true.

(** What holds in each phase of HOME: [seen] tells whether the limit
    switch has read LOW since the mode began, [sensing] is the enable flag of
    the current sensor. *)
Definition home_facts (seen : bool) (m : HomeMode.t) (s : StepperDriver.t)
  (sensing : bool) : Prop :=
  if negb (HomeMode.homed_ m) then
    StepperDriver.motion_ s = StepperDriver.Velocity /\ StepperDriver.dir_ s = false /\
    HomeMode.baselineMeasuring_ m = false /\ HomeMode.baselineDone_ m = false
  else
    seen = true /\ HomeMode.target_ m = F32.of_Z 30 /\
    if HomeMode.baselineMeasuring_ m then
      HomeMode.baselineDone_ m = false /\ sensing = true /\ parked s
    else if HomeMode.baselineDone_ m then sensing = false /\ parked s
    else True.

Definition home_inv (seen : bool) (m : HomeMode.t) (w : World.t) : Prop :=
  StepperDriver.config_ok (World.stepper w) = true /\
  home_facts seen m (World.stepper w) (CurrentSensor.isEnabled (World.current w)).

(** [n] ticks one second apart in which the limit switch stays open. *)
Definition ticks_open (n : nat) : list Sketch.Tick :=
  map (fun j => Sketch.mkTick 0 0
                  (Examples.inputs_at (1000000 * Z.of_nat j) (1000 * Z.of_nat j)))
    (seq 1 n).

(** A tick in which the limit switch is closed, followed by [n] ticks in
    which it is open. *)
Definition homing_ticks (n : nat) : list Sketch.Tick :=
  Sketch.mkTick 0 0 (mkInputs 0 0 Arduino.LOW) :: ticks_open n.

(** The world of the sketch with a coarse drive: one step per revolution
    on a lead of 3 mm, so that ten steps are 30 mm. *)
Definition coarse_world : World.t :=
  World.set_stepper
    (fst (StepperDriver.ctor Sketch.PIN_STEP Sketch.PIN_DIR Sketch.PIN_EN (F32.of_Z 1) 1
            (F32.of_Z 3) Sketch.MAX_MM_S)) Sketch.world.

End HomeRun.

(** ** JogMode (Modes.h, Modes.cpp) *)

Module JogMode.

Record t : Type := mk {
  uiTick_ : Z;         (* uint32_t *)
  firstStep_ : bool
}.

(** What one call of [step()] reads from the clocks: [millis()] inside
    [keys_.clear()], [micros()] inside [stepper_.update()], and the two
    readings of [millis()] of the display refresh. *)
Record Reads : Type := mkReads {
  rd_ms_clear : Z;
  rd_micros : Z;
  rd_ms_test : Z;
  rd_ms_store : Z
}.

Definition begin (m : t) (w : World.t) : t * World.t :=
  let m := mk 0 (firstStep_ m) in
  let w := World.stepper_call (StepperDriver.enable true) w in
  let w := World.lcd_title2 "JOG (UP/DOWN)" "  " w in
  (mk (uiTick_ m) true, w).

(** The key [step()] acts on, and the keypad after it: on the first step a
    stable SELECT is cleared and read as NONE. *)
Definition key_read (r : Reads) (k : KeypadShield.t) (m : t) : KeypadShield.Key * KeypadShield.t :=
  let s := KeypadShield.stable k in
  if firstStep_ m then
    if KeypadShield.key_eqb s KeypadShield.SELECT
    then (KeypadShield.NONE, KeypadShield.clear (rd_ms_clear r) k)
    else (s, k)
  else (s, k).

(** The speed [step()] requests for a key at the position [z]. *)
Definition requested_speed (s : KeypadShield.Key) (z : F32.float) : F32.float :=
  match s with
  | KeypadShield.UP => if F32.gtb z Z_MIN then F32.neg (F32.of_Z 2) else F32.zero
  | KeypadShield.DOWN => if F32.ltb z Z_MAX then F32.of_Z 2 else F32.zero
  | _ => F32.zero
  end.

Definition step (r : Reads) (k : KeypadShield.t) (m : t) (w : World.t) : bool * KeypadShield.t * t * World.t :=
  let '(s, k) := key_read r k m in
  let m := mk (uiTick_ m) false in
  let z := StepperDriver.positionMm (World.stepper w) in
  let w := World.stepper_call (StepperDriver.setSpeedMmPerSec (requested_speed s z)) w in
  let w := World.stepper_call (StepperDriver.update (rd_micros r)) w in
  let '(m, w) :=
    if 200 <=? MachInt.wrap_u32 (rd_ms_test r - uiTick_ m) then
      let m := mk (MachInt.wrap_u32 (rd_ms_store r)) (firstStep_ m) in
      let w := World.lcd (Arduino.LcdSetCursor 0 1) w in
      let w := World.lcd (Arduino.LcdPrint "X=") w in
      let w := World.lcd (Arduino.LcdPrintFloat
                            (StepperDriver.positionMm (World.stepper w)) 2) w in
      let w := World.lcd (Arduino.LcdPrint " mm ") w in
      (m, w)
    else (m, w) in
  (KeypadShield.key_eqb s KeypadShield.SELECT, k, m, w).

Definition end_ (m : t) (w : World.t) : t * World.t :=
  let w := World.stepper_call (StepperDriver.setSpeedMmPerSec (F32.of_Z 0)) w in
  let w := World.stepper_call (StepperDriver.enable true) w in
  (m, w).

(** The keypad of the sketch with the stable key [key]. *)
Definition keys_with (key : KeypadShield.Key) : KeypadShield.t :=
  KeypadShield.set_keys key key 0 (KeypadShield.ctor 14 80).

End JogMode.

(** ** ParametersMode (ParametersMode.h, ParametersMode.cpp) *)

Module ParametersMode.

Import KeypadShield.

Inductive State : Type := SelectMode | SelectParam | EditFloat | EditInt.

(** What the mode sends to the display: the calls of the other modes,
    [lcd_.write(char)] and [lcd_.print(int)]. *)
Inductive Out : Type :=
| OLcd (op : Arduino.LcdOp)
| OWrite (c : Z)
| OPrintInt (n : Z).

Record t : Type := mk {
  state_ : State;
  selectedMode_ : Z;          (* int *)
  selectedParam_ : Z;         (* int *)
  digits_ : list Z;           (* char[7] *)
  cursor_ : Z;                (* int *)
  idigits_ : list Z;          (* char[3] *)
  icursor_ : Z;               (* int *)
  selDownMs_ : Z;             (* unsigned long *)
  selHeld_ : bool;
  needRedraw_ : bool;
  lastKey_ : Key;
  firstStep_ : bool;
  blinkTs_ : Z;               (* unsigned long *)
  blinkBlock_ : bool;
  ignoreSelectRelease_ : bool
}.

Definition set_state (x : State) (m : t) : t :=
  mk x (selectedMode_ m) (selectedParam_ m) (digits_ m) (cursor_ m) (idigits_ m)
     (icursor_ m) (selDownMs_ m) (selHeld_ m) (needRedraw_ m) (lastKey_ m) (firstStep_ m)
     (blinkTs_ m) (blinkBlock_ m) (ignoreSelectRelease_ m).

Definition set_selectedMode (x : Z) (m : t) : t :=
  mk (state_ m) x (selectedParam_ m) (digits_ m) (cursor_ m) (idigits_ m)
     (icursor_ m) (selDownMs_ m) (selHeld_ m) (needRedraw_ m) (lastKey_ m) (firstStep_ m)
     (blinkTs_ m) (blinkBlock_ m) (ignoreSelectRelease_ m).

Definition set_selectedParam (x : Z) (m : t) : t :=
  mk (state_ m) (selectedMode_ m) x (digits_ m) (cursor_ m) (idigits_ m)
     (icursor_ m) (selDownMs_ m) (selHeld_ m) (needRedraw_ m) (lastKey_ m) (firstStep_ m)
     (blinkTs_ m) (blinkBlock_ m) (ignoreSelectRelease_ m).

Definition set_digits (x : list Z) (m : t) : t :=
  mk (state_ m) (selectedMode_ m) (selectedParam_ m) x (cursor_ m) (idigits_ m)
     (icursor_ m) (selDownMs_ m) (selHeld_ m) (needRedraw_ m) (lastKey_ m) (firstStep_ m)
     (blinkTs_ m) (blinkBlock_ m) (ignoreSelectRelease_ m).

Definition set_cursor (x : Z) (m : t) : t :=
  mk (state_ m) (selectedMode_ m) (selectedParam_ m) (digits_ m) x (idigits_ m)
     (icursor_ m) (selDownMs_ m) (selHeld_ m) (needRedraw_ m) (lastKey_ m) (firstStep_ m)
     (blinkTs_ m) (blinkBlock_ m) (ignoreSelectRelease_ m).

Definition set_idigits (x : list Z) (m : t) : t :=
  mk (state_ m) (selectedMode_ m) (selectedParam_ m) (digits_ m) (cursor_ m) x
     (icursor_ m) (selDownMs_ m) (selHeld_ m) (needRedraw_ m) (lastKey_ m) (firstStep_ m)
     (blinkTs_ m) (blinkBlock_ m) (ignoreSelectRelease_ m).

Definition set_icursor (x : Z) (m : t) : t :=
  mk (state_ m) (selectedMode_ m) (selectedParam_ m) (digits_ m) (cursor_ m) (idigits_ m)
     x (selDownMs_ m) (selHeld_ m) (needRedraw_ m) (lastKey_ m) (firstStep_ m)
     (blinkTs_ m) (blinkBlock_ m) (ignoreSelectRelease_ m).

Definition set_selDownMs (x : Z) (m : t) : t :=
  mk (state_ m) (selectedMode_ m) (selectedParam_ m) (digits_ m) (cursor_ m) (idigits_ m)
     (icursor_ m) x (selHeld_ m) (needRedraw_ m) (lastKey_ m) (firstStep_ m)
     (blinkTs_ m) (blinkBlock_ m) (ignoreSelectRelease_ m).

Definition set_selHeld (x : bool) (m : t) : t :=
  mk (state_ m) (selectedMode_ m) (selectedParam_ m) (digits_ m) (cursor_ m) (idigits_ m)
     (icursor_ m) (selDownMs_ m) x (needRedraw_ m) (lastKey_ m) (firstStep_ m)
     (blinkTs_ m) (blinkBlock_ m) (ignoreSelectRelease_ m).

Definition set_needRedraw (x : bool) (m : t) : t :=
  mk (state_ m) (selectedMode_ m) (selectedParam_ m) (digits_ m) (cursor_ m) (idigits_ m)
     (icursor_ m) (selDownMs_ m) (selHeld_ m) x (lastKey_ m) (firstStep_ m)
     (blinkTs_ m) (blinkBlock_ m) (ignoreSelectRelease_ m).

Definition set_lastKey (x : Key) (m : t) : t :=
  mk (state_ m) (selectedMode_ m) (selectedParam_ m) (digits_ m) (cursor_ m) (idigits_ m)
     (icursor_ m) (selDownMs_ m) (selHeld_ m) (needRedraw_ m) x (firstStep_ m)
     (blinkTs_ m) (blinkBlock_ m) (ignoreSelectRelease_ m).

Definition set_firstStep (x : bool) (m : t) : t :=
  mk (state_ m) (selectedMode_ m) (selectedParam_ m) (digits_ m) (cursor_ m) (idigits_ m)
     (icursor_ m) (selDownMs_ m) (selHeld_ m) (needRedraw_ m) (lastKey_ m) x
     (blinkTs_ m) (blinkBlock_ m) (ignoreSelectRelease_ m).

Definition set_blink (ts : Z) (block : bool) (m : t) : t :=
  mk (state_ m) (selectedMode_ m) (selectedParam_ m) (digits_ m) (cursor_ m) (idigits_ m)
     (icursor_ m) (selDownMs_ m) (selHeld_ m) (needRedraw_ m) (lastKey_ m) (firstStep_ m)
     ts block (ignoreSelectRelease_ m).

Definition set_ignoreSelectRelease (x : bool) (m : t) : t :=
  mk (state_ m) (selectedMode_ m) (selectedParam_ m) (digits_ m) (cursor_ m) (idigits_ m)
     (icursor_ m) (selDownMs_ m) (selHeld_ m) (needRedraw_ m) (lastKey_ m) (firstStep_ m)
     (blinkTs_ m) (blinkBlock_ m) x.

(** [char] on the AVR: the two's complement reading of the low 8 bits;
    [unsigned int]: arithmetic modulo 2^16. *)
Definition to_char (z : Z) : Z :=
  let w := z mod 256 in
  if w <? 128 then w else w - 256.

Definition wrap_u16 (z : Z) : Z := z mod 65536.

Definition CH_0 : Z := 48.
Definition CH_DOT : Z := 46.

(** Reading an array element; [None] outside the array. *)
Definition get (i : Z) (a : list Z) : option Z :=
  if (0 <=? i) && (i <? Z.of_nat (List.length a)) then nth_error a (Z.to_nat i) else None.

(** Writing an array element (inside the array). *)
Definition put (i : Z) (c : Z) (a : list Z) : list Z :=
  firstn (Z.to_nat i) a ++ c :: skipn (S (Z.to_nat i)) a.

Definition lcd (op : Arduino.LcdOp) : Out := OLcd op.

Definition drawSelectMode (m : t) : list Out :=
  [lcd Arduino.LcdClear;
   lcd (Arduino.LcdSetCursor 0 0);
   lcd (Arduino.LcdPrint "Select MODE:");
   lcd (Arduino.LcdSetCursor 0 1);
   lcd (Arduino.LcdPrint (if selectedMode_ m =? 0 then ">MOD1     MOD2"
                          else " MOD1    >MOD2"))].

Definition begin (m : t) : t * list Out :=
  let m := set_state SelectMode m in
  let m := set_selectedMode 0 m in
  let m := set_selectedParam 0 m in
  let m := set_selHeld false m in
  let m := set_needRedraw true m in
  let m := set_lastKey NONE m in
  let m := set_firstStep true m in
  let m := set_ignoreSelectRelease false m in
  (m, lcd Arduino.LcdClear :: drawSelectMode m).

Definition end_ (m : t) : t * list Out := (m, [lcd Arduino.LcdClear]).

Definition paramName (mode idx : Z) : string :=
  if mode =? 0 then
    if idx =? 0 then "M1 PLUNGE [mm]"
    else if idx =? 1 then "M1 Ithr [A]"
    else if idx =? 2 then "M1 RET SPD[mm/s]"
    else EmptyString
  else
    if idx =? 0 then "M2 PLUNGE [mm]"
    else if idx =? 1 then "M2 Ithr [A]"
    else if idx =? 2 then "M2 PLUNGE2 [mm]"
    else if idx =? 3 then "M2 PULSE NUM"
    else if idx =? 4 then "M2 PULSE T [s]"
    else EmptyString.

Definition paramCountForMode (mode : Z) : Z := if mode =? 0 then 3 else 5.

Definition drawSelectParam (g : Parameters.AllParams) (m : t) : list Out :=
  let p1 := Parameters.mod1 g in
  let p2 := Parameters.mod2 g in
  let pf (x : F32.float) := [lcd (Arduino.LcdPrintFloat x 3)] in
  [lcd Arduino.LcdClear;
   lcd (Arduino.LcdSetCursor 0 0);
   lcd (Arduino.LcdPrint (paramName (selectedMode_ m) (selectedParam_ m)));
   lcd (Arduino.LcdSetCursor 0 1)]
  ++ (if selectedMode_ m =? 0 then
        if selectedParam_ m =? 0 then pf (Parameters.m1_plungeAfterSurface_mm p1)
        else if selectedParam_ m =? 1 then pf (Parameters.m1_etchingThreshold_A p1)
        else if selectedParam_ m =? 2 then pf (Parameters.m1_retractSpeed_mm_s p1)
        else []
      else
        if selectedParam_ m =? 0 then pf (Parameters.plungeAfterSurface_mm p2)
        else if selectedParam_ m =? 1 then pf (Parameters.etchingThreshold_A p2)
        else if selectedParam_ m =? 2 then pf (Parameters.plungeAfterEtch_mm p2)
        else if selectedParam_ m =? 3 then [OPrintInt (Parameters.pulseCount p2)]
        else if selectedParam_ m =? 4 then
          pf (Parameters.pulseOn_s p2) ++ [lcd (Arduino.LcdPrint "/")]
          ++ pf (Parameters.pulseOff_s p2)
        else []).

(** The digit character of the decimal place [place] (100, 10 or 1) of an
    unsigned value. *)
Definition digit_char (v place : Z) : Z := to_char (CH_0 + (v / place) mod 10).

Definition startEditFloat (value : F32.float) (m : t) : t :=
  let value := if F32.ltb value F32.zero then F32.zero else value in
  let value := if F32.gtb value (F32.lit 999999 1000) then F32.lit 999999 1000 else value in
  let v := F32.to_u32 (F32.add (F32.mul value (F32.of_Z 1000)) (F32.lit 5 10)) in
  let ip := wrap_u16 (v / 1000) in
  let fp := wrap_u16 (v mod 1000) in
  let ip := if ip >? 999 then 999 else ip in
  let m := set_digits
             [digit_char ip 100; digit_char ip 10; digit_char ip 1; CH_DOT;
              digit_char fp 100; digit_char fp 10; digit_char fp 1] m in
  let m := set_cursor 0 m in
  set_needRedraw true m.

(** The value of three digit characters, in [int] arithmetic. *)
Definition three_digits (a b c : Z) : Z :=
  MachInt.to_i16 ((a - CH_0) * 100 + (b - CH_0) * 10 + (c - CH_0)).

(** The value the float editor stands for: [ip + fp / 1000.0f]. *)
Definition editor_value (ip fp : Z) : F32.float :=
  F32.add (F32.of_Z ip) (F32.div (F32.of_Z fp) (F32.of_Z 1000)).

Definition floatFromDigits (m : t) : F32.float :=
  let d i := nth i (digits_ m) 0 in
  editor_value (three_digits (d 0%nat) (d 1%nat) (d 2%nat))
    (three_digits (d 4%nat) (d 5%nat) (d 6%nat)).

Definition is_arrow (k : Key) : bool :=
  match k with
  | UP | DOWN | LEFT | RIGHT => true
  | _ => false
  end.

(** The digit after UP or DOWN: [(d + 1) % 10] or [(d + 9) % 10] on the
    [int] value of the character, the remainder taking the sign of the
    dividend as in C. *)
Definition turn (k : Key) (c : Z) : Z :=
  let d := c - CH_0 in
  let d := if key_eqb k UP then Z.rem (d + 1) 10 else d in
  let d := if key_eqb k DOWN then Z.rem (d + 9) 10 else d in
  to_char (CH_0 + d).

Definition updateFloatEditor (k : Key) (m : t) : option (t * list Out) :=
  let m := if key_eqb k LEFT && (cursor_ m >? 0) then set_cursor (cursor_ m - 1) m else m in
  let m := if key_eqb k RIGHT && (cursor_ m <? 6) then set_cursor (cursor_ m + 1) m else m in
  let edited :=
    if key_eqb k UP || key_eqb k DOWN then
      match get (cursor_ m) (digits_ m) with
      | None => None
      | Some c =>
          if negb (c =? CH_DOT)
          then Some (set_digits (put (cursor_ m) (turn k c) (digits_ m)) m)
          else Some m
      end
    else Some m in
  match edited with
  | None => None
  | Some m =>
      Some (m,
            [lcd (Arduino.LcdSetCursor 0 0);
             lcd (Arduino.LcdPrint "                ");
             lcd (Arduino.LcdSetCursor 0 0);
             lcd (Arduino.LcdPrint (paramName (selectedMode_ m) (selectedParam_ m)));
             lcd (Arduino.LcdSetCursor 0 1)]
            ++ map OWrite (firstn 7 (digits_ m))
            ++ repeat (OWrite 32) 9
            ++ [lcd (Arduino.LcdSetCursor (cursor_ m) 1)])
  end.

Definition startEditInt (value : Z) (m : t) : t :=
  let value := if value <? 0 then 0 else value in
  let value := if value >? 999 then 999 else value in
  let ch place := to_char (CH_0 + Z.rem (Z.quot value place) 10) in
  let m := set_idigits [ch 100; ch 10; ch 1] m in
  let m := set_icursor 0 m in
  set_needRedraw true m.

Definition intFromDigits (m : t) : Z :=
  let d i := nth i (idigits_ m) 0 in
  three_digits (d 0%nat) (d 1%nat) (d 2%nat).

Definition updateIntEditor (k : Key) (m : t) : option (t * list Out) :=
  let m := if key_eqb k LEFT && (icursor_ m >? 0) then set_icursor (icursor_ m - 1) m else m in
  let m := if key_eqb k RIGHT && (icursor_ m <? 2) then set_icursor (icursor_ m + 1) m else m in
  let edited :=
    if key_eqb k UP || key_eqb k DOWN then
      match get (icursor_ m) (idigits_ m) with
      | None => None
      | Some c => Some (set_idigits (put (icursor_ m) (turn k c) (idigits_ m)) m)
      end
    else Some m in
  match edited with
  | None => None
  | Some m =>
      Some (m,
            [lcd Arduino.LcdClear;
             lcd (Arduino.LcdSetCursor 0 0);
             lcd (Arduino.LcdPrint (paramName (selectedMode_ m) (selectedParam_ m)));
             lcd (Arduino.LcdSetCursor 0 1)]
            ++ map OWrite (firstn 3 (idigits_ m)))
  end.

Definition checkLongPress (s : Key) (now : Z) (m : t) : bool * t :=
  if key_eqb s SELECT then
    if negb (selHeld_ m) then (false, set_selDownMs now (set_selHeld true m))
    else if 2000 <=? MachInt.wrap_u32 (now - selDownMs_ m)
         then (true, set_selHeld false m)
         else (false, m)
  else (false, set_selHeld false m).

(** What one call of [step()] reads from [millis()]: inside
    [keys_.clear()], for [now], for [blinkTs_] after a redraw of the integer
    editor, for [blinkTs_] after a key, for the blink interval [dt], and for
    [blinkTs_] when the blink toggles. *)
Record Reads : Type := mkReads {
  ms_clear : Z;
  ms_now : Z;
  ms_redraw : Z;
  ms_key : Z;
  ms_dt : Z;
  ms_blink : Z
}.

(** Storing the value of the float editor in the selected parameter. *)
Definition store_float (v : F32.float) (m : t) (g : Parameters.AllParams) : Parameters.AllParams :=
  let p1 := Parameters.mod1 g in
  let p2 := Parameters.mod2 g in
  if selectedMode_ m =? 0 then
    if selectedParam_ m =? 0 then
      Parameters.mkAllParams
        (Parameters.mkMod1Params v (Parameters.m1_etchingThreshold_A p1)
           (Parameters.m1_retractSpeed_mm_s p1)) p2
    else if selectedParam_ m =? 1 then
      Parameters.mkAllParams
        (Parameters.mkMod1Params (Parameters.m1_plungeAfterSurface_mm p1) v
           (Parameters.m1_retractSpeed_mm_s p1)) p2
    else if selectedParam_ m =? 2 then
      Parameters.mkAllParams
        (Parameters.mkMod1Params (Parameters.m1_plungeAfterSurface_mm p1)
           (Parameters.m1_etchingThreshold_A p1) v) p2
    else g
  else
    if selectedParam_ m =? 0 then
      Parameters.mkAllParams p1
        (Parameters.mkMod2Params v (Parameters.etchingThreshold_A p2)
           (Parameters.plungeAfterEtch_mm p2) (Parameters.pulseCount p2)
           (Parameters.pulseOn_s p2) (Parameters.pulseOff_s p2))
    else if selectedParam_ m =? 1 then
      Parameters.mkAllParams p1
        (Parameters.mkMod2Params (Parameters.plungeAfterSurface_mm p2) v
           (Parameters.plungeAfterEtch_mm p2) (Parameters.pulseCount p2)
           (Parameters.pulseOn_s p2) (Parameters.pulseOff_s p2))
    else if selectedParam_ m =? 2 then
      Parameters.mkAllParams p1
        (Parameters.mkMod2Params (Parameters.plungeAfterSurface_mm p2)
           (Parameters.etchingThreshold_A p2) v (Parameters.pulseCount p2)
           (Parameters.pulseOn_s p2) (Parameters.pulseOff_s p2))
    else if selectedParam_ m =? 4 then
      Parameters.mkAllParams p1
        (Parameters.mkMod2Params (Parameters.plungeAfterSurface_mm p2)
           (Parameters.etchingThreshold_A p2) (Parameters.plungeAfterEtch_mm p2)
           (Parameters.pulseCount p2) v (Parameters.pulseOff_s p2))
    else g.

(** Storing the value of the integer editor: only the pulse count of MOD2
    is an integer. *)
Definition store_int (v : Z) (m : t) (g : Parameters.AllParams) : Parameters.AllParams :=
  let p2 := Parameters.mod2 g in
  if (selectedMode_ m =? 1) && (selectedParam_ m =? 3) then
    Parameters.mkAllParams (Parameters.mod1 g)
      (Parameters.mkMod2Params (Parameters.plungeAfterSurface_mm p2)
         (Parameters.etchingThreshold_A p2) (Parameters.plungeAfterEtch_mm p2)
         v (Parameters.pulseOn_s p2) (Parameters.pulseOff_s p2))
  else g.

(** The value the float editor starts from for the selected parameter. *)
Definition selected_float (g : Parameters.AllParams) (m : t) : F32.float :=
  let p1 := Parameters.mod1 g in
  let p2 := Parameters.mod2 g in
  if selectedMode_ m =? 0 then
    if selectedParam_ m =? 0 then Parameters.m1_plungeAfterSurface_mm p1
    else if selectedParam_ m =? 1 then Parameters.m1_etchingThreshold_A p1
    else Parameters.m1_retractSpeed_mm_s p1
  else
    if selectedParam_ m =? 0 then Parameters.plungeAfterSurface_mm p2
    else if selectedParam_ m =? 1 then Parameters.etchingThreshold_A p2
    else if selectedParam_ m =? 2 then Parameters.plungeAfterEtch_mm p2
    else if selectedParam_ m =? 4 then Parameters.pulseOn_s p2
    else F32.zero.

(** The result of the body of [step()]: the return value, the parameters,
    the state and the output. *)
Definition Result : Type := (bool * Parameters.AllParams * t * list Out)%type.

Definition case_SelectMode (s prev : Key) (longPress keyChanged : bool)
  (g : Parameters.AllParams) (m : t) : Result :=
  let '(m, o1) :=
    if needRedraw_ m then (set_needRedraw false m, drawSelectMode m) else (m, []) in
  let m :=
    if keyChanged then
      let m := if is_arrow s
               then set_needRedraw true
                      (set_selectedMode (if selectedMode_ m =? 0 then 1 else 0) m)
               else m in
      if key_eqb prev SELECT && key_eqb s NONE && negb longPress then
        if ignoreSelectRelease_ m then set_ignoreSelectRelease false m
        else set_needRedraw true (set_state SelectParam (set_selectedParam 0 m))
      else m
    else m in
  (longPress, g, m, o1).

Definition case_SelectParam (r : Reads) (s : Key) (longPress keyChanged : bool)
  (g : Parameters.AllParams) (m : t) : Result :=
  let '(m, o1) :=
    if needRedraw_ m then (set_needRedraw false m, drawSelectParam g m) else (m, []) in
  let m :=
    if keyChanged then
      let m := if key_eqb s UP && (selectedParam_ m >? 0)
               then set_needRedraw true (set_selectedParam (selectedParam_ m - 1) m)
               else m in
      let m := if key_eqb s DOWN
                  && (selectedParam_ m <? paramCountForMode (selectedMode_ m) - 1)
               then set_needRedraw true (set_selectedParam (selectedParam_ m + 1) m)
               else m in
      if key_eqb s SELECT && negb longPress then
        let m := set_blink (MachInt.wrap_u32 (ms_key r)) false m in
        if selectedMode_ m =? 0 then
          set_state EditFloat (startEditFloat (selected_float g m) m)
        else if selectedParam_ m =? 3 then
          set_state EditInt (startEditInt (Parameters.pulseCount (Parameters.mod2 g)) m)
        else
          set_state EditFloat (startEditFloat (selected_float g m) m)
      else m
    else m in
  let m :=
    if longPress
    then set_ignoreSelectRelease true (set_needRedraw true (set_state SelectMode m))
    else m in
  (false, g, m, o1).

(** The blinking cursor: a block character after [on_ms] of the digit, the
    digit again after 200 ms of the block. *)
Definition blink (r : Reads) (on_ms : Z) (cursor : Z) (a : list Z) (m : t) : option (t * list Out) :=
  let dt := MachInt.wrap_u32 (ms_dt r - blinkTs_ m) in
  if negb (blinkBlock_ m) && (on_ms <=? dt) then
    Some (set_blink (MachInt.wrap_u32 (ms_blink r)) true m,
          [lcd (Arduino.LcdSetCursor cursor 1); OWrite 255])
  else if blinkBlock_ m && (200 <=? dt) then
    match get cursor a with
    | None => None
    | Some c =>
        Some (set_blink (MachInt.wrap_u32 (ms_blink r)) false m,
              [lcd (Arduino.LcdSetCursor cursor 1); OWrite c])
    end
  else Some (m, []).

Definition case_EditFloat (r : Reads) (s : Key) (longPress keyChanged : bool)
  (g : Parameters.AllParams) (m : t) : option Result :=
  match (if needRedraw_ m
         then match updateFloatEditor NONE m with
              | None => None
              | Some (m, o) => Some (set_needRedraw false m, o)
              end
         else Some (m, [])) with
  | None => None
  | Some (m, o1) =>
      match (if keyChanged && is_arrow s
             then match updateFloatEditor s m with
                  | None => None
                  | Some (m, o) => Some (set_blink (MachInt.wrap_u32 (ms_key r)) false m, o)
                  end
             else Some (m, [])) with
      | None => None
      | Some (m, o2) =>
          let '(g, m) :=
            if keyChanged && key_eqb s SELECT && negb longPress
            then (store_float (floatFromDigits m) m g,
                  set_needRedraw true (set_state SelectParam m))
            else (g, m) in
          let '(g, m) :=
            if longPress
            then (store_float (floatFromDigits m) m g,
                  set_ignoreSelectRelease true
                    (set_needRedraw true (set_state SelectMode m)))
            else (g, m) in
          match (match state_ m with
                 | EditFloat => blink r 1000 (cursor_ m) (digits_ m) m
                 | _ => Some (m, [])
                 end) with
          | None => None
          | Some (m, o3) => Some (false, g, m, o1 ++ o2 ++ o3)
          end
      end
  end.

Definition case_EditInt (r : Reads) (s : Key) (longPress keyChanged : bool)
  (g : Parameters.AllParams) (m : t) : option Result :=
  match (if needRedraw_ m
         then match updateIntEditor NONE m with
              | None => None
              | Some (m, o) =>
                  Some (set_blink (MachInt.wrap_u32 (ms_redraw r)) false
                          (set_needRedraw false m), o)
              end
         else Some (m, [])) with
  | None => None
  | Some (m, o1) =>
      match (if keyChanged && is_arrow s
             then match updateIntEditor s m with
                  | None => None
                  | Some (m, o) => Some (set_blink (MachInt.wrap_u32 (ms_key r)) false m, o)
                  end
             else Some (m, [])) with
      | None => None
      | Some (m, o2) =>
          let '(g, m) :=
            if keyChanged && key_eqb s SELECT && negb longPress
            then (store_int (intFromDigits m) m g,
                  set_needRedraw true (set_state SelectParam m))
            else (g, m) in
          let '(g, m) :=
            if longPress
            then (store_int (intFromDigits m) m g,
                  set_ignoreSelectRelease true
                    (set_needRedraw true (set_state SelectMode m)))
            else (g, m) in
          match blink r 2000 (icursor_ m) (idigits_ m) m with
          | None => None
          | Some (m, o3) => Some (false, g, m, o1 ++ o2 ++ o3)
          end
      end
  end.

(** The key [step()] acts on, and the keypad after it: on the first step a
    stable SELECT is cleared and read as NONE. *)
Definition key_read (r : Reads) (k : KeypadShield.t) (m : t) : Key * KeypadShield.t :=
  let s := stable k in
  if firstStep_ m then
    if key_eqb s SELECT then (NONE, clear (ms_clear r) k) else (s, k)
  else (s, k).

(** [ParametersMode::step]; [None] when an index is outside its array. *)
Definition step (r : Reads) (k : KeypadShield.t) (g : Parameters.AllParams) (m : t) : option (KeypadShield.t * Result) :=
  let prev := lastKey_ m in
  let '(s, k) := key_read r k m in
  let m := set_firstStep false m in
  let now := MachInt.wrap_u32 (ms_now r) in
  let '(longPress, m) := checkLongPress s now m in
  let keyChanged := negb (key_eqb s prev) in
  let m := set_lastKey s m in
  match (match state_ m with
         | SelectMode => Some (case_SelectMode s prev longPress keyChanged g m)
         | SelectParam => Some (case_SelectParam r s longPress keyChanged g m)
         | EditFloat => case_EditFloat r s longPress keyChanged g m
         | EditInt => case_EditInt r s longPress keyChanged g m
         end) with
  | None => None
  | Some res => Some (k, res)
  end.

(** [step()] called once per entry of [ins], each with the keypad as
    [keys_.poll()] left it and the clock readings of the call; the run ends
    when a call returns true. *)
Fixpoint run (ins : list (Reads * KeypadShield.t)) (g : Parameters.AllParams) (m : t) : option (bool * Parameters.AllParams * t) :=
  match ins with
  | [] => Some (false, g, m)
  | (r, k) :: rest =>
      match step r k g m with
      | None => None
      | Some (_, (done, g', m', _)) =>
          if done then Some (true, g', m') else run rest g' m'
      end
  end.

(** The arrays have their declared sizes. *)
Definition wf (m : t) : Prop :=
  List.length (digits_ m) = 7%nat /\ List.length (idigits_ m) = 3%nat.

(** A decimal digit character. *)
Definition is_digit (c : Z) : Prop := 48 <= c <= 57.

(** The float editor holds three digits, the point and three digits; the
    integer editor holds three digits. *)
Definition float_digits_ok (a : list Z) : Prop :=
  exists d0 d1 d2 d4 d5 d6,
    a = [d0; d1; d2; CH_DOT; d4; d5; d6] /\
    is_digit d0 /\ is_digit d1 /\ is_digit d2 /\
    is_digit d4 /\ is_digit d5 /\ is_digit d6.

Definition int_digits_ok (a : list Z) : Prop :=
  exists d0 d1 d2, a = [d0; d1; d2] /\ is_digit d0 /\ is_digit d1 /\ is_digit d2.

(** The invariant of the mode: while an editor is open its cursor is
    inside its array and the array holds digits. *)
Definition inv (m : t) : Prop :=
  wf m /\
  (state_ m = EditFloat -> 0 <= cursor_ m <= 6 /\ float_digits_ok (digits_ m)) /\
  (state_ m = EditInt -> 0 <= icursor_ m <= 2 /\ int_digits_ok (idigits_ m)).

(** A value the float editor can produce: [ip + fp / 1000.0f] with both
    parts from 0 to 999. *)
Definition from_editor (x : F32.float) : Prop :=
  exists ip fp, 0 <= ip <= 999 /\ 0 <= fp <= 999 /\ x = editor_value ip fp.

Definition kept_or_edited (x0 x : F32.float) : Prop := x = x0 \/ from_editor x.

(** The parameters [g] as the editor can have left them, starting from
    [g0]. *)
Definition edited_from (g0 g : Parameters.AllParams) : Prop :=
  let a0 := Parameters.mod1 g0 in
  let a := Parameters.mod1 g in
  let b0 := Parameters.mod2 g0 in
  let b := Parameters.mod2 g in
  kept_or_edited (Parameters.m1_plungeAfterSurface_mm a0) (Parameters.m1_plungeAfterSurface_mm a) /\
  kept_or_edited (Parameters.m1_etchingThreshold_A a0) (Parameters.m1_etchingThreshold_A a) /\
  kept_or_edited (Parameters.m1_retractSpeed_mm_s a0) (Parameters.m1_retractSpeed_mm_s a) /\
  kept_or_edited (Parameters.plungeAfterSurface_mm b0) (Parameters.plungeAfterSurface_mm b) /\
  kept_or_edited (Parameters.etchingThreshold_A b0) (Parameters.etchingThreshold_A b) /\
  kept_or_edited (Parameters.plungeAfterEtch_mm b0) (Parameters.plungeAfterEtch_mm b) /\
  kept_or_edited (Parameters.pulseOn_s b0) (Parameters.pulseOn_s b) /\
  (Parameters.pulseCount b = Parameters.pulseCount b0 \/ 0 <= Parameters.pulseCount b <= 999) /\
  Parameters.pulseOff_s b = Parameters.pulseOff_s b0.

(** A fresh mode object, and key strokes as the keypad reports them: each
    key stable for one call of [step()], then released for one call, the
    clock standing still. *)
Definition fresh : t :=
  mk SelectMode 0 0 (repeat 0 7) 0 (repeat 0 3) 0 0 false true NONE true 0 false false.

Definition at_key (key : Key) : Reads * KeypadShield.t :=
  (mkReads 0 0 0 0 0 0, set_keys key key 0 (ctor 14 80)).

Definition strokes (keys : list Key) : list (Reads * KeypadShield.t) :=
  flat_map (fun key => [at_key key; at_key NONE]) keys.

(** Choosing MOD2, its fourth parameter, and turning 005 into 256. *)
Definition strokes_256 : list (Reads * KeypadShield.t) :=
  strokes [RIGHT; SELECT; DOWN; DOWN; DOWN; SELECT;
           UP; UP; RIGHT; UP; UP; UP; UP; UP; RIGHT; UP; SELECT].

(** SELECT held from 1000 ms to 3500 ms. *)
Definition long_select : list (Reads * KeypadShield.t) :=
  [(mkReads 0 0 0 0 0 0, set_keys NONE NONE 0 (ctor 14 80));
   (mkReads 0 1000 0 0 1000 0, set_keys SELECT SELECT 0 (ctor 14 80));
   (mkReads 0 3500 0 0 3500 0, set_keys SELECT SELECT 0 (ctor 14 80))].

(** SELECT is the stable key of an entry of a run. *)
Definition select_held (e : Reads * KeypadShield.t) : bool :=
  key_eqb (stable (snd e)) SELECT.

(** The entries from [e0] to [e1] of a run, during which SELECT is held
    without a break for at least 2000 ms by the reading of [now]. *)
Definition held_2s (ins : list (Reads * KeypadShield.t)) : Prop :=
  exists pre e0 mid e1 post,
    ins = pre ++ e0 :: mid ++ e1 :: post /\
    forallb select_held (e0 :: mid ++ [e1]) = true /\
    2000 <= MachInt.wrap_u32 (ms_now (fst e1) - ms_now (fst e0)).

(** The long-press detector has seen SELECT since the entry [e0] of the
    entries [seen] processed so far. *)
Definition holding (seen : list (Reads * KeypadShield.t)) (m : t) : Prop :=
  selHeld_ m = true ->
  exists pre e0 mid,
    seen = pre ++ e0 :: mid /\
    forallb select_held (e0 :: mid) = true /\
    selDownMs_ m = MachInt.wrap_u32 (ms_now (fst e0)).

(** The part of the state the invariant speaks of. *)
Definition core (m : t) : State * list Z * Z * list Z * Z :=
  (state_ m, digits_ m, cursor_ m, idigits_ m, icursor_ m).

(** The state of the long-press detector. *)
Definition hold (m : t) : bool * Z := (selHeld_ m, selDownMs_ m).

End ParametersMode.

(** ** The etching modes as entries of the controller's mode table *)

Module SketchModes.

(** What the controller and the modes of the sketch share: the globals,
    the mode objects, and what the running mode reads in this iteration of
    [loop()]. *)
Record W : Type := mkW {
  sk_world : World.t;
  sk_mod1 : Mod1Mode.t;
  sk_mod2 : Mod2Mode.t;
  sk_in : Inputs
}.

Definition lcd (op : Arduino.LcdOp) (w : W) : W :=
  mkW (World.lcd op (sk_world w)) (sk_mod1 w) (sk_mod2 w) (sk_in w).

Definition mod1_mode : ModeController.IMode W :=
  ModeController.mkIMode W "MOD1"
    (fun w => let r := Mod1Mode.begin (sk_mod1 w) (sk_world w) in
              mkW (snd r) (fst r) (sk_mod2 w) (sk_in w))
    (fun w => let r := Mod1Mode.step (sk_in w) (sk_mod1 w) (sk_world w) in
              (fst (fst r), mkW (snd r) (snd (fst r)) (sk_mod2 w) (sk_in w)))
    (fun w => let r := Mod1Mode.end_ (sk_mod1 w) (sk_world w) in
              mkW (snd r) (fst r) (sk_mod2 w) (sk_in w)).

Definition mod2_mode : ModeController.IMode W :=
  ModeController.mkIMode W "MOD2"
    (fun w => let r := Mod2Mode.begin (sk_mod2 w) (sk_world w) in
              mkW (snd r) (sk_mod1 w) (fst r) (sk_in w))
    (fun w => let r := Mod2Mode.step (sk_in w) (sk_mod2 w) (sk_world w) in
              (fst (fst r), mkW (snd r) (sk_mod1 w) (snd (fst r)) (sk_in w)))
    (fun w => let r := Mod2Mode.end_ (sk_mod2 w) (sk_world w) in
              mkW (snd r) (sk_mod1 w) (fst r) (sk_in w)).

(** The sketch after its constructors, with MOD2 in its RelayHold phase at
    40 mm, as an example. *)
Definition etching : W :=
  mkW Examples.world_hold Sketch.mod1 Examples.mod2_hold (Examples.inputs_at 0 0).

End SketchModes.

(** ** Floats in the form the format prescribes *)

(** A mantissa and an exponent as binary32 stores them: the exponent is
    the one the format gives to a number of that many digits. *)
Definition canonical (m : positive) (e : Z) : Prop :=
  fexp F32.prec F32.emax (Zpos (digits2_pos m) + e) = e.

(** A positive finite float in canonical form. *)
Definition positive_finite (x : F32.float) : Prop :=
  exists m e, x = S754_finite false m e /\ canonical m e.

(** ** The travel of the axis in steps *)

Module Travel.

(** The soft limits of the sketch in steps: 1.5 mm and 75 mm at 400 steps
    per millimetre. *)
Definition LOW_STEPS : Z := 600.
Definition HIGH_STEPS : Z := 30000.

Definition inside (p : Z) : Prop := LOW_STEPS <= p <= HIGH_STEPS.

(** The driver has the gearing of the sketch and a sound speed
    configuration. *)
Definition geared (s : StepperDriver.t) : Prop :=
  StepperDriver.stepsPerMm_ s = StepperDriver.stepsPerMm_ Sketch.stepper /\
  StepperDriver.config_ok s = true.

(** [JogMode::step] called once per entry, each with the keypad as
    [keys_.poll()] left it and the clock readings of the call, until a call
    returns true. *)
Fixpoint run_jog (ins : list (JogMode.Reads * KeypadShield.t)) (m : JogMode.t) (w : World.t) : bool * JogMode.t * World.t :=
  match ins with
  | [] => (false, m, w)
  | (r, k) :: rest =>
      let '(done, _, m', w') := JogMode.step r k m w in
      if done then (true, m', w') else run_jog rest m' w'
  end.

(** The invariant of a run of an etching mode: strictly inside the limits,
    or at rest on one of them. *)
Definition guarded (s : StepperDriver.t) : Prop :=
  geared s /\
  (LOW_STEPS < StepperDriver.pos_steps_ s < HIGH_STEPS \/
   (inside (StepperDriver.pos_steps_ s) /\ StepperDriver.idle s = true)).

(** UP held for [n] calls, one every 100 ms. *)
Definition holding_up (n : nat) : list (JogMode.Reads * KeypadShield.t) :=
  map (fun j => (JogMode.mkReads 0 (100000 * Z.of_nat j) 0 0,
                 JogMode.keys_with KeypadShield.UP)) (seq 1 n).

(** The world of the sketch with the axis at [p] steps. *)
Definition world_at (p : Z) : World.t :=
  World.set_stepper (StepperDriver.set_pos_steps p Sketch.stepper) Sketch.world.

(** What a call of [step()] of an etching mode does to the axis: the
    update, then either the abort, or calls that keep the position. *)
Definition limit_checked (now : Z) (s s' : StepperDriver.t) : Prop :=
  let s1 := fst (StepperDriver.update now s) in
  (out_of_range (StepperDriver.positionMm s1) = true /\
   s' = fst (StepperDriver.setSpeedMmPerSec F32.zero s1)) \/
  (out_of_range (StepperDriver.positionMm s1) = false /\
   StepperDriver.pos_steps_ s' = StepperDriver.pos_steps_ s1 /\
   (geared s1 -> geared s')).

End Travel.

(** * Verification *)

(** ** Comparison of floats *)

Section FloatOrder.

Lemma compare_cont_Eq_refl (m : positive) : Pos.compare_cont Eq m m = Eq.
Proof. exact (Pos.compare_refl m). Qed.

(** A float that is not NaN compares equal to itself. *)
Lemma SFcompare_refl (x : F32.float) :
  F32.is_nan x = false -> SFcompare x x = Some Eq.
Proof.
  destruct x as [s | s | | s m e]; simpl; try discriminate; intros _.
  - reflexivity.
  - destruct s; reflexivity.
  - destruct s; rewrite Z.compare_refl, compare_cont_Eq_refl; reflexivity.
Qed.

Lemma leb_refl (x : F32.float) : F32.is_nan x = false -> F32.leb x x = true.
Proof.
  intros H. unfold F32.leb, SFleb. rewrite (SFcompare_refl x H). reflexivity.
Qed.

Lemma leb_nan_l (y : F32.float) : F32.leb F32.nan y = false.
Proof. reflexivity. Qed.

Lemma compare_cont_antisym (m1 m2 : positive) :
  Pos.compare_cont Eq m2 m1 = CompOpp (Pos.compare_cont Eq m1 m2).
Proof. exact (Pos.compare_antisym m1 m2). Qed.

(** Comparing in the other order gives the opposite result. *)
Lemma SFcompare_antisym (x y : F32.float) :
  SFcompare y x = option_map CompOpp (SFcompare x y).
Proof.
  destruct x as [s1 | s1 | | s1 m1 e1], y as [s2 | s2 | | s2 m2 e2]; simpl;
    try reflexivity;
    try (destruct s1; reflexivity);
    try (destruct s2; reflexivity);
    try (destruct s1, s2; reflexivity).
  destruct s1, s2; try reflexivity;
    rewrite (Z.compare_antisym e1 e2), (compare_cont_antisym m1 m2);
    destruct (e1 ?= e2); simpl; try reflexivity;
    destruct (Pos.compare_cont Eq m1 m2); reflexivity.
Qed.

(** On floats that are not NaN, [not (y < x)] is [x <= y]. *)
Lemma not_gtb_leb (x y : F32.float) :
  F32.is_nan x = false -> F32.is_nan y = false ->
  F32.gtb x y = false -> F32.leb x y = true.
Proof.
  unfold F32.gtb, F32.leb, SFltb, SFleb. intros Hx Hy.
  rewrite (SFcompare_antisym x y).
  destruct x as [s1 | s1 | | s1 m1 e1], y as [s2 | s2 | | s2 m2 e2];
    try discriminate; simpl;
    try (destruct s1; simpl; congruence);
    try (destruct s2; simpl; congruence);
    try (destruct s1, s2; simpl; congruence).
  destruct s1, s2, (e1 ?= e2), (Pos.compare_cont Eq m1 m2); simpl; congruence.
Qed.

End FloatOrder.

(** ** StepperDriver *)

Section StepperFacts.

Import StepperDriver.

Lemma isBusy_true_iff (s : t) : isBusy s = true <-> motion_ s = ToTarget.
Proof.
  unfold isBusy. destruct (motion_ s); simpl; split; congruence.
Qed.

Lemma setSpeedMmPerSec_motion (v : F32.float) (s : t) :
  motion_ (fst (setSpeedMmPerSec v s)) <> ToTarget.
Proof.
  unfold setSpeedMmPerSec.
  repeat match goal with
         | |- context [if ?c then _ else _] => destruct c
         end; simpl; congruence.
Qed.

Lemma check_target_tNextStep (s : t) : tNextStep_ (check_target s) = tNextStep_ s.
Proof.
  unfold check_target. destruct (motion_ s); try reflexivity.
  destruct (reaches_target s); reflexivity.
Qed.

(** What [update] does when a step pulse is due. *)
Lemma update_due (now : Z) (s : t) (p : Z) :
  idle s = false -> period_us s = Some p -> step_due now s = true ->
  update now s =
    (check_target
       (set_pos_steps (MachInt.to_i32 (pos_steps_ s + (if dir_ s then 1 else -1)))
          (set_tNextStep (MachInt.wrap_u32 (now + p)) s)),
     pulse s).
Proof.
  intros Hidle Hper Hdue. unfold update. rewrite Hidle, Hper, Hdue. reflexivity.
Qed.

Lemma not_idle_of_motion (s : t) : motion_ s <> Idle -> idle s = false.
Proof.
  unfold idle. destruct (motion_ s); simpl; congruence.
Qed.

(** C10.  [isBusy()] is true exactly in the ToTarget mode.  A continuous
    motion started by [setSpeedMmPerSec] is never busy, also in a call of
    [update] that emits a step pulse; and the call of [update] whose pulse
    brings a target move to its target leaves [isBusy()] false. *)
Theorem isBusy_exactly_ToTarget :
  (forall s, isBusy s = true <-> motion_ s = ToTarget) /\
  (forall v s, isBusy (fst (setSpeedMmPerSec v s)) = false) /\
  (forall now s p,
      motion_ s = Velocity -> period_us s = Some p -> step_due now s = true ->
      snd (update now s) = pulse s /\
      isBusy s = false /\ isBusy (fst (update now s)) = false) /\
  (forall now s p,
      motion_ s = ToTarget -> period_us s = Some p -> step_due now s = true ->
      reaches_target (fst (stepOnce_ s)) = true ->
      snd (update now s) = pulse s /\
      isBusy s = true /\ isBusy (fst (update now s)) = false).
Proof.
  split; [exact isBusy_true_iff|].
  split.
  { intros v s. pose proof (setSpeedMmPerSec_motion v s) as H.
    unfold isBusy. destruct (motion_ (fst (setSpeedMmPerSec v s))); simpl; congruence. }
  split.
  - intros now s p Hm Hp Hd.
    assert (idle s = false) as Hi by (apply not_idle_of_motion; congruence).
    rewrite (update_due now s p Hi Hp Hd). simpl.
    split; [reflexivity|].
    unfold isBusy, check_target. simpl. rewrite !Hm. simpl. rewrite Hm. auto.
  - intros now s p Hm Hp Hd Hr.
    assert (idle s = false) as Hi by (apply not_idle_of_motion; congruence).
    rewrite (update_due now s p Hi Hp Hd). simpl.
    split; [reflexivity|].
    unfold isBusy, check_target. simpl. rewrite !Hm. simpl.
    unfold reaches_target in *. simpl in *. rewrite Hr. simpl. auto.
Qed.

Lemma isBusy_exactly_ToTarget_witness :
  (snd (update 1000 Examples.stepper_velocity) = pulse Examples.stepper_velocity /\
   isBusy Examples.stepper_velocity = false /\
   isBusy (fst (update 1000 Examples.stepper_velocity)) = false) /\
  (snd (update 5000 Examples.stepper_arriving) = pulse Examples.stepper_arriving /\
   isBusy Examples.stepper_arriving = true /\
   isBusy (fst (update 5000 Examples.stepper_arriving)) = false).
Proof.
  split.
  - apply (proj1 (proj2 (proj2 isBusy_exactly_ToTarget)) 1000 Examples.stepper_velocity 833);
      vm_compute; reflexivity.
  - apply (proj2 (proj2 (proj2 isBusy_exactly_ToTarget)) 5000 Examples.stepper_arriving 2500);
      vm_compute; reflexivity.
Defined.

(** C4, as stated, fails: called 500 us late, [update] schedules the next
    step one period after the call, not one period after the missed
    deadline. *)
Lemma deadline_advances_by_period_fails : ~ deadline_advances_by_period.
Proof.
  intros H.
  specialize (H 1500 Examples.stepper_late 833).
  assert (tNextStep_ (fst (update 1500 Examples.stepper_late)) = 2333) as E
      by (vm_compute; reflexivity).
  rewrite E in H.
  assert (MachInt.wrap_u32 (deadline 1500 Examples.stepper_late + 833) = 1833) as E'
      by (vm_compute; reflexivity).
  rewrite E' in H.
  assert (2333 = 1833) as A by (apply H; vm_compute; reflexivity).
  discriminate A.
Qed.

(** C4, amended.  Whenever a step pulse is due, the next deadline is the
    time of the call plus one step period, and the step counter moves by one
    in the direction of travel. *)
Theorem update_deadline_is_now_plus_period (now : Z) (s : t) (p : Z) :
  idle s = false -> period_us s = Some p -> step_due now s = true ->
  tNextStep_ (fst (update now s)) = MachInt.wrap_u32 (now + p) /\
  pos_steps_ (fst (update now s)) =
    MachInt.to_i32 (pos_steps_ s + (if dir_ s then 1 else -1)) /\
  snd (update now s) = pulse s.
Proof.
  intros Hi Hp Hd. rewrite (update_due now s p Hi Hp Hd). simpl.
  rewrite check_target_tNextStep. simpl.
  repeat split.
  unfold check_target. simpl.
  destruct (motion_ s); try reflexivity.
  match goal with |- context [if ?c then _ else _] => destruct c end; reflexivity.
Qed.

Lemma update_deadline_is_now_plus_period_witness :
  tNextStep_ (fst (update 1500 Examples.stepper_late)) = MachInt.wrap_u32 (1500 + 833) /\
  pos_steps_ (fst (update 1500 Examples.stepper_late)) =
    MachInt.to_i32 (pos_steps_ Examples.stepper_late
                    + (if dir_ Examples.stepper_late then 1 else -1)) /\
  snd (update 1500 Examples.stepper_late) = pulse Examples.stepper_late.
Proof.
  apply (update_deadline_is_now_plus_period 1500 Examples.stepper_late 833);
    vm_compute; reflexivity.
Defined.

End StepperFacts.

Section MoveSpeed.

Import StepperDriver.

Lemma fabsf_neg (x : F32.float) : F32.fabsf (F32.neg x) = F32.fabsf x.
Proof. destruct x; reflexivity. Qed.

(** A float above zero is a positive finite number or plus infinity. *)
Lemma positive_shape (x : F32.float) :
  F32.ltb F32.zero x = true ->
  x = S754_infinity false \/ exists m e, x = S754_finite false m e.
Proof.
  destruct x as [s | s | | s m e]; try discriminate.
  - destruct s; try discriminate. auto.
  - destruct s; try discriminate. right. eauto.
Qed.

Lemma fabsf_positive (x : F32.float) : F32.ltb F32.zero x = true -> F32.fabsf x = x.
Proof.
  intros H. destruct (positive_shape x H) as [-> | (m & e & ->)]; reflexivity.
Qed.

Lemma leb_not_gtb (x y : F32.float) : F32.leb x y = true -> F32.gtb x y = false.
Proof.
  unfold F32.leb, F32.gtb, SFleb, SFltb. rewrite (SFcompare_antisym x y).
  destruct (SFcompare x y) as [[ | | ] | ]; simpl; congruence.
Qed.

Lemma leb_positive_r (x y : F32.float) :
  F32.ltb F32.zero x = true -> F32.leb x y = true -> F32.ltb F32.zero y = true.
Proof.
  intros Hx. destruct (positive_shape x Hx) as [-> | (m & e & ->)];
    destruct y as [s | s | | s m' e']; try destruct s; simpl; try discriminate;
    reflexivity.
Qed.

Lemma ltb_is_nan (x y : F32.float) : F32.ltb x y = true -> F32.is_nan y = false.
Proof. destruct x, y; simpl; try reflexivity; discriminate. Qed.

Lemma fabsf_is_nan (x : F32.float) : F32.is_nan (F32.fabsf x) = F32.is_nan x.
Proof. destruct x; reflexivity. Qed.

(** The magnitude of a float that is neither zero nor NaN is above zero. *)
Lemma fabsf_nonzero_positive (x : F32.float) :
  F32.is_nan x = false -> F32.eqb x F32.zero = false ->
  F32.ltb F32.zero (F32.fabsf x) = true /\ F32.leb (F32.fabsf x) F32.zero = false.
Proof.
  destruct x as [s | s | | s m e]; simpl; try discriminate; intros _ H;
    try discriminate; split; reflexivity.
Qed.

Lemma moveToMm_magnitude (x v : F32.float) (s : t) :
  speed_magnitude (fst (moveToMm x v s)) = F32.fabsf (move_speed v s).
Proof.
  unfold speed_magnitude, moveToMm. simpl.
  destruct (F32.lroundf (F32.mul x (stepsPerMm_ s)) >? pos_steps_ s); simpl.
  - reflexivity.
  - apply fabsf_neg.
Qed.




End MoveSpeed.

(** ** CurrentSensor *)

Section SensorFacts.

Import CurrentSensor.

Lemma take_sample_Irms (now adc : Z) (s : t) : Irms_ (take_sample now adc s) = Irms_ s.
Proof. unfold take_sample. destruct (0 <=? _); reflexivity. Qed.

Lemma take_sample_window (now adc : Z) (s : t) :
  windowStart_ (take_sample now adc s) = windowStart_ s /\
  sampleWindow_us_ (take_sample now adc s) = sampleWindow_us_ s.
Proof. unfold take_sample. destruct (0 <=? _); split; reflexivity. Qed.

(** The divisions by the sample count are guarded: the checked reading of
    the window computation never fails and agrees with the plain one. *)
Lemma window_Irms_checked_total (s : t) :
  window_Irms_checked s = Some (window_Irms s).
Proof.
  unfold window_Irms_checked, window_Irms, div_count.
  destruct (nSamples_ s >? 0) eqn:E; [|reflexivity].
  assert ((nSamples_ s =? 0) = false) as ->; [|reflexivity].
  apply Z.eqb_neq. apply Z.gtb_lt in E. lia.
Qed.

Lemma update_checked_total (now adc : Z) (s : t) :
  update_checked now adc s = Some (update now adc s).
Proof.
  unfold update_checked, update, close_window_checked, close_window.
  destruct (negb (enabled_ s)); [reflexivity|].
  destruct (_ <=? _); [|reflexivity].
  rewrite window_Irms_checked_total. reflexivity.
Qed.

(** C8.  When the integration window closes in a call of [update] and holds
    no sample, the window is reset and advanced, the last RMS current is
    what it was before the call, and no division by the (zero) sample count
    takes place. *)
Theorem zero_sample_window_keeps_Irms (now adc : Z) (s : t) :
  window_closes now s = true ->
  samples_at_close now adc s = 0 ->
  lastIrms (update now adc s) = lastIrms s /\
  windowStart_ (update now adc s) =
    MachInt.wrap_u32 (windowStart_ s + sampleWindow_us_ s) /\
  nSamples_ (update now adc s) = 0 /\
  update_checked now adc s = Some (update now adc s).
Proof.
  unfold window_closes, samples_at_close. intros Hc Hn.
  apply andb_true_iff in Hc. destruct Hc as [He Hw].
  split; [|split; [|split]]; [| | |apply update_checked_total].
  all: unfold update, lastIrms; rewrite He; simpl; unfold close_window.
  all: destruct (take_sample_window now adc s) as [-> ->]; rewrite Hw; simpl.
  - unfold window_Irms. rewrite Hn. simpl. apply take_sample_Irms.
  - reflexivity.
  - reflexivity.
Qed.

Lemma zero_sample_window_keeps_Irms_witness :
  lastIrms (update 50000 512 Examples.sensor_no_sample) = F32.lit 25 100 /\
  windowStart_ (update 50000 512 Examples.sensor_no_sample) = 40000 /\
  nSamples_ (update 50000 512 Examples.sensor_no_sample) = 0 /\
  update_checked 50000 512 Examples.sensor_no_sample =
    Some (update 50000 512 Examples.sensor_no_sample).
Proof.
  apply (zero_sample_window_keeps_Irms 50000 512 Examples.sensor_no_sample);
    vm_compute; reflexivity.
Defined.

End SensorFacts.

(** ** The soft travel limits *)

Section SoftLimit.

Import StepperDriver.

Lemma update_default_mm_s (now : Z) (s : t) :
  default_mm_s_ (fst (update now s)) = default_mm_s_ s.
Proof.
  unfold update.
  destruct (idle s); [reflexivity|].
  destruct (period_us s); [|reflexivity].
  destruct (step_due now s); [|reflexivity].
  simpl. unfold check_target. simpl.
  destruct (motion_ s); try reflexivity.
  match goal with |- context [if ?c then _ else _] => destruct c end; reflexivity.
Qed.

Lemma update_config_ok (now : Z) (s : t) :
  config_ok (fst (update now s)) = config_ok s.
Proof.
  unfold config_ok, vmax. rewrite update_default_mm_s. reflexivity.
Qed.

Lemma config_ok_vmax_positive (s : t) :
  config_ok s = true -> F32.ltb F32.zero (vmax s) = true.
Proof.
  unfold config_ok. intros H. apply andb_true_iff in H. destruct H as [Hd Hle].
  exact (leb_positive_r _ _ Hd Hle).
Qed.

(** In a sound configuration [setSpeedMmPerSec(0.0f)] stops the motion. *)
Lemma setSpeedMmPerSec_zero (s : t) :
  config_ok s = true ->
  speed_mm_s_ (fst (setSpeedMmPerSec F32.zero s)) = F32.zero /\
  motion_ (fst (setSpeedMmPerSec F32.zero s)) = Idle.
Proof.
  intros H. pose proof (config_ok_vmax_positive s H) as Hv.
  unfold setSpeedMmPerSec.
  assert (F32.gtb F32.zero (vmax s) = false) as ->.
  { destruct (positive_shape _ Hv) as [-> | (m & e & ->)]; reflexivity. }
  assert (F32.ltb F32.zero (F32.neg (vmax s)) = false) as ->.
  { destruct (positive_shape _ Hv) as [-> | (m & e & ->)]; reflexivity. }
  change (F32.eqb F32.zero F32.zero) with true.
  change (F32.neqb F32.zero F32.zero) with false.
  change (F32.geb F32.zero F32.zero) with true.
  simpl. destruct (dir_ s); simpl; auto.
Qed.

Lemma emitted_app (w w' : World.t) (evs : Arduino.Trace) :
  World.trace w' = World.trace w ++ evs -> World.emitted w w' = evs.
Proof.
  unfold World.emitted. intros ->.
  rewrite skipn_app, skipn_all, Nat.sub_diag. reflexivity.
Qed.

(** Writing HIGH to both relay pins last leaves both outputs HIGH. *)
Lemma relays_safe_after (r1 r2 : Z) (p : Relays.Pair) (tr lcd : Arduino.Trace) :
  (forall q, Relays.after r1 r2 q lcd = q) ->
  Relays.after r1 r2 p
    (tr ++ [Arduino.EvDigitalWrite r1 Arduino.HIGH;
            Arduino.EvDigitalWrite r2 Arduino.HIGH] ++ lcd)
  = (Arduino.HIGH, Arduino.HIGH).
Proof.
  intros Hl. unfold Relays.after in *. rewrite !fold_left_app. rewrite Hl.
  simpl. rewrite !Z.eqb_refl. destruct (r2 =? r1); reflexivity.
Qed.

Lemma title2_relays (r1 r2 : Z) (l1 l2 : string) (q : Relays.Pair) :
  Relays.after r1 r2 q (Arduino.title2 l1 l2) = q.
Proof. reflexivity. Qed.

Lemma Mod1_abort_safe (m : Mod1Mode.t) (w0 w : World.t) (evs : Arduino.Trace) :
  config_ok (World.stepper w) = true ->
  World.trace w = World.trace w0 ++ evs ->
  safe_stop (Mod1Mode.relayPin1_ m) (Mod1Mode.relayPin2_ m) w0 (snd (Mod1Mode.abort m w)).
Proof.
  intros Hc Ht. destruct (setSpeedMmPerSec_zero _ Hc) as [Hs Hm].
  unfold safe_stop, Mod1Mode.abort. simpl.
  split; [exact Hs|]. split; [exact Hm|]. split; [reflexivity|].
  intros p. erewrite emitted_app.
  2:{ simpl. rewrite Ht. rewrite <- !app_assoc. reflexivity. }
  rewrite !app_assoc. rewrite <- (app_assoc _ [_] [_]). rewrite <- app_assoc.
  apply relays_safe_after. intros q. apply title2_relays.
Qed.

Lemma Mod2_abort_safe (m : Mod2Mode.t) (w0 w : World.t) (evs : Arduino.Trace) :
  config_ok (World.stepper w) = true ->
  World.trace w = World.trace w0 ++ evs ->
  safe_stop (Mod2Mode.relayPin1_ m) (Mod2Mode.relayPin2_ m) w0 (snd (Mod2Mode.abort m w)).
Proof.
  intros Hc Ht. destruct (setSpeedMmPerSec_zero _ Hc) as [Hs Hm].
  unfold safe_stop, Mod2Mode.abort. simpl.
  split; [exact Hs|]. split; [exact Hm|]. split; [reflexivity|].
  intros p. erewrite emitted_app.
  2:{ simpl. rewrite Ht. rewrite <- !app_assoc. reflexivity. }
  rewrite !app_assoc. rewrite <- (app_assoc _ [_] [_]). rewrite <- app_assoc.
  apply relays_safe_after. intros q. apply title2_relays.
Qed.

(** C2.  In a sound configuration, a call of [Mod1Mode::step] or
    [Mod2Mode::step] that sees the position at or below 1.5 mm or at or above
    75 mm returns true with the state Done, the speed 0, current sensing
    disabled and both relay outputs HIGH, whatever the state of the machine
    was: the result does not depend on it. *)
Theorem soft_limit_abort (i : Inputs) (w : World.t) :
  config_ok (World.stepper w) = true ->
  out_of_range (position_seen i w) = true ->
  (forall m : Mod1Mode.t,
     let r := Mod1Mode.step i m w in
     fst (fst r) = true /\
     Mod1Mode.st_ (snd (fst r)) = Mod1Mode.Done /\
     safe_stop (Mod1Mode.relayPin1_ m) (Mod1Mode.relayPin2_ m) w (snd r) /\
     forall st, Mod1Mode.step i (Mod1Mode.set_st st m) w = r) /\
  (forall m : Mod2Mode.t,
     let r := Mod2Mode.step i m w in
     fst (fst r) = true /\
     Mod2Mode.st_ (snd (fst r)) = Mod2Mode.Done /\
     safe_stop (Mod2Mode.relayPin1_ m) (Mod2Mode.relayPin2_ m) w (snd r) /\
     forall st, Mod2Mode.step i (Mod2Mode.set_st st m) w = r).
Proof.
  unfold position_seen. intros Hc Hz.
  assert (config_ok (World.stepper (World.stepper_call (update (in_micros i)) w)) = true)
    as Hc' by (simpl; rewrite update_config_ok; exact Hc).
  split; intros m; cbv zeta.
  - unfold Mod1Mode.step. rewrite Hz.
    split; [reflexivity|]. split; [reflexivity|]. split; [|reflexivity].
    eapply Mod1_abort_safe; [exact Hc'|]. simpl. reflexivity.
  - unfold Mod2Mode.step. rewrite Hz.
    split; [reflexivity|]. split; [reflexivity|]. split; [|reflexivity].
    eapply Mod2_abort_safe; [exact Hc'|]. simpl. reflexivity.
Qed.

Lemma soft_limit_abort_witness :
  Mod2Mode.st_ (snd (fst (Mod2Mode.step (Examples.inputs_at 0 0) Sketch.mod2
                            Examples.world_at_1mm))) = Mod2Mode.Done /\
  Mod1Mode.st_ (snd (fst (Mod1Mode.step (Examples.inputs_at 0 0) Sketch.mod1
                            Examples.world_at_1mm))) = Mod1Mode.Done.
Proof.
  pose proof (soft_limit_abort (Examples.inputs_at 0 0) Examples.world_at_1mm
                eq_refl eq_refl) as H.
  split.
  - exact (proj1 (proj2 (proj2 H Sketch.mod2))).
  - exact (proj1 (proj2 (proj1 H Sketch.mod1))).
Defined.

End SoftLimit.

(** ** Blocking waits *)

Section Blocking.

Import Arduino.

Lemma longest_block_app (a b : Trace) :
  longest_block_us (a ++ b) = Z.max (longest_block_us a) (longest_block_us b).
Proof.
  induction a as [|ev a IH]; simpl.
  - assert (0 <= longest_block_us b); [|lia].
    induction b as [|ev b IHb]; simpl; lia.
  - rewrite IH. lia.
Qed.

(** A call of [StepperDriver::update] writes nothing or one step pulse. *)
Lemma update_trace_cases (now : Z) (s : StepperDriver.t) :
  snd (StepperDriver.update now s) = [] \/
  snd (StepperDriver.update now s) = StepperDriver.pulse s.
Proof.
  unfold StepperDriver.update.
  destruct (StepperDriver.idle s); [left; reflexivity|].
  destruct (StepperDriver.period_us s); [|left; reflexivity].
  destruct (StepperDriver.step_due now s); [right|left]; reflexivity.
Qed.

Lemma update_longest_block (now : Z) (s : StepperDriver.t) :
  0 <= longest_block_us (snd (StepperDriver.update now s)) <= 2.
Proof.
  destruct (update_trace_cases now s) as [-> | ->]; simpl; lia.
Qed.

Lemma setSpeedMmPerSec_longest_block (v : F32.float) (s : StepperDriver.t) :
  longest_block_us (snd (StepperDriver.setSpeedMmPerSec v s)) = 0.
Proof.
  unfold StepperDriver.setSpeedMmPerSec.
  repeat match goal with
         | |- context [if ?c then _ else _] => destruct c
         end; reflexivity.
Qed.

Lemma moveRelativeMm_longest_block (dx v : F32.float) (s : StepperDriver.t) :
  longest_block_us (snd (StepperDriver.moveRelativeMm dx v s)) = 0.
Proof. reflexivity. Qed.

(** Bounding the longest blocking wait of what a step wrote: compute the
    trace, split it at the appends, and bound the pieces. *)
Ltac block_bound :=
  erewrite emitted_app; [|simpl; rewrite <- ?app_assoc; reflexivity];
  rewrite ?longest_block_app;
  rewrite ?setSpeedMmPerSec_longest_block, ?moveRelativeMm_longest_block;
  simpl;
  match goal with
  | |- context [longest_block_us (snd (StepperDriver.update ?n ?s))] =>
      pose proof (update_longest_block n s)
  end;
  lia.

Lemma Mod1_step_longest_block (i : Inputs) (m : Mod1Mode.t) (w : World.t) :
  longest_block_us (World.emitted w (snd (Mod1Mode.step i m w))) <= 2.
Proof.
  unfold Mod1Mode.step.
  destruct (out_of_range _); [unfold Mod1Mode.abort; block_bound|].
  destruct (Mod1Mode.st_ m);
    unfold Mod1Mode.step_MovingDownDetect, Mod1Mode.step_Wait1, Mod1Mode.step_MoveDown1,
      Mod1Mode.step_Wait2, Mod1Mode.step_Validate30V, Mod1Mode.step_RelayHold,
      Mod1Mode.step_Etching, Mod1Mode.step_FinalLift;
    cbv beta iota zeta delta [World.IavgS_update World.Iavg_update];
    repeat match goal with
           | |- context [if ?c then _ else _] => destruct c
           end;
    block_bound.
Qed.

Lemma Mod2_step_longest_block (i : Inputs) (m : Mod2Mode.t) (w : World.t) :
  longest_block_us (World.emitted w (snd (Mod2Mode.step i m w))) <= 2.
Proof.
  unfold Mod2Mode.step.
  destruct (out_of_range _); [unfold Mod2Mode.abort; block_bound|].
  destruct (Mod2Mode.st_ m);
    unfold Mod2Mode.step_MovingDownDetect, Mod2Mode.step_Wait1, Mod2Mode.step_MoveDown1,
      Mod2Mode.step_Wait2, Mod2Mode.step_Validate30V, Mod2Mode.step_RelayHold,
      Mod2Mode.step_Wait3, Mod2Mode.step_MoveDown2, Mod2Mode.step_Wait4,
      Mod2Mode.step_RelayPulse, Mod2Mode.step_FinalLift;
    cbv beta iota zeta delta [World.IavgS_update World.Iavg_update];
    repeat match goal with
           | |- context [if ?c then _ else _] => destruct c
           end;
    block_bound.
Qed.

(** The blocking waits of [HomeMode::step], phase by phase. *)
Lemma Home_step_longest_block (i : Inputs) (m : HomeMode.t) (w : World.t) :
  let k := longest_block_us (World.emitted w (snd (HomeMode.step i m w))) in
  (HomeMode.homed_ m = false -> in_limit i = LOW -> k = 200000) /\
  (HomeMode.homed_ m = false -> in_limit i = HIGH -> k <= 2) /\
  (HomeMode.homed_ m = true -> HomeMode.baselineMeasuring_ m = true -> k <= 2) /\
  (HomeMode.homed_ m = true -> HomeMode.baselineMeasuring_ m = false ->
   HomeMode.baselineDone_ m = false -> k <= 2) /\
  (HomeMode.homed_ m = true -> HomeMode.baselineMeasuring_ m = false ->
   HomeMode.baselineDone_ m = true -> k = 2000000).
Proof.
  cbv zeta. unfold HomeMode.step.
  split; [|split; [|split; [|split]]].
  - intros -> Hl. simpl. unfold HomeMode.step_homing. rewrite Hl. block_bound.
  - intros -> Hl. simpl. unfold HomeMode.step_homing. rewrite Hl. block_bound.
  - intros -> ->. simpl. unfold HomeMode.step_measuring.
    repeat match goal with
           | |- context [if ?c then _ else _] => destruct c
           end; block_bound.
  - intros -> -> ->. simpl. unfold HomeMode.step_moving.
    repeat match goal with
           | |- context [if ?c then _ else _] => destruct c
           end; block_bound.
  - intros -> -> ->. simpl. unfold HomeMode.step_done. block_bound.
Qed.




End Blocking.

(** ** The hold-completion condition of MOD2 *)

Section ResetFilled.

Lemma nonzero_reset_is_filled_fails : ~ nonzero_reset_is_filled 20 1000.
Proof.
  intros H.
  specialize (H (F32.lit 1 10000) (MovingAverage.ctor 20 1000) eq_refl).
  vm_compute in H. discriminate H.
Qed.

(** C7, the code at a failing input.  0.0001 is not zero, but its
    fixed-point representation at scale 1000 is: after [reset(0.0001f)] the
    window is not marked as filled, for either window length of the
    firmware. *)
Theorem reset_tiny_value_not_filled :
  F32.eqb (F32.lit 1 10000) F32.zero = false /\
  MovingAverage.toFixed_ 1000 (F32.lit 1 10000) = 0 /\
  MovingAverage.filled
    (MovingAverage.reset 20 1000 (F32.lit 1 10000) (MovingAverage.ctor 20 1000)) = false /\
  MovingAverage.filled
    (MovingAverage.reset 200 1000 (F32.lit 1 10000) (MovingAverage.ctor 200 1000)) = false.
Proof. vm_compute. repeat split. Qed.

End ResetFilled.

Section HoldCondition.

(** Whatever the current is (as long as it is a number), the condition of
    the source compares 1.0 with the threshold. *)
Lemma hold_condition_ignores_current (I_ threshold : F32.float) :
  F32.is_nan I_ = false ->
  Mod2Mode.hold_condition I_ threshold = F32.leb (F32.of_Z 1) threshold.
Proof.
  intros H. unfold Mod2Mode.hold_condition. rewrite (leb_refl I_ H). reflexivity.
Qed.

(** With the default threshold of 0.05 A the condition never holds. *)
Lemma hold_condition_default_never (I_ : F32.float) :
  F32.is_nan I_ = false ->
  Mod2Mode.hold_condition I_
    (Parameters.etchingThreshold_A (Parameters.mod2 Parameters.gParams_default)) = false.
Proof.
  intros H. rewrite (hold_condition_ignores_current _ _ H). reflexivity.
Qed.

Lemma hold_is_threshold_comparison_fails : ~ hold_is_threshold_comparison.
Proof.
  intros H. specialize (H (F32.lit 1 100) (F32.lit 5 100)).
  vm_compute in H. discriminate H.
Qed.

(** C1, the code at a failing input.  MOD2 is in RelayHold, 3000 ms after it
    entered it; the smoothed corrected current is 0.01 A, below the etch
    threshold of 0.05 A.  The call of [step] leaves the machine in RelayHold
    and writes nothing: the 30 V stays on. *)
Theorem hold_condition_misses_low_current :
  let i := Examples.inputs_at 0 3000 in
  let r := Mod2Mode.step i Examples.mod2_hold Examples.world_hold in
  let I_ := fst (World.Iavg_update (World.correctedIrms Examples.world_hold)
                   Examples.world_hold) in
  let threshold :=
    Parameters.etchingThreshold_A (Parameters.mod2 (World.gParams Examples.world_hold)) in
  I_ = F32.lit 1 100 /\
  F32.leb I_ threshold = true /\
  Mod2Mode.hold_condition I_ threshold = false /\
  Mod2Mode.st_ (snd (fst r)) = Mod2Mode.RelayHold /\
  World.emitted Examples.world_hold (snd r) = [].
Proof. vm_compute. repeat split. Qed.

End HoldCondition.

(** ** MovingAverage *)

Section MachIntFacts.

Lemma to_i32_small (z : Z) : -2147483648 <= z < 2147483648 -> MachInt.to_i32 z = z.
Proof.
  intros H. unfold MachInt.to_i32.
  destruct (Z.leb_spec 0 z).
  - rewrite Z.mod_small by lia.
    destruct (Z.ltb_spec z 2147483648); lia.
  - replace (z mod 4294967296) with (z + 4294967296).
    + destruct (Z.ltb_spec (z + 4294967296) 2147483648); lia.
    + apply Z.mod_unique with (q := -1); lia.
Qed.

Lemma to_i16_small (z : Z) : -32768 <= z < 32768 -> MachInt.to_i16 z = z.
Proof.
  intros H. unfold MachInt.to_i16.
  destruct (Z.leb_spec 0 z).
  - rewrite Z.mod_small by lia.
    destruct (Z.ltb_spec z 32768); lia.
  - replace (z mod 65536) with (z + 65536).
    + destruct (Z.ltb_spec (z + 65536) 32768); lia.
    + apply Z.mod_unique with (q := -1); lia.
Qed.

Lemma to_i16_range (z : Z) : -32768 <= MachInt.to_i16 z <= 32767.
Proof.
  unfold MachInt.to_i16.
  pose proof (Z.mod_pos_bound z 65536 ltac:(lia)).
  destruct (Z.ltb_spec (z mod 65536) 32768); lia.
Qed.

End MachIntFacts.

Section ListFacts.

Lemma set_nth_split (i : nat) (x : Z) (b : list Z) :
  (i < List.length b)%nat ->
  MovingAverage.set_nth i x b = firstn i b ++ x :: skipn (S i) b.
Proof.
  revert b. induction i as [|i IH]; intros [|y b] H; simpl in *; try lia.
  - reflexivity.
  - rewrite IH by lia. reflexivity.
Qed.

Lemma skipn_nth_cons (i : nat) (b : list Z) :
  (i < List.length b)%nat -> skipn i b = nth i b 0 :: skipn (S i) b.
Proof.
  revert b. induction i as [|i IH]; intros [|y b] H; simpl in *; try lia.
  - reflexivity.
  - apply IH. lia.
Qed.

Lemma sumZ_app (a b : list Z) : sumZ (a ++ b) = sumZ a + sumZ b.
Proof. induction a as [|x a IH]; simpl; [reflexivity|]. rewrite IH. lia. Qed.

Lemma sumZ_repeat_0 (n : nat) : sumZ (repeat 0 n) = 0.
Proof. induction n as [|n IH]; simpl; [reflexivity|]. exact IH. Qed.

Lemma sumZ_skipn_repeat_0 (k n : nat) : sumZ (skipn k (repeat 0 n)) = 0.
Proof.
  revert k. induction n as [|n IH]; intros [|k]; simpl; try reflexivity.
  - apply sumZ_repeat_0.
  - apply IH.
Qed.

Lemma sumZ_bound (l : list Z) :
  Forall (fun z => -32768 <= z <= 32767) l ->
  - (32768 * Z.of_nat (List.length l)) <= sumZ l <= 32768 * Z.of_nat (List.length l).
Proof.
  induction 1 as [|z l Hz Hl IH]; simpl sumZ; simpl List.length; lia.
Qed.

Lemma lastn_length {A : Type} (n : nat) (l : list A) :
  (n <= List.length l)%nat -> List.length (lastn n l) = n.
Proof. intros H. unfold lastn. rewrite length_skipn. lia. Qed.

(** Appending one element to a list of at least [n] elements drops the
    oldest element of its last-[n] window. *)
Lemma lastn_snoc {A : Type} (n : nat) (l : list A) (x : A) :
  (1 <= n <= List.length l)%nat ->
  lastn n (l ++ [x]) = tl (lastn n l) ++ [x].
Proof.
  intros H. unfold lastn. rewrite length_app. simpl List.length.
  replace (List.length l + 1 - n)%nat with (S (List.length l - n)) by lia.
  rewrite skipn_app.
  replace (S (List.length l - n) - List.length l)%nat with O by lia.
  simpl skipn at 2.
  f_equal.
  remember (List.length l - n)%nat as k eqn:Hk.
  assert (k < List.length l)%nat as Hlt by lia.
  clear Hk H. revert l Hlt.
  induction k as [|k IH]; intros [|y l] Hlt; simpl in *; try lia.
  - reflexivity.
  - apply IH. lia.
Qed.

Lemma lastn_all {A : Type} (n : nat) (l : list A) :
  (List.length l <= n)%nat -> lastn n l = l.
Proof.
  intros H. unfold lastn. replace (List.length l - n)%nat with O by lia. reflexivity.
Qed.

(** The zeros of a freshly reset window add nothing to its sum. *)
Lemma sumZ_lastn_zeros (n : nat) (fs : list Z) :
  sumZ (lastn n (repeat 0 n ++ fs)) = sumZ (lastn (Nat.min n (List.length fs)) fs).
Proof.
  unfold lastn. rewrite length_app, repeat_length.
  replace (n + List.length fs - n)%nat with (List.length fs) by lia.
  rewrite skipn_app, repeat_length.
  destruct (Nat.le_gt_cases n (List.length fs)) as [H | H].
  - rewrite skipn_all2 by (rewrite repeat_length; lia).
    rewrite Nat.min_l by lia. reflexivity.
  - rewrite Nat.min_r by lia.
    replace (List.length fs - n)%nat with O by lia.
    replace (List.length fs - List.length fs)%nat with O by lia.
    simpl skipn at 2. rewrite sumZ_app.
    rewrite sumZ_skipn_repeat_0. simpl. reflexivity.
Qed.

End ListFacts.

Section AverageFacts.

Import MovingAverage.

Variables N SCALE : Z.
Hypothesis HN : 0 < N <= 32767.

Lemma toFixed_int16 (xA : F32.float) : int16 (toFixed_ SCALE xA).
Proof. unfold toFixed_, int16. apply to_i16_range. Qed.

(** [toFixed_(0.0f)] is 0, whatever the scale. *)
Lemma toFixed_zero : toFixed_ SCALE F32.zero = 0.
Proof.
  unfold toFixed_. generalize (F32.of_Z SCALE).
  intros [s | s | | s m e]; reflexivity.
Qed.

Lemma set_nth_length (i : nat) (x : Z) (b : list Z) :
  List.length (set_nth i x b) = List.length b.
Proof.
  revert i. induction b as [|y b IH]; intros [|i]; simpl; try reflexivity.
  rewrite IH. reflexivity.
Qed.

Lemma set_nth_app_length (pre rest : list Z) (x y : Z) :
  set_nth (List.length pre) x (pre ++ y :: rest) = pre ++ x :: rest.
Proof. induction pre as [|z pre IH]; simpl; [reflexivity|]. rewrite IH. reflexivity. Qed.

(** The loop of [reset] overwrites the cells from [i] on. *)
Lemma reset_loop_fill (k : nat) :
  forall (i : Z) (x : Z) (pre rest : list Z) (sum : Z),
    0 <= i -> Z.to_nat i = List.length pre -> List.length rest = k ->
    fst (reset_loop k i x (pre ++ rest) sum) = pre ++ repeat x k.
Proof.
  induction k as [|k IH]; intros i x pre rest sum Hi Hp Hr.
  - destruct rest; [|discriminate]. simpl. reflexivity.
  - destruct rest as [|y rest]; [discriminate|]. simpl reset_loop.
    unfold set. rewrite Hp, set_nth_app_length.
    change (pre ++ x :: rest) with (pre ++ [x] ++ rest). rewrite app_assoc.
    rewrite IH.
    + rewrite <- app_assoc. reflexivity.
    + lia.
    + rewrite length_app. simpl. rewrite <- Hp. lia.
    + simpl in Hr. lia.
Qed.

Lemma reset_loop_sum_zero (k : nat) :
  forall (i : Z) (b : list Z), snd (reset_loop k i 0 b 0) = 0.
Proof.
  induction k as [|k IH]; intros i b; simpl; [reflexivity|].
  change (MachInt.to_i32 0) with 0. apply IH.
Qed.

(** What [reset] leaves behind. *)
Lemma reset_fields (x0A : F32.float) (s : t) :
  wf N s ->
  buf_ (reset N SCALE x0A s) = repeat (toFixed_ SCALE x0A) (Z.to_nat N) /\
  idx_ (reset N SCALE x0A s) = 0 /\
  filled_ (reset N SCALE x0A s) = negb (toFixed_ SCALE x0A =? 0).
Proof.
  unfold wf, reset. intros Hw.
  pose proof (reset_loop_fill (Z.to_nat N) 0 (toFixed_ SCALE x0A) [] (buf_ s) 0
                ltac:(lia) eq_refl Hw) as Hb.
  simpl app in Hb.
  destruct (reset_loop (Z.to_nat N) 0 (toFixed_ SCALE x0A) (buf_ s) 0) as [b sum].
  simpl in *. subst b. auto.
Qed.

Lemma Inv_reset (s : t) : wf N s -> Inv N [] (reset N SCALE F32.zero s).
Proof.
  intros Hw. destruct (reset_fields F32.zero s Hw) as (Hb & Hi & Hf).
  rewrite toFixed_zero in *.
  assert (sum_ (reset N SCALE F32.zero s) = 0) as Hs.
  { unfold reset. rewrite toFixed_zero.
    pose proof (reset_loop_sum_zero (Z.to_nat N) 0 (buf_ s)) as H.
    destruct (reset_loop (Z.to_nat N) 0 0 (buf_ s) 0); simpl in *. exact H. }
  constructor.
  - rewrite Hb, repeat_length. reflexivity.
  - rewrite Hi. simpl. rewrite Nat.Div0.mod_0_l. reflexivity.
  - rewrite Hf. simpl. symmetry. apply Nat.leb_gt. lia.
  - simpl List.length. rewrite Nat.Div0.mod_0_l. simpl. rewrite app_nil_r.
    rewrite app_nil_r. rewrite lastn_all by (rewrite repeat_length; lia). exact Hb.
  - rewrite Hs, Hb, sumZ_repeat_0. reflexivity.
  - rewrite Hb. apply Forall_forall. intros z Hz. apply repeat_spec in Hz. subst z.
    unfold int16. lia.
Qed.

Lemma succ_mod_wrap (k n : nat) :
  (0 < n)%nat -> S (k mod n) = n -> (S k mod n = 0)%nat.
Proof.
  intros Hn H.
  pose proof (Nat.div_mod_eq k n) as E.
  symmetry. apply Nat.mod_unique with (q := S (k / n)); [lia|]. nia.
Qed.

Lemma succ_mod_step (k n : nat) :
  (0 < n)%nat -> (S (k mod n) < n)%nat -> (S k mod n = S (k mod n))%nat.
Proof.
  intros Hn H.
  pose proof (Nat.div_mod_eq k n) as E.
  symmetry. apply Nat.mod_unique with (q := (k / n)%nat); [lia|]. nia.
Qed.

Lemma sumZ_set_nth (i : nat) (x : Z) (b : list Z) :
  (i < List.length b)%nat ->
  sumZ (set_nth i x b) = sumZ b - nth i b 0 + x.
Proof.
  intros H. rewrite (set_nth_split i x b H).
  assert (sumZ b = sumZ (firstn i b) + (nth i b 0 + sumZ (skipn (S i) b))) as E.
  { rewrite <- (firstn_skipn i b) at 1. rewrite (skipn_nth_cons i b H).
    rewrite sumZ_app. reflexivity. }
  rewrite E, sumZ_app. simpl. lia.
Qed.

Lemma Forall_set_nth (P : Z -> Prop) (i : nat) (x : Z) (b : list Z) :
  P x -> Forall P b -> Forall P (set_nth i x b).
Proof.
  intros Hx Hb. revert i. induction Hb as [|y b Hy Hb IH]; intros [|i]; simpl; auto.
Qed.

Lemma skipn_past_cell (pre rest : list Z) (x : Z) :
  skipn (S (List.length pre)) (pre ++ x :: rest) = rest.
Proof. induction pre as [|y pre IH]; simpl; [reflexivity|exact IH]. Qed.

Lemma firstn_upto_cell (pre rest : list Z) (x : Z) :
  firstn (S (List.length pre)) (pre ++ x :: rest) = pre ++ [x].
Proof.
  induction pre as [|y pre IH]; simpl; [reflexivity|].
  f_equal. exact IH.
Qed.

Lemma sumZ_rotate (i : nat) (b : list Z) : sumZ (skipn i b ++ firstn i b) = sumZ b.
Proof.
  rewrite sumZ_app. rewrite <- (firstn_skipn i b) at 3. rewrite sumZ_app. lia.
Qed.

Lemma nth_int16 (i : nat) (b : list Z) : Forall int16 b -> int16 (nth i b 0).
Proof.
  intros H. revert i. induction H as [|y b Hy Hb IH]; intros [|i]; simpl; auto;
    unfold int16; lia.
Qed.

(** One call of [update]: the state it leaves and the value it returns. *)
Lemma Inv_update (fs : list Z) (xA : F32.float) (s : t) :
  Inv N fs s ->
  Inv N (fs ++ [toFixed_ SCALE xA]) (snd (update N SCALE xA s)) /\
  fst (update N SCALE xA s) =
    average_of SCALE
      (sumZ (lastn (Nat.min (Z.to_nat N) (S (List.length fs)))
               (fs ++ [toFixed_ SCALE xA])))
      (Z.of_nat (Nat.min (Z.to_nat N) (S (List.length fs)))).
Proof.
  intros [Hlen Hidx Hfil Hrot Hsum Hrng].
  set (n := Z.to_nat N) in *.
  set (k := List.length fs) in *.
  set (i := (k mod n)%nat) in *.
  set (x := toFixed_ SCALE xA).
  assert (0 < n)%nat as Hn by (unfold n; lia).
  assert (Z.of_nat n = N) as HnN by (unfold n; lia).
  assert (i < n)%nat as Hi by (apply Nat.mod_upper_bound; lia).
  assert (int16 x) as Hx by apply toFixed_int16.
  pose proof (nth_int16 i _ Hrng) as Hnth.
  pose proof (sumZ_bound _ Hrng) as Hsb. rewrite Hlen in Hsb.
  pose proof (Forall_set_nth int16 i x _ Hx Hrng) as Hrng'.
  pose proof (sumZ_bound _ Hrng') as Hsb'. rewrite set_nth_length, Hlen in Hsb'.
  assert (sumZ (set_nth i x (buf_ s)) = sumZ (buf_ s) - nth i (buf_ s) 0 + x) as Hset
      by (apply sumZ_set_nth; lia).
  (* the sum without the cell that is overwritten *)
  assert (- (32768 * Z.of_nat n) <= sumZ (buf_ s) - nth i (buf_ s) 0
          <= 32768 * Z.of_nat n) as Hmid.
  { assert (sumZ (buf_ s) = sumZ (firstn i (buf_ s))
                              + (nth i (buf_ s) 0 + sumZ (skipn (S i) (buf_ s)))) as E.
    { rewrite <- (firstn_skipn i (buf_ s)) at 1.
      rewrite (skipn_nth_cons i (buf_ s)) by lia.
      rewrite sumZ_app. reflexivity. }
    rewrite E.
    assert (Forall int16 (firstn i (buf_ s)) /\ Forall int16 (skipn (S i) (buf_ s)))
      as [F1 F2].
    { pose proof Hrng as Hr. rewrite <- (firstn_skipn i (buf_ s)) in Hr.
      apply Forall_app in Hr. destruct Hr as [Ha Hb]. split; [exact Ha|].
      rewrite (skipn_nth_cons i (buf_ s)) in Hb by lia.
      inversion Hb; assumption. }
    pose proof (sumZ_bound _ F1) as B1. pose proof (sumZ_bound _ F2) as B2.
    rewrite length_firstn in B1. rewrite length_skipn in B2. unfold int16 in *. lia. }
  assert (sum_ (snd (update N SCALE xA s)) = sumZ (set_nth i x (buf_ s))) as Hsum'.
  { unfold update. simpl. unfold get, set. rewrite Hidx, Nat2Z.id. fold x.
    rewrite Hsum. rewrite (to_i32_small (sumZ (buf_ s) - nth i (buf_ s) 0)) by lia.
    rewrite to_i32_small by lia. lia. }
  assert (MachInt.to_i16 (idx_ s + 1) = Z.of_nat (S i)) as Hidx1.
  { rewrite Hidx. rewrite to_i16_small by lia. lia. }
  assert (buf_ (snd (update N SCALE xA s)) = set_nth i x (buf_ s)) as Hbuf'.
  { unfold update. simpl. unfold set. rewrite Hidx, Nat2Z.id. reflexivity. }
  assert (List.length (fs ++ [x]) = S k) as Hk' by (rewrite length_app; simpl; lia).
  assert (idx_ (snd (update N SCALE xA s)) = Z.of_nat (S k mod n) /\
          filled_ (snd (update N SCALE xA s)) = (n <=? S k)%nat) as [Hidx' Hfil'].
  { unfold update. simpl. rewrite Hidx1.
    destruct (Z.leb_spec N (Z.of_nat (S i))) as [Hw | Hw].
    - assert (S i = n) as E by lia.
      rewrite (succ_mod_wrap k n Hn E). split; [reflexivity|].
      symmetry. apply Nat.leb_le.
      pose proof (Nat.Div0.mod_le k n). fold i in H. lia.
    - assert (S i < n)%nat as E by lia.
      rewrite (succ_mod_step k n Hn E). split; [reflexivity|].
      rewrite Hfil.
      destruct (Nat.leb_spec n k), (Nat.leb_spec n (S k)); try reflexivity; try lia.
      assert (k = i) by (unfold i; symmetry; apply Nat.mod_small; lia). lia. }
  assert (skipn (S k mod n) (set_nth i x (buf_ s))
          ++ firstn (S k mod n) (set_nth i x (buf_ s))
          = lastn n (repeat 0 n ++ (fs ++ [x]))) as Hrot'.
  { rewrite app_assoc.
    rewrite lastn_snoc by (rewrite length_app, repeat_length; lia).
    rewrite <- Hrot.
    assert (tl (skipn i (buf_ s) ++ firstn i (buf_ s))
            = skipn (S i) (buf_ s) ++ firstn i (buf_ s)) as ->
        by (rewrite (skipn_nth_cons i (buf_ s)) by lia; reflexivity).
    rewrite (set_nth_split i x (buf_ s)) by lia.
    assert (List.length (firstn i (buf_ s)) = i) as Hfl
        by (rewrite length_firstn; lia).
    destruct (Nat.eq_dec (S i) n) as [E | E].
    - rewrite (succ_mod_wrap k n Hn E).
      rewrite (@skipn_all2 Z (S i) (buf_ s)) by lia.
      rewrite skipn_O, firstn_O, app_nil_r. reflexivity.
    - rewrite (succ_mod_step k n Hn) by lia.
      pose proof (skipn_past_cell (firstn i (buf_ s)) (skipn (S i) (buf_ s)) x) as A1.
      pose proof (firstn_upto_cell (firstn i (buf_ s)) (skipn (S i) (buf_ s)) x) as A2.
      rewrite Hfl in A1, A2. fold i. rewrite A1, A2.
      rewrite <- app_assoc. reflexivity. }
  split.
  - constructor.
    + rewrite Hbuf', set_nth_length. exact Hlen.
    + rewrite Hk'. exact Hidx'.
    + rewrite Hk'. exact Hfil'.
    + rewrite Hk', Hbuf'. exact Hrot'.
    + rewrite Hbuf'. exact Hsum'.
    + rewrite Hbuf'. exact Hrng'.
  - assert (fst (update N SCALE xA s) =
            average_of SCALE (sum_ (snd (update N SCALE xA s)))
              (let d := if filled_ (snd (update N SCALE xA s)) then N
                        else idx_ (snd (update N SCALE xA s)) in
               if d <=? 0 then 1 else d)) as ->.
    { unfold update, average_of. simpl. reflexivity. }
    rewrite Hsum', Hidx', Hfil'. cbv zeta.
    f_equal.
    + rewrite <- (sumZ_rotate (S k mod n)). rewrite Hrot'.
      rewrite sumZ_lastn_zeros. rewrite Hk'. reflexivity.
    + destruct (Nat.leb_spec n (S k)) as [Hf | Hf].
      * rewrite Nat.min_l by lia.
        destruct (Z.leb_spec N 0); lia.
      * rewrite Nat.min_r by lia.
        rewrite Nat.mod_small by lia.
        destruct (Z.leb_spec (Z.of_nat (S k)) 0); lia.
Qed.

(** [filled()] after [reset]: true exactly when the fixed-point
    representation of the initial value is not 0. *)
Lemma filled_after_reset (x0A : F32.float) (s : t) :
  wf N s -> filled (reset N SCALE x0A s) = negb (toFixed_ SCALE x0A =? 0).
Proof. intros Hw. unfold filled. apply (reset_fields x0A s Hw). Qed.

Lemma run_Inv (xs : list F32.float) :
  forall (fs : list Z) (s : t),
    Inv N fs s -> Inv N (fs ++ map (toFixed_ SCALE) xs) (snd (run N SCALE xs s)).
Proof.
  induction xs as [|x xs IH]; intros fs s H; simpl.
  - rewrite app_nil_r. exact H.
  - change (toFixed_ SCALE x :: map (toFixed_ SCALE) xs)
      with ([toFixed_ SCALE x] ++ map (toFixed_ SCALE) xs).
    rewrite app_assoc. apply IH. apply (Inv_update fs x s H).
Qed.

(** After [reset(0)], [filled()] is true exactly once [N] calls of [update]
    have been made. *)
Lemma filled_after_updates (xs : list F32.float) (s : t) :
  wf N s ->
  filled (snd (run N SCALE xs (reset N SCALE F32.zero s)))
  = (N <=? Z.of_nat (List.length xs)).
Proof.
  intros Hw. pose proof (run_Inv xs [] _ (Inv_reset s Hw)) as H.
  unfold filled. rewrite (inv_filled _ _ _ H). simpl. rewrite length_map.
  destruct (Nat.leb_spec (Z.to_nat N) (List.length xs)),
    (Z.leb_spec N (Z.of_nat (List.length xs))); try reflexivity; lia.
Qed.

(** The value each call of [update] returns, in terms of the samples
    inserted so far. *)
Lemma run_outputs (xs : list F32.float) :
  forall (fs : list Z) (s : t) (k : nat) (d : F32.float),
    Inv N fs s -> (k < List.length xs)%nat ->
    nth k (fst (run N SCALE xs s)) d =
      average_of SCALE
        (sumZ (lastn (Nat.min (Z.to_nat N) (List.length fs + S k))
                 (fs ++ map (toFixed_ SCALE) (firstn (S k) xs))))
        (Z.of_nat (Nat.min (Z.to_nat N) (List.length fs + S k))).
Proof.
  induction xs as [|x xs IH]; intros fs s k d H Hk; simpl in Hk; [lia|].
  destruct (Inv_update fs x s H) as [H' Hy].
  destruct k as [|k].
  - cbn [run fst nth firstn map]. rewrite Hy.
    replace (List.length fs + 1)%nat with (S (List.length fs)) by lia.
    reflexivity.
  - cbn [run fst snd nth]. rewrite (IH _ _ k d H') by lia.
    cbn [firstn map].
    rewrite length_app. simpl List.length.
    replace (List.length fs + 1 + S k)%nat with (List.length fs + S (S k))%nat by lia.
    rewrite <- app_assoc. reflexivity.
Qed.

(** The value returned by the [k+1]-th call of [update] after [reset(0)] is
    computed from the sum of the window of the last [min(N, k+1)] fixed-point
    samples and from their number. *)
Lemma update_returns_window_average
  (xs : list F32.float) (s : t) (k : nat) (d : F32.float) :
  wf N s -> (k < List.length xs)%nat ->
  nth k (fst (run N SCALE xs (reset N SCALE F32.zero s))) d =
    average_of SCALE
      (sumZ (window N SCALE (firstn (S k) xs)))
      (Z.of_nat (List.length (window N SCALE (firstn (S k) xs)))).
Proof.
  intros Hw Hk.
  rewrite (run_outputs xs [] _ k d (Inv_reset s Hw) Hk).
  unfold window. change (List.length (@nil Z) + S k)%nat with (S k).
  change (@nil Z ++ ?l) with l.
  assert (List.length (firstn (S k) xs) = S k) as E by (rewrite length_firstn; lia).
  rewrite E.
  rewrite lastn_length by (rewrite length_map, E; lia).
  reflexivity.
Qed.

End AverageFacts.

(** ** Rounding errors of the float operations

    The operations of [SpecFloat] round to nearest; the bounds below only
    use that the rounded mantissa is the truncated one or its successor,
    which is enough for the margin of one scale unit. *)

Section FloatRounding.

Abbreviation fexp32 := (fexp F32.prec F32.emax).

Lemma fexp32_eq (e : Z) : fexp32 e = Z.max (e - 24) (-149).
Proof. reflexivity. Qed.

Lemma digits2_pos_size (p : positive) : digits2_pos p = Pos.size p.
Proof. induction p; simpl; congruence. Qed.

Lemma digits2_bounds (p : positive) :
  2 ^ (Zpos (digits2_pos p) - 1) <= Zpos p < 2 ^ Zpos (digits2_pos p).
Proof.
  rewrite digits2_pos_size. split.
  - pose proof (Pos.size_le p) as H.
    assert (Zpos (2 ^ Pos.size p) <= Zpos p~0) as H' by exact H.
    rewrite Pos2Z.inj_pow in H'.
    replace (Zpos (Pos.size p)) with (Z.succ (Zpos (Pos.size p) - 1)) in H' by lia.
    rewrite Z.pow_succ_r in H' by lia. lia.
  - pose proof (Pos.size_gt p) as H.
    assert (Zpos p < Zpos (2 ^ Pos.size p)) as H' by exact H.
    rewrite Pos2Z.inj_pow in H'. exact H'.
Qed.

Lemma Zdigits2_nonneg (m : Z) : 0 <= Zdigits2 m.
Proof. destruct m; simpl; lia. Qed.

Lemma shr_m_shr_1 (mrs : shr_record) :
  0 <= shr_m mrs -> shr_m (shr_1 mrs) = shr_m mrs / 2.
Proof.
  destruct mrs as [m r s]. cbn [shr_m]. intros H.
  destruct m as [|[p|p|]|p]; cbn [shr_1 shr_m]; try reflexivity; try lia.
  - apply Z.div_unique with 1; lia.
  - apply Z.div_unique with 0; lia.
Qed.

Lemma pow2_xI (p : positive) : 2 ^ Zpos p~1 = 2 * (2 ^ Zpos p * 2 ^ Zpos p).
Proof.
  replace (Zpos p~1) with (1 + Zpos p + Zpos p) by lia.
  rewrite !Z.pow_add_r by lia. change (2 ^ 1) with 2. ring.
Qed.

Lemma pow2_xO (p : positive) : 2 ^ Zpos p~0 = 2 ^ Zpos p * 2 ^ Zpos p.
Proof.
  replace (Zpos p~0) with (Zpos p + Zpos p) by lia.
  rewrite !Z.pow_add_r by lia. ring.
Qed.

Lemma iter_pos_shr_1 (p : positive) :
  forall mrs, 0 <= shr_m mrs ->
    shr_m (iter_pos shr_1 p mrs) = shr_m mrs / 2 ^ Zpos p.
Proof.
  assert (forall q, 0 < 2 ^ Zpos q) as Hpos by (intros q; apply Z.pow_pos_nonneg; lia).
  induction p as [p IH|p IH|]; intros mrs H; simpl iter_pos.
  - assert (0 <= shr_m (shr_1 mrs)) as H1
        by (rewrite shr_m_shr_1 by exact H; apply Z.div_pos; lia).
    assert (0 <= shr_m (iter_pos shr_1 p (shr_1 mrs))) as H2
        by (rewrite IH by exact H1; apply Z.div_pos; [exact H1|apply Hpos]).
    rewrite IH by exact H2. rewrite IH by exact H1. rewrite shr_m_shr_1 by exact H.
    specialize (Hpos p).
    rewrite !Z.div_div by lia.
    rewrite pow2_xI. f_equal; ring.
  - assert (0 <= shr_m (iter_pos shr_1 p mrs)) as H2
        by (rewrite IH by exact H; apply Z.div_pos; [exact H|apply Hpos]).
    rewrite IH by exact H2. rewrite IH by exact H.
    specialize (Hpos p).
    rewrite !Z.div_div by lia.
    rewrite pow2_xO. reflexivity.
  - rewrite shr_m_shr_1 by exact H. reflexivity.
Qed.

Lemma shr_m_of_loc (m : Z) (l : location) : shr_m (shr_record_of_loc m l) = m.
Proof. destruct l as [|[]]; reflexivity. Qed.

Lemma shr_fexp_spec (m e : Z) (l : location) :
  0 <= m ->
  shr_m (fst (shr_fexp F32.prec F32.emax m e l)) = m / 2 ^ (exp_after m e - e) /\
  snd (shr_fexp F32.prec F32.emax m e l) = exp_after m e.
Proof.
  intros Hm. unfold shr_fexp, shr, exp_after.
  destruct (fexp32 (Zdigits2 m + e) - e) as [|p|p] eqn:E; cbn [fst snd].
  - rewrite shr_m_of_loc. replace (Z.max _ _ - e) with 0 by lia.
    rewrite Z.div_1_r. split; [reflexivity|lia].
  - rewrite iter_pos_shr_1 by (rewrite shr_m_of_loc; exact Hm).
    rewrite shr_m_of_loc. replace (Z.max _ _ - e) with (Zpos p) by lia.
    split; [reflexivity|lia].
  - rewrite shr_m_of_loc. replace (Z.max _ _ - e) with 0 by lia.
    rewrite Z.div_1_r. split; [reflexivity|lia].
Qed.

Lemma round_nearest_even_range (m : Z) (l : location) :
  m <= round_nearest_even m l <= m + 1.
Proof.
  destruct l as [|[]]; simpl; try lia. destruct (Z.even m); lia.
Qed.

(** [binary_round_aux] in terms of two floor divisions. *)
Lemma binary_round_aux_spec (sx : bool) (mx ex : Z) (lx : location) :
  0 <= mx ->
  let e1 := exp_after mx ex in
  let m1 := rounded_m mx ex lx in
  let e2 := exp_after m1 e1 in
  let m2 := m1 / 2 ^ (e2 - e1) in
  mx / 2 ^ (e1 - ex) <= m1 <= mx / 2 ^ (e1 - ex) + 1 /\
  binary_round_aux F32.prec F32.emax sx mx ex lx =
    match m2 with
    | 0 => S754_zero sx
    | Zpos m => if e2 <=? 104 then S754_finite sx m e2 else S754_infinity sx
    | Zneg _ => S754_nan
    end.
Proof.
  intros Hm e1 m1 e2 m2.
  destruct (shr_fexp_spec mx ex lx Hm) as [Hm1 He1].
  assert (mx / 2 ^ (e1 - ex) <= m1 <= mx / 2 ^ (e1 - ex) + 1) as Hr.
  { unfold m1, rounded_m. fold e1 in Hm1. rewrite <- Hm1.
    apply round_nearest_even_range. }
  split; [exact Hr|].
  assert (0 <= m1) as Hm1pos.
  { assert (0 <= mx / 2 ^ (e1 - ex)) by (apply Z.div_pos; [exact Hm|apply Z.pow_pos_nonneg; unfold e1, exp_after; lia]).
    lia. }
  unfold binary_round_aux.
  destruct (shr_fexp F32.prec F32.emax mx ex lx) as [mrs' e'] eqn:E1.
  cbn [fst snd] in He1, Hm1.
  assert (round_nearest_even (shr_m mrs') (loc_of_shr_record mrs') = m1) as Em1.
  { unfold m1, rounded_m. rewrite E1. reflexivity. }
  rewrite Em1. subst e'. fold e1.
  destruct (shr_fexp_spec m1 e1 loc_Exact Hm1pos) as [Hm2 He2].
  destruct (shr_fexp F32.prec F32.emax m1 e1 loc_Exact) as [mrs'' e''] eqn:E2.
  cbn [fst snd] in He2, Hm2. fold e2 in He2, Hm2. fold m2 in Hm2.
  rewrite Hm2, He2. reflexivity.
Qed.

Lemma pow2_pos (e : Z) : (0 < 2 ^ e)%Q.
Proof. apply Qpower_0_lt. reflexivity. Qed.

Lemma pow2_add (a b : Z) : (2 ^ (a + b) == 2 ^ a * 2 ^ b)%Q.
Proof. apply Qpower_plus. discriminate. Qed.

Lemma pow2_le (a b : Z) : a <= b -> (2 ^ a <= 2 ^ b)%Q.
Proof. intros H. apply Qpower_le_compat_l; [exact H|discriminate]. Qed.

Lemma pow2_lt_inv (a b : Z) : (2 ^ a < 2 ^ b)%Q -> a < b.
Proof. intros H. apply (Qpower_lt_compat_l_inv 2); [exact H|reflexivity]. Qed.

Lemma pow2_Z (n : Z) : 0 <= n -> (inject_Z (2 ^ n) == 2 ^ n)%Q.
Proof. intros H. rewrite Zpower_Qpower by exact H. reflexivity. Qed.

Lemma pow2_succ (a : Z) : (2 ^ (a + 1) == 2 * 2 ^ a)%Q.
Proof. rewrite pow2_add. change (2 ^ 1)%Q with 2%Q. ring. Qed.

Lemma val_shift (m n e : Z) : 0 <= n -> (val (m * 2 ^ n) e == val m (e + n))%Q.
Proof.
  intros H. unfold val. rewrite inject_Z_mult, pow2_Z, pow2_add by exact H. ring.
Qed.

Lemma val_le (m m' e : Z) : m <= m' -> (val m e <= val m' e)%Q.
Proof.
  intros H. unfold val. apply Qmult_le_compat_r.
  - rewrite <- Zle_Qle. exact H.
  - apply Qlt_le_weak, pow2_pos.
Qed.

Lemma val_lt (m m' e : Z) : m < m' -> (val m e < val m' e)%Q.
Proof.
  intros H. unfold val. apply Qmult_lt_compat_r.
  - apply pow2_pos.
  - rewrite <- Zlt_Qlt. exact H.
Qed.

Lemma val_succ (m e : Z) : (val (m + 1) e == val m e + 2 ^ e)%Q.
Proof. unfold val. rewrite inject_Z_plus. change (inject_Z 1) with 1%Q. ring. Qed.

Lemma val_nonneg (m e : Z) : 0 <= m -> (0 <= val m e)%Q.
Proof.
  intros H. unfold val. apply Qmult_le_0_compat.
  - change 0%Q with (inject_Z 0). rewrite <- Zle_Qle. exact H.
  - apply Qlt_le_weak, pow2_pos.
Qed.

(** Dropping [n] bits rounds down by less than one unit of the new
    exponent. *)
Lemma val_floor (m n e : Z) :
  0 <= n ->
  (val (m / 2 ^ n) (e + n) <= val m e /\ val m e < val (m / 2 ^ n) (e + n) + 2 ^ (e + n))%Q.
Proof.
  intros H.
  assert (0 < 2 ^ n) as Hp by (apply Z.pow_pos_nonneg; lia).
  rewrite <- val_succ, <- !val_shift by exact H. split.
  - apply val_le. rewrite Z.mul_comm. apply Z.mul_div_le. exact Hp.
  - apply val_lt. rewrite Z.mul_comm. apply Z.mul_succ_div_gt. exact Hp.
Qed.

Lemma val_digits (p : positive) (e : Z) :
  (2 ^ (Zpos (digits2_pos p) - 1 + e) <= val (Zpos p) e /\
   val (Zpos p) e < 2 ^ (Zpos (digits2_pos p) + e))%Q.
Proof.
  destruct (digits2_bounds p) as [Hl Hu].
  rewrite !pow2_add.
  rewrite <- (pow2_Z (Zpos (digits2_pos p) - 1)), <- (pow2_Z (Zpos (digits2_pos p))) by lia.
  split.
  - apply Qmult_le_compat_r; [|apply Qlt_le_weak, pow2_pos].
    rewrite <- Zle_Qle. exact Hl.
  - apply Qmult_lt_compat_r; [apply pow2_pos|].
    rewrite <- Zlt_Qlt. exact Hu.
Qed.

(** A value below [2^K] has at most [K - e] digits. *)
Lemma digits_of_bound (m e K : Z) :
  0 <= m -> (val m e < 2 ^ K)%Q -> Zdigits2 m + e <= Z.max K e.
Proof.
  intros Hm Hv. destruct m as [|p|p]; [simpl; lia| |lia].
  destruct (val_digits p e) as [Hl _].
  assert (2 ^ (Zpos (digits2_pos p) - 1 + e) < 2 ^ K)%Q as H
      by (eapply Qle_lt_trans; [exact Hl|exact Hv]).
  apply pow2_lt_inv in H. simpl Zdigits2. lia.
Qed.

Lemma fexp32_mono (a b : Z) : a <= b -> fexp32 a <= fexp32 b.
Proof. rewrite !fexp32_eq. lia. Qed.

Lemma to_Q_finite (s : bool) (m : positive) (e : Z) :
  (F32.to_Q (S754_finite s m e) == signed s (val (Zpos m) e))%Q.
Proof.
  assert (F32.to_Q (S754_finite s m e) == val (if s then Zneg m else Zpos m) e)%Q as H.
  { unfold F32.to_Q, val. destruct (0 <=? e) eqn:E.
    - apply Z.leb_le in E. rewrite inject_Z_mult, pow2_Z by lia. reflexivity.
    - apply Z.leb_gt in E.
      assert (0 < 2 ^ (- e)) as Hp by (apply Z.pow_pos_nonneg; lia).
      rewrite Qmake_Qdiv. rewrite Z2Pos.id by exact Hp.
      rewrite pow2_Z by lia. rewrite Qpower_opp. unfold Qdiv.
      rewrite Qinv_involutive. reflexivity. }
  rewrite H. unfold signed, val. destruct s; [|reflexivity].
  change (inject_Z (Zneg m)) with (- inject_Z (Zpos m))%Q. ring.
Qed.

Lemma Qabs_signed_sub (s : bool) (a b : Q) :
  (Qabs (signed s a - signed s b) == Qabs (a - b))%Q.
Proof.
  unfold signed. destruct s; [|reflexivity].
  rewrite <- (Qabs_opp (a - b)). apply Qabs_wd. ring.
Qed.

(** What [binary_round_aux] returns is within two units of its last place
    of the value it is given, when that value is below [2^K] and the result
    cannot overflow. *)
Lemma binary_round_aux_bound (sx : bool) (mx ex : Z) (lx : location) (K B : Z) :
  0 <= mx -> (val mx ex < 2 ^ K)%Q -> ex <= B -> fexp32 (K + 1) <= B -> B <= 104 ->
  F32.is_finite (binary_round_aux F32.prec F32.emax sx mx ex lx) = true /\
  (Qabs (F32.to_Q (binary_round_aux F32.prec F32.emax sx mx ex lx)
         - signed sx (val mx ex)) <= 2 * 2 ^ B)%Q.
Proof.
  intros Hm Hv Hex HK HB.
  destruct (binary_round_aux_spec sx mx ex lx Hm) as [Hr Hres].
  set (e1 := exp_after mx ex) in *.
  set (m1 := rounded_m mx ex lx) in *.
  set (e2 := exp_after m1 e1) in *.
  set (m2 := m1 / 2 ^ (e2 - e1)) in *.
  pose proof (digits_of_bound mx ex K Hm Hv) as Hd.
  rewrite fexp32_eq in HK.
  assert (ex <= e1 <= B) as He1 by (unfold e1, exp_after; rewrite fexp32_eq; lia).
  destruct (val_floor mx (e1 - ex) ex ltac:(lia)) as [Hf1 Hf2].
  replace (ex + (e1 - ex)) with e1 in Hf1, Hf2 by lia.
  set (q0 := mx / 2 ^ (e1 - ex)) in *.
  assert (0 <= q0) as Hq0 by (apply Z.div_pos; [exact Hm|apply Z.pow_pos_nonneg; lia]).
  pose proof (val_le q0 m1 e1 ltac:(lia)) as Hv1.
  pose proof (val_le m1 (q0 + 1) e1 ltac:(lia)) as Hv2.
  rewrite val_succ in Hv2.
  assert (val m1 e1 < 2 ^ (Z.max K e1 + 1))%Q as Hv3.
  { rewrite pow2_succ.
    pose proof (pow2_le K (Z.max K e1) ltac:(lia)).
    pose proof (pow2_le e1 (Z.max K e1) ltac:(lia)).
    set (P1 := (2 ^ e1)%Q) in *. set (PK := (2 ^ K)%Q) in *.
    set (PM := (2 ^ Z.max K e1)%Q) in *.
    set (V := val mx ex) in *. set (V0 := val q0 e1) in *. set (V1 := val m1 e1) in *.
    lra. }
  pose proof (digits_of_bound m1 e1 _ ltac:(lia) Hv3) as Hd1.
  assert (e1 <= e2 <= B) as He2 by (unfold e2, exp_after; rewrite fexp32_eq; lia).
  destruct (val_floor m1 (e2 - e1) e1 ltac:(lia)) as [Hg1 Hg2].
  replace (e1 + (e2 - e1)) with e2 in Hg1, Hg2 by lia.
  fold m2 in Hg1, Hg2.
  assert (0 <= m2) as Hm2 by (apply Z.div_pos; [lia|apply Z.pow_pos_nonneg; lia]).
  assert (F32.is_finite (binary_round_aux F32.prec F32.emax sx mx ex lx) = true /\
          (F32.to_Q (binary_round_aux F32.prec F32.emax sx mx ex lx)
           == signed sx (val m2 e2))%Q) as [Hfin Hq].
  { rewrite Hres. destruct m2 as [|p|p]; [| |lia].
    - split; [reflexivity|]. unfold signed, val. simpl F32.to_Q.
      destruct sx; ring.
    - replace (e2 <=? 104) with true by (symmetry; apply Z.leb_le; lia).
      split; [reflexivity|]. apply to_Q_finite. }
  split; [exact Hfin|].
  rewrite Hq, Qabs_signed_sub.
  pose proof (pow2_le e1 B ltac:(lia)).
  pose proof (pow2_le e2 B ltac:(lia)).
  pose proof (pow2_pos e1). pose proof (pow2_pos e2).
  set (P1 := (2 ^ e1)%Q) in *. set (P2 := (2 ^ e2)%Q) in *. set (PB := (2 ^ B)%Q) in *.
  set (V := val mx ex) in *. set (V0 := val q0 e1) in *. set (V1 := val m1 e1) in *.
  set (V2 := val m2 e2) in *.
  apply Qabs_Qle_condition. split; lra.
Qed.

Lemma iter_xO_val (m d : positive) : Zpos (Pos.iter xO m d) = Zpos m * 2 ^ Zpos d.
Proof.
  induction d as [|d IH] using Pos.peano_ind.
  - simpl. lia.
  - rewrite Pos.iter_succ, Pos2Z.inj_xO, IH, Pos2Z.inj_succ, Z.pow_succ_r by lia. ring.
Qed.

Lemma iter_xO_digits (m d : positive) :
  Zpos (digits2_pos (Pos.iter xO m d)) = Zpos (digits2_pos m) + Zpos d.
Proof.
  induction d as [|d IH] using Pos.peano_ind.
  - simpl. lia.
  - rewrite Pos.iter_succ. simpl digits2_pos. rewrite Pos2Z.inj_succ, IH. lia.
Qed.

(** [shl_align] keeps the value and lowers the exponent to at most [ex']. *)
Lemma shl_align_spec (mx : positive) (ex ex' : Z) :
  (val (Zpos (fst (shl_align mx ex ex'))) (snd (shl_align mx ex ex')) == val (Zpos mx) ex)%Q /\
  snd (shl_align mx ex ex') <= ex'.
Proof.
  unfold shl_align. destruct (ex' - ex) as [|d|d] eqn:E; cbn [fst snd].
  - split; [reflexivity|lia].
  - split; [reflexivity|lia].
  - split; [|lia]. rewrite iter_xO_val, val_shift by lia.
    replace (ex' + Zpos d) with ex by lia. reflexivity.
Qed.

Lemma val_0 (m : Z) : (val m 0 == inject_Z m)%Q.
Proof. unfold val. change (2 ^ 0)%Q with 1%Q. ring. Qed.

(** The conversion of an integer below [2^K] in magnitude. *)
Lemma of_Z_bound (z K B : Z) :
  Z.abs z < 2 ^ K -> fexp32 (K + 1) <= B -> B <= 104 ->
  F32.is_finite (F32.of_Z z) = true /\
  (Qabs (F32.to_Q (F32.of_Z z) - inject_Z z) <= 2 * 2 ^ B)%Q.
Proof.
  intros Hz HK HB.
  assert (0 <= K) as HK0.
  { destruct (Z.le_gt_cases 0 K) as [H|H]; [exact H|].
    rewrite Z.pow_neg_r in Hz by exact H. lia. }
  assert (forall (s : bool) (m : positive),
             Zpos m < 2 ^ K ->
             F32.is_finite (binary_round F32.prec F32.emax s m 0) = true /\
             (Qabs (F32.to_Q (binary_round F32.prec F32.emax s m 0)
                    - signed s (inject_Z (Zpos m))) <= 2 * 2 ^ B)%Q) as Hround.
  { intros s m Hm. unfold binary_round.
    destruct (shl_align_spec m 0 (fexp32 (Zpos (digits2_pos m) + 0))) as [Hv He].
    destruct (shl_align m 0 (fexp32 (Zpos (digits2_pos m) + 0))) as [mz ez].
    cbn [fst snd] in Hv, He.
    assert (val (Zpos m) 0 < 2 ^ K)%Q as Hlt.
    { rewrite val_0, <- pow2_Z by exact HK0. rewrite <- Zlt_Qlt. exact Hm. }
    pose proof (digits_of_bound (Zpos m) 0 K ltac:(lia) Hlt) as Hd.
    simpl Zdigits2 in Hd.
    rewrite fexp32_eq in He, HK.
    assert (signed s (val (Zpos mz) ez) == signed s (inject_Z (Zpos m)))%Q as Hs
        by (unfold signed; destruct s; rewrite Hv, val_0; reflexivity).
    rewrite <- Hs.
    apply binary_round_aux_bound with (K := K); try lia.
    - rewrite Hv. exact Hlt.
    - rewrite fexp32_eq. lia. }
  unfold F32.of_Z, binary_normalize. destruct z as [|m|m].
  - split; [reflexivity|]. simpl F32.to_Q.
    pose proof (pow2_pos B). set (PB := (2 ^ B)%Q) in *.
    apply Qabs_Qle_condition. change (inject_Z 0) with 0%Q. split; lra.
  - apply (Hround false m). exact Hz.
  - destruct (Hround true m ltac:(exact Hz)) as [Hf Hq]. split; [exact Hf|].
    unfold signed in Hq. exact Hq.
Qed.

Lemma binary_round_aux_exact (sx : bool) (m : positive) (e : Z) :
  fexp32 (Zpos (digits2_pos m) + e) = e -> e <= 104 ->
  binary_round_aux F32.prec F32.emax sx (Zpos m) e loc_Exact = S754_finite sx m e.
Proof.
  intros H He. unfold binary_round_aux, shr_fexp. cbn [Zdigits2].
  rewrite H, Z.sub_diag. cbn [shr shr_record_of_loc shr_m loc_of_shr_record round_nearest_even].
  cbn [Zdigits2]. rewrite H, Z.sub_diag. cbn [shr shr_record_of_loc shr_m].
  replace (e <=? F32.emax - F32.prec) with true
    by (symmetry; apply Z.leb_le; unfold F32.emax, F32.prec; lia).
  reflexivity.
Qed.

(** Integers from 1 to [2^24 - 1] are converted exactly. *)
Lemma of_Z_exact (z : Z) :
  0 < z < 2 ^ 24 ->
  exists m e, F32.of_Z z = S754_finite false m e /\ (val (Zpos m) e == inject_Z z)%Q.
Proof.
  intros Hz. destruct z as [|p|p]; try lia.
  unfold F32.of_Z, binary_normalize, binary_round.
  destruct (digits2_bounds p) as [Hl Hu].
  assert (Zpos (digits2_pos p) <= 24) as Hd.
  { assert (2 ^ (Zpos (digits2_pos p) - 1) < 2 ^ 24) as H by lia.
    apply Z.pow_lt_mono_r_iff in H; lia. }
  rewrite Z.add_0_r.
  assert (fexp32 (Zpos (digits2_pos p)) = Zpos (digits2_pos p) - 24) as Ef
      by (rewrite fexp32_eq; lia).
  rewrite Ef. unfold shl_align.
  destruct (Zpos (digits2_pos p) - 24 - 0) as [|d|d] eqn:E; try lia.
  - exists p, 0. split; [|apply val_0].
    apply binary_round_aux_exact; [|lia].
    rewrite Z.add_0_r, Ef. lia.
  - exists (Pos.iter xO p d), (Zpos (digits2_pos p) - 24). split.
    + apply binary_round_aux_exact; [|lia].
      rewrite iter_xO_digits, fexp32_eq. lia.
    + rewrite iter_xO_val, val_shift by lia.
      replace (Zpos (digits2_pos p) - 24 + Zpos d) with 0 by lia. apply val_0.
Qed.

Lemma val_pos (p : positive) (e : Z) : (0 < val (Zpos p) e)%Q.
Proof.
  unfold val. apply Qmult_lt_0_compat; [reflexivity|apply pow2_pos].
Qed.

(** The quotient [SFdiv_core_binary] hands to the rounding: its value is
    the exact quotient rounded down by less than one unit of its exponent,
    and its exponent is that of the format for the quotient. *)
Lemma div_core_spec (mx : positive) (ex : Z) (my : positive) (ey : Z) :
  let c := SFdiv_core_binary F32.prec F32.emax (Zpos mx) ex (Zpos my) ey in
  let q := fst (fst c) in
  let e' := snd (fst c) in
  0 <= q /\
  e' <= fexp32 (Zpos (digits2_pos mx) + ex - (Zpos (digits2_pos my) + ey)) /\
  (val q e' <= val (Zpos mx) ex / val (Zpos my) ey /\
   val (Zpos mx) ex / val (Zpos my) ey < val q e' + 2 ^ e')%Q.
Proof.
  unfold SFdiv_core_binary. cbn [Zdigits2].
  set (e' := Z.min (fexp32 (Zpos (digits2_pos mx) + ex - (Zpos (digits2_pos my) + ey)))
               (ex - ey)).
  set (s := ex - ey - e').
  assert (0 <= s) as Hs by (unfold s, e'; lia).
  set (m' := match s with Zpos _ => Z.shiftl (Zpos mx) s | 0 => Zpos mx | Zneg _ => 0 end).
  assert (m' = Zpos mx * 2 ^ s) as Em'.
  { unfold m'. destruct s as [|p|p]; [simpl; lia| |lia].
    apply Z.shiftl_mul_pow2. lia. }
  pose proof (Z_div_mod m' (Zpos my) ltac:(lia)) as Hdm.
  destruct (Z.div_eucl m' (Zpos my)) as [q r]. cbn [fst snd].
  destruct Hdm as [Eq Hr].
  assert (0 < m') as Hm' by (rewrite Em'; apply Z.mul_pos_pos; [lia|apply Z.pow_pos_nonneg; lia]).
  assert (0 <= q) as Hq by nia.
  split; [exact Hq|]. split; [unfold e'; lia|].
  assert (val (Zpos mx) ex / val (Zpos my) ey == val m' e' / inject_Z (Zpos my))%Q as Ev.
  { rewrite Em', val_shift by exact Hs. unfold val.
    replace (e' + s) with (ex - ey) by (unfold s; lia).
    rewrite Qpower_minus by discriminate.
    field. split.
    - apply Qnot_eq_sym, Qlt_not_eq, pow2_pos.
    - discriminate. }
  rewrite Ev.
  assert (0 < inject_Z (Zpos my))%Q as Hy by reflexivity.
  split.
  - apply Qle_shift_div_l; [exact Hy|].
    unfold val. rewrite <- Qmult_assoc, (Qmult_comm (2 ^ e')), Qmult_assoc.
    rewrite <- inject_Z_mult.
    apply Qmult_le_compat_r; [|apply Qlt_le_weak, pow2_pos].
    rewrite <- Zle_Qle. nia.
  - apply Qlt_shift_div_r; [exact Hy|].
    rewrite <- val_succ. unfold val.
    rewrite <- Qmult_assoc, (Qmult_comm (2 ^ e')), Qmult_assoc.
    rewrite <- inject_Z_mult.
    apply Qmult_lt_compat_r; [apply pow2_pos|].
    rewrite <- Zlt_Qlt. nia.
Qed.

(** The division of a finite float by a positive finite float, when the
    quotient is below [2^K] in magnitude. *)
Lemma div_bound (x : F32.float) (my : positive) (ey : Z) (K B : Z) :
  F32.is_finite x = true ->
  (Qabs (F32.to_Q x) / val (Zpos my) ey < 2 ^ K)%Q ->
  fexp32 (K + 1) <= B -> B <= 104 ->
  F32.is_finite (F32.div x (S754_finite false my ey)) = true /\
  (Qabs (F32.to_Q (F32.div x (S754_finite false my ey))
         - F32.to_Q x / val (Zpos my) ey) <= 3 * 2 ^ B)%Q.
Proof.
  intros Hx Hv HK HB.
  pose proof (pow2_pos B) as HPB.
  pose proof (val_pos my ey) as HY.
  destruct x as [s|s| |sx mx ex]; try discriminate Hx.
  - unfold F32.div, SFdiv. split; [reflexivity|]. simpl F32.to_Q.
    assert (0 - 0 / val (Zpos my) ey == 0)%Q as E by (unfold Qdiv; ring).
    rewrite E. simpl Qabs. set (PB := (2 ^ B)%Q) in *. lra.
  - unfold F32.div, SFdiv.
    pose proof (div_core_spec mx ex my ey) as Hc.
    destruct (SFdiv_core_binary F32.prec F32.emax (Zpos mx) ex (Zpos my) ey)
      as [[q e'] l].
    cbn [fst snd] in Hc. destruct Hc as (Hq & He' & Hlo & Hhi).
    rewrite xorb_false_r.
    pose proof (val_pos mx ex) as HX.
    assert (Qabs (F32.to_Q (S754_finite sx mx ex)) == val (Zpos mx) ex)%Q as Ea.
    { rewrite to_Q_finite. unfold signed. destruct sx.
      - rewrite Qabs_opp. apply Qabs_pos. apply Qlt_le_weak. exact HX.
      - apply Qabs_pos. apply Qlt_le_weak. exact HX. }
    rewrite Ea in Hv.
    set (X := val (Zpos mx) ex) in *. set (Y := val (Zpos my) ey) in *.
    set (T := (X / Y)%Q) in *.
    assert (X == T * Y)%Q as EX
        by (unfold T; field; apply Qnot_eq_sym, Qlt_not_eq; exact HY).
    assert (0 < T)%Q as HT.
    { unfold T. apply Qlt_shift_div_l; [exact HY|]. lra. }
    (* the exponent of the quotient *)
    destruct (val_digits mx ex) as [Hdx _]. fold X in Hdx.
    destruct (val_digits my ey) as [_ Hdy]. fold Y in Hdy.
    assert (Zpos (digits2_pos mx) - 1 + ex < K + (Zpos (digits2_pos my) + ey)) as Hd.
    { apply pow2_lt_inv. rewrite (pow2_add K).
      set (PX := (2 ^ (Zpos (digits2_pos mx) - 1 + ex))%Q) in *.
      set (PY := (2 ^ (Zpos (digits2_pos my) + ey))%Q) in *.
      set (PK := (2 ^ K)%Q) in *.
      apply Qle_lt_trans with X; [exact Hdx|].
      rewrite EX.
      apply Qlt_trans with (T * PY)%Q.
      - rewrite !(Qmult_comm T). apply Qmult_lt_compat_r; assumption.
      - apply Qmult_lt_compat_r; [|exact Hv]. lra. }
    rewrite fexp32_eq in He', HK.
    assert (e' <= B) as HeB by lia.
    assert (val q e' < 2 ^ K)%Q as HqK by (eapply Qle_lt_trans; [exact Hlo|exact Hv]).
    destruct (binary_round_aux_bound sx q e' l K B Hq HqK HeB
                ltac:(rewrite fexp32_eq; lia) HB) as [Hf Hb].
    split; [exact Hf|].
    assert (F32.to_Q (S754_finite sx mx ex) / Y == signed sx T)%Q as ET.
    { rewrite to_Q_finite. fold X. unfold signed, T. destruct sx; [|reflexivity].
      unfold Qdiv. ring. }
    rewrite ET.
    pose proof (pow2_le e' B HeB) as Hp.
    set (R := F32.to_Q (binary_round_aux F32.prec F32.emax sx q e' l)) in *.
    set (V := val q e') in *.
    set (P' := (2 ^ e')%Q) in *. set (PB := (2 ^ B)%Q) in *.
    apply Qabs_Qle_condition in Hb. apply Qabs_Qle_condition.
    unfold signed in *. destruct sx; split; lra.
Qed.

Lemma Qabs_div_le (a b d e : Q) :
  (0 < d -> Qabs (a - b) <= e -> Qabs (a / d - b / d) <= e / d)%Q.
Proof.
  intros Hd H.
  assert (a / d - b / d == (a - b) * / d)%Q as E by (unfold Qdiv; ring).
  rewrite E, Qabs_Qmult.
  assert (0 < / d)%Q as Hi by (apply Qinv_lt_0_compat; exact Hd).
  rewrite (Qabs_pos (/ d)) by (apply Qlt_le_weak; exact Hi).
  unfold Qdiv. apply Qmult_le_compat_r; [exact H|apply Qlt_le_weak; exact Hi].
Qed.

Lemma Qabs_triangle_sub (a b c : Q) (e1 e2 : Q) :
  (Qabs (a - b) <= e1 -> Qabs (b - c) <= e2 -> Qabs (a - c) <= e1 + e2)%Q.
Proof.
  intros H1 H2. apply Qabs_Qle_condition in H1. apply Qabs_Qle_condition in H2.
  apply Qabs_Qle_condition. split; lra.
Qed.

Lemma Qabs_bound_of (a b e : Q) :
  (Qabs (a - b) <= e -> Qabs a <= Qabs b + e)%Q.
Proof.
  intros H. apply Qabs_Qle_condition in H.
  pose proof (Qle_Qabs b). pose proof (Qle_Qabs (- b)). rewrite Qabs_opp in *.
  apply Qabs_Qle_condition. split; lra.
Qed.

Lemma log2_pow2_Q (z : Z) :
  0 < z -> (2 ^ Z.log2 z <= inject_Z z /\ inject_Z z < 2 * 2 ^ Z.log2 z)%Q.
Proof.
  intros Hz. destruct (Z.log2_spec z Hz) as [Hl Hu].
  pose proof (Z.log2_nonneg z) as Hn.
  rewrite <- pow2_succ, <- !pow2_Z by lia.
  rewrite <- Zle_Qle, <- Zlt_Qlt. replace (Z.log2 z + 1) with (Z.succ (Z.log2 z)) by lia.
  split; assumption.
Qed.

(** The float average is within 11/128 of a scale unit of the exact
    average. *)
Lemma average_of_bound (SCALE S D : Z) :
  1 <= D <= 32767 -> 1 <= SCALE <= 32767 -> Z.abs S <= 32768 * D ->
  F32.is_finite (average_of SCALE S D) = true /\
  (Qabs (F32.to_Q (average_of SCALE S D)
         - inject_Z S / inject_Z D / inject_Z SCALE) <= (11 # 128) / inject_Z SCALE)%Q.
Proof.
  intros HD HSC HS. unfold average_of.
  (* the operands *)
  destruct (of_Z_exact D ltac:(change (2 ^ 24) with 16777216; lia)) as (mD & eD & ED & VD).
  destruct (of_Z_exact SCALE ltac:(change (2 ^ 24) with 16777216; lia)) as (mS & eS & ES & VS).
  rewrite ED, ES.
  set (L := Z.log2 D). set (LS := Z.log2 SCALE).
  destruct (Z.log2_spec D ltac:(lia)) as [HL1 HL2]. fold L in HL1, HL2.
  destruct (Z.log2_spec SCALE ltac:(lia)) as [HLS1 HLS2]. fold LS in HLS1, HLS2.
  assert (0 <= L <= 14) as HL.
  { split; [apply Z.log2_nonneg|]. 
    assert (2 ^ L < 2 ^ 15) as H by (change (2 ^ 15) with 32768; lia).
    apply Z.pow_lt_mono_r_iff in H; lia. }
  assert (0 <= LS <= 14) as HLS.
  { split; [apply Z.log2_nonneg|]. 
    assert (2 ^ LS < 2 ^ 15) as H by (change (2 ^ 15) with 32768; lia).
    apply Z.pow_lt_mono_r_iff in H; lia. }
  destruct (log2_pow2_Q D ltac:(lia)) as [QL1 QL2]. fold L in QL1, QL2.
  destruct (log2_pow2_Q SCALE ltac:(lia)) as [QS1 QS2]. fold LS in QS1, QS2.
  assert (0 < inject_Z D)%Q as Hd by (change 0%Q with (inject_Z 0); rewrite <- Zlt_Qlt; lia).
  assert (0 < inject_Z SCALE)%Q as Hc by (change 0%Q with (inject_Z 0); rewrite <- Zlt_Qlt; lia).
  assert (Qabs (inject_Z S) <= 32768 * inject_Z D)%Q as HsQ.
  { change (Qabs (inject_Z S)) with (inject_Z (Z.abs S)).
    change 32768%Q with (inject_Z 32768).
    rewrite <- inject_Z_mult, <- Zle_Qle. exact HS. }
  (* the sum *)
  destruct (of_Z_bound S (L + 16) (L - 7)) as [F1 B1].
  { replace (Z.succ L) with (L + 1) in HL2 by lia.
    rewrite Z.pow_add_r in * by lia. change (2 ^ 16) with 65536. change (2 ^ 1) with 2 in HL2.
    lia. }
  { rewrite fexp32_eq. lia. }
  { lia. }
  assert (2 * 2 ^ (L - 7) <= inject_Z D / 64)%Q as HP1.
  { replace (L - 7) with (L + (-7)) by lia. rewrite pow2_add.
    assert (2 ^ (-7) == 1 # 128)%Q as E7 by reflexivity. rewrite E7.
    set (PL := (2 ^ L)%Q) in *. set (d := inject_Z D) in *.
    apply Qle_shift_div_l; [reflexivity|]. lra. }
  set (f1 := F32.of_Z S) in *.
  (* the first division *)
  destruct (div_bound f1 mD eD 16 (-7) F1) as [F2 B2].
  { rewrite VD. apply Qlt_shift_div_r; [exact Hd|].
    pose proof (Qabs_bound_of _ _ _ B1) as Hb.
    set (A := Qabs (F32.to_Q f1)) in *. set (As := Qabs (inject_Z S)) in *.
    set (d := inject_Z D) in *. set (P := (2 ^ (L - 7))%Q) in *.
    assert (d / 64 == d * (1 # 64))%Q as E by (unfold Qdiv; reflexivity).
    lra. }
  { rewrite fexp32_eq. lia. }
  { lia. }
  rewrite VD in B2. change (2 ^ (-7))%Q with (1 # 128)%Q in B2.
  set (f2 := F32.div f1 (S754_finite false mD eD)) in *.
  assert (Qabs (F32.to_Q f2 - inject_Z S / inject_Z D) <= 5 # 128)%Q as B2'.
  { pose proof (Qabs_div_le _ _ _ _ Hd B1) as Hq.
    assert (2 * 2 ^ (L - 7) / inject_Z D <= 1 # 64)%Q as Hq'.
    { apply Qle_shift_div_r; [exact Hd|].
      assert (inject_Z D / 64 == (1 # 64) * inject_Z D)%Q as E
          by (unfold Qdiv; change (/ 64)%Q with (1 # 64)%Q; ring).
      rewrite <- E. exact HP1. }
    pose proof (Qabs_triangle_sub _ _ _ _ _ B2 Hq) as Ht.
    eapply Qle_trans; [exact Ht|]. 
    set (Z1 := (2 * 2 ^ (L - 7) / inject_Z D)%Q) in *. lra. }
  assert (Qabs (inject_Z S / inject_Z D) <= 32768)%Q as Hmean.
  { unfold Qdiv. rewrite Qabs_Qmult.
    assert (0 < / inject_Z D)%Q as Hi by (apply Qinv_lt_0_compat; exact Hd).
    rewrite (Qabs_pos (/ inject_Z D)) by (apply Qlt_le_weak; exact Hi).
    apply Qle_shift_div_r; [exact Hd|]. exact HsQ. }
  assert (Qabs (F32.to_Q f2) < 65536)%Q as Hf2.
  { pose proof (Qabs_bound_of _ _ _ B2') as Hb.
    set (A := Qabs (F32.to_Q f2)) in *. set (M := Qabs (inject_Z S / inject_Z D)) in *.
    lra. }
  (* the second division *)
  destruct (div_bound f2 mS eS (16 - LS) (- 7 - LS) F2) as [F3 B3].
  { rewrite VS.
    apply Qlt_le_trans with (65536 / inject_Z SCALE)%Q.
    - unfold Qdiv. apply Qmult_lt_compat_r; [apply Qinv_lt_0_compat; exact Hc|exact Hf2].
    - apply Qle_shift_div_r; [exact Hc|].
      assert (2 ^ (16 - LS) * 2 ^ LS == 65536)%Q as E
          by (rewrite <- pow2_add; replace (16 - LS + LS) with 16 by lia; reflexivity).
      pose proof (pow2_pos (16 - LS)) as Hp.
      rewrite <- E. rewrite !(Qmult_comm (2 ^ (16 - LS))).
      apply Qmult_le_compat_r; [exact QS1|apply Qlt_le_weak; exact Hp]. }
  { rewrite fexp32_eq. lia. }
  { lia. }
  rewrite VS in B3.
  set (f3 := F32.div f2 (S754_finite false mS eS)) in *.
  assert (3 * 2 ^ (- 7 - LS) <= (3 # 64) / inject_Z SCALE)%Q as HP3.
  { apply Qle_shift_div_l; [exact Hc|].
    assert (2 ^ (- 7 - LS) * 2 ^ LS == 1 # 128)%Q as E
        by (rewrite <- pow2_add; replace (- 7 - LS + LS) with (-7) by lia; reflexivity).
    pose proof (pow2_pos (- 7 - LS)) as Hp.
    assert (2 ^ (- 7 - LS) * inject_Z SCALE <= 2 ^ (- 7 - LS) * (2 * 2 ^ LS))%Q as Hm.
    { rewrite !(Qmult_comm (2 ^ (- 7 - LS))).
      apply Qmult_le_compat_r; [apply Qlt_le_weak; exact QS2|apply Qlt_le_weak; exact Hp]. }
    set (P3 := (2 ^ (- 7 - LS))%Q) in *. set (PS := (2 ^ LS)%Q) in *.
    set (c := inject_Z SCALE) in *.
    assert (P3 * (2 * PS) == 2 * (P3 * PS))%Q as E2 by ring.
    lra. }
  split; [exact F3|].
  pose proof (Qabs_div_le _ _ _ _ Hc B2') as Hq.
  pose proof (Qabs_triangle_sub _ _ _ _ _ B3 Hq) as Ht.
  eapply Qle_trans; [exact Ht|].
  assert ((11 # 128) / inject_Z SCALE == (3 # 64) / inject_Z SCALE + (5 # 128) / inject_Z SCALE)%Q
    as E by (field; apply Qnot_eq_sym, Qlt_not_eq; exact Hc).
  rewrite E.
  set (U := ((3 # 64) / inject_Z SCALE)%Q) in *.
  set (W := ((5 # 128) / inject_Z SCALE)%Q) in *.
  set (P3 := (2 ^ (- 7 - LS))%Q) in *.
  lra.
Qed.

End FloatRounding.

(** ** The moving average is the mean of its window *)

Section WindowAverage.

Import MovingAverage.

Lemma window_int16 (N SCALE : Z) (xs : list F32.float) :
  Forall (fun z => -32768 <= z <= 32767) (window N SCALE xs).
Proof.
  unfold window, lastn.
  assert (Forall (fun z => -32768 <= z <= 32767) (map (toFixed_ SCALE) xs)) as H.
  { apply Forall_forall. intros z Hz. apply in_map_iff in Hz as (x & <- & _).
    apply toFixed_int16. }
  set (n := (List.length (map (toFixed_ SCALE) xs)
             - Nat.min (Z.to_nat N) (List.length xs))%nat) in *.
  rewrite <- (firstn_skipn n (map (toFixed_ SCALE) xs)) in H.
  apply Forall_app in H. exact (proj2 H).
Qed.

Lemma window_length (N SCALE : Z) (xs : list F32.float) :
  List.length (window N SCALE xs) = Nat.min (Z.to_nat N) (List.length xs).
Proof.
  unfold window. apply lastn_length. rewrite length_map. lia.
Qed.



End WindowAverage.

(** ** The pulse train of MOD2 *)

Section RelayTraces.

Import Arduino.

Variables r1 r2 : Z.

Lemma after_app (p : Relays.Pair) (a b : Trace) :
  Relays.after r1 r2 p (a ++ b) = Relays.after r1 r2 (Relays.after r1 r2 p a) b.
Proof. unfold Relays.after. apply fold_left_app. Qed.

Lemma count_9V_on_app (p : Relays.Pair) (a b : Trace) :
  Relays.count_9V_on r1 r2 p (a ++ b)
  = (Relays.count_9V_on r1 r2 p a
     + Relays.count_9V_on r1 r2 (Relays.after r1 r2 p a) b)%nat.
Proof.
  revert p. induction a as [|ev a IH]; intros p; simpl; [reflexivity|].
  rewrite IH. lia.
Qed.

Lemma count_final_lifts_app (a b : Trace) :
  Relays.count_final_lifts (a ++ b)
  = (Relays.count_final_lifts a + Relays.count_final_lifts b)%nat.
Proof. unfold Relays.count_final_lifts. rewrite filter_app, length_app. reflexivity. Qed.

(** A trace that leaves the relay pins alone changes neither the outputs
    nor the count. *)
Lemma untouched_after (p : Relays.Pair) (tr : Trace) :
  Relays.untouched r1 r2 tr = true -> Relays.after r1 r2 p tr = p.
Proof.
  revert p. induction tr as [|ev tr IH]; intros p H; simpl in *; [reflexivity|].
  apply andb_true_iff in H. destruct H as [He Ht].
  rewrite IH by exact Ht.
  destruct ev; simpl; try reflexivity.
  apply andb_true_iff in He. destruct He as [H1 H2].
  apply negb_true_iff in H1, H2. rewrite H1, H2. destruct p; reflexivity.
Qed.

Lemma untouched_count (p : Relays.Pair) (tr : Trace) :
  Relays.untouched r1 r2 tr = true -> Relays.count_9V_on r1 r2 p tr = O.
Proof.
  revert p. induction tr as [|ev tr IH]; intros p H; simpl in *; [reflexivity|].
  apply andb_true_iff in H. destruct H as [He Ht].
  assert (Relays.apply r1 r2 p ev = p) as E.
  { destruct ev; simpl; try reflexivity.
    apply andb_true_iff in He. destruct He as [H1 H2].
    apply negb_true_iff in H1, H2. rewrite H1, H2. destruct p; reflexivity. }
  rewrite E, IH by exact Ht.
  destruct (Relays.is_9V p); reflexivity.
Qed.

Section WithDriver.

Variable s : StepperDriver.t.
Hypothesis Hw : Relays.wired r1 r2 s = true.

Lemma wired_facts :
  (r1 =? r2) = false /\ (r2 =? r1) = false /\
  (StepperDriver.pSTEP_ s =? r1) = false /\ (StepperDriver.pSTEP_ s =? r2) = false /\
  (StepperDriver.pDIR_ s =? r1) = false /\ (StepperDriver.pDIR_ s =? r2) = false /\
  (StepperDriver.pEN_ s =? r1) = false /\ (StepperDriver.pEN_ s =? r2) = false.
Proof.
  unfold Relays.wired in Hw.
  repeat match goal with
         | H : _ && _ = true |- _ => apply andb_true_iff in H; destruct H
         | H : negb _ = true |- _ => apply negb_true_iff in H
         end.
  rewrite (Z.eqb_sym r2 r1). auto 10.
Qed.

Lemma update_untouched (now : Z) :
  Relays.untouched r1 r2 (snd (StepperDriver.update now s)) = true.
Proof.
  destruct wired_facts as (_ & _ & A & B & _).
  destruct (update_trace_cases now s) as [-> | ->]; simpl; [reflexivity|].
  rewrite A, B. reflexivity.
Qed.

Lemma setSpeedMmPerSec_untouched (v : F32.float) :
  Relays.untouched r1 r2 (snd (StepperDriver.setSpeedMmPerSec v s)) = true.
Proof.
  destruct wired_facts as (_ & _ & _ & _ & A & B & _).
  unfold StepperDriver.setSpeedMmPerSec.
  repeat match goal with
         | |- context [if ?c then _ else _] => destruct c
         end; simpl; rewrite ?A, ?B; reflexivity.
Qed.

Lemma moveRelativeMm_untouched (dx v : F32.float) :
  Relays.untouched r1 r2 (snd (StepperDriver.moveRelativeMm dx v s)) = true.
Proof.
  destruct wired_facts as (_ & _ & _ & _ & A & B & _).
  simpl. rewrite A, B. reflexivity.
Qed.

Lemma enable_untouched (on : bool) :
  Relays.untouched r1 r2 (snd (StepperDriver.enable on s)) = true.
Proof.
  destruct wired_facts as (_ & _ & _ & _ & _ & _ & A & B).
  simpl. rewrite A, B. reflexivity.
Qed.

End WithDriver.

Lemma update_pins (now : Z) (s : StepperDriver.t) :
  Relays.wired r1 r2 (fst (StepperDriver.update now s)) = Relays.wired r1 r2 s.
Proof.
  unfold StepperDriver.update.
  destruct (StepperDriver.idle s); [reflexivity|].
  destruct (StepperDriver.period_us s); [|reflexivity].
  destruct (StepperDriver.step_due now s); [|reflexivity].
  simpl. unfold StepperDriver.check_target. simpl.
  destruct (StepperDriver.motion_ s); try reflexivity.
  match goal with |- context [if ?c then _ else _] => destruct c end; reflexivity.
Qed.

Lemma setSpeedMmPerSec_pins (v : F32.float) (s : StepperDriver.t) :
  Relays.wired r1 r2 (fst (StepperDriver.setSpeedMmPerSec v s)) = Relays.wired r1 r2 s.
Proof.
  unfold StepperDriver.setSpeedMmPerSec.
  repeat match goal with
         | |- context [if ?c then _ else _] => destruct c
         end; reflexivity.
Qed.

Lemma moveRelativeMm_pins (dx v : F32.float) (s : StepperDriver.t) :
  Relays.wired r1 r2 (fst (StepperDriver.moveRelativeMm dx v s)) = Relays.wired r1 r2 s.
Proof. reflexivity. Qed.

Lemma update_lifts (now : Z) (s : StepperDriver.t) :
  Relays.count_final_lifts (snd (StepperDriver.update now s)) = O.
Proof. destruct (update_trace_cases now s) as [-> | ->]; reflexivity. Qed.

Lemma setSpeedMmPerSec_lifts (v : F32.float) (s : StepperDriver.t) :
  Relays.count_final_lifts (snd (StepperDriver.setSpeedMmPerSec v s)) = O.
Proof.
  unfold StepperDriver.setSpeedMmPerSec.
  repeat match goal with
         | |- context [if ?c then _ else _] => destruct c
         end; reflexivity.
Qed.

Lemma moveRelativeMm_lifts (dx v : F32.float) (s : StepperDriver.t) :
  Relays.count_final_lifts (snd (StepperDriver.moveRelativeMm dx v s))
  = if Relays.is_final_lift (EvMoveRelativeMm dx v) then 1%nat else O.
Proof.
  unfold Relays.count_final_lifts. simpl.
  destruct (F32.eqb dx _ && F32.eqb v _); reflexivity.
Qed.

End RelayTraces.

Section StepperQuiet.

Import StepperDriver.

Lemma update_idle (now : Z) (s : t) :
  idle s = true -> update now s = (set_tNextStep (MachInt.wrap_u32 now) s, []).
Proof. intros H. unfold update. rewrite H. reflexivity. Qed.

Lemma update_idle_keeps (now : Z) (s : t) :
  idle s = true ->
  idle (fst (update now s)) = true /\
  positionMm (fst (update now s)) = positionMm s.
Proof. intros H. rewrite (update_idle now s H). simpl. auto. Qed.

(** A target move stays a target move or ends at rest. *)
Lemma update_ToTarget (now : Z) (s : t) :
  motion_ s = ToTarget ->
  motion_ (fst (update now s)) = ToTarget \/ idle (fst (update now s)) = true.
Proof.
  intros H. unfold update.
  destruct (idle s); [simpl; auto|].
  destruct (period_us s); [|simpl; auto].
  destruct (step_due now s); [|simpl; auto].
  simpl. unfold check_target. simpl. rewrite H.
  match goal with |- context [if ?c then _ else _] => destruct c end; simpl; auto.
Qed.

Lemma moveRelativeMm_ToTarget (dx v : F32.float) (s : t) :
  motion_ (fst (moveRelativeMm dx v s)) = ToTarget.
Proof. reflexivity. Qed.

Lemma not_busy_of_step (s : t) :
  motion_ s = ToTarget \/ idle s = true -> isBusy s = false -> idle s = true.
Proof.
  unfold isBusy. intros [H | H] Hb; [|exact H].
  rewrite H in Hb. discriminate Hb.
Qed.

End StepperQuiet.

Section PulseFacts.

Lemma wrap_u8_small (z : Z) : 0 <= z < 256 -> MachInt.wrap_u8 z = z.
Proof. intros H. unfold MachInt.wrap_u8. apply Z.mod_small. exact H. Qed.

(** The plunges move at 1 mm/s: they are no final lifts. *)
Lemma plunge_is_no_final_lift (dx : F32.float) :
  Relays.is_final_lift (Arduino.EvMoveRelativeMm dx (F32.of_Z 1)) = false.
Proof. unfold Relays.is_final_lift. apply andb_false_r. Qed.

Lemma final_lift_is_final_lift :
  Relays.is_final_lift
    (Arduino.EvMoveRelativeMm (F32.neg (F32.of_Z 30)) (F32.of_Z 3)) = true.
Proof. reflexivity. Qed.

End PulseFacts.

Section PulseTrain.

Import Arduino.

Variables r1 r2 : Z.
Variable P : Z.
Variable w0 : World.t.
Variable p0 : Relays.Pair.
Hypothesis HP : 1 <= P <= 255.

Local Abbreviation early := PulseInv.early.
Local Abbreviation state_facts := (PulseInv.state_facts P).
Local Abbreviation run_inv := (PulseInv.run_inv r1 r2 P w0 p0).

(** Establishing the invariant after a step that wrote [evs]. *)
Lemma run_inv_step (m' : Mod2Mode.t) (w w' : World.t) (tr evs : Trace) :
  World.trace w = World.trace w0 ++ tr ->
  World.trace w' = World.trace w ++ evs ->
  Mod2Mode.relayPin1_ m' = r1 ->
  Mod2Mode.relayPin2_ m' = r2 ->
  Relays.wired r1 r2 (World.stepper w') = true ->
  Parameters.pulseCount (Parameters.mod2 (World.gParams w')) = P ->
  state_facts m' (World.stepper w')
    (Relays.after r1 r2 (Relays.after r1 r2 p0 tr) evs)
    (Relays.count_9V_on r1 r2 p0 tr
     + Relays.count_9V_on r1 r2 (Relays.after r1 r2 p0 tr) evs)
    (Relays.count_final_lifts tr + Relays.count_final_lifts evs) ->
  run_inv m' w'.
Proof.
  intros Ht Ht' H1 H2 Hw HPc Hf.
  unfold run_inv. repeat (split; [assumption|]).
  exists (tr ++ evs). split.
  - rewrite Ht', Ht, app_assoc. reflexivity.
  - rewrite after_app, count_9V_on_app, count_final_lifts_app. exact Hf.
Qed.

Opaque StepperDriver.update StepperDriver.setSpeedMmPerSec StepperDriver.moveRelativeMm
  StepperDriver.moveToMm MovingAverage.update MovingAverage.reset.

Ltac wired_tac :=
  simpl; rewrite ?update_pins, ?setSpeedMmPerSec_pins, ?moveRelativeMm_pins;
  simpl; rewrite ?update_pins, ?setSpeedMmPerSec_pins, ?moveRelativeMm_pins;
  assumption.

(** The calls into the stepper driver leave the relays alone and issue no
    final lift, except the final lift itself. *)
Ltac pieces :=
  repeat match goal with
    | |- context [Relays.after ?a ?b ?q (snd (StepperDriver.update ?n ?s))] =>
        rewrite (untouched_after a b q _ (update_untouched a b s ltac:(wired_tac) n))
    | |- context [Relays.count_9V_on ?a ?b ?q (snd (StepperDriver.update ?n ?s))] =>
        rewrite (untouched_count a b q _ (update_untouched a b s ltac:(wired_tac) n))
    | |- context [Relays.after ?a ?b ?q (snd (StepperDriver.setSpeedMmPerSec ?v ?s))] =>
        rewrite (untouched_after a b q _
                   (setSpeedMmPerSec_untouched a b s ltac:(wired_tac) v))
    | |- context [Relays.count_9V_on ?a ?b ?q (snd (StepperDriver.setSpeedMmPerSec ?v ?s))] =>
        rewrite (untouched_count a b q _
                   (setSpeedMmPerSec_untouched a b s ltac:(wired_tac) v))
    | |- context [Relays.after ?a ?b ?q (snd (StepperDriver.moveRelativeMm ?d ?v ?s))] =>
        rewrite (untouched_after a b q _
                   (moveRelativeMm_untouched a b s ltac:(wired_tac) d v))
    | |- context [Relays.count_9V_on ?a ?b ?q (snd (StepperDriver.moveRelativeMm ?d ?v ?s))] =>
        rewrite (untouched_count a b q _
                   (moveRelativeMm_untouched a b s ltac:(wired_tac) d v))
    | |- context [Relays.after ?a ?b ?q (snd (StepperDriver.enable ?o ?s))] =>
        rewrite (untouched_after a b q _ (enable_untouched a b s ltac:(wired_tac) o))
    | |- context [Relays.count_9V_on ?a ?b ?q (snd (StepperDriver.enable ?o ?s))] =>
        rewrite (untouched_count a b q _ (enable_untouched a b s ltac:(wired_tac) o))
    end;
  rewrite ?update_lifts, ?setSpeedMmPerSec_lifts, ?moveRelativeMm_lifts,
    ?plunge_is_no_final_lift, ?final_lift_is_final_lift.

(** One call of [Mod2Mode::step] keeps the invariant, and reports
    completion only in the state Done. *)
Lemma step_inv (i : Inputs) (m : Mod2Mode.t) (w : World.t) :
  run_inv m w ->
  run_inv (snd (fst (Mod2Mode.step i m w))) (snd (Mod2Mode.step i m w)) /\
  (fst (fst (Mod2Mode.step i m w)) = true ->
   Mod2Mode.st_ (snd (fst (Mod2Mode.step i m w))) = Mod2Mode.Done).
Proof.
  intros (H1 & H2 & Hw & HPc & tr & Ht & Hf).
  destruct (wired_facts r1 r2 _ Hw) as (E12 & E21 & _).
  remember (Relays.after r1 r2 p0 tr) as q eqn:Hq.
  remember (Relays.count_9V_on r1 r2 p0 tr) as c eqn:Hc.
  remember (Relays.count_final_lifts tr) as l eqn:Hl.
  destruct q as [qa qb].
  unfold Mod2Mode.step.
  destruct (out_of_range _) eqn:Hz.
  - (* the soft limit aborts the run *)
    split; [|reflexivity].
    eapply run_inv_step with (tr := tr);
      [exact Ht | simpl; rewrite <- ?app_assoc; reflexivity
      | exact H1 | exact H2 | wired_tac | exact HPc |].
    unfold state_facts in *. simpl Mod2Mode.st_. cbv iota.
    rewrite <- Hq, <- Hc, <- Hl.
    rewrite !after_app, !count_9V_on_app, !count_final_lifts_app.
    pieces. rewrite H1, H2. unfold Relays.count_final_lifts, title2.
    simpl. rewrite !Z.eqb_refl, ?E12, ?E21. simpl.
    split; [reflexivity|].
    destruct (Mod2Mode.st_ m) eqn:Hst; unfold early in *; simpl in *;
      try (destruct Hf as [Hf Hf']);
      try (left; split; lia);
      try (right; split; lia).
    + (* RelayPulse: the axis is at rest and its position was in range *)
      destruct Hf' as (Hrange & _).
      destruct (update_idle_keeps (in_micros i) _ Hf) as [_ Epos].
      rewrite Epos in Hz. congruence.
    + destruct Hf' as [Hf' | Hf']; [left | right]; lia.
  - unfold state_facts in Hf.
    destruct (Mod2Mode.st_ m) eqn:Hst;
      unfold Mod2Mode.step_MovingDownDetect, Mod2Mode.step_Wait1, Mod2Mode.step_MoveDown1,
        Mod2Mode.step_Wait2, Mod2Mode.step_Validate30V, Mod2Mode.step_RelayHold,
        Mod2Mode.step_Wait3, Mod2Mode.step_MoveDown2, Mod2Mode.step_Wait4,
        Mod2Mode.step_RelayPulse, Mod2Mode.step_FinalLift;
      cbv beta iota zeta delta [World.IavgS_update World.Iavg_update];
      repeat match goal with
             | |- context [if ?c then _ else _] => destruct c eqn:?
             end.
    all: (split; [|simpl; intros; first [discriminate | reflexivity | assumption]]).
    all: eapply run_inv_step with (tr := tr);
      [exact Ht | simpl; rewrite <- ?app_assoc; reflexivity
      | simpl; exact H1 | simpl; exact H2 | wired_tac | simpl; exact HPc |].
    all: unfold state_facts; simpl Mod2Mode.st_; rewrite ?Hst; cbv iota;
      rewrite <- ?Hq, <- ?Hc, <- ?Hl;
      rewrite ?after_app, ?count_9V_on_app, ?count_final_lifts_app;
      pieces; rewrite ?H1, ?H2; unfold Relays.count_final_lifts, title2;
      simpl; rewrite ?Z.eqb_refl, ?E12, ?E21; simpl.
    all: unfold early in *; simpl in *.
    (* the states before the second plunge, FinalLift and Done *)
    all: try (intuition (subst; simpl; auto; lia)).
    all: pose proof (update_idle_keeps (in_micros i) (World.stepper w)) as Hk;
      pose proof (update_ToTarget (in_micros i) (World.stepper w)) as Ht2;
      pose proof (not_busy_of_step
                    (fst (StepperDriver.update (in_micros i) (World.stepper w)))) as Hnb.
    all: repeat match goal with
           | H : negb _ = true |- _ => apply negb_true_iff in H
           | H : negb _ = false |- _ => apply negb_false_iff in H
           end.
    (* MoveDown2, and Wait4 while it waits *)
    all: try (destruct Hf as [(-> & -> & ->) Hs]; simpl;
              split; [auto|]; tauto).
    (* Wait4 starts the pulse train *)
    all: try match goal with
           | H : Mod2Mode.st_ _ = Mod2Mode.Wait4 |- _ =>
               destruct Hf as [(-> & -> & ->) Hs]; destruct (Hk Hs);
               destruct qb; simpl; repeat split; auto; lia
           end.
    (* RelayPulse *)
    all: destruct Hf as (Hidle & Hrange & -> & Hpc & Hcc & Hpair);
      destruct (Hk Hidle) as [Hi' Hp']; rewrite ?Hp';
      repeat match goal with Hb : Mod2Mode.relayOn_ _ = _ |- _ => rewrite Hb in * end;
      injection Hpair as -> ->;
      rewrite ?wrap_u8_small in * by lia;
      repeat match goal with
        | H : (_ >=? _) = true |- _ => apply Z.geb_le in H
        | H : (_ >=? _) = false |- _ => rewrite Z.geb_leb in H; apply Z.leb_gt in H
        end;
      simpl; repeat split; auto; try lia.
Qed.

Lemma sensor_update_inv (tk : Sketch.Tick) (m : Mod2Mode.t) (w : World.t) :
  run_inv m w -> run_inv m (Sketch.sensor_update tk w).
Proof. intros H. exact H. Qed.

(** The invariant holds along every run of [loop()], and a run reports
    completion only in the state Done. *)
Lemma run_mod2_inv (tks : list Sketch.Tick) :
  forall (m : Mod2Mode.t) (w : World.t),
    run_inv m w ->
    run_inv (snd (fst (Sketch.run_mod2 tks m w))) (snd (Sketch.run_mod2 tks m w)) /\
    (fst (fst (Sketch.run_mod2 tks m w)) = true ->
     Mod2Mode.st_ (snd (fst (Sketch.run_mod2 tks m w))) = Mod2Mode.Done).
Proof.
  induction tks as [|tk tks IH]; intros m w H.
  - simpl. split; [exact H|discriminate].
  - simpl Sketch.run_mod2. unfold Sketch.loop_mod2.
    pose proof (step_inv (Sketch.tk_in tk) m _ (sensor_update_inv tk m w H)) as [Hs Hd].
    destruct (Mod2Mode.step (Sketch.tk_in tk) m (Sketch.sensor_update tk w))
      as [[d m'] w'] eqn:E.
    simpl in Hs, Hd. destruct d.
    + simpl. split; [exact Hs|exact Hd].
    + apply IH. exact Hs.
Qed.

(** [Mod2Mode::begin] establishes the invariant. *)
Lemma begin_inv (m0 : Mod2Mode.t) :
  Mod2Mode.relayPin1_ m0 = r1 ->
  Mod2Mode.relayPin2_ m0 = r2 ->
  Relays.wired r1 r2 (World.stepper w0) = true ->
  Parameters.pulseCount (Parameters.mod2 (World.gParams w0)) = P ->
  run_inv (fst (Mod2Mode.begin m0 w0)) (snd (Mod2Mode.begin m0 w0)).
Proof.
  intros H1 H2 Hw HPc.
  destruct (wired_facts r1 r2 _ Hw) as (E12 & E21 & _ & _ & _ & _ & En1 & En2).
  unfold Mod2Mode.begin.
  eapply run_inv_step with (tr := []) (w := w0);
    [symmetry; apply app_nil_r | simpl; rewrite <- ?app_assoc; reflexivity
    | simpl; exact H1 | simpl; exact H2 | wired_tac | simpl; exact HPc |].
  unfold state_facts, early. simpl Mod2Mode.st_. cbv iota.
  rewrite ?after_app, ?count_9V_on_app, ?count_final_lifts_app.
  pieces. rewrite ?H1, ?H2. unfold Relays.count_final_lifts, title2.
  simpl. rewrite ?Z.eqb_refl, ?E12, ?E21, ?En1, ?En2. simpl.
  destruct p0 as [a b]. simpl.
  repeat split; destruct a, b; reflexivity.
Qed.

(** A run of MOD2 from [begin] that reports completion has either never
    switched the 9 V on, or switched it on [P] times and issued one final
    lift; in both cases both relay outputs are HIGH at the end. *)
Lemma completed_run_facts (m0 : Mod2Mode.t) (tks : list Sketch.Tick) :
  Mod2Mode.relayPin1_ m0 = r1 ->
  Mod2Mode.relayPin2_ m0 = r2 ->
  Relays.wired r1 r2 (World.stepper w0) = true ->
  Parameters.pulseCount (Parameters.mod2 (World.gParams w0)) = P ->
  let b := Mod2Mode.begin m0 w0 in
  let r := Sketch.run_mod2 tks (fst b) (snd b) in
  let tr := World.emitted w0 (snd r) in
  fst (fst r) = true ->
  Relays.after r1 r2 p0 tr = (HIGH, HIGH) /\
  ((Relays.count_9V_on r1 r2 p0 tr = O /\ Relays.count_final_lifts tr = O) \/
   (Z.of_nat (Relays.count_9V_on r1 r2 p0 tr) = P /\
    Relays.count_final_lifts tr = 1%nat)).
Proof.
  intros H1 H2 Hw HPc b r tr Hdone.
  destruct (run_mod2_inv tks _ _ (begin_inv m0 H1 H2 Hw HPc)) as [Hinv Hd].
  fold b in Hinv, Hd. fold r in Hinv, Hd.
  specialize (Hd Hdone).
  destruct Hinv as (_ & _ & _ & _ & tr' & Ht & Hf).
  unfold state_facts in Hf. rewrite Hd in Hf.
  unfold tr. rewrite (emitted_app _ _ _ Ht). exact Hf.
Qed.

End PulseTrain.

Transparent StepperDriver.update StepperDriver.setSpeedMmPerSec StepperDriver.moveRelativeMm
  StepperDriver.moveToMm MovingAverage.update MovingAverage.reset.

(** The pulse train of the scenario: with the pulse count 5, eleven
    iterations after the pause the 9 V has been switched on five times, both
    relay outputs are HIGH and the final lift has been issued once. *)
Example pulse_train_of_five :
  Mod2Mode.st_ (snd (fst (Examples.pulse_run 5 11))) = Mod2Mode.FinalLift /\
  Relays.count_9V_on Sketch.PIN_RELAY1 Sketch.PIN_RELAY2 (Arduino.HIGH, Arduino.HIGH)
    (Examples.pulse_trace 5 11) = 5%nat /\
  Relays.after Sketch.PIN_RELAY1 Sketch.PIN_RELAY2 (Arduino.HIGH, Arduino.HIGH)
    (Examples.pulse_trace 5 11) = (Arduino.HIGH, Arduino.HIGH) /\
  Relays.count_final_lifts (Examples.pulse_trace 5 11) = 1%nat.
Proof. vm_compute. auto. Qed.

(** ** The pulse counter is eight bits wide *)

Section PulseOverflow.

Variable P : Z.
Hypothesis HP : 256 <= P.

Local Abbreviation pulsing := (PulseInv.pulsing P).

Lemma wrap_u8_range (z : Z) : 0 <= MachInt.wrap_u8 z < 256.
Proof. unfold MachInt.wrap_u8. apply Z.mod_pos_bound. lia. Qed.

(** With a pulse count above 255 the counter never reaches it: a step
    inside the pulse train stays inside it, reports no completion and issues
    no final lift. *)
Lemma pulsing_step (i : Inputs) (m : Mod2Mode.t) (w : World.t) :
  pulsing m w ->
  fst (fst (Mod2Mode.step i m w)) = false /\
  pulsing (snd (fst (Mod2Mode.step i m w))) (snd (Mod2Mode.step i m w)) /\
  Relays.count_final_lifts (World.trace (snd (Mod2Mode.step i m w))) =
  Relays.count_final_lifts (World.trace w).
Proof.
  intros (Hst & Hidle & Hrange & HPc).
  unfold Mod2Mode.step, World.stepper_call.
  rewrite (update_idle (in_micros i) _ Hidle). cbn [fst snd].
  replace (out_of_range _) with false
    by (symmetry; exact Hrange).
  rewrite Hst. unfold Mod2Mode.step_RelayPulse.
  cbn [World.gParams World.set_stepper World.emit].
  rewrite HPc.
  pose proof (wrap_u8_range (Mod2Mode.pulseCount_ m + 1)) as Hr.
  destruct (Mod2Mode.relayOn_ m);
    destruct (Mod2Mode.elapsed_f _ _ _); cbn [Mod2Mode.pulseCount_ Mod2Mode.set_pulseCount];
    try (destruct (_ >=? P) eqn:Hge; [apply Z.geb_le in Hge; lia|]);
    (split; [reflexivity|]); (split; [unfold pulsing; simpl; auto|]);
    simpl; rewrite ?count_final_lifts_app; unfold Relays.count_final_lifts; simpl;
    rewrite ?Nat.add_0_r; reflexivity.
Qed.

(** Hence no run from inside the pulse train ever completes or issues the
    final lift. *)
Lemma pulsing_run (tks : list Sketch.Tick) :
  forall (m : Mod2Mode.t) (w : World.t),
    pulsing m w ->
    fst (fst (Sketch.run_mod2 tks m w)) = false /\
    pulsing (snd (fst (Sketch.run_mod2 tks m w))) (snd (Sketch.run_mod2 tks m w)) /\
    Relays.count_final_lifts (World.trace (snd (Sketch.run_mod2 tks m w))) =
    Relays.count_final_lifts (World.trace w).
Proof.
  induction tks as [|tk tks IH]; intros m w H.
  - simpl. auto.
  - simpl Sketch.run_mod2. unfold Sketch.loop_mod2.
    assert (Hs : pulsing m (Sketch.sensor_update tk w)) by exact H.
    destruct (pulsing_step (Sketch.tk_in tk) m _ Hs) as (Hd & Hp & Hl).
    destruct (Mod2Mode.step (Sketch.tk_in tk) m (Sketch.sensor_update tk w))
      as [[d m'] w'] eqn:E.
    simpl in Hd, Hp, Hl. subst d.
    destruct (IH m' w' Hp) as (A & B & C).
    repeat split; try assumption; try apply B.
    rewrite C. exact Hl.
Qed.

End PulseOverflow.

(** C6 (the code at the failing input): with the pulse count 256, which the
    parameter editor accepts, the run from the pause before the pulse train
    never reports completion and never issues the final lift, however many
    iterations it is given; after 600 iterations the mode is still inside
    the pulse train and has switched the 9 V on 300 times. *)
Theorem pulse_count_256_never_finishes :
  (forall n : nat,
      fst (fst (Examples.pulse_run 256 n)) = false /\
      Relays.count_final_lifts (World.trace (snd (Examples.pulse_run 256 n))) = O) /\
  Mod2Mode.st_ (snd (fst (Examples.pulse_run 256 600))) = Mod2Mode.RelayPulse /\
  Relays.count_9V_on Sketch.PIN_RELAY1 Sketch.PIN_RELAY2 (Arduino.HIGH, Arduino.HIGH)
    (Examples.pulse_trace 256 600) = 300%nat.
Proof.
  split; [|vm_compute; auto].
  intros [|n]; [vm_compute; auto|].
  unfold Examples.pulse_run, Examples.ticks_every_3s.
  cbn [seq map].
  match goal with
  | |- context [Sketch.run_mod2 (?tk :: ?r) ?m ?w] =>
      change (Sketch.run_mod2 (tk :: r) m w)
        with (let '(d, m', w') := Sketch.loop_mod2 tk m w in
              if d then (true, m', w') else Sketch.run_mod2 r m' w');
      remember (Sketch.loop_mod2 tk m w) as r1 eqn:E
  end.
  vm_compute in E. subst r1. cbv beta iota.
  match goal with
  | |- context [Sketch.run_mod2 ?r ?m ?w] =>
      assert (Hp : PulseInv.pulsing 256 m w) by (vm_compute; auto);
      destruct (pulsing_run 256 ltac:(lia) r m w Hp) as (A & _ & C)
  end.
  split; [exact A|]. rewrite C. vm_compute. reflexivity.
Qed.

(** * Further properties of the firmware *)

(** ** The moving average *)

Section WindowMore.

Import MovingAverage.

Variables N SCALE : Z.
Hypothesis HN : 0 < N <= 32767.

Lemma run_app (xs ys : list F32.float) :
  forall s,
    run N SCALE (xs ++ ys) s =
      (fst (run N SCALE xs s) ++ fst (run N SCALE ys (snd (run N SCALE xs s))),
       snd (run N SCALE ys (snd (run N SCALE xs s)))).
Proof.
  induction xs as [|x xs IH]; intros s.
  - simpl. destruct (run N SCALE ys s); reflexivity.
  - cbn [app run fst snd]. rewrite IH. cbn [fst snd]. reflexivity.
Qed.

Lemma run_length (xs : list F32.float) :
  forall s, List.length (fst (run N SCALE xs s)) = List.length xs.
Proof.
  induction xs as [|x xs IH]; intros s; cbn [run fst snd List.length]; [reflexivity|].
  rewrite IH. reflexivity.
Qed.

(** The running sum the loop of [reset] leaves. *)
Lemma reset_loop_sum (k : nat) :
  forall (i x : Z) (b : list Z) (sum : Z),
    int16 x -> - (32768 * (32767 - Z.of_nat k)) <= sum <= 32768 * (32767 - Z.of_nat k) ->
    (Z.of_nat k <= 32767) ->
    snd (reset_loop k i x b sum) = sum + Z.of_nat k * x.
Proof.
  induction k as [|k IH]; intros i x b sum Hx Hs Hk.
  - simpl. lia.
  - cbn [reset_loop]. unfold int16 in Hx.
    rewrite IH; [|exact Hx|rewrite to_i32_small by lia; lia|lia].
    rewrite to_i32_small by lia. lia.
Qed.

Lemma sumZ_repeat (x : Z) (n : nat) : sumZ (repeat x n) = Z.of_nat n * x.
Proof. induction n as [|n IH]; [reflexivity|]. cbn [repeat sumZ fold_right]. fold (sumZ (repeat x n)). lia. Qed.

Lemma map_repeat_toFixed (x : F32.float) (n : nat) :
  map (toFixed_ SCALE) (repeat x n) = repeat (toFixed_ SCALE x) n.
Proof. induction n as [|n IH]; [reflexivity|]. simpl. rewrite IH. reflexivity. Qed.

(** [reset(x)] with a fixed-point value other than 0 leaves the state that
    [reset(0)] followed by [N] calls of [update(x)] leaves. *)
Lemma reset_as_updates (x : F32.float) (s : t) :
  wf N s -> toFixed_ SCALE x <> 0 ->
  reset N SCALE x s = snd (run N SCALE (repeat x (Z.to_nat N)) (reset N SCALE F32.zero s)).
Proof.
  intros Hw Hx.
  set (n := Z.to_nat N).
  assert (0 < n)%nat as Hn by (unfold n; lia).
  pose proof (run_Inv N SCALE HN (repeat x n) [] _ (Inv_reset N SCALE HN s Hw)) as H.
  destruct H as [Hlen Hidx Hfil Hrot Hsum Hrng].
  cbn [app] in *. rewrite length_map, repeat_length in *. fold n in Hlen, Hidx, Hfil, Hrot.
  rewrite Nat.Div0.mod_same in *. rewrite Nat.leb_refl in Hfil.
  cbn [skipn firstn] in Hrot. rewrite app_nil_r in Hrot.
  rewrite map_repeat_toFixed in Hrot.
  unfold lastn in Hrot. rewrite length_app, !repeat_length in Hrot.
  replace (n + n - n)%nat with n in Hrot by lia.
  rewrite skipn_app, repeat_length in Hrot.
  rewrite skipn_all2 in Hrot by (rewrite repeat_length; lia).
  replace (n - n)%nat with O in Hrot by lia. cbn [skipn app] in Hrot.
  destruct (reset_fields N SCALE x s Hw) as (Rb & Ri & Rf).
  assert (sum_ (reset N SCALE x s) = Z.of_nat n * toFixed_ SCALE x) as Rs.
  { unfold reset.
    pose proof (reset_loop_sum n 0 (toFixed_ SCALE x) (buf_ s) 0
                  (toFixed_int16 SCALE x) ltac:(unfold n; lia) ltac:(unfold n; lia)) as E.
    fold n. destruct (reset_loop n 0 (toFixed_ SCALE x) (buf_ s) 0) as [b sum].
    cbn [snd] in E. cbn [sum_]. lia. }
  destruct (reset N SCALE x s) as [rb ri rf rs].
  destruct (snd (run N SCALE (repeat x n) (reset N SCALE F32.zero s))) as [ub ui uf us].
  cbn [buf_ idx_ filled_ sum_] in *. subst.
  rewrite sumZ_repeat.
  replace (negb (toFixed_ SCALE x =? 0)) with true
    by (symmetry; apply negb_true_iff, Z.eqb_neq; exact Hx).
  reflexivity.
Qed.

End WindowMore.

Section WindowExtras.

Import MovingAverage.

(** X1.  After [reset(0)], [filled()] is false during the first [N - 1]
    calls of [update] and true from the [N]-th call on. *)
Theorem window_filled_from_Nth_update (N SCALE : Z) (xs : list F32.float) (s : t) :
  0 < N <= 32767 -> wf N s ->
  filled (snd (run N SCALE xs (reset N SCALE F32.zero s)))
  = (N <=? Z.of_nat (List.length xs)).
Proof.
  intros HN Hw.
  pose proof (run_Inv N SCALE HN xs [] _ (Inv_reset N SCALE HN s Hw)) as H.
  unfold filled. rewrite (inv_filled _ _ _ H). cbn [app]. rewrite length_map.
  destruct (Nat.leb_spec (Z.to_nat N) (List.length xs)),
    (Z.leb_spec N (Z.of_nat (List.length xs))); try reflexivity; lia.
Qed.

Lemma window_filled_from_Nth_update_witness :
  filled (snd (run 20 1000 Examples.samples (reset 20 1000 F32.zero (ctor 20 1000))))
  = (20 <=? Z.of_nat (List.length Examples.samples)).
Proof.
  apply (window_filled_from_Nth_update 20 1000 Examples.samples (ctor 20 1000));
    [lia | reflexivity].
Defined.

(** X2.  [reset(x)] with a fixed-point value other than 0 pre-fills the
    window: the value the [(k+1)]-th later call of [update] returns is
    within one scale unit of the mean, divided by [SCALE], of the last [N]
    fixed-point values of [N] copies of [x] followed by the samples inserted
    so far. *)
Theorem reset_prefills_window
  (N SCALE : Z) (x : F32.float) (xs : list F32.float) (s : t) (k : nat) (d : F32.float) :
  0 < N <= 32767 -> 0 < SCALE <= 32767 ->
  wf N s -> toFixed_ SCALE x <> 0 -> (k < List.length xs)%nat ->
  List.length (window N SCALE (repeat x (Z.to_nat N) ++ firstn (S k) xs)) = Z.to_nat N /\
  F32.is_finite (nth k (fst (run N SCALE xs (reset N SCALE x s))) d) = true /\
  (Qabs (F32.to_Q (nth k (fst (run N SCALE xs (reset N SCALE x s))) d)
         - mean_of (window N SCALE (repeat x (Z.to_nat N) ++ firstn (S k) xs))
           / inject_Z SCALE)
   <= 1 / inject_Z SCALE)%Q.
Proof.
  intros HN HSC Hw Hx Hk.
  set (n := Z.to_nat N).
  assert (nth k (fst (run N SCALE xs (reset N SCALE x s))) d =
          nth (n + k) (fst (run N SCALE (repeat x n ++ xs) (reset N SCALE F32.zero s))) d)
    as E.
  { rewrite run_app. cbn [fst]. unfold n.
    rewrite <- (reset_as_updates N SCALE HN x s Hw Hx).
    assert (List.length (fst (run N SCALE (repeat x (Z.to_nat N))
                                (reset N SCALE F32.zero s))) = Z.to_nat N)
      as El by (rewrite run_length, repeat_length; reflexivity).
    rewrite <- El at 1. rewrite app_nth2_plus. reflexivity. }
  rewrite E.
  rewrite (update_returns_window_average N SCALE HN (repeat x n ++ xs) s (n + k) d Hw)
    by (rewrite length_app, repeat_length; lia).
  assert (firstn (S (n + k)) (repeat x n ++ xs) = repeat x n ++ firstn (S k) xs) as Ef.
  { replace (S (n + k)) with (List.length (repeat x n) + S k)%nat
      by (rewrite repeat_length; lia).
    apply firstn_app_2. }
  rewrite Ef.
  pose proof (window_length N SCALE (repeat x n ++ firstn (S k) xs)) as HL.
  rewrite length_app, repeat_length, length_firstn in HL. fold n in HL.
  rewrite Nat.min_l in HL by lia.
  split; [exact HL|].
  pose proof (sumZ_bound _ (window_int16 N SCALE (repeat x n ++ firstn (S k) xs))) as Hs.
  set (W := window N SCALE (repeat x n ++ firstn (S k) xs)) in *.
  destruct (average_of_bound SCALE (sumZ W) (Z.of_nat (List.length W)))
    as [Hf Hb]; try (rewrite ?HL; unfold n; lia).
  split; [exact Hf|].
  eapply Qle_trans; [exact Hb|].
  assert (0 < inject_Z SCALE)%Q as Hc
      by (change 0%Q with (inject_Z 0); rewrite <- Zlt_Qlt; lia).
  unfold Qdiv. apply Qmult_le_compat_r; [discriminate|].
  apply Qlt_le_weak, Qinv_lt_0_compat. exact Hc.
Qed.

Lemma reset_prefills_window_witness :
  List.length (window 20 1000 (repeat (F32.lit 1 10) (Z.to_nat 20)
                               ++ firstn 3 Examples.samples)) = Z.to_nat 20 /\
  F32.is_finite
    (nth 2 (fst (run 20 1000 Examples.samples
                   (reset 20 1000 (F32.lit 1 10) (ctor 20 1000)))) F32.zero) = true /\
  (Qabs (F32.to_Q
           (nth 2 (fst (run 20 1000 Examples.samples
                          (reset 20 1000 (F32.lit 1 10) (ctor 20 1000)))) F32.zero)
         - mean_of (window 20 1000 (repeat (F32.lit 1 10) (Z.to_nat 20)
                                    ++ firstn 3 Examples.samples))
           / inject_Z 1000)
   <= 1 / inject_Z 1000)%Q.
Proof.
  apply (reset_prefills_window 20 1000 (F32.lit 1 10) Examples.samples (ctor 20 1000)
           2 F32.zero);
    [lia | lia | reflexivity | vm_compute; discriminate | simpl; lia].
Defined.

(** X3.  [toFixed_] saturates: its result is always in the range of
    [int16_t]; it is 32767 when the scaled value is above 32767 and -32768
    when the scaled value is below -32768. *)
Theorem toFixed_saturates (SCALE : Z) (xA : F32.float) :
  (-32768 <= toFixed_ SCALE xA <= 32767) /\
  (F32.gtb (F32.mul xA (F32.of_Z SCALE)) (F32.of_Z 32767) = true ->
   toFixed_ SCALE xA = 32767) /\
  (F32.ltb (F32.mul xA (F32.of_Z SCALE)) (F32.of_Z (-32768)) = true ->
   toFixed_ SCALE xA = -32768).
Proof.
  split; [apply (toFixed_int16 SCALE xA)|]. split; intros H.
  - unfold toFixed_. rewrite H. vm_compute. reflexivity.
  - unfold toFixed_.
    destruct (F32.gtb (F32.mul xA (F32.of_Z SCALE)) (F32.of_Z 32767)) eqn:G;
      [|rewrite H].
    + (* above 32767 and below -32768 at once: impossible *)
      exfalso. unfold F32.gtb, F32.ltb, SFltb in *.
      rewrite SFcompare_antisym in G.
      destruct (SFcompare (F32.mul xA (F32.of_Z SCALE)) (F32.of_Z 32767)) as [[]|] eqn:C1;
        try discriminate G.
      destruct (SFcompare (F32.mul xA (F32.of_Z SCALE)) (F32.of_Z (-32768))) as [[]|] eqn:C2;
        try discriminate H.
      revert C1 C2. generalize (F32.mul xA (F32.of_Z SCALE)).
      let a := eval vm_compute in (F32.of_Z 32767) in change (F32.of_Z 32767) with a.
      let b := eval vm_compute in (F32.of_Z (-32768)) in change (F32.of_Z (-32768)) with b.
      intros [s|s| |s m e]; try destruct s; cbn [SFcompare]; discriminate.
    + vm_compute. reflexivity.
Qed.

Lemma toFixed_saturates_witness :
  toFixed_ 1000 (F32.of_Z 40) = 32767 /\ toFixed_ 1000 (F32.of_Z (-40)) = -32768.
Proof.
  split.
  - apply (proj1 (proj2 (toFixed_saturates 1000 (F32.of_Z 40)))). vm_compute. reflexivity.
  - apply (proj2 (proj2 (toFixed_saturates 1000 (F32.of_Z (-40))))). vm_compute. reflexivity.
Defined.

End WindowExtras.

(** ** The stepper driver *)

Section StepperExtras.

Import StepperDriver StepperRuns.

Lemma to_i32_range (z : Z) : long_range (MachInt.to_i32 z).
Proof.
  unfold long_range, MachInt.to_i32, MachInt.LONG_MIN, MachInt.LONG_MAX.
  pose proof (Z.mod_pos_bound z 4294967296 ltac:(lia)).
  destruct (Z.ltb_spec (z mod 4294967296) 2147483648); lia.
Qed.

Lemma lroundf_range (x : F32.float) : long_range (F32.lroundf x).
Proof.
  unfold F32.lroundf, long_range.
  destruct x as [s|s| |s m e]; try (unfold MachInt.LONG_MIN, MachInt.LONG_MAX; lia).
  destruct (_ && _) eqn:E.
  - apply andb_true_iff in E. destruct E as [A B].
    apply Z.leb_le in A. apply Z.leb_le in B. lia.
  - unfold MachInt.LONG_MIN, MachInt.LONG_MAX; lia.
Qed.

Lemma ltb_positive_neg (x : F32.float) :
  F32.ltb F32.zero x = true ->
  F32.ltb x (F32.neg x) = false /\ F32.leb (F32.neg x) x = true /\
  F32.is_nan x = false /\ F32.is_nan (F32.neg x) = false.
Proof.
  intros H. destruct (positive_shape x H) as [-> | (m & e & ->)].
  - repeat split; reflexivity.
  - repeat split; reflexivity.
Qed.

(** The speed [setSpeedMmPerSec] stores. *)
Lemma setSpeedMmPerSec_speed (v : F32.float) (s : t) :
  speed_mm_s_ (fst (setSpeedMmPerSec v s)) =
    let v1 := if F32.gtb v (vmax s) then vmax s else v in
    if F32.ltb v1 (F32.neg (vmax s)) then F32.neg (vmax s) else v1.
Proof.
  unfold setSpeedMmPerSec. cbv zeta.
  repeat match goal with
         | |- context [if ?c then _ else _] => destruct c
         end; reflexivity.
Qed.

(** X4.  In a sound configuration the speed [setSpeedMmPerSec] stores, for
    a request that is a number, lies between minus the speed limit and the
    speed limit. *)
Theorem setSpeedMmPerSec_clamps (v : F32.float) (s : t) :
  config_ok s = true -> F32.is_nan v = false ->
  F32.leb (speed_mm_s_ (fst (setSpeedMmPerSec v s))) (vmax s) = true /\
  F32.leb (F32.neg (vmax s)) (speed_mm_s_ (fst (setSpeedMmPerSec v s))) = true.
Proof.
  intros Hc Hv.
  pose proof (config_ok_vmax_positive s Hc) as Hp.
  destruct (ltb_positive_neg _ Hp) as (A & B & C & D).
  rewrite setSpeedMmPerSec_speed. cbv zeta.
  destruct (F32.gtb v (vmax s)) eqn:G.
  - rewrite A. split; [apply leb_refl; exact C|exact B].
  - destruct (F32.ltb v (F32.neg (vmax s))) eqn:L.
    + split; [exact B|apply leb_refl; exact D].
    + split.
      * apply not_gtb_leb; assumption.
      * apply not_gtb_leb; [exact D|exact Hv|exact L].
Qed.

Lemma setSpeedMmPerSec_clamps_witness :
  F32.leb (speed_mm_s_ (fst (setSpeedMmPerSec (F32.of_Z 50) Sketch.stepper)))
    (vmax Sketch.stepper) = true /\
  F32.leb (F32.neg (vmax Sketch.stepper))
    (speed_mm_s_ (fst (setSpeedMmPerSec (F32.of_Z 50) Sketch.stepper))) = true.
Proof.
  apply (setSpeedMmPerSec_clamps (F32.of_Z 50) Sketch.stepper); reflexivity.
Defined.

Lemma to_i32_mod (z : Z) : MachInt.to_i32 z mod 4294967296 = z mod 4294967296.
Proof.
  unfold MachInt.to_i32.
  pose proof (Z.mod_pos_bound z 4294967296 ltac:(lia)) as H.
  destruct (Z.ltb_spec (z mod 4294967296) 2147483648).
  - apply Z.mod_mod. lia.
  - replace (z mod 4294967296 - 4294967296) with (z mod 4294967296 + (-1) * 4294967296)
      by lia.
    rewrite Z.mod_add by lia. apply Z.mod_mod. lia.
Qed.

Lemma to_i32_add_l (a b : Z) : MachInt.to_i32 (MachInt.to_i32 a + b) = MachInt.to_i32 (a + b).
Proof.
  assert (forall x y, x mod 4294967296 = y mod 4294967296 ->
                      MachInt.to_i32 x = MachInt.to_i32 y) as E
      by (intros x y H; unfold MachInt.to_i32; rewrite H; reflexivity).
  apply E. rewrite Z.add_mod, to_i32_mod, <- Z.add_mod by lia. reflexivity.
Qed.

(** One call of [update]: nothing written and only the deadline changed, or
    one pulse written and the position moved by one step. *)
Lemma update_one_call (now : Z) (s : t) :
  (snd (update now s) = [] /\
   pos_steps_ (fst (update now s)) = pos_steps_ s /\
   motion_ (fst (update now s)) = motion_ s /\
   speed_mm_s_ (fst (update now s)) = speed_mm_s_ s) \/
  (idle s = false /\
   snd (update now s) = pulse s /\
   fst (update now s) =
     check_target
       (set_pos_steps (MachInt.to_i32 (pos_steps_ s + (if dir_ s then 1 else -1)))
          (set_tNextStep (tNextStep_ (fst (update now s))) s))).
Proof.
  unfold update.
  destruct (idle s) eqn:Hi; [left; repeat split; reflexivity|].
  destruct (period_us s) as [p|]; [|left; repeat split; reflexivity].
  destruct (step_due now s); [|left; repeat split; reflexivity].
  right. split; [reflexivity|]. split; [reflexivity|].
  cbn [stepOnce_ fst snd]. rewrite check_target_tNextStep. reflexivity.
Qed.

Lemma update_keeps (now : Z) (s : t) :
  dir_ (fst (update now s)) = dir_ s /\
  target_steps_ (fst (update now s)) = target_steps_ s /\
  pSTEP_ (fst (update now s)) = pSTEP_ s.
Proof.
  unfold update.
  destruct (idle s); [repeat split; reflexivity|].
  destruct (period_us s) as [p|]; [|repeat split; reflexivity].
  destruct (step_due now s); [|repeat split; reflexivity].
  cbn [stepOnce_ fst snd]. unfold check_target. cbn.
  destruct (motion_ s); try (repeat split; reflexivity).
  destruct (reaches_target _); repeat split; reflexivity.
Qed.

Lemma pulses_app (pin : Z) (a b : Arduino.Trace) :
  pulses pin (a ++ b) = pulses pin a + pulses pin b.
Proof. unfold pulses. rewrite filter_app, length_app. lia. Qed.

Lemma pulses_pulse (s : t) : pulses (pSTEP_ s) (pulse s) = 1.
Proof. unfold pulses, pulse. cbn. rewrite Z.eqb_refl. reflexivity. Qed.

Lemma check_target_pos (s : t) : pos_steps_ (check_target s) = pos_steps_ s.
Proof.
  unfold check_target. destruct (motion_ s); try reflexivity.
  destruct (reaches_target s); reflexivity.
Qed.

(** X5.  The position counter is faithful to the wire: over any sequence
    of calls of [update], it moves by one step, in the direction of travel,
    for each STEP pulse written (in the arithmetic of [long]); a call
    writes at most one pulse, however late it comes. *)
Theorem position_counts_pulses (nows : list Z) (s : t) :
  long_range (pos_steps_ s) ->
  pos_steps_ (fst (updates nows s)) =
    MachInt.to_i32 (pos_steps_ s
                    + (if dir_ s then 1 else -1)
                      * pulses (pSTEP_ s) (snd (updates nows s))) /\
  0 <= pulses (pSTEP_ s) (snd (updates nows s)) <= Z.of_nat (List.length nows) /\
  dir_ (fst (updates nows s)) = dir_ s.
Proof.
  revert s. induction nows as [|now nows IH]; intros s Hr.
  - cbn [updates fst snd List.length]. unfold pulses. cbn.
    rewrite Z.mul_0_r, Z.add_0_r.
    unfold long_range, MachInt.LONG_MIN, MachInt.LONG_MAX in Hr.
    rewrite to_i32_small by lia. repeat split; lia.
  - cbn [updates fst snd]. rewrite pulses_app.
    destruct (update_keeps now s) as (Kd & _ & Kp).
    assert (long_range (pos_steps_ (fst (update now s)))) as Hr'.
    { destruct (update_one_call now s) as [(_ & E & _) | (_ & _ & E)].
      - rewrite E. exact Hr.
      - rewrite E, check_target_pos. apply to_i32_range. }
    destruct (IH (fst (update now s)) Hr') as (Ip & Ic & Id).
    rewrite Kd, Kp in *. rewrite Ip, Id.
    replace (Z.of_nat (List.length (now :: nows)))
      with (1 + Z.of_nat (List.length nows)) by (cbn [List.length]; lia).
    destruct (update_one_call now s) as [(Et & Ep & _) | (_ & Et & Ep)].
    + rewrite Et, Ep. change (pulses (pSTEP_ s) []) with 0.
      rewrite Z.add_0_l. repeat split; try lia.
    + rewrite Et, pulses_pulse.
      pose proof (f_equal pos_steps_ Ep) as Epos.
      rewrite check_target_pos in Epos. cbn [pos_steps_ set_pos_steps] in Epos.
      rewrite Epos, to_i32_add_l. split; [f_equal; destruct (dir_ s); lia|].
      split; [lia|reflexivity].
Qed.

Lemma position_counts_pulses_witness :
  pos_steps_ (fst (updates [0; 1000; 1100; 2000] Examples.stepper_velocity)) =
    MachInt.to_i32
      (pos_steps_ Examples.stepper_velocity
       + (if dir_ Examples.stepper_velocity then 1 else -1)
         * pulses (pSTEP_ Examples.stepper_velocity)
             (snd (updates [0; 1000; 1100; 2000] Examples.stepper_velocity))) /\
  0 <= pulses (pSTEP_ Examples.stepper_velocity)
         (snd (updates [0; 1000; 1100; 2000] Examples.stepper_velocity))
    <= Z.of_nat (List.length [0; 1000; 1100; 2000]) /\
  dir_ (fst (updates [0; 1000; 1100; 2000] Examples.stepper_velocity)) =
    dir_ Examples.stepper_velocity.
Proof.
  apply (position_counts_pulses [0; 1000; 1100; 2000] Examples.stepper_velocity).
  vm_compute. split; discriminate.
Defined.

Lemma idle_set_Idle (s : t) :
  idle (set_motion Idle (set_speed_mm_s F32.zero s)) = true.
Proof. reflexivity. Qed.

Lemma moving_up_update (p0 tgt now : Z) (s : t) :
  long_range tgt -> long_range p0 ->
  moving_up p0 tgt s -> moving_up p0 tgt (fst (update now s)).
Proof.
  intros Ht Hr0 (Hd & Hg & H).
  destruct (update_keeps now s) as (Kd & Kt & _).
  unfold moving_up. rewrite Kd, Kt. split; [exact Hd|]. split; [exact Hg|].
  destruct (update_one_call now s) as [(_ & Ep & Em & Es) | (Hi & _ & E)].
  - unfold idle. rewrite Ep, Em, Es. exact H.
  - destruct H as [(Hm & Hp) | (Hidle & _)]; [|congruence].
    rewrite E. unfold check_target. cbn [motion_ set_pos_steps set_tNextStep].
    rewrite Hm. unfold reaches_target. cbn [dir_ pos_steps_ target_steps_ set_pos_steps set_tNextStep].
    rewrite Hd, Hg.
    unfold long_range, MachInt.LONG_MIN, MachInt.LONG_MAX in Ht, Hr0.
    rewrite to_i32_small by lia.
    destruct (Z.geb_spec (pos_steps_ s + 1) tgt).
    + right. split; [reflexivity|]. cbn. lia.
    + left. cbn. rewrite Hm. split; [reflexivity|lia].
Qed.

Lemma moving_down_update (p0 tgt now : Z) (s : t) :
  long_range tgt -> long_range p0 -> MachInt.LONG_MIN < p0 ->
  moving_down p0 tgt s -> moving_down p0 tgt (fst (update now s)).
Proof.
  intros Ht Hr0 H0 (Hd & Hg & H).
  destruct (update_keeps now s) as (Kd & Kt & _).
  unfold moving_down. rewrite Kd, Kt. split; [exact Hd|]. split; [exact Hg|].
  destruct (update_one_call now s) as [(_ & Ep & Em & Es) | (Hi & _ & E)].
  - unfold idle. rewrite Ep, Em, Es. exact H.
  - destruct H as [(Hm & Hp) | (Hidle & _)]; [|congruence].
    rewrite E. unfold check_target. cbn [motion_ set_pos_steps set_tNextStep].
    rewrite Hm. unfold reaches_target. cbn [dir_ pos_steps_ target_steps_ set_pos_steps set_tNextStep].
    rewrite Hd, Hg.
    unfold long_range, MachInt.LONG_MIN, MachInt.LONG_MAX in *.
    rewrite to_i32_small by lia.
    destruct (Z.leb_spec (pos_steps_ s + -1) tgt).
    + right. split; [reflexivity|]. cbn. lia.
    + left. cbn. rewrite Hm. split; [reflexivity|lia].
Qed.

Lemma updates_invariant (P : t -> Prop) :
  (forall now s, P s -> P (fst (update now s))) ->
  forall nows s, P s -> P (fst (updates nows s)).
Proof.
  intros Hstep nows. induction nows as [|now nows IH]; intros s H.
  - exact H.
  - cbn [updates fst]. apply IH, Hstep, H.
Qed.

(** X6.  A move to a target never passes it.  After [moveToMm], whatever
    the calls of [update] that follow: the position stays between the start
    and the target, and once [isBusy()] is false the driver is at rest
    exactly at the target.  When the target is the current position the
    driver takes one step in the negative direction and rests one step
    below the target. *)
Theorem target_move_stops_at_target (x v : F32.float) (s : t) (nows : list Z) :
  long_range (pos_steps_ s) -> MachInt.LONG_MIN < pos_steps_ s ->
  let p0 := pos_steps_ s in
  let tgt := F32.lroundf (F32.mul x (stepsPerMm_ s)) in
  let s' := fst (updates nows (fst (moveToMm x v s))) in
  target_steps_ s' = tgt /\
  (p0 < tgt ->
   p0 <= pos_steps_ s' <= tgt /\
   (isBusy s' = false -> pos_steps_ s' = tgt /\ idle s' = true)) /\
  (tgt < p0 ->
   tgt <= pos_steps_ s' <= p0 /\
   (isBusy s' = false -> pos_steps_ s' = tgt /\ idle s' = true)) /\
  (tgt = p0 ->
   (isBusy s' = true /\ pos_steps_ s' = tgt) \/
   (isBusy s' = false /\ pos_steps_ s' = tgt - 1 /\ idle s' = true)).
Proof.
  intros Hr H0 p0 tgt s'.
  pose proof (lroundf_range (F32.mul x (stepsPerMm_ s))) as Ht. fold tgt in Ht.
  assert (forall st, idle st = true -> isBusy st = false) as Hib.
  { intros st H. unfold idle in H. apply andb_true_iff in H. destruct H as [H _].
    unfold isBusy. destruct (motion_ st); try discriminate; reflexivity. }
  assert (forall st, motion_ st = ToTarget -> isBusy st = true) as Hbi
      by (intros st H; unfold isBusy; rewrite H; reflexivity).
  destruct (Z.ltb_spec p0 tgt) as [Hlt | Hge].
  - assert (moving_up p0 tgt (fst (moveToMm x v s))) as Hinit.
    { unfold moving_up, moveToMm. cbn. fold tgt. fold p0.
      replace (tgt >? p0) with true by (symmetry; apply Z.gtb_lt; lia).
      repeat split. left. split; [reflexivity|lia]. }
    pose proof (updates_invariant (moving_up p0 tgt)
                  (fun now st => moving_up_update p0 tgt now st Ht Hr) nows _ Hinit)
      as (Hd & Hg & H).
    fold s' in Hd, Hg, H.
    split; [exact Hg|]. split; [|split]; intros Hc; try lia.
    destruct H as [(Hm & Hp) | (Hi & Hp)].
    + split; [lia|]. intros Hb. rewrite (Hbi _ Hm) in Hb. discriminate.
    + split; [lia|]. intros _. split; assumption.
  - assert (moving_down p0 tgt (fst (moveToMm x v s))) as Hinit.
    { unfold moving_down, moveToMm. cbn. fold tgt. fold p0.
      replace (tgt >? p0) with false by (symmetry; rewrite Z.gtb_ltb; apply Z.ltb_ge; lia).
      repeat split. left. split; [reflexivity|lia]. }
    pose proof (updates_invariant (moving_down p0 tgt)
                  (fun now st => moving_down_update p0 tgt now st Ht Hr H0) nows _ Hinit)
      as (Hd & Hg & H).
    fold s' in Hd, Hg, H.
    split; [exact Hg|]. split; [|split]; intros Hc; try lia.
    + destruct H as [(Hm & Hp) | (Hi & Hp)].
      * split; [lia|]. intros Hb. rewrite (Hbi _ Hm) in Hb. discriminate.
      * split; [lia|]. intros _. split; [lia|assumption].
    + destruct H as [(Hm & Hp) | (Hi & Hp)].
      * left. split; [apply Hbi; exact Hm|lia].
      * right. split; [apply Hib; exact Hi|]. split; [lia|exact Hi].
Qed.

Lemma target_move_stops_at_target_witness :
  target_steps_
    (fst (updates [0; 2500; 5000]
            (fst (moveToMm (F32.of_Z 1) (F32.of_Z 1) Sketch.stepper)))) = 400 /\
  0 <= pos_steps_
         (fst (updates [0; 2500; 5000]
                 (fst (moveToMm (F32.of_Z 1) (F32.of_Z 1) Sketch.stepper)))) <= 400.
Proof.
  pose proof (target_move_stops_at_target (F32.of_Z 1) (F32.of_Z 1) Sketch.stepper
                [0; 2500; 5000]
                ltac:(vm_compute; split; discriminate) ltac:(reflexivity)) as H.
  cbv zeta in H. destruct H as (A & B & _).
  split; [exact A|].
  exact (proj1 (B ltac:(reflexivity))).
Defined.

Lemma setSpeedMmPerSec_pos (v : F32.float) (s : t) :
  pos_steps_ (fst (setSpeedMmPerSec v s)) = pos_steps_ s.
Proof.
  unfold setSpeedMmPerSec. cbv zeta.
  repeat match goal with
         | |- context [if ?c then _ else _] => destruct c
         end; reflexivity.
Qed.

Lemma updates_idle (nows : list Z) :
  forall s, idle s = true ->
    snd (updates nows s) = [] /\
    pos_steps_ (fst (updates nows s)) = pos_steps_ s /\
    idle (fst (updates nows s)) = true.
Proof.
  induction nows as [|now nows IH]; intros s H.
  - cbn. auto.
  - cbn [updates fst snd]. rewrite (update_idle now s H). cbn [fst snd app].
    destruct (IH (set_tNextStep (MachInt.wrap_u32 now) s) H) as (A & B & C).
    rewrite A, B, C. auto.
Qed.

(** X7.  A stop stops: in a sound configuration, after
    [setSpeedMmPerSec(0)] no call of [update] writes a pulse or moves the
    position counter, however many calls follow. *)
Theorem stop_holds_position (s : t) (nows : list Z) :
  config_ok s = true ->
  snd (updates nows (fst (setSpeedMmPerSec F32.zero s))) = [] /\
  pos_steps_ (fst (updates nows (fst (setSpeedMmPerSec F32.zero s)))) = pos_steps_ s /\
  isBusy (fst (updates nows (fst (setSpeedMmPerSec F32.zero s)))) = false.
Proof.
  intros Hc. destruct (setSpeedMmPerSec_zero s Hc) as [Hs Hm].
  assert (idle (fst (setSpeedMmPerSec F32.zero s)) = true) as Hi
      by (unfold idle; rewrite Hs, Hm; reflexivity).
  destruct (updates_idle nows _ Hi) as (A & B & C).
  rewrite A, B, setSpeedMmPerSec_pos. repeat split.
  unfold idle in C. apply andb_true_iff in C. destruct C as [C _].
  unfold isBusy.
  match goal with |- context [motion_ ?a] => destruct (motion_ a) end;
    try discriminate; reflexivity.
Qed.

Lemma stop_holds_position_witness :
  snd (updates [0; 1000; 2000]
         (fst (setSpeedMmPerSec F32.zero Examples.stepper_velocity))) = [] /\
  pos_steps_ (fst (updates [0; 1000; 2000]
                     (fst (setSpeedMmPerSec F32.zero Examples.stepper_velocity))))
    = pos_steps_ Examples.stepper_velocity /\
  isBusy (fst (updates [0; 1000; 2000]
                 (fst (setSpeedMmPerSec F32.zero Examples.stepper_velocity)))) = false.
Proof.
  apply (stop_holds_position Examples.stepper_velocity [0; 1000; 2000]). reflexivity.
Defined.

End StepperExtras.

Section KeypadExtras.

Import KeypadShield.

Lemma key_eqb_eq (a b : Key) : key_eqb a b = true <-> a = b.
Proof. destruct a, b; simpl; split; intros H; try reflexivity; discriminate. Qed.

Lemma key_eqb_refl (a : Key) : key_eqb a a = true.
Proof. destruct a; reflexivity. Qed.

Lemma key_eqb_neq (a b : Key) : key_eqb a b = false <-> a <> b.
Proof. destruct a, b; simpl; split; intros H; try reflexivity; try discriminate; congruence. Qed.

(** X8.  With thresholds in ascending order, [classify_] cuts the ADC range
    into consecutive intervals: RIGHT below the first threshold, then UP,
    DOWN, LEFT and SELECT between consecutive thresholds, and NONE from the
    last threshold on. *)
Theorem classify_partitions (a : Z) (s : t) :
  ascending s ->
  (classify_ a s = RIGHT <-> a < thRight_ s) /\
  (classify_ a s = UP <-> thRight_ s <= a < thUp_ s) /\
  (classify_ a s = DOWN <-> thUp_ s <= a < thDown_ s) /\
  (classify_ a s = LEFT <-> thDown_ s <= a < thLeft_ s) /\
  (classify_ a s = SELECT <-> thLeft_ s <= a < thSel_ s) /\
  (classify_ a s = NONE <-> thSel_ s <= a).
Proof.
  intros (H1 & H2 & H3 & H4). unfold classify_.
  destruct (Z.ltb_spec a (thRight_ s)); [repeat split; intros; try discriminate; lia|].
  destruct (Z.ltb_spec a (thUp_ s)); [repeat split; intros; try discriminate; lia|].
  destruct (Z.ltb_spec a (thDown_ s)); [repeat split; intros; try discriminate; lia|].
  destruct (Z.ltb_spec a (thLeft_ s)); [repeat split; intros; try discriminate; lia|].
  destruct (Z.ltb_spec a (thSel_ s)); repeat split; intros; try discriminate; lia.
Qed.

Lemma classify_partitions_witness :
  classify_ 300 (ctor 14 80) = DOWN <-> 200 <= 300 < 400.
Proof.
  exact (proj1 (proj2 (proj2 (classify_partitions 300 (ctor 14 80)
                                ltac:(vm_compute; repeat split; discriminate))))).
Defined.

(** X9.  [poll] reports a key exactly when the debounced key changes to a
    key other than NONE, and the debounced key changes only to the key the
    current reading classifies as, once the raw key has been the same for at
    least the debounce time. *)
Theorem poll_reports_debounced_changes (r : Reading) (s : t) :
  let k := fst (poll r s) in
  let s' := snd (poll r s) in
  (stable s' = stable s -> k = NONE) /\
  (stable s' <> stable s ->
   stable s' = classify_ (rd_adc r) s /\
   dbMs_ s <= held_ms r s' /\
   k = stable s') /\
  last_ s' = classify_ (rd_adc r) s.
Proof.
  cbv zeta. unfold poll, stable, held_ms.
  set (raw := classify_ (rd_adc r) s).
  destruct (key_eqb raw (last_ s)) eqn:E; cbn [negb].
  - apply key_eqb_eq in E.
    destruct (dbMs_ s <=? _) eqn:D; cbn [andb].
    + destruct (key_eqb (stable_ s) (last_ s)) eqn:F; cbn [negb fst snd].
      * repeat split; try reflexivity; try congruence.
      * cbn [stable_ set_keys last_ lastChange_ dbMs_]. rewrite ?F. cbn [negb andb].
        apply key_eqb_neq in F. apply Z.leb_le in D.
        split; [intros C; congruence|]. split; [|congruence].
        intros _. split; [congruence|]. split; [exact D|].
        destruct (key_eqb (last_ s) NONE) eqn:G; cbn [negb];
          [apply key_eqb_eq in G; congruence|reflexivity].
    + cbn [fst snd]. repeat split; try reflexivity; try congruence.
  - cbn [dbMs_ set_keys stable_ last_ lastChange_].
    destruct (dbMs_ s <=? _) eqn:D; cbn [andb].
    + destruct (key_eqb (stable_ s) raw) eqn:F; cbn [negb fst snd].
      * cbn [stable_ set_keys last_]. repeat split; try reflexivity; try congruence.
      * cbn [stable_ set_keys last_ lastChange_ dbMs_]. rewrite ?F. cbn [negb andb].
        apply key_eqb_neq in F. apply Z.leb_le in D.
        split; [intros C; congruence|]. split; [|reflexivity].
        intros _. split; [reflexivity|]. split; [exact D|].
        destruct (key_eqb raw NONE) eqn:G; cbn [negb];
          [apply key_eqb_eq in G; congruence|reflexivity].
    + cbn [fst snd stable_ set_keys last_]. repeat split; try reflexivity; try congruence.
Qed.

Lemma poll_thresholds (r : Reading) (s : t) (a : Z) :
  classify_ a (snd (poll r s)) = classify_ a s.
Proof.
  unfold poll.
  destruct (negb (key_eqb _ (last_ s))); cbn [dbMs_ set_keys stable_ last_ lastChange_];
    destruct (_ && _); reflexivity.
Qed.

(** A poll whose reading classifies as the key that is already the raw and
    the debounced key changes nothing and reports nothing. *)
Lemma poll_steady (r : Reading) (s : t) (k : Key) :
  classify_ (rd_adc r) s = k -> last_ s = k -> stable_ s = k ->
  poll r s = (NONE, s).
Proof.
  intros Hc Hl Hs. unfold poll. rewrite Hc, Hl, key_eqb_refl. cbn [negb].
  rewrite Hs, Hl, key_eqb_refl. cbn [negb]. rewrite andb_false_r. reflexivity.
Qed.

Lemma polls_steady (rs : list Reading) :
  forall (s : t) (k : Key),
    Forall (fun r => classify_ (rd_adc r) s = k) rs -> last_ s = k -> stable_ s = k ->
    fst (polls rs s) = repeat NONE (List.length rs).
Proof.
  induction rs as [|r rs IH]; intros s k Hall Hl Hs; [reflexivity|].
  inversion Hall as [|r' rs' Hr Hrs]. subst r' rs'.
  cbn [polls fst snd List.length repeat].
  rewrite (poll_steady r s k Hr Hl Hs). cbn [fst snd].
  rewrite (IH s k Hrs Hl Hs). reflexivity.
Qed.

Lemma presses_repeat_NONE (n : nat) : presses (repeat NONE n) = [].
Proof. induction n as [|n IH]; [reflexivity|exact IH]. Qed.

(** X10.  No auto-repeat: while every reading classifies as the same key,
    [poll] reports at most one press, and it is a press of that key. *)
Theorem held_key_reports_once (rs : list Reading) (s : t) (k : Key) :
  Forall (fun r => classify_ (rd_adc r) s = k) rs ->
  presses (fst (polls rs s)) = [] \/ presses (fst (polls rs s)) = [k].
Proof.
  revert s. induction rs as [|r rs IH]; intros s Hall; [left; reflexivity|].
  inversion Hall as [|r' rs' Hr Hrs]. subst r' rs'.
  cbn [polls fst snd].
  assert (Forall (fun r0 => classify_ (rd_adc r0) (snd (poll r s)) = k) rs) as Hrs'.
  { eapply Forall_impl; [|exact Hrs]. intros a Ha. cbn beta in Ha |- *.
    rewrite poll_thresholds. exact Ha. }
  destruct (poll_reports_debounced_changes r s) as (Hsame & Hchg & Hlast).
  cbv zeta in Hsame, Hchg. unfold stable in Hsame, Hchg.
  rewrite Hr in *.
  destruct (key_eqb (stable_ (snd (poll r s))) (stable_ s)) eqn:E.
  - apply key_eqb_eq in E. rewrite (Hsame E). cbn [presses filter key_eqb negb].
    apply IH. exact Hrs'.
  - apply key_eqb_neq in E. destruct (Hchg E) as (Hst & _ & Hk).
    rewrite (polls_steady rs _ k Hrs' Hlast Hst).
    unfold presses at 1 2. cbn [filter]. fold (presses (repeat NONE (List.length rs))).
    rewrite presses_repeat_NONE.
    destruct (negb (key_eqb (fst (poll r s)) NONE)); [right|left]; congruence.
Qed.

Lemma held_key_reports_once_witness :
  presses (fst (polls [mkReading 300 0 0; mkReading 310 50 50; mkReading 305 100 100;
                       mkReading 300 150 150]
                 (ctor 14 80))) = [] \/
  presses (fst (polls [mkReading 300 0 0; mkReading 310 50 50; mkReading 305 100 100;
                       mkReading 300 150 150]
                 (ctor 14 80))) = [DOWN].
Proof.
  apply (held_key_reports_once
           [mkReading 300 0 0; mkReading 310 50 50; mkReading 305 100 100;
            mkReading 300 150 150] (ctor 14 80) DOWN).
  repeat constructor.
Defined.

End KeypadExtras.

Section ControllerExtras.

Import ModeController.

Variable W : Type.
Variable modes : list (IMode W).
Variable lcd : Arduino.LcdOp -> W -> W.
Variable poll : W -> KeypadShield.Key * W.

Local Abbreviation in_table := (in_table W modes).
Local Abbreviation loop_with := (loop_with W modes lcd).
Local Abbreviation loops := (loops W modes lcd poll).

Lemma mode_at_in_table (idx : Z) :
  0 <= idx < Z.of_nat (List.length modes) -> exists m, mode_at W modes idx = Some m.
Proof.
  intros H. unfold mode_at.
  destruct (Z.ltb_spec idx 0); [lia|].
  destruct (nth_error modes (Z.to_nat idx)) as [m|] eqn:E; [exists m; reflexivity|].
  apply nth_error_None in E. lia.
Qed.

Lemma bracketed_app (a b : list Call) :
  forall o o', bracketed o a = Some o' -> bracketed o (a ++ b) = bracketed o' b.
Proof.
  induction a as [|x a IH]; intros o o' H.
  - cbn in H. injection H as <-. reflexivity.
  - cbn [app]. destruct x as [i|i|i]; cbn [bracketed] in *.
    + destruct o; [discriminate|]. apply IH. exact H.
    + destruct o as [j|]; [|discriminate].
      destruct (i =? j); [|discriminate]. apply IH. exact H.
    + destruct o as [j|]; [|discriminate].
      destruct (i =? j); [|discriminate]. apply IH. exact H.
Qed.

(** One call of [loop()], whatever key was read: it does not fail, keeps
    the indices inside the table, and its calls respect the discipline. *)
Lemma loop_with_ok (k : KeypadShield.Key) (c : t) (w : W) :
  in_table c ->
  exists c' w' calls,
    loop_with k c w = Some (c', w', calls) /\
    in_table c' /\
    bracketed (open_mode c) calls = Some (open_mode c').
Proof.
  intros (Hn & Hr & Hs & Hrun).
  unfold ModeController.loop_with, open_mode.
  destruct (ui_ c) eqn:Hui.
  - (* MENU *)
    destruct k.
    + (* NONE *) exists c, w, []. rewrite Hui. repeat split; assumption || lia.
    + (* RIGHT *)
      replace (n_ c =? 0) with false by (symmetry; apply Z.eqb_neq; lia).
      pose proof (Z.mod_pos_bound (selected_ c + 1) (n_ c) ltac:(lia)) as Hm.
      unfold drawMenu_. cbn [selected_].
      rewrite (wrap_u8_small ((selected_ c + 1) mod n_ c)) by lia.
      destruct (mode_at_in_table ((selected_ c + 1) mod n_ c) ltac:(lia)) as [m ->].
      eexists _, _, []. split; [reflexivity|]. cbn [ui_]. rewrite ?Hui.
      split; [|reflexivity]. repeat split; cbn; try assumption; try lia.
    + (* UP *) exists c, w, []. rewrite Hui. repeat split; assumption || lia.
    + (* DOWN *) exists c, w, []. rewrite Hui. repeat split; assumption || lia.
    + (* LEFT *)
      unfold drawMenu_. cbn [selected_].
      set (sel := if selected_ c =? 0 then n_ c - 1 else selected_ c - 1).
      assert (0 <= sel < n_ c) as Hsel
          by (unfold sel; destruct (Z.eqb_spec (selected_ c) 0); lia).
      rewrite (wrap_u8_small sel) by lia.
      destruct (mode_at_in_table sel ltac:(lia)) as [m ->].
      eexists _, _, []. split; [reflexivity|]. cbn [ui_]. rewrite ?Hui.
      split; [|reflexivity]. repeat split; cbn; try assumption; try lia.
    + (* SELECT *)
      unfold start_. cbn [running_ selected_ n_].
      destruct (mode_at_in_table (selected_ c) ltac:(lia)) as [m ->].
      eexists _, _, _. split; [reflexivity|]. cbn [ui_ running_ bracketed].
      split; [|reflexivity]. repeat split; cbn; try assumption; try lia.
  - (* RUNNING *)
    destruct (mode_at_in_table (running_ c) ltac:(lia)) as [m Em]. rewrite Em.
    destruct (step m w) as [done w1].
    assert (exists c' w' calls,
               stop_ W modes lcd c w1 = Some (c', w', calls) /\
               in_table c' /\ ui_ c' = MENU /\ calls = [CEnd (running_ c)] /\
               running_ c' = running_ c) as (cs & ws & ks & Es & His & Hus & Hks & Hrs).
    { unfold stop_. rewrite Em. unfold drawMenu_. cbn [selected_].
      destruct (mode_at_in_table (selected_ c) ltac:(lia)) as [m2 ->].
      eexists _, _, _. split; [reflexivity|]. cbn.
      repeat split; cbn; try assumption; try lia. }
    destruct (negb _ && _).
    + rewrite Es. exists cs, ws, (CStep (running_ c) :: ks).
      split; [reflexivity|]. split; [exact His|].
      rewrite Hus, Hks. cbn [bracketed]. rewrite Z.eqb_refl. reflexivity.
    + destruct done.
      * rewrite Es. exists cs, ws, (CStep (running_ c) :: ks).
        split; [reflexivity|]. split; [exact His|].
        rewrite Hus, Hks. cbn [bracketed]. rewrite Z.eqb_refl. reflexivity.
      * exists c, w1, [CStep (running_ c)]. split; [reflexivity|].
        split; [repeat split; assumption || lia|].
        rewrite Hui. cbn [bracketed]. rewrite Z.eqb_refl. reflexivity.
Qed.

Lemma loops_ok (n : nat) :
  forall (c : t) (w : W),
    in_table c ->
    exists c' w' calls,
      loops n c w = Some (c', w', calls) /\
      in_table c' /\
      bracketed (open_mode c) calls = Some (open_mode c').
Proof.
  induction n as [|n IH]; intros c w Hc.
  - exists c, w, []. repeat split; try reflexivity; apply Hc.
  - cbn [ModeController.loops]. unfold loop.
    destruct (poll w) as [k w0].
    destruct (loop_with_ok k c w0 Hc) as (c1 & w1 & k1 & E1 & H1 & B1).
    rewrite E1.
    destruct (IH c1 w1 H1) as (c2 & w2 & k2 & E2 & H2 & B2).
    rewrite E2. exists c2, w2, (k1 ++ k2). split; [reflexivity|].
    split; [exact H2|]. rewrite (bracketed_app k1 k2 _ _ B1). exact B2.
Qed.

(** X11.  The controller keeps the discipline of [IMode] and never reads
    the mode table out of range.  For a table of 1 to 255 modes, [begin()]
    followed by any number of calls of [loop()], whatever the keys and
    whatever the modes do, makes its calls in the order [begin], [step]s,
    [end] for one mode at a time: a mode's [step()] and [end()] are called
    only between its [begin()] and the same [end()], and no [begin()] is
    called while a mode is open. *)
Theorem controller_keeps_mode_discipline (n : nat) (c : t) (w : W) :
  n_ c = Z.of_nat (List.length modes) -> 1 <= n_ c <= 255 ->
  exists c' w' calls,
    run W modes lcd poll n c w = Some (c', w', calls) /\
    bracketed None calls = Some (open_mode c') /\
    0 <= selected_ c' < n_ c /\ 0 <= running_ c' < n_ c.
Proof.
  intros Hn Hr. unfold run, begin_ctrl, drawMenu_, start_. cbn [selected_ running_ n_].
  destruct (mode_at_in_table 0 ltac:(lia)) as [m ->].
  assert (in_table (mk (n_ c) RUNNING 0 0)) as H0
      by (repeat split; cbn; try assumption; lia).
  destruct (loops_ok n _ (begin m (fold_left (fun w op => lcd op w) (menu_ops (name m)) w)) H0)
    as (c2 & w2 & k2 & E2 & (Hn2 & _ & Hs2 & Hr2) & B2).
  cbn [ui_ selected_ running_ n_]. rewrite E2.
  exists c2, w2, ([CBegin 0] ++ k2). split; [reflexivity|].
  split; [|split; [|]].
  - cbn [app bracketed]. exact B2.
  - rewrite Hn, <- Hn2. exact Hs2.
  - rewrite Hn, <- Hn2. exact Hr2.
Qed.

(** X12.  In the menu LEFT and RIGHT undo each other, also across the ends
    of the table: for a table of 1 to 255 modes and a selection inside it,
    LEFT followed by RIGHT, and RIGHT followed by LEFT, both leave the
    selection where it was, start no mode and stay in the menu. *)
Theorem menu_left_right_inverse (c : t) (w : W) :
  n_ c = Z.of_nat (List.length modes) -> 1 <= n_ c <= 255 ->
  0 <= selected_ c < n_ c -> ui_ c = MENU ->
  (exists c1 w1 c2 w2,
      loop_with KeypadShield.LEFT c w = Some (c1, w1, []) /\
      loop_with KeypadShield.RIGHT c1 w1 = Some (c2, w2, []) /\
      selected_ c2 = selected_ c /\ ui_ c2 = MENU) /\
  (exists c1 w1 c2 w2,
      loop_with KeypadShield.RIGHT c w = Some (c1, w1, []) /\
      loop_with KeypadShield.LEFT c1 w1 = Some (c2, w2, []) /\
      selected_ c2 = selected_ c /\ ui_ c2 = MENU).
Proof.
  intros Hn Hr Hs Hui.
  assert (forall s, 0 <= s < n_ c -> exists m, mode_at W modes s = Some m) as Hat
      by (intros s Hs'; apply mode_at_in_table; lia).
  split.
  - set (sel := if selected_ c =? 0 then n_ c - 1 else selected_ c - 1).
    assert (0 <= sel < n_ c) as Hsel
        by (unfold sel; destruct (Z.eqb_spec (selected_ c) 0); lia).
    assert ((sel + 1) mod n_ c = selected_ c) as Hback.
    { unfold sel. destruct (Z.eqb_spec (selected_ c) 0) as [E|E].
      - replace (n_ c - 1 + 1) with (n_ c) by lia. rewrite Z.mod_same by lia. lia.
      - replace (selected_ c - 1 + 1) with (selected_ c) by lia.
        apply Z.mod_small. lia. }
    destruct (Hat sel Hsel) as [m1 E1]. destruct (Hat (selected_ c) Hs) as [m2 E2].
    unfold ModeController.loop_with, drawMenu_. rewrite Hui. cbn [selected_ ui_ n_ running_].
    fold sel. rewrite (wrap_u8_small sel) by lia. rewrite E1.
    eexists _, _, _, _. split; [reflexivity|]. cbn [selected_ ui_ n_ running_].
    replace (n_ c =? 0) with false by (symmetry; apply Z.eqb_neq; lia).
    rewrite Hback, (wrap_u8_small (selected_ c)) by lia. rewrite E2.
    repeat split; reflexivity.
  - set (sel := (selected_ c + 1) mod n_ c).
    pose proof (Z.mod_pos_bound (selected_ c + 1) (n_ c) ltac:(lia)) as Hsel. fold sel in Hsel.
    assert ((if sel =? 0 then n_ c - 1 else sel - 1) = selected_ c) as Hback.
    { unfold sel. destruct (Z.eq_dec (selected_ c + 1) (n_ c)) as [E|E].
      - rewrite E, Z.mod_same by lia. cbn. lia.
      - rewrite Z.mod_small by lia.
        destruct (Z.eqb_spec (selected_ c + 1) 0); lia. }
    destruct (Hat sel Hsel) as [m1 E1]. destruct (Hat (selected_ c) Hs) as [m2 E2].
    unfold ModeController.loop_with, drawMenu_. rewrite Hui. cbn [selected_ ui_ n_ running_].
    replace (n_ c =? 0) with false by (symmetry; apply Z.eqb_neq; lia).
    fold sel. rewrite (wrap_u8_small sel) by lia. rewrite E1.
    eexists _, _, _, _. split; [reflexivity|]. cbn [selected_ ui_ n_ running_].
    rewrite Hback, (wrap_u8_small (selected_ c)) by lia. rewrite E2.
    repeat split; reflexivity.
Qed.

End ControllerExtras.

Lemma controller_keeps_mode_discipline_witness :
  exists c' w' calls,
    ModeController.run Z ControllerExamples.two_modes ControllerExamples.no_lcd
      ControllerExamples.select_on_odd 8 (ModeController.ctor 2) 0 = Some (c', w', calls) /\
    ModeController.bracketed None calls = Some (ModeController.open_mode c') /\
    0 <= ModeController.selected_ c' < 2 /\ 0 <= ModeController.running_ c' < 2.
Proof.
  apply (controller_keeps_mode_discipline Z ControllerExamples.two_modes
           ControllerExamples.no_lcd ControllerExamples.select_on_odd 8
           (ModeController.ctor 2) 0); [reflexivity | cbn; lia].
Defined.

Lemma menu_left_right_inverse_witness :
  let c := ModeController.mk 2 ModeController.MENU 0 0 in
  (exists c1 w1 c2 w2,
      ModeController.loop_with Z ControllerExamples.two_modes ControllerExamples.no_lcd
        KeypadShield.LEFT c 0 = Some (c1, w1, []) /\
      ModeController.loop_with Z ControllerExamples.two_modes ControllerExamples.no_lcd
        KeypadShield.RIGHT c1 w1 = Some (c2, w2, []) /\
      ModeController.selected_ c2 = 0 /\ ModeController.ui_ c2 = ModeController.MENU) /\
  (exists c1 w1 c2 w2,
      ModeController.loop_with Z ControllerExamples.two_modes ControllerExamples.no_lcd
        KeypadShield.RIGHT c 0 = Some (c1, w1, []) /\
      ModeController.loop_with Z ControllerExamples.two_modes ControllerExamples.no_lcd
        KeypadShield.LEFT c1 w1 = Some (c2, w2, []) /\
      ModeController.selected_ c2 = 0 /\ ModeController.ui_ c2 = ModeController.MENU).
Proof.
  apply (menu_left_right_inverse Z ControllerExamples.two_modes ControllerExamples.no_lcd
           (ModeController.mk 2 ModeController.MENU 0 0) 0);
    [reflexivity | cbn; lia | cbn; lia | reflexivity].
Defined.

Section RelaySafetyFacts.

Import Arduino.

Variables r1 r2 : Z.

Local Abbreviation never := (RelaySafety.never_both_LOW r1 r2).

Lemma never_both_LOW_app (a b : Trace) :
  forall p, never p (a ++ b) = never p a && never (Relays.after r1 r2 p a) b.
Proof.
  induction a as [|ev a IH]; intros p.
  - cbn [app RelaySafety.never_both_LOW Relays.after fold_left].
    destruct b; cbn [RelaySafety.never_both_LOW];
      destruct (RelaySafety.both_LOW p); reflexivity.
  - cbn [app RelaySafety.never_both_LOW]. rewrite IH.
    unfold Relays.after. cbn [fold_left]. rewrite andb_assoc. reflexivity.
Qed.

Lemma never_both_LOW_start (p : Relays.Pair) (tr : Trace) :
  never p tr = true -> RelaySafety.both_LOW p = false.
Proof.
  destruct tr; cbn [RelaySafety.never_both_LOW]; intros H;
    apply andb_true_iff in H; destruct H as [H _]; apply negb_true_iff in H; exact H.
Qed.

Lemma never_both_LOW_end (tr : Trace) :
  forall p, never p tr = true -> RelaySafety.both_LOW (Relays.after r1 r2 p tr) = false.
Proof.
  induction tr as [|ev tr IH]; intros p H.
  - exact (never_both_LOW_start p [] H).
  - cbn [RelaySafety.never_both_LOW] in H. apply andb_true_iff in H.
    unfold Relays.after. cbn [fold_left]. apply IH. apply H.
Qed.

Lemma untouched_never (p : Relays.Pair) (tr : Trace) :
  Relays.untouched r1 r2 tr = true ->
  never p tr = negb (RelaySafety.both_LOW p).
Proof.
  revert p. induction tr as [|ev tr IH]; intros p H.
  - cbn. apply andb_true_r.
  - cbn [Relays.untouched forallb] in H. apply andb_true_iff in H. destruct H as [He Ht].
    cbn [RelaySafety.never_both_LOW].
    assert (Relays.apply r1 r2 p ev = p) as E.
    { destruct ev; simpl; try reflexivity.
      apply andb_true_iff in He. destruct He as [H1 H2].
      apply negb_true_iff in H1, H2. rewrite H1, H2. destruct p; reflexivity. }
    rewrite E, (IH p Ht). apply andb_diag.
Qed.

End RelaySafetyFacts.

Section ConfigKept.

Import StepperDriver.

Lemma setSpeedMmPerSec_config_ok (v : F32.float) (s : t) :
  config_ok (fst (setSpeedMmPerSec v s)) = config_ok s.
Proof.
  unfold setSpeedMmPerSec.
  repeat match goal with
         | |- context [if ?c then _ else _] => destruct c
         end; reflexivity.
Qed.

Lemma moveRelativeMm_config_ok (dx v : F32.float) (s : t) :
  config_ok (fst (moveRelativeMm dx v s)) = config_ok s.
Proof. reflexivity. Qed.

Lemma setSpeedMmPerSec_zero_idle (s : t) :
  config_ok s = true -> idle (fst (setSpeedMmPerSec F32.zero s)) = true.
Proof.
  intros H. destruct (setSpeedMmPerSec_zero s H) as [Hs Hm].
  unfold idle. rewrite Hs, Hm. reflexivity.
Qed.

End ConfigKept.

(** [CurrentSensor::update] leaves the enable flag alone. *)
Lemma update_isEnabled (now adc : Z) (s : CurrentSensor.t) :
  CurrentSensor.isEnabled (CurrentSensor.update now adc s) = CurrentSensor.isEnabled s.
Proof.
  unfold CurrentSensor.update, CurrentSensor.close_window, CurrentSensor.take_sample,
    CurrentSensor.isEnabled.
  destruct (negb (CurrentSensor.enabled_ s)); [reflexivity|].
  destruct (0 <=? _); cbn [CurrentSensor.sampleWindow_us_ CurrentSensor.windowStart_];
    destruct (_ <=? _); reflexivity.
Qed.

Ltac wired1 :=
  simpl;
  repeat first [rewrite update_pins | rewrite setSpeedMmPerSec_pins
               | rewrite moveRelativeMm_pins];
  assumption.

Ltac config1 :=
  simpl;
  repeat first [rewrite update_config_ok | rewrite setSpeedMmPerSec_config_ok
               | rewrite moveRelativeMm_config_ok];
  assumption.

(** The calls into the stepper driver leave the relays alone and issue no
    final lift, except the final lift itself. *)
Ltac quiet1 :=
  repeat match goal with
    | |- context [Relays.after ?a ?b ?q (snd (StepperDriver.update ?n ?s))] =>
        rewrite (untouched_after a b q _ (update_untouched a b s ltac:(wired1) n))
    | |- context [Relays.count_9V_on ?a ?b ?q (snd (StepperDriver.update ?n ?s))] =>
        rewrite (untouched_count a b q _ (update_untouched a b s ltac:(wired1) n))
    | |- context [RelaySafety.never_both_LOW ?a ?b ?q (snd (StepperDriver.update ?n ?s))] =>
        rewrite (untouched_never a b q _ (update_untouched a b s ltac:(wired1) n))
    | |- context [Relays.after ?a ?b ?q (snd (StepperDriver.setSpeedMmPerSec ?v ?s))] =>
        rewrite (untouched_after a b q _
                   (setSpeedMmPerSec_untouched a b s ltac:(wired1) v))
    | |- context [Relays.count_9V_on ?a ?b ?q (snd (StepperDriver.setSpeedMmPerSec ?v ?s))] =>
        rewrite (untouched_count a b q _
                   (setSpeedMmPerSec_untouched a b s ltac:(wired1) v))
    | |- context [RelaySafety.never_both_LOW ?a ?b ?q
                    (snd (StepperDriver.setSpeedMmPerSec ?v ?s))] =>
        rewrite (untouched_never a b q _
                   (setSpeedMmPerSec_untouched a b s ltac:(wired1) v))
    | |- context [Relays.after ?a ?b ?q (snd (StepperDriver.moveRelativeMm ?d ?v ?s))] =>
        rewrite (untouched_after a b q _
                   (moveRelativeMm_untouched a b s ltac:(wired1) d v))
    | |- context [Relays.count_9V_on ?a ?b ?q (snd (StepperDriver.moveRelativeMm ?d ?v ?s))] =>
        rewrite (untouched_count a b q _
                   (moveRelativeMm_untouched a b s ltac:(wired1) d v))
    | |- context [RelaySafety.never_both_LOW ?a ?b ?q
                    (snd (StepperDriver.moveRelativeMm ?d ?v ?s))] =>
        rewrite (untouched_never a b q _
                   (moveRelativeMm_untouched a b s ltac:(wired1) d v))
    | |- context [Relays.after ?a ?b ?q (snd (StepperDriver.enable ?o ?s))] =>
        rewrite (untouched_after a b q _ (enable_untouched a b s ltac:(wired1) o))
    | |- context [Relays.count_9V_on ?a ?b ?q (snd (StepperDriver.enable ?o ?s))] =>
        rewrite (untouched_count a b q _ (enable_untouched a b s ltac:(wired1) o))
    | |- context [RelaySafety.never_both_LOW ?a ?b ?q (snd (StepperDriver.enable ?o ?s))] =>
        rewrite (untouched_never a b q _ (enable_untouched a b s ltac:(wired1) o))
    end;
  rewrite ?update_lifts, ?setSpeedMmPerSec_lifts, ?moveRelativeMm_lifts,
    ?plunge_is_no_final_lift, ?final_lift_is_final_lift.

Ltac facts1 :=
  repeat match goal with
    | H : False |- _ => destruct H
    | H : _ /\ _ |- _ => destruct H
    | H : _ \/ _ |- _ => destruct H
    | H : (_, _) = (_, _) |- _ => injection H as -> ->
    end.

Section Mod1Run.

Import Arduino.

Variables r1 r2 : Z.
Variable w0 : World.t.
Variable p0 : Relays.Pair.

Local Abbreviation mod1_facts := RelaySafety.mod1_facts.
Local Abbreviation mod1_inv := (RelaySafety.mod1_inv r1 r2 w0 p0).
Local Abbreviation never := (RelaySafety.never_both_LOW r1 r2).

(** Establishing the invariant after a step that wrote [evs]. *)
Lemma mod1_inv_step (m' : Mod1Mode.t) (w w' : World.t) (tr evs : Trace) :
  World.trace w = World.trace w0 ++ tr ->
  World.trace w' = World.trace w ++ evs ->
  Mod1Mode.relayPin1_ m' = r1 ->
  Mod1Mode.relayPin2_ m' = r2 ->
  Relays.wired r1 r2 (World.stepper w') = true ->
  StepperDriver.config_ok (World.stepper w') = true ->
  never p0 tr = true ->
  (Relays.count_9V_on r1 r2 p0 tr <= 1)%nat ->
  never (Relays.after r1 r2 p0 tr) evs = true /\
  Relays.count_9V_on r1 r2 (Relays.after r1 r2 p0 tr) evs = O /\
  mod1_facts m' (World.stepper w') (CurrentSensor.isEnabled (World.current w'))
    (Relays.after r1 r2 (Relays.after r1 r2 p0 tr) evs)
    (Relays.count_final_lifts tr + Relays.count_final_lifts evs) ->
  mod1_inv m' w'.
Proof.
  intros Ht Ht' H1 H2 Hw Hc Hn Hc9 (Hn' & Hc9' & Hf).
  unfold RelaySafety.mod1_inv. repeat (split; [assumption|]).
  exists (tr ++ evs). split; [rewrite Ht', Ht, app_assoc; reflexivity|].
  rewrite never_both_LOW_app, after_app, count_9V_on_app, count_final_lifts_app.
  rewrite Hn, Hn', Hc9'. split; [reflexivity|]. split; [lia|]. exact Hf.
Qed.

Opaque StepperDriver.update StepperDriver.setSpeedMmPerSec StepperDriver.moveRelativeMm
  StepperDriver.moveToMm MovingAverage.update MovingAverage.reset.

(** One call of [Mod1Mode::step] keeps the invariant, and reports
    completion only in the state Done. *)
Lemma mod1_step_inv (i : Inputs) (m : Mod1Mode.t) (w : World.t) :
  mod1_inv m w ->
  mod1_inv (snd (fst (Mod1Mode.step i m w))) (snd (Mod1Mode.step i m w)) /\
  (fst (fst (Mod1Mode.step i m w)) = true ->
   Mod1Mode.st_ (snd (fst (Mod1Mode.step i m w))) = Mod1Mode.Done).
Proof.
  intros (H1 & H2 & Hw & Hcfg & tr & Ht & Hn & Hc9 & Hf).
  destruct (wired_facts r1 r2 _ Hw) as (E12 & E21 & _).
  pose proof (never_both_LOW_end r1 r2 tr p0 Hn) as Hbl.
  remember (Relays.after r1 r2 p0 tr) as q eqn:Hq.
  remember (Relays.count_final_lifts tr) as l eqn:Hl.
  assert (Hcfg' : StepperDriver.config_ok
                    (fst (StepperDriver.update (in_micros i) (World.stepper w))) = true)
    by (rewrite update_config_ok; exact Hcfg).
  pose proof (setSpeedMmPerSec_zero_idle _ Hcfg') as Hstop.
  pose proof (update_idle_keeps (in_micros i) (World.stepper w)) as Hk.
  pose proof (update_ToTarget (in_micros i) (World.stepper w)) as Ht2.
  pose proof (not_busy_of_step
                (fst (StepperDriver.update (in_micros i) (World.stepper w)))) as Hnb.
  destruct q as [qa qb].
  unfold Mod1Mode.step.
  destruct (out_of_range _) eqn:Hz.
  - (* the soft limit aborts the run *)
    split; [|reflexivity].
    eapply mod1_inv_step with (tr := tr);
      [exact Ht | simpl; rewrite <- ?app_assoc; reflexivity
      | exact H1 | exact H2 | wired1 | config1 | exact Hn | exact Hc9 |].
    unfold RelaySafety.mod1_facts in *. simpl Mod1Mode.st_. cbv iota.
    rewrite <- Hq, <- Hl.
    rewrite !never_both_LOW_app, !after_app, !count_9V_on_app, !count_final_lifts_app.
    quiet1. rewrite H1, H2. unfold Relays.count_final_lifts, title2.
    simpl. rewrite !Z.eqb_refl, ?E12, ?E21. simpl.
    destruct (Mod1Mode.st_ m) eqn:Hst; facts1; simpl; repeat split; auto; lia.
  - unfold RelaySafety.mod1_facts in Hf.
    destruct (Mod1Mode.st_ m) eqn:Hst;
      unfold Mod1Mode.step_MovingDownDetect, Mod1Mode.step_Wait1, Mod1Mode.step_MoveDown1,
        Mod1Mode.step_Wait2, Mod1Mode.step_Validate30V, Mod1Mode.step_RelayHold,
        Mod1Mode.step_Etching, Mod1Mode.step_FinalLift;
      cbv beta iota zeta delta [World.IavgS_update World.Iavg_update];
      repeat match goal with
             | |- context [if ?c then _ else _] => destruct c eqn:?
             end.
    all: (split; [|simpl; intros; first [discriminate | reflexivity | assumption]]).
    all: eapply mod1_inv_step with (tr := tr);
      [exact Ht | simpl; rewrite <- ?app_assoc; reflexivity
      | simpl; exact H1 | simpl; exact H2 | wired1 | config1 | exact Hn | exact Hc9 |].
    all: unfold RelaySafety.mod1_facts; simpl Mod1Mode.st_; rewrite ?Hst; cbv iota;
      rewrite <- ?Hq, <- ?Hl;
      rewrite ?never_both_LOW_app, ?after_app, ?count_9V_on_app, ?count_final_lifts_app;
      quiet1; rewrite ?H1, ?H2; unfold Relays.count_final_lifts, title2;
      simpl; rewrite ?Z.eqb_refl, ?E12, ?E21; simpl.
    all: repeat match goal with
           | H : negb _ = true |- _ => apply negb_true_iff in H
           | H : negb _ = false |- _ => apply negb_false_iff in H
           end.
    all: facts1; simpl; try solve [repeat split; auto; lia].
    (* FinalLift and Done: the axis ends its move, or is at rest already *)
    all: repeat match goal with
           | H : StepperDriver.idle (World.stepper _) = true |- _ =>
               apply Hk in H; destruct H
           | H : StepperDriver.motion_ (World.stepper _) = StepperDriver.ToTarget |- _ =>
               apply Ht2 in H
           end.
    all: repeat split; auto; try lia; apply Hnb; auto.
Qed.

Lemma mod1_run_inv (tks : list Sketch.Tick) :
  forall (m : Mod1Mode.t) (w : World.t),
    mod1_inv m w ->
    mod1_inv (snd (fst (ModeRuns.run_mod1 tks m w))) (snd (ModeRuns.run_mod1 tks m w)) /\
    (fst (fst (ModeRuns.run_mod1 tks m w)) = true ->
     Mod1Mode.st_ (snd (fst (ModeRuns.run_mod1 tks m w))) = Mod1Mode.Done).
Proof.
  induction tks as [|tk tks IH]; intros m w H.
  - simpl. split; [exact H|discriminate].
  - simpl ModeRuns.run_mod1. unfold ModeRuns.loop_mod1.
    assert (Hs : mod1_inv m (Sketch.sensor_update tk w)).
    { destruct H as (A & B & C & D & tr & E & F & G & I).
      repeat (split; [assumption|]). exists tr. repeat (split; [assumption|]).
      unfold Sketch.sensor_update. cbn [World.current World.set_current World.stepper].
      rewrite update_isEnabled. exact I. }
    pose proof (mod1_step_inv (Sketch.tk_in tk) m _ Hs) as [Hi Hd].
    destruct (Mod1Mode.step (Sketch.tk_in tk) m (Sketch.sensor_update tk w))
      as [[d m'] w'] eqn:E.
    simpl in Hi, Hd. destruct d.
    + simpl. split; [exact Hi|exact Hd].
    + apply IH. exact Hi.
Qed.

(** [Mod1Mode::begin] establishes the invariant when relay 2 is HIGH. *)
Lemma mod1_begin_inv (m0 : Mod1Mode.t) :
  Mod1Mode.relayPin1_ m0 = r1 ->
  Mod1Mode.relayPin2_ m0 = r2 ->
  Relays.wired r1 r2 (World.stepper w0) = true ->
  StepperDriver.config_ok (World.stepper w0) = true ->
  snd p0 = HIGH ->
  mod1_inv (fst (Mod1Mode.begin m0 w0)) (snd (Mod1Mode.begin m0 w0)).
Proof.
  intros H1 H2 Hw Hcfg Hp.
  destruct (wired_facts r1 r2 _ Hw) as (E12 & E21 & _ & _ & _ & _ & En1 & En2).
  unfold Mod1Mode.begin, RelaySafety.mod1_inv.
  split; [simpl; exact H1|]. split; [simpl; exact H2|].
  split; [wired1|]. split; [config1|].
  eexists. split; [simpl; rewrite <- ?app_assoc; reflexivity|].
  unfold RelaySafety.mod1_facts. simpl Mod1Mode.st_. cbv iota.
  rewrite ?never_both_LOW_app, ?after_app, ?count_9V_on_app, ?count_final_lifts_app.
  quiet1. rewrite ?H1, ?H2. unfold Relays.count_final_lifts, title2.
  simpl. rewrite ?Z.eqb_refl, ?E12, ?E21, ?En1, ?En2. simpl.
  destruct p0 as [a b]. simpl in Hp. subst b. simpl.
  repeat split; destruct a; simpl; auto.
Qed.

(** X13.  A run of MOD1 keeps the relays safe.  With the relay pins apart
    from each other and from the driver's pins, a sound speed configuration
    and relay 2 HIGH when the mode begins, [begin()] followed by any number
    of iterations of [loop()], whatever the readings: never has both relay
    outputs LOW, switches the 9 V on at most once and issues the final lift
    at most once; the 30 V is on exactly in the states Validate30V,
    RelayHold and Etching; and when the run reports completion both relay
    outputs are HIGH, the axis is at rest and current sensing is disabled. *)
Theorem mod1_run_keeps_relays_safe (m0 : Mod1Mode.t) (tks : list Sketch.Tick) :
  Mod1Mode.relayPin1_ m0 = r1 ->
  Mod1Mode.relayPin2_ m0 = r2 ->
  Relays.wired r1 r2 (World.stepper w0) = true ->
  StepperDriver.config_ok (World.stepper w0) = true ->
  snd p0 = HIGH ->
  let b := Mod1Mode.begin m0 w0 in
  let r := ModeRuns.run_mod1 tks (fst b) (snd b) in
  let tr := World.emitted w0 (snd r) in
  RelaySafety.never_both_LOW r1 r2 p0 tr = true /\
  (Relays.count_9V_on r1 r2 p0 tr <= 1)%nat /\
  (Relays.count_final_lifts tr <= 1)%nat /\
  Relays.is_30V (Relays.after r1 r2 p0 tr)
  = RelaySafety.mod1_30V_state (Mod1Mode.st_ (snd (fst r))) /\
  (fst (fst r) = true ->
   Relays.after r1 r2 p0 tr = (HIGH, HIGH) /\
   StepperDriver.idle (World.stepper (snd r)) = true /\
   CurrentSensor.isEnabled (World.current (snd r)) = false).
Proof.
  intros H1 H2 Hw Hcfg Hp b r tr.
  destruct (mod1_run_inv tks _ _ (mod1_begin_inv m0 H1 H2 Hw Hcfg Hp)) as [Hinv Hd].
  fold b in Hinv, Hd. fold r in Hinv, Hd.
  destruct Hinv as (_ & _ & _ & _ & tr' & Ht & Hn & Hc9 & Hf).
  unfold tr. rewrite (emitted_app _ _ _ Ht).
  split; [exact Hn|]. split; [exact Hc9|].
  unfold RelaySafety.mod1_facts in Hf.
  split; [|split].
  - destruct (Mod1Mode.st_ (snd (fst r))); facts1; lia.
  - destruct (Mod1Mode.st_ (snd (fst r))); facts1;
      match goal with H : Relays.after _ _ _ _ = _ |- _ => rewrite H end; reflexivity.
  - intros Hdone. rewrite (Hd Hdone) in Hf. facts1. auto.
Qed.

End Mod1Run.

Section Mod2Run.

Import Arduino.

Variables r1 r2 : Z.
Variable w0 : World.t.
Variable p0 : Relays.Pair.

Local Abbreviation mod2_facts := RelaySafety.mod2_facts.
Local Abbreviation mod2_inv := (RelaySafety.mod2_inv r1 r2 w0 p0).
Local Abbreviation never := (RelaySafety.never_both_LOW r1 r2).

Lemma mod2_inv_step (m' : Mod2Mode.t) (w w' : World.t) (tr evs : Trace) :
  World.trace w = World.trace w0 ++ tr ->
  World.trace w' = World.trace w ++ evs ->
  Mod2Mode.relayPin1_ m' = r1 ->
  Mod2Mode.relayPin2_ m' = r2 ->
  Relays.wired r1 r2 (World.stepper w') = true ->
  StepperDriver.config_ok (World.stepper w') = true ->
  never p0 tr = true ->
  never (Relays.after r1 r2 p0 tr) evs = true /\
  mod2_facts m' (World.stepper w') (CurrentSensor.isEnabled (World.current w'))
    (Relays.after r1 r2 (Relays.after r1 r2 p0 tr) evs) ->
  mod2_inv m' w'.
Proof.
  intros Ht Ht' H1 H2 Hw Hc Hn (Hn' & Hf).
  unfold RelaySafety.mod2_inv. repeat (split; [assumption|]).
  exists (tr ++ evs). split; [rewrite Ht', Ht, app_assoc; reflexivity|].
  rewrite never_both_LOW_app, after_app.
  rewrite Hn, Hn'. split; [reflexivity|]. exact Hf.
Qed.

Opaque StepperDriver.update StepperDriver.setSpeedMmPerSec StepperDriver.moveRelativeMm
  StepperDriver.moveToMm MovingAverage.update MovingAverage.reset.

(** One call of [Mod2Mode::step] keeps the invariant, and reports
    completion only in the state Done. *)
Lemma mod2_step_inv (i : Inputs) (m : Mod2Mode.t) (w : World.t) :
  mod2_inv m w ->
  mod2_inv (snd (fst (Mod2Mode.step i m w))) (snd (Mod2Mode.step i m w)) /\
  (fst (fst (Mod2Mode.step i m w)) = true ->
   Mod2Mode.st_ (snd (fst (Mod2Mode.step i m w))) = Mod2Mode.Done).
Proof.
  intros (H1 & H2 & Hw & Hcfg & tr & Ht & Hn & Hf).
  destruct (wired_facts r1 r2 _ Hw) as (E12 & E21 & _).
  remember (Relays.after r1 r2 p0 tr) as q eqn:Hq.
  assert (Hcfg' : StepperDriver.config_ok
                    (fst (StepperDriver.update (in_micros i) (World.stepper w))) = true)
    by (rewrite update_config_ok; exact Hcfg).
  pose proof (setSpeedMmPerSec_zero_idle _ Hcfg') as Hstop.
  pose proof (update_idle_keeps (in_micros i) (World.stepper w)) as Hk.
  pose proof (update_ToTarget (in_micros i) (World.stepper w)) as Ht2.
  pose proof (not_busy_of_step
                (fst (StepperDriver.update (in_micros i) (World.stepper w)))) as Hnb.
  destruct q as [qa qb].
  unfold Mod2Mode.step.
  destruct (out_of_range _) eqn:Hz.
  - (* the soft limit aborts the run *)
    split; [|reflexivity].
    eapply mod2_inv_step with (tr := tr);
      [exact Ht | simpl; rewrite <- ?app_assoc; reflexivity
      | exact H1 | exact H2 | wired1 | config1 | exact Hn |].
    unfold RelaySafety.mod2_facts in *. simpl Mod2Mode.st_. cbv iota.
    rewrite <- Hq.
    rewrite !never_both_LOW_app, !after_app.
    quiet1. rewrite H1, H2. unfold title2.
    simpl. rewrite !Z.eqb_refl, ?E12, ?E21. simpl.
    destruct (Mod2Mode.st_ m) eqn:Hst; try destruct (Mod2Mode.relayOn_ m);
      facts1; simpl; repeat split; auto.
  - unfold RelaySafety.mod2_facts in Hf.
    destruct (Mod2Mode.st_ m) eqn:Hst;
      unfold Mod2Mode.step_MovingDownDetect, Mod2Mode.step_Wait1, Mod2Mode.step_MoveDown1,
        Mod2Mode.step_Wait2, Mod2Mode.step_Validate30V, Mod2Mode.step_RelayHold,
        Mod2Mode.step_Wait3, Mod2Mode.step_MoveDown2, Mod2Mode.step_Wait4,
        Mod2Mode.step_RelayPulse, Mod2Mode.step_FinalLift;
      cbv beta iota zeta delta [World.IavgS_update World.Iavg_update];
      repeat match goal with
             | |- context [if ?c then _ else _] => destruct c eqn:?
             end.
    all: (split; [|simpl; intros; first [discriminate | reflexivity | assumption]]).
    all: eapply mod2_inv_step with (tr := tr);
      [exact Ht | simpl; rewrite <- ?app_assoc; reflexivity
      | simpl; exact H1 | simpl; exact H2 | wired1 | config1 | exact Hn |].
    all: unfold RelaySafety.mod2_facts; simpl Mod2Mode.st_; rewrite ?Hst; cbv iota;
      rewrite <- ?Hq;
      rewrite ?never_both_LOW_app, ?after_app;
      quiet1; rewrite ?H1, ?H2; unfold title2;
      simpl; rewrite ?Z.eqb_refl, ?E12, ?E21; simpl.
    all: repeat match goal with
           | H : negb _ = true |- _ => apply negb_true_iff in H
           | H : negb _ = false |- _ => apply negb_false_iff in H
           | H : Mod2Mode.relayOn_ _ = _ |- _ => rewrite H in *
           end.
    all: facts1; simpl; try solve [repeat split; auto].
    all: repeat match goal with
           | H : StepperDriver.idle (World.stepper _) = true |- _ =>
               apply Hk in H; destruct H
           | H : StepperDriver.motion_ (World.stepper _) = StepperDriver.ToTarget |- _ =>
               apply Ht2 in H
           end.
    all: repeat split; auto; apply Hnb; auto.
Qed.

Lemma mod2_run_inv (tks : list Sketch.Tick) :
  forall (m : Mod2Mode.t) (w : World.t),
    mod2_inv m w ->
    mod2_inv (snd (fst (Sketch.run_mod2 tks m w))) (snd (Sketch.run_mod2 tks m w)) /\
    (fst (fst (Sketch.run_mod2 tks m w)) = true ->
     Mod2Mode.st_ (snd (fst (Sketch.run_mod2 tks m w))) = Mod2Mode.Done).
Proof.
  induction tks as [|tk tks IH]; intros m w H.
  - simpl. split; [exact H|discriminate].
  - simpl Sketch.run_mod2. unfold Sketch.loop_mod2.
    assert (Hs : mod2_inv m (Sketch.sensor_update tk w)).
    { destruct H as (A & B & C & D & tr & E & F & I).
      repeat (split; [assumption|]). exists tr. repeat (split; [assumption|]).
      unfold Sketch.sensor_update. cbn [World.current World.set_current World.stepper].
      rewrite update_isEnabled. exact I. }
    pose proof (mod2_step_inv (Sketch.tk_in tk) m _ Hs) as [Hi Hd].
    destruct (Mod2Mode.step (Sketch.tk_in tk) m (Sketch.sensor_update tk w))
      as [[d m'] w'] eqn:E.
    simpl in Hi, Hd. destruct d.
    + simpl. split; [exact Hi|exact Hd].
    + apply IH. exact Hi.
Qed.

(** [Mod2Mode::begin] establishes the invariant unless both relay outputs
    are LOW already. *)
Lemma mod2_begin_inv (m0 : Mod2Mode.t) :
  Mod2Mode.relayPin1_ m0 = r1 ->
  Mod2Mode.relayPin2_ m0 = r2 ->
  Relays.wired r1 r2 (World.stepper w0) = true ->
  StepperDriver.config_ok (World.stepper w0) = true ->
  RelaySafety.both_LOW p0 = false ->
  mod2_inv (fst (Mod2Mode.begin m0 w0)) (snd (Mod2Mode.begin m0 w0)).
Proof.
  intros H1 H2 Hw Hcfg Hp.
  destruct (wired_facts r1 r2 _ Hw) as (E12 & E21 & _ & _ & _ & _ & En1 & En2).
  unfold Mod2Mode.begin, RelaySafety.mod2_inv.
  split; [simpl; exact H1|]. split; [simpl; exact H2|].
  split; [wired1|]. split; [config1|].
  eexists. split; [simpl; rewrite <- ?app_assoc; reflexivity|].
  unfold RelaySafety.mod2_facts. simpl Mod2Mode.st_. cbv iota.
  rewrite ?never_both_LOW_app, ?after_app.
  quiet1. rewrite ?H1, ?H2. unfold title2.
  simpl. rewrite ?Z.eqb_refl, ?E12, ?E21, ?En1, ?En2. simpl.
  destruct p0 as [a b]. simpl in Hp.
  repeat split; destruct a, b; simpl; auto; discriminate.
Qed.

(** X14.  A run of MOD2 keeps the relays safe, whatever the pulse count.
    With the relay pins apart from each other and from the driver's pins, a
    sound speed configuration and the relay outputs not both LOW when the
    mode begins, [begin()] followed by any number of iterations of
    [loop()], whatever the readings and the parameters: never has both relay
    outputs LOW; has the 30 V on exactly in the states Validate30V and
    RelayHold, and the 9 V on exactly in the on-phase of a pulse; and when
    the run reports completion both relay outputs are HIGH, the axis is at
    rest and current sensing is disabled. *)
Theorem mod2_run_keeps_relays_safe (m0 : Mod2Mode.t) (tks : list Sketch.Tick) :
  Mod2Mode.relayPin1_ m0 = r1 ->
  Mod2Mode.relayPin2_ m0 = r2 ->
  Relays.wired r1 r2 (World.stepper w0) = true ->
  StepperDriver.config_ok (World.stepper w0) = true ->
  RelaySafety.both_LOW p0 = false ->
  let b := Mod2Mode.begin m0 w0 in
  let r := Sketch.run_mod2 tks (fst b) (snd b) in
  let tr := World.emitted w0 (snd r) in
  RelaySafety.never_both_LOW r1 r2 p0 tr = true /\
  Relays.is_30V (Relays.after r1 r2 p0 tr)
  = RelaySafety.mod2_30V_state (Mod2Mode.st_ (snd (fst r))) /\
  Relays.is_9V (Relays.after r1 r2 p0 tr)
  = Mod2Mode.state_eqb (Mod2Mode.st_ (snd (fst r))) Mod2Mode.RelayPulse
    && Mod2Mode.relayOn_ (snd (fst r)) /\
  (fst (fst r) = true ->
   Relays.after r1 r2 p0 tr = (HIGH, HIGH) /\
   StepperDriver.idle (World.stepper (snd r)) = true /\
   CurrentSensor.isEnabled (World.current (snd r)) = false).
Proof.
  intros H1 H2 Hw Hcfg Hp b r tr.
  destruct (mod2_run_inv tks _ _ (mod2_begin_inv m0 H1 H2 Hw Hcfg Hp)) as [Hinv Hd].
  fold b in Hinv, Hd. fold r in Hinv, Hd.
  destruct Hinv as (_ & _ & _ & _ & tr' & Ht & Hn & Hf).
  unfold tr. rewrite (emitted_app _ _ _ Ht).
  split; [exact Hn|].
  unfold RelaySafety.mod2_facts in Hf.
  split; [|split].
  - destruct (Mod2Mode.st_ (snd (fst r))); facts1;
      match goal with H : Relays.after _ _ _ _ = _ |- _ => rewrite H end;
      try destruct (Mod2Mode.relayOn_ _); reflexivity.
  - destruct (Mod2Mode.st_ (snd (fst r))); facts1;
      match goal with H : Relays.after _ _ _ _ = _ |- _ => rewrite H end;
      try destruct (Mod2Mode.relayOn_ _); reflexivity.
  - intros Hdone. rewrite (Hd Hdone) in Hf. facts1. auto.
Qed.


End Mod2Run.

Transparent StepperDriver.update StepperDriver.setSpeedMmPerSec StepperDriver.moveRelativeMm
  StepperDriver.moveToMm MovingAverage.update MovingAverage.reset.

Section ModeEnd.

(** X16.  Leaving a mode is a safe stop.  In a sound speed configuration
    [Mod1Mode::end] and [Mod2Mode::end], which the controller calls when the
    mode completes or SELECT stops it, leave the commanded speed 0 and the
    axis idle, current sensing disabled and both relay outputs HIGH,
    whatever the state of the mode and the outputs were. *)
Theorem mode_end_is_safe_stop (w : World.t) :
  StepperDriver.config_ok (World.stepper w) = true ->
  (forall m : Mod1Mode.t,
      safe_stop (Mod1Mode.relayPin1_ m) (Mod1Mode.relayPin2_ m) w
        (snd (Mod1Mode.end_ m w))) /\
  (forall m : Mod2Mode.t,
      safe_stop (Mod2Mode.relayPin1_ m) (Mod2Mode.relayPin2_ m) w
        (snd (Mod2Mode.end_ m w))).
Proof.
  intros Hc. destruct (setSpeedMmPerSec_zero _ Hc) as [Hs Hm].
  split; intros m.
  - unfold safe_stop, Mod1Mode.end_. cbn -[StepperDriver.setSpeedMmPerSec].
    split; [exact Hs|]. split; [exact Hm|]. split; [reflexivity|].
    intros p. erewrite emitted_app.
    2:{ cbn -[StepperDriver.setSpeedMmPerSec]. rewrite <- !app_assoc. reflexivity. }
    rewrite app_assoc.
    apply (relays_safe_after _ _ p _ []). reflexivity.
  - unfold safe_stop, Mod2Mode.end_. cbn -[StepperDriver.setSpeedMmPerSec].
    split; [exact Hs|]. split; [exact Hm|]. split; [reflexivity|].
    intros p. erewrite emitted_app.
    2:{ cbn -[StepperDriver.setSpeedMmPerSec]. rewrite <- !app_assoc. reflexivity. }
    rewrite app_assoc.
    apply (relays_safe_after _ _ p _ []). reflexivity.
Qed.

End ModeEnd.

Lemma mod1_run_keeps_relays_safe_witness :
  let r := RunExamples.mod1_run Examples.world_at_40mm 3 in
  let tr := World.emitted Examples.world_at_40mm (snd r) in
  RelaySafety.never_both_LOW Sketch.PIN_RELAY1 Sketch.PIN_RELAY2
    (Arduino.HIGH, Arduino.HIGH) tr = true.
Proof.
  exact (proj1 (mod1_run_keeps_relays_safe Sketch.PIN_RELAY1 Sketch.PIN_RELAY2
                  Examples.world_at_40mm (Arduino.HIGH, Arduino.HIGH) Sketch.mod1
                  (Examples.ticks_every_3s 3) eq_refl eq_refl eq_refl eq_refl eq_refl)).
Defined.

Lemma mod2_run_keeps_relays_safe_witness :
  let r := RunExamples.mod2_run Examples.world_at_40mm 3 in
  let tr := World.emitted Examples.world_at_40mm (snd r) in
  RelaySafety.never_both_LOW Sketch.PIN_RELAY1 Sketch.PIN_RELAY2
    (Arduino.HIGH, Arduino.LOW) tr = true.
Proof.
  exact (proj1 (mod2_run_keeps_relays_safe Sketch.PIN_RELAY1 Sketch.PIN_RELAY2
                  Examples.world_at_40mm (Arduino.HIGH, Arduino.LOW) Sketch.mod2
                  (Examples.ticks_every_3s 3) eq_refl eq_refl eq_refl eq_refl eq_refl)).
Defined.


Lemma mode_end_is_safe_stop_witness :
  safe_stop Sketch.PIN_RELAY1 Sketch.PIN_RELAY2 Examples.world_hold
    (snd (Mod2Mode.end_ Examples.mod2_hold Examples.world_hold)).
Proof.
  exact (proj2 (mode_end_is_safe_stop Examples.world_hold eq_refl) Examples.mod2_hold).
Defined.

Section HomeFacts.

Import StepperDriver.

Lemma setSpeedMmPerSec_positionMm (v : F32.float) (s : t) :
  positionMm (fst (setSpeedMmPerSec v s)) = positionMm s.
Proof.
  unfold positionMm, setSpeedMmPerSec.
  repeat match goal with
         | |- context [if ?c then _ else _] => destruct c
         end; reflexivity.
Qed.

(** In a sound configuration a negative speed request starts a continuous
    motion in the negative direction. *)
Lemma setSpeedMmPerSec_negative (m : positive) (e : Z) (s : t) :
  config_ok s = true ->
  motion_ (fst (setSpeedMmPerSec (S754_finite true m e) s)) = Velocity /\
  dir_ (fst (setSpeedMmPerSec (S754_finite true m e) s)) = false.
Proof.
  intros H. pose proof (config_ok_vmax_positive s H) as Hv.
  unfold setSpeedMmPerSec. cbv zeta.
  set (v := S754_finite true m e).
  assert (F32.gtb v (vmax s) = false) as ->.
  { destruct (positive_shape _ Hv) as [-> | (m' & e' & ->)]; reflexivity. }
  set (v' := if F32.ltb v (F32.neg (vmax s)) then F32.neg (vmax s) else v).
  assert (F32.eqb v' F32.zero = false /\ F32.geb v' F32.zero = false) as [E1 E2].
  { unfold v'. destruct (F32.ltb v (F32.neg (vmax s))); [|split; reflexivity].
    destruct (positive_shape _ Hv) as [-> | (m' & e' & ->)]; split; reflexivity. }
  unfold F32.neqb. change (SFeqb v' F32.zero) with (F32.eqb v' F32.zero).
  rewrite E1, E2.
  destruct (dir_ s) eqn:Ed; simpl; rewrite ?Ed; simpl;
    destruct (_ || _); simpl; auto.
Qed.

(** A continuous motion stays one under [update], in the same direction. *)
Lemma update_Velocity (now : Z) (s : t) :
  motion_ s = Velocity ->
  motion_ (fst (update now s)) = Velocity /\ dir_ (fst (update now s)) = dir_ s.
Proof.
  intros H. unfold update, idle. rewrite H. cbn [motion_eqb andb].
  destruct (period_us s); [|auto].
  destruct (step_due now s); [|auto].
  cbn. unfold check_target. cbn. rewrite H. auto.
Qed.

End HomeFacts.

Section HomeRunFacts.

Local Abbreviation home_inv := HomeRun.home_inv.

Opaque StepperDriver.update StepperDriver.setSpeedMmPerSec.

Lemma home_step_inv (seen : bool) (i : Inputs) (m : HomeMode.t) (w : World.t) :
  home_inv seen m w ->
  let r := HomeMode.step i m w in
  home_inv (seen || Arduino.level_eqb (in_limit i) Arduino.LOW) (snd (fst r)) (snd r) /\
  (fst (fst r) = true ->
   HomeMode.homed_ (snd (fst r)) = true /\ HomeMode.baselineDone_ (snd (fst r)) = true).
Proof.
  intros [Hcfg Hf] r. subst r.
  assert (Hcfg' : StepperDriver.config_ok
                    (fst (StepperDriver.update (in_micros i) (World.stepper w))) = true)
    by (rewrite update_config_ok; exact Hcfg).
  pose proof (update_idle_keeps (in_micros i) (World.stepper w)) as Hk.
  pose proof (update_Velocity (in_micros i) (World.stepper w)) as Hv.
  unfold HomeRun.home_inv, HomeRun.home_facts, HomeRun.parked in *.
  unfold HomeMode.step.
  destruct (HomeMode.homed_ m) eqn:Hh; cbn [negb] in *.
  - (* homed *)
    destruct Hf as (-> & Htg & Hf). cbn [orb].
    destruct (HomeMode.baselineMeasuring_ m) eqn:Hm; cbn [negb andb].
    + (* measuring *)
      destruct Hf as (Hd & Hs & Hidle & Hpos).
      destruct (Hk Hidle) as [Hi' Hp'].
      unfold HomeMode.step_measuring.
      destruct (5000 <=? _); simpl; rewrite ?Hh, ?Hm, ?Hd; simpl;
        (split; [|discriminate]); (split; [exact Hcfg'|]);
        repeat split; auto; rewrite ?Hp'; auto.
    + destruct (HomeMode.baselineDone_ m) eqn:Hd; cbn [negb andb].
      * (* done *)
        destruct Hf as (Hs & Hidle & Hpos).
        destruct (Hk Hidle) as [Hi' Hp'].
        unfold HomeMode.step_done. simpl. rewrite Hh, Hm, Hd. simpl.
        split; [|auto]. split; [exact Hcfg'|].
        repeat split; auto; rewrite ?Hp'; auto.
      * (* moving to the target *)
        unfold HomeMode.step_moving.
        destruct (F32.geb _ _) eqn:Hge; simpl; rewrite ?Hh, ?Hm, ?Hd; simpl;
          (split; [|discriminate]).
        -- split; [rewrite setSpeedMmPerSec_config_ok; exact Hcfg'|].
           repeat split; auto.
           ++ apply setSpeedMmPerSec_zero_idle. exact Hcfg'.
           ++ rewrite setSpeedMmPerSec_positionMm. rewrite <- Htg. exact Hge.
        -- split; [exact Hcfg'|]. repeat split; auto.
  - (* homing *)
    destruct Hf as (Hmo & Hdir & Hm & Hd). destruct (Hv Hmo) as [Hmo' Hdir'].
    unfold HomeMode.step_homing.
    destruct (in_limit i); (split; [|discriminate]).
    + rewrite orb_true_r. split.
      * change (StepperDriver.config_ok
                  (fst (StepperDriver.setSpeedMmPerSec (F32.of_Z 5)
                     (StepperDriver.setPositionMm F32.zero
                        (fst (StepperDriver.setSpeedMmPerSec F32.zero
                           (fst (StepperDriver.update (in_micros i) (World.stepper w)))))))) = true).
        rewrite setSpeedMmPerSec_config_ok.
        change (StepperDriver.config_ok
                  (fst (StepperDriver.setSpeedMmPerSec F32.zero
                     (fst (StepperDriver.update (in_micros i) (World.stepper w))))) = true).
        rewrite setSpeedMmPerSec_config_ok. exact Hcfg'.
      * simpl. split; [reflexivity|]. split; [reflexivity|].
        rewrite Hm, Hd. exact I.
    + simpl; rewrite ?Hh; simpl. split; [exact Hcfg'|]. split; [exact Hmo'|].
      rewrite Hdir'. auto.
Qed.

Lemma home_run_inv (tks : list Sketch.Tick) :
  forall (seen : bool) (m : HomeMode.t) (w : World.t),
    home_inv seen m w ->
    let r := HomeRun.run_home tks m w in
    (exists seen', home_inv seen' (snd (fst r)) (snd r) /\
                   (seen' = true -> seen = true \/ HomeRun.limit_closed tks = true)) /\
    (fst (fst r) = true ->
     HomeMode.homed_ (snd (fst r)) = true /\ HomeMode.baselineDone_ (snd (fst r)) = true).
Proof.
  induction tks as [|tk tks IH]; intros seen m w H.
  - simpl. split; [|discriminate]. exists seen. auto.
  - cbn zeta. simpl HomeRun.run_home. unfold HomeRun.loop_home.
    assert (Hs : home_inv seen m (Sketch.sensor_update tk w)).
    { destruct H as [A B]. split; [exact A|].
      unfold Sketch.sensor_update. cbn [World.current World.set_current World.stepper].
      rewrite update_isEnabled. exact B. }
    pose proof (home_step_inv seen (Sketch.tk_in tk) m _ Hs) as [Hi Hd].
    destruct (HomeMode.step (Sketch.tk_in tk) m (Sketch.sensor_update tk w))
      as [[d m'] w'] eqn:E.
    cbn [fst snd] in Hi, Hd.
    assert (Hseen : forall seen',
               (seen' = true ->
                seen || Arduino.level_eqb (in_limit (Sketch.tk_in tk)) Arduino.LOW = true
                \/ HomeRun.limit_closed tks = true) ->
               seen' = true -> seen = true \/ HomeRun.limit_closed (tk :: tks) = true).
    { intros seen' Hx Hy. unfold HomeRun.limit_closed in *. cbn [existsb].
      destruct (Hx Hy) as [Hz | Hz].
      - apply orb_true_iff in Hz. destruct Hz as [Hz | Hz]; [left; exact Hz|].
        right. rewrite Hz. reflexivity.
      - right. rewrite Hz. apply orb_true_r. }
    destruct d.
    + cbn [fst snd]. split; [|exact Hd].
      eexists. split; [exact Hi|]. intros Hy. apply (Hseen _ (fun h => or_introl h) Hy).
    + destruct (IH _ m' w' Hi) as [(seen' & Hi' & Hs') Hd'].
      split; [|exact Hd'].
      exists seen'. split; [exact Hi'|]. exact (Hseen _ Hs').
Qed.

(** [HomeMode::begin] starts the search for the limit switch. *)
Lemma home_begin_inv (m0 : HomeMode.t) (w0 : World.t) :
  StepperDriver.config_ok (World.stepper w0) = true ->
  home_inv false (fst (HomeMode.begin m0 w0)) (snd (HomeMode.begin m0 w0)).
Proof.
  intros Hcfg. unfold HomeMode.begin, HomeRun.home_inv, HomeRun.home_facts.
  let a := eval vm_compute in (F32.neg (F32.of_Z 5)) in
    change (F32.neg (F32.of_Z 5)) with a.
  match goal with
  | |- context [StepperDriver.setSpeedMmPerSec (S754_finite true ?m ?e)] =>
      pose proof (setSpeedMmPerSec_negative m e (World.stepper w0) Hcfg) as [Hm Hd]
  end.
  split.
  - simpl. rewrite setSpeedMmPerSec_config_ok. exact Hcfg.
  - simpl. auto.
Qed.

(** X17.  Homing completes only after the limit switch has closed.  In a
    sound speed configuration, when [begin()] followed by iterations of
    [loop()] reports completion, the limit switch has read LOW in one of the
    iterations, the axis is at rest at or beyond Z = 30 mm counted from the
    switch, and current sensing is disabled again. *)
Theorem home_completes_only_after_limit (m0 : HomeMode.t) (w0 : World.t)
  (tks : list Sketch.Tick) :
  StepperDriver.config_ok (World.stepper w0) = true ->
  let b := HomeMode.begin m0 w0 in
  let r := HomeRun.run_home tks (fst b) (snd b) in
  fst (fst r) = true ->
  HomeRun.limit_closed tks = true /\
  HomeRun.parked (World.stepper (snd r)) /\
  CurrentSensor.isEnabled (World.current (snd r)) = false.
Proof.
  intros Hcfg b r Hdone.
  destruct (home_run_inv tks false _ _ (home_begin_inv m0 w0 Hcfg))
    as [(seen' & [_ Hf] & Hs) Hd].
  fold b in Hf, Hs, Hd. fold r in Hf, Hs, Hd.
  destruct (Hd Hdone) as [Hh Hb].
  unfold HomeRun.home_facts in Hf. rewrite Hh in Hf. cbn [negb] in Hf.
  destruct Hf as (Hseen & _ & Hf).
  split; [destruct (Hs Hseen) as [|]; [discriminate|assumption]|].
  destruct (HomeMode.baselineMeasuring_ (snd (fst r))).
  - destruct Hf as [Hf _]. rewrite Hb in Hf. discriminate.
  - rewrite Hb in Hf. destruct Hf as [A B]. auto.
Qed.

(** X18.  Homing has no timeout.  In a sound speed configuration, as long as
    the limit switch reads HIGH in every iteration, the run never reports
    completion and the axis stays in continuous motion in the negative
    direction, however many iterations pass. *)
Theorem homing_has_no_timeout (m0 : HomeMode.t) (w0 : World.t) (tks : list Sketch.Tick) :
  StepperDriver.config_ok (World.stepper w0) = true ->
  HomeRun.limit_closed tks = false ->
  let b := HomeMode.begin m0 w0 in
  let r := HomeRun.run_home tks (fst b) (snd b) in
  fst (fst r) = false /\
  HomeMode.homed_ (snd (fst r)) = false /\
  StepperDriver.motion_ (World.stepper (snd r)) = StepperDriver.Velocity /\
  StepperDriver.dir_ (World.stepper (snd r)) = false.
Proof.
  intros Hcfg Hopen b r.
  destruct (home_run_inv tks false _ _ (home_begin_inv m0 w0 Hcfg))
    as [(seen' & [_ Hf] & Hs) Hd].
  fold b in Hf, Hs, Hd. fold r in Hf, Hs, Hd.
  unfold HomeRun.home_facts in Hf.
  destruct (HomeMode.homed_ (snd (fst r))) eqn:Hh; cbn [negb] in Hf.
  - destruct Hf as (Hseen & _). destruct (Hs Hseen); congruence.
  - destruct (fst (fst r)) eqn:Hdone.
    + destruct (Hd eq_refl). discriminate.
    + destruct Hf as (A & B & _). auto.
Qed.

End HomeRunFacts.

Transparent StepperDriver.update StepperDriver.setSpeedMmPerSec.

Lemma home_completes_only_after_limit_witness :
  let b := HomeMode.begin Sketch.home HomeRun.coarse_world in
  let r := HomeRun.run_home (HomeRun.homing_ticks 20) (fst b) (snd b) in
  HomeRun.limit_closed (HomeRun.homing_ticks 20) = true /\
  HomeRun.parked (World.stepper (snd r)) /\
  CurrentSensor.isEnabled (World.current (snd r)) = false.
Proof.
  apply (home_completes_only_after_limit Sketch.home HomeRun.coarse_world
           (HomeRun.homing_ticks 20)); vm_compute; reflexivity.
Defined.

Lemma homing_has_no_timeout_witness :
  let b := HomeMode.begin Sketch.home Sketch.world in
  let r := HomeRun.run_home (HomeRun.ticks_open 50) (fst b) (snd b) in
  fst (fst r) = false /\
  HomeMode.homed_ (snd (fst r)) = false /\
  StepperDriver.motion_ (World.stepper (snd r)) = StepperDriver.Velocity /\
  StepperDriver.dir_ (World.stepper (snd r)) = false.
Proof.
  apply (homing_has_no_timeout Sketch.home Sketch.world (HomeRun.ticks_open 50));
    vm_compute; reflexivity.
Defined.

Section JogFacts.

Import StepperDriver.

(** In a sound configuration a positive speed request starts a continuous
    motion in the positive direction. *)
Lemma setSpeedMmPerSec_positive (m : positive) (e : Z) (s : t) :
  config_ok s = true ->
  motion_ (fst (setSpeedMmPerSec (S754_finite false m e) s)) = Velocity /\
  dir_ (fst (setSpeedMmPerSec (S754_finite false m e) s)) = true.
Proof.
  intros H. pose proof (config_ok_vmax_positive s H) as Hv.
  unfold setSpeedMmPerSec. cbv zeta.
  set (v := S754_finite false m e).
  set (v1 := if F32.gtb v (vmax s) then vmax s else v).
  assert (F32.ltb v1 (F32.neg (vmax s)) = false /\
          F32.eqb v1 F32.zero = false /\ F32.geb v1 F32.zero = true) as (E0 & E1 & E2).
  { unfold v1. destruct (F32.gtb v (vmax s));
      destruct (positive_shape _ Hv) as [-> | (m' & e' & ->)]; repeat split; reflexivity. }
  rewrite E0.
  unfold F32.neqb. change (SFeqb v1 F32.zero) with (F32.eqb v1 F32.zero).
  rewrite E1, E2.
  destruct (dir_ s) eqn:Ed; simpl; rewrite ?Ed; simpl;
    destruct (_ || _); simpl; auto.
Qed.

(** One call of [update] moves the position by at most one step, in the
    direction of [dir_], and not at all when the driver is idle. *)
Lemma update_moves_one_step (now : Z) (s : t) :
  pos_steps_ (fst (update now s)) = pos_steps_ s \/
  (idle s = false /\
   pos_steps_ (fst (update now s))
   = MachInt.to_i32 (pos_steps_ s + (if dir_ s then 1 else -1))).
Proof.
  destruct (update_one_call now s) as [(_ & H & _) | (Hi & _ & H)]; [left; exact H|].
  right. split; [exact Hi|]. rewrite H, check_target_pos. reflexivity.
Qed.

End JogFacts.

Section JogStep.

Opaque StepperDriver.update StepperDriver.setSpeedMmPerSec.

(** X19.  Jogging moves the axis only while UP or DOWN is held and the
    position is inside the respective limit.  In a sound speed
    configuration one call of [JogMode::step] moves the position by at
    most one step; it moves it up (one step less) only if the key read is
    UP and the position read at the start was above 1.5 mm, and down (one
    step more) only if the key is DOWN and the position was below 75 mm;
    with any other key the driver is left idle. *)
Theorem jog_steps_only_inside_limits (r : JogMode.Reads) (k : KeypadShield.t)
  (m : JogMode.t) (w : World.t) :
  StepperDriver.config_ok (World.stepper w) = true ->
  let key := fst (JogMode.key_read r k m) in
  let z := StepperDriver.positionMm (World.stepper w) in
  let p := StepperDriver.pos_steps_ (World.stepper w) in
  let p' := StepperDriver.pos_steps_ (World.stepper (snd (JogMode.step r k m w))) in
  (p' = p \/
   (key = KeypadShield.UP /\ F32.gtb z Z_MIN = true /\ p' = MachInt.to_i32 (p - 1)) \/
   (key = KeypadShield.DOWN /\ F32.ltb z Z_MAX = true /\ p' = MachInt.to_i32 (p + 1))) /\
  (key <> KeypadShield.UP -> key <> KeypadShield.DOWN ->
   StepperDriver.idle (World.stepper (snd (JogMode.step r k m w))) = true).
Proof.
  intros Hcfg key z p p'.
  assert (Hs' : World.stepper (snd (JogMode.step r k m w))
                = fst (StepperDriver.update (JogMode.rd_micros r)
                         (fst (StepperDriver.setSpeedMmPerSec
                                 (JogMode.requested_speed key z) (World.stepper w))))).
  { unfold JogMode.step, key, z.
    destruct (JogMode.key_read r k m) as [s k'].
    cbn [fst]. destruct (200 <=? _); reflexivity. }
  split.
  2:{ intros Hu Hd. rewrite Hs'.
      assert (JogMode.requested_speed key z = F32.zero) as ->
          by (unfold JogMode.requested_speed; destruct key; congruence).
      apply update_idle_keeps. apply setSpeedMmPerSec_zero_idle. exact Hcfg. }
  assert (Hp' : p' = StepperDriver.pos_steps_
                       (fst (StepperDriver.update (JogMode.rd_micros r)
                          (fst (StepperDriver.setSpeedMmPerSec
                                  (JogMode.requested_speed key z) (World.stepper w)))))).
  { unfold p', JogMode.step, key, z.
    destruct (JogMode.key_read r k m) as [s k'].
    cbn [fst]. destruct (200 <=? _); reflexivity. }
  set (s1 := fst (StepperDriver.setSpeedMmPerSec (JogMode.requested_speed key z)
                    (World.stepper w))) in Hp'.
  assert (Hp1 : StepperDriver.pos_steps_ s1 = p) by apply setSpeedMmPerSec_pos.
  destruct (update_moves_one_step (JogMode.rd_micros r) s1) as [H | [Hi H]];
    [left; congruence|].
  rewrite <- Hp' in H. rewrite Hp1 in H.
  assert (Hstop : JogMode.requested_speed key z = F32.zero -> False).
  { intros E. unfold s1 in Hi. rewrite E in Hi.
    rewrite (setSpeedMmPerSec_zero_idle _ Hcfg) in Hi. discriminate. }
  unfold JogMode.requested_speed in *.
  destruct key; try (exfalso; apply Hstop; reflexivity).
  - (* UP *)
    destruct (F32.gtb z Z_MIN) eqn:Hz; [|exfalso; apply Hstop; reflexivity].
    right; left. split; [reflexivity|]. split; [reflexivity|].
    assert (StepperDriver.dir_ s1 = false) as Hd.
    { unfold s1.
      let a := eval vm_compute in (F32.neg (F32.of_Z 2)) in
        change (F32.neg (F32.of_Z 2)) with a.
      apply setSpeedMmPerSec_negative. exact Hcfg. }
    rewrite Hd in H. rewrite H. f_equal.
  - (* DOWN *)
    destruct (F32.ltb z Z_MAX) eqn:Hz; [|exfalso; apply Hstop; reflexivity].
    right; right. split; [reflexivity|]. split; [reflexivity|].
    assert (StepperDriver.dir_ s1 = true) as Hd.
    { unfold s1.
      let a := eval vm_compute in (F32.of_Z 2) in
        change (F32.of_Z 2) with a.
      apply setSpeedMmPerSec_positive. exact Hcfg. }
    rewrite Hd in H. exact H.
Qed.

End JogStep.

Transparent StepperDriver.update StepperDriver.setSpeedMmPerSec.

Lemma jog_steps_only_inside_limits_witness :
  let r := JogMode.mkReads 0 1000 0 0 in
  let k := JogMode.keys_with KeypadShield.UP in
  let m := JogMode.mk 0 false in
  let w := Examples.world_at_40mm in
  let key := fst (JogMode.key_read r k m) in
  let z := StepperDriver.positionMm (World.stepper w) in
  let p := StepperDriver.pos_steps_ (World.stepper w) in
  let p' := StepperDriver.pos_steps_ (World.stepper (snd (JogMode.step r k m w))) in
  (p' = p \/
   (key = KeypadShield.UP /\ F32.gtb z Z_MIN = true /\ p' = MachInt.to_i32 (p - 1)) \/
   (key = KeypadShield.DOWN /\ F32.ltb z Z_MAX = true /\ p' = MachInt.to_i32 (p + 1))) /\
  (key <> KeypadShield.UP -> key <> KeypadShield.DOWN ->
   StepperDriver.idle (World.stepper (snd (JogMode.step r k m w))) = true).
Proof.
  apply (jog_steps_only_inside_limits (JogMode.mkReads 0 1000 0 0)
           (JogMode.keys_with KeypadShield.UP) (JogMode.mk 0 false)
           Examples.world_at_40mm).
  reflexivity.
Defined.

Section ParamEditor.

Import KeypadShield ParametersMode.

Lemma to_char_small (z : Z) : -128 <= z < 128 -> to_char z = z.
Proof.
  intros H. unfold to_char.
  destruct (Z.leb_spec 0 z).
  - rewrite Z.mod_small by lia. destruct (Z.ltb_spec z 128); lia.
  - replace (z mod 256) with (z + 256).
    + destruct (Z.ltb_spec (z + 256) 128); lia.
    + apply Z.mod_unique with (-1); lia.
Qed.

Lemma digit_char_is_digit (v place : Z) :
  0 < place -> is_digit (digit_char v place).
Proof.
  intros Hp. unfold digit_char, is_digit, CH_0.
  pose proof (Z.mod_pos_bound (v / place) 10 ltac:(lia)).
  rewrite to_char_small by lia. lia.
Qed.

Lemma turn_is_digit (k : Key) (c : Z) : is_digit c -> is_digit (turn k c).
Proof.
  unfold is_digit, turn, CH_0. intros H.
  assert (forall x, 0 <= x -> 0 <= Z.rem x 10 < 10) as Hr
      by (intros x Hx; apply Z.rem_bound_pos; lia).
  pose proof (Hr (c - 48 + 1) ltac:(lia)).
  pose proof (Hr (c - 48 + 9) ltac:(lia)).
  pose proof (Hr (Z.rem (c - 48 + 1) 10 + 9) ltac:(lia)).
  destruct (key_eqb k UP), (key_eqb k DOWN); rewrite to_char_small; lia.
Qed.

Lemma three_digits_range (a b c : Z) :
  is_digit a -> is_digit b -> is_digit c ->
  three_digits a b c = (a - 48) * 100 + (b - 48) * 10 + (c - 48) /\
  0 <= three_digits a b c <= 999.
Proof.
  unfold is_digit, three_digits, CH_0. intros Ha Hb Hc.
  rewrite to_i16_small by lia. lia.
Qed.

Lemma inv_core (m m' : t) : core m' = core m -> inv m -> inv m'.
Proof.
  unfold core, inv, wf. intros E H. injection E as -> -> -> -> ->. exact H.
Qed.

Lemma startEditFloat_inv (v : F32.float) (m : t) :
  wf m -> inv (set_state EditFloat (startEditFloat v m)).
Proof.
  intros [Hd Hi]. unfold startEditFloat.
  set (ip := if _ >? 999 then 999 else _). set (fp := wrap_u16 _).
  unfold inv, wf. cbn. split; [auto|]. split; [|discriminate].
  intros _. split; [lia|].
  exists (digit_char ip 100), (digit_char ip 10), (digit_char ip 1),
    (digit_char fp 100), (digit_char fp 10), (digit_char fp 1).
  split; [reflexivity|]. repeat split; apply digit_char_is_digit; lia.
Qed.

Lemma startEditInt_digits (v : Z) (m : t) :
  let c := Z.max 0 (Z.min 999 v) in
  idigits_ (startEditInt v m) = [48 + c / 100; 48 + (c / 10) mod 10; 48 + c mod 10].
Proof.
  cbv zeta. unfold startEditInt. cbn [idigits_ set_needRedraw set_icursor set_idigits].
  set (c := Z.max 0 (Z.min 999 v)).
  assert ((if (if v <? 0 then 0 else v) >? 999 then 999 else if v <? 0 then 0 else v) = c)
    as ->.
  { unfold c. destruct (Z.ltb_spec v 0).
    - destruct (Z.gtb_spec 0 999); lia.
    - destruct (Z.gtb_spec v 999); lia. }
  assert (0 <= c <= 999) as Hc by (unfold c; lia).
  unfold CH_0.
  rewrite !Z.quot_div_nonneg, !Z.rem_mod_nonneg by
    first [lia | apply Z.div_pos; lia].
  rewrite Z.div_1_r.
  assert (0 <= c / 100 < 10) by (split; [apply Z.div_pos; lia | apply Z.div_lt_upper_bound; lia]).
  pose proof (Z.mod_pos_bound (c / 10) 10 ltac:(lia)).
  pose proof (Z.mod_pos_bound c 10 ltac:(lia)).
  rewrite (Z.mod_small (c / 100)) by lia.
  rewrite !to_char_small by lia. reflexivity.
Qed.

Lemma startEditInt_inv (v : Z) (m : t) :
  wf m -> inv (set_state EditInt (startEditInt v m)).
Proof.
  intros [Hd Hi]. unfold inv, wf.
  change (idigits_ (set_state EditInt (startEditInt v m))) with (idigits_ (startEditInt v m)).
  change (digits_ (set_state EditInt (startEditInt v m))) with (digits_ m).
  change (state_ (set_state EditInt (startEditInt v m))) with EditInt.
  change (icursor_ (set_state EditInt (startEditInt v m))) with 0.
  rewrite startEditInt_digits.
  set (c := Z.max 0 (Z.min 999 v)).
  assert (0 <= c <= 999) as Hc by (unfold c; lia).
  assert (0 <= c / 100 < 10) by (split; [apply Z.div_pos; lia | apply Z.div_lt_upper_bound; lia]).
  pose proof (Z.mod_pos_bound (c / 10) 10 ltac:(lia)).
  pose proof (Z.mod_pos_bound c 10 ltac:(lia)).
  split; [split; [exact Hd|reflexivity]|]. split; [discriminate|]. intros _. split; [lia|].
  eexists _, _, _. split; [reflexivity|]. unfold is_digit. lia.
Qed.

(** X20.  The integer editor shows the value it was opened with, clamped to
    0..999: reading the digits back right after [startEditInt(v)] gives [v]
    for a value from 0 to 999, 0 for a negative one and 999 for a larger
    one; and on a digit UP and DOWN undo each other, wrapping between 9
    and 0. *)
Theorem int_editor_round_trip (v : Z) (m : t) :
  intFromDigits (startEditInt v m) = Z.max 0 (Z.min 999 v) /\
  (forall c, is_digit c -> turn DOWN (turn UP c) = c /\ turn UP (turn DOWN c) = c) /\
  turn UP 57 = 48 /\ turn DOWN 48 = 57.
Proof.
  split; [|split; [|split; reflexivity]].
  - unfold intFromDigits. rewrite startEditInt_digits. cbn [nth].
    set (c := Z.max 0 (Z.min 999 v)).
    assert (0 <= c <= 999) as Hc by (unfold c; lia).
    assert (0 <= c / 100 < 10)
      by (split; [apply Z.div_pos; lia | apply Z.div_lt_upper_bound; lia]).
    pose proof (Z.mod_pos_bound (c / 10) 10 ltac:(lia)).
    pose proof (Z.mod_pos_bound c 10 ltac:(lia)).
    unfold three_digits, CH_0. rewrite to_i16_small by lia.
    pose proof (Z.div_mod c 10 ltac:(lia)).
    pose proof (Z.div_mod (c / 10) 10 ltac:(lia)).
    rewrite Z.div_div in * by lia. change (10 * 10) with 100 in *. lia.
  - intros c Hc. unfold is_digit in Hc.
    assert (c = 48 \/ c = 49 \/ c = 50 \/ c = 51 \/ c = 52 \/ c = 53 \/ c = 54 \/
            c = 55 \/ c = 56 \/ c = 57) as Hcases by lia.
    repeat (destruct Hcases as [-> | Hcases]; [split; reflexivity|]).
    subst c. split; reflexivity.
Qed.

Lemma inv_select (m : t) :
  wf m -> state_ m = SelectMode \/ state_ m = SelectParam -> inv m.
Proof.
  intros Hw Hs. unfold inv. split; [exact Hw|].
  split; intros E; rewrite E in Hs; destruct Hs; discriminate.
Qed.

Lemma get_in_range (i : Z) (a : list Z) :
  0 <= i < Z.of_nat (List.length a) -> get i a = Some (nth (Z.to_nat i) a 0).
Proof.
  intros H. unfold get.
  destruct (Z.leb_spec 0 i); [|lia]. destruct (Z.ltb_spec i (Z.of_nat (List.length a))); [|lia].
  cbn [andb]. apply nth_error_nth'. lia.
Qed.

(** Turning one digit of the float editor keeps its shape. *)
Lemma put_float_digits (i : Z) (k : Key) (a : list Z) :
  0 <= i <= 6 -> float_digits_ok a ->
  exists c, get i a = Some c /\
            (c <> CH_DOT -> float_digits_ok (put i (turn k c) a)).
Proof.
  intros Hi (d0 & d1 & d2 & d4 & d5 & d6 & -> & H0 & H1 & H2 & H4 & H5 & H6).
  assert (i = 0 \/ i = 1 \/ i = 2 \/ i = 3 \/ i = 4 \/ i = 5 \/ i = 6) as Hc by lia.
  pose proof (turn_is_digit k) as Ht.
  repeat (destruct Hc as [-> | Hc]);
    try subst i; (eexists; split; [reflexivity|]); intros Hne;
    try (exfalso; apply Hne; reflexivity);
    cbn [put Z.to_nat Pos.to_nat Pos.iter_op Init.Nat.add firstn skipn app];
    eexists _, _, _, _, _, _; (split; [reflexivity|]);
    repeat match goal with |- _ /\ _ => split end; auto.
Qed.

Lemma put_int_digits (i : Z) (k : Key) (a : list Z) :
  0 <= i <= 2 -> int_digits_ok a ->
  exists c, get i a = Some c /\ int_digits_ok (put i (turn k c) a).
Proof.
  intros Hi (d0 & d1 & d2 & -> & H0 & H1 & H2).
  assert (i = 0 \/ i = 1 \/ i = 2) as Hc by lia.
  pose proof (turn_is_digit k) as Ht.
  repeat (destruct Hc as [-> | Hc]);
    try subst i; (eexists; split; [reflexivity|]);
    cbn [put Z.to_nat Pos.to_nat Pos.iter_op Init.Nat.add firstn skipn app];
    eexists _, _, _; (split; [reflexivity|]);
    repeat match goal with |- _ /\ _ => split end; auto.
Qed.

Lemma float_digits_length (a : list Z) : float_digits_ok a -> List.length a = 7%nat.
Proof. intros (d0 & d1 & d2 & d4 & d5 & d6 & -> & _). reflexivity. Qed.

Lemma int_digits_length (a : list Z) : int_digits_ok a -> List.length a = 3%nat.
Proof. intros (d0 & d1 & d2 & -> & _). reflexivity. Qed.

(** The float editor never leaves its array, and keeps everything but the
    cursor and the digits. *)
Lemma updateFloatEditor_ok (k : Key) (m : t) :
  0 <= cursor_ m <= 6 -> float_digits_ok (digits_ m) ->
  exists m' o,
    updateFloatEditor k m = Some (m', o) /\
    0 <= cursor_ m' <= 6 /\ float_digits_ok (digits_ m') /\
    m' = set_digits (digits_ m') (set_cursor (cursor_ m') m).
Proof.
  intros Hc Hd. unfold updateFloatEditor.
  set (m1 := if key_eqb k LEFT && (cursor_ m >? 0) then _ else m).
  assert (0 <= cursor_ m1 <= 6 /\ digits_ m1 = digits_ m /\
          m1 = set_cursor (cursor_ m1) m) as (Hc1 & Hd1 & E1).
  { unfold m1. destruct (key_eqb k LEFT && _) eqn:E.
    - apply andb_true_iff in E. destruct E as [_ E]. apply Z.gtb_lt in E.
      cbn. repeat split; try lia; reflexivity.
    - destruct m. cbn in *. repeat split; try lia; reflexivity. }
  clearbody m1.
  set (m2 := if key_eqb k RIGHT && (cursor_ m1 <? 6) then _ else m1).
  assert (0 <= cursor_ m2 <= 6 /\ digits_ m2 = digits_ m /\
          m2 = set_cursor (cursor_ m2) m) as (Hc2 & Hd2 & E2).
  { unfold m2. destruct (key_eqb k RIGHT && _) eqn:E.
    - apply andb_true_iff in E. destruct E as [_ E]. apply Z.ltb_lt in E.
      cbn. rewrite Hd1. repeat split; try lia. rewrite E1. reflexivity.
    - auto. }
  clearbody m2.
  destruct (key_eqb k UP || key_eqb k DOWN).
  - rewrite <- Hd2 in Hd.
    destruct (put_float_digits (cursor_ m2) k (digits_ m2) Hc2 Hd) as (c & -> & Hp).
    destruct (Z.eqb_spec c CH_DOT) as [E | E]; cbn [negb].
    + eexists _, _. split; [reflexivity|]. split; [exact Hc2|]. split; [exact Hd|].
      rewrite E2 at 1. rewrite Hd2. destruct m; reflexivity.
    + eexists _, _. split; [reflexivity|]. cbn. split; [exact Hc2|].
      split; [exact (Hp E)|]. apply f_equal. exact E2.
  - eexists _, _. split; [reflexivity|]. split; [exact Hc2|].
    rewrite Hd2. split; [exact Hd|]. rewrite E2 at 1. destruct m; reflexivity.
Qed.

Lemma updateIntEditor_ok (k : Key) (m : t) :
  0 <= icursor_ m <= 2 -> int_digits_ok (idigits_ m) ->
  exists m' o,
    updateIntEditor k m = Some (m', o) /\
    0 <= icursor_ m' <= 2 /\ int_digits_ok (idigits_ m') /\
    m' = set_idigits (idigits_ m') (set_icursor (icursor_ m') m).
Proof.
  intros Hc Hd. unfold updateIntEditor.
  set (m1 := if key_eqb k LEFT && (icursor_ m >? 0) then _ else m).
  assert (0 <= icursor_ m1 <= 2 /\ idigits_ m1 = idigits_ m /\
          m1 = set_icursor (icursor_ m1) m) as (Hc1 & Hd1 & E1).
  { unfold m1. destruct (key_eqb k LEFT && _) eqn:E.
    - apply andb_true_iff in E. destruct E as [_ E]. apply Z.gtb_lt in E.
      cbn. repeat split; try lia; reflexivity.
    - destruct m. cbn in *. repeat split; try lia; reflexivity. }
  clearbody m1.
  set (m2 := if key_eqb k RIGHT && (icursor_ m1 <? 2) then _ else m1).
  assert (0 <= icursor_ m2 <= 2 /\ idigits_ m2 = idigits_ m /\
          m2 = set_icursor (icursor_ m2) m) as (Hc2 & Hd2 & E2).
  { unfold m2. destruct (key_eqb k RIGHT && _) eqn:E.
    - apply andb_true_iff in E. destruct E as [_ E]. apply Z.ltb_lt in E.
      cbn. rewrite Hd1. repeat split; try lia. rewrite E1. reflexivity.
    - auto. }
  clearbody m2.
  destruct (key_eqb k UP || key_eqb k DOWN).
  - rewrite <- Hd2 in Hd.
    destruct (put_int_digits (icursor_ m2) k (idigits_ m2) Hc2 Hd) as (c & -> & Hp).
    eexists _, _. split; [reflexivity|]. cbn. split; [exact Hc2|].
    split; [exact Hp|]. apply f_equal. exact E2.
  - eexists _, _. split; [reflexivity|]. split; [exact Hc2|].
    rewrite Hd2. split; [exact Hd|]. rewrite E2 at 1. destruct m; reflexivity.
Qed.

(** The blinking cursor reads its array inside its bounds and changes the
    blink state only. *)
Lemma blink_ok (r : Reads) (on_ms cursor : Z) (a : list Z) (m : t) :
  0 <= cursor < Z.of_nat (List.length a) ->
  exists m' o,
    blink r on_ms cursor a m = Some (m', o) /\
    m' = set_blink (blinkTs_ m') (blinkBlock_ m') m.
Proof.
  intros H. unfold blink.
  destruct (negb (blinkBlock_ m) && _).
  - eexists _, _. split; reflexivity.
  - destruct (blinkBlock_ m && _).
    + rewrite (get_in_range _ _ H). eexists _, _. split; reflexivity.
    + eexists _, _. split; [reflexivity|]. destruct m; reflexivity.
Qed.

Lemma floatFromDigits_from_editor (m : t) :
  float_digits_ok (digits_ m) -> from_editor (floatFromDigits m).
Proof.
  intros (d0 & d1 & d2 & d4 & d5 & d6 & E & H0 & H1 & H2 & H4 & H5 & H6).
  unfold floatFromDigits. rewrite E. cbn [nth].
  destruct (three_digits_range d0 d1 d2 H0 H1 H2) as [_ Ha].
  destruct (three_digits_range d4 d5 d6 H4 H5 H6) as [_ Hb].
  eexists _, _. split; [exact Ha|]. split; [exact Hb|]. reflexivity.
Qed.

Lemma intFromDigits_range (m : t) :
  int_digits_ok (idigits_ m) -> 0 <= intFromDigits m <= 999.
Proof.
  intros (d0 & d1 & d2 & E & H0 & H1 & H2).
  unfold intFromDigits. rewrite E. cbn [nth].
  apply three_digits_range; assumption.
Qed.

Lemma kept_or_edited_trans (x0 x x' : F32.float) :
  kept_or_edited x0 x -> kept_or_edited x x' -> kept_or_edited x0 x'.
Proof.
  unfold kept_or_edited. intros [-> | H] [-> | H']; auto.
Qed.

Lemma edited_from_refl (g : Parameters.AllParams) : edited_from g g.
Proof. unfold edited_from, kept_or_edited. cbv zeta. repeat split; auto. Qed.

Lemma edited_from_trans (g0 g g' : Parameters.AllParams) :
  edited_from g0 g -> edited_from g g' -> edited_from g0 g'.
Proof.
  unfold edited_from. cbv zeta.
  intros (A1 & A2 & A3 & A4 & A5 & A6 & A7 & A8 & A9)
         (B1 & B2 & B3 & B4 & B5 & B6 & B7 & B8 & B9).
  repeat split; try (eapply kept_or_edited_trans; eassumption).
  - destruct B8 as [B8 | B8]; [rewrite B8; exact A8 | right; exact B8].
  - congruence.
Qed.

Lemma store_float_edited (v : F32.float) (m : t) (g : Parameters.AllParams) :
  from_editor v -> edited_from g (store_float v m g).
Proof.
  intros Hv. unfold store_float, edited_from, kept_or_edited. cbv zeta.
  repeat match goal with
         | |- context [if ?c then _ else _] => destruct c
         end; cbn; repeat split; auto.
Qed.

Lemma store_int_edited (v : Z) (m : t) (g : Parameters.AllParams) :
  0 <= v <= 999 -> edited_from g (store_int v m g).
Proof.
  intros Hv. unfold store_int, edited_from, kept_or_edited. cbv zeta.
  destruct (_ && _); cbn; repeat split; auto.
Qed.

(** What holds of the float editor and of the integer editor while they
    are open. *)
Local Abbreviation EF m :=
  (0 <= cursor_ m <= 6 /\ float_digits_ok (digits_ m) /\ List.length (idigits_ m) = 3%nat).

Local Abbreviation EI m :=
  (0 <= icursor_ m <= 2 /\ int_digits_ok (idigits_ m) /\ List.length (digits_ m) = 7%nat).

Lemma inv_of_EF (m : t) : EF m -> state_ m <> EditInt -> inv m.
Proof.
  intros (Hc & Hd & Hl) Hs. unfold inv, wf.
  split; [split; [apply float_digits_length; exact Hd | exact Hl]|].
  split; [auto|]. intros E. contradiction.
Qed.

Lemma inv_of_EI (m : t) : EI m -> state_ m <> EditFloat -> inv m.
Proof.
  intros (Hc & Hd & Hl) Hs. unfold inv, wf.
  split; [split; [exact Hl | apply int_digits_length; exact Hd]|].
  split; [intros E; contradiction|auto].
Qed.

Lemma case_SelectMode_ok (s prev : Key) (lp kc : bool) (g : Parameters.AllParams) (m : t) :
  wf m -> state_ m = SelectMode ->
  exists d m' o,
    case_SelectMode s prev lp kc g m = (d, g, m', o) /\ inv m'.
Proof.
  intros Hw Hs. unfold case_SelectMode.
  destruct (needRedraw_ m); cbv beta iota zeta;
    repeat match goal with
           | |- context [if ?c then _ else _] => destruct c
           end;
    eexists _, _, _; (split; [reflexivity|]); apply inv_select;
    try exact Hw; cbn; auto.
Qed.

Lemma case_SelectParam_ok (r : Reads) (s : Key) (lp kc : bool)
  (g : Parameters.AllParams) (m : t) :
  wf m -> state_ m = SelectParam ->
  exists d m' o,
    case_SelectParam r s lp kc g m = (d, g, m', o) /\ inv m'.
Proof.
  intros Hw Hs. unfold case_SelectParam.
  destruct lp; cbn [negb andb].
  - rewrite andb_false_r.
    destruct (needRedraw_ m); cbv beta iota zeta;
      repeat match goal with
             | |- context [if ?c then _ else _] => destruct c
             end;
      eexists _, _, _; (split; [reflexivity|]); apply inv_select;
      try exact Hw; cbn; auto.
  - rewrite andb_true_r.
    destruct (needRedraw_ m); cbv beta iota zeta;
      destruct kc; try destruct (key_eqb s SELECT);
      repeat match goal with
             | |- context [if ?c then _ else _] => destruct c
             end;
      eexists _, _, _; (split; [reflexivity|]);
      match goal with
      | |- inv (set_state EditFloat (startEditFloat _ _)) =>
          apply startEditFloat_inv; exact Hw
      | |- inv (set_state EditInt (startEditInt _ _)) =>
          apply startEditInt_inv; exact Hw
      | |- _ => apply inv_select; [exact Hw | cbn; auto]
      end.
Qed.

Lemma case_EditFloat_ok (r : Reads) (s : Key) (lp kc : bool)
  (g : Parameters.AllParams) (m : t) :
  EF m -> state_ m = EditFloat ->
  exists d g' m' o,
    case_EditFloat r s lp kc g m = Some (d, g', m', o) /\ inv m' /\ edited_from g g'.
Proof.
  intros HE Hs. unfold case_EditFloat.
  (* the redraw *)
  assert (exists ma oa,
             (if needRedraw_ m
              then match updateFloatEditor NONE m with
                   | None => None
                   | Some (m0, o) => Some (set_needRedraw false m0, o)
                   end
              else Some (m, [])) = Some (ma, oa) /\ EF ma /\ state_ ma = EditFloat)
    as (ma & oa & -> & HEa & Hsa).
  { destruct (needRedraw_ m); [|eexists _, _; auto].
    destruct HE as (Hc & Hd & Hl).
    destruct (updateFloatEditor_ok NONE m Hc Hd) as (m' & o & -> & Hc' & Hd' & E).
    eexists _, _. split; [reflexivity|]. rewrite E. cbn. rewrite E in Hc', Hd'. auto. }
  (* an arrow key *)
  assert (exists mb ob,
             (if kc && is_arrow s
              then match updateFloatEditor s ma with
                   | None => None
                   | Some (m0, o) =>
                       Some (set_blink (MachInt.wrap_u32 (ms_key r)) false m0, o)
                   end
              else Some (ma, [])) = Some (mb, ob) /\ EF mb /\ state_ mb = EditFloat)
    as (mb & ob & -> & HEb & Hsb).
  { destruct (kc && is_arrow s); [|eexists _, _; auto].
    destruct HEa as (Hc & Hd & Hl).
    destruct (updateFloatEditor_ok s ma Hc Hd) as (m' & o & -> & Hc' & Hd' & E).
    eexists _, _. split; [reflexivity|]. rewrite E. cbn. rewrite E in Hc', Hd'. auto. }
  clear HE Hs HEa Hsa m ma.
  pose proof (floatFromDigits_from_editor mb (proj1 (proj2 HEb))) as Hv.
  pose proof (store_float_edited _ mb g Hv) as Hg.
  destruct lp; cbn [negb andb].
  - (* a long press stores the value and returns to the mode selection *)
    rewrite andb_false_r. cbv beta iota zeta. cbn [state_ set_state set_needRedraw
      set_ignoreSelectRelease].
    eexists _, _, _, _. split; [reflexivity|]. split; [|exact Hg].
    apply inv_of_EF; [exact HEb | cbn; discriminate].
  - rewrite andb_true_r.
    destruct (kc && key_eqb s SELECT); cbv beta iota zeta.
    + (* SELECT stores the value and returns to the parameter selection *)
      cbn [state_ set_state set_needRedraw].
      eexists _, _, _, _. split; [reflexivity|]. split; [|exact Hg].
      apply inv_of_EF; [exact HEb | cbn; discriminate].
    + rewrite Hsb. destruct HEb as (Hc & Hd & Hl).
      destruct (blink_ok r 1000 (cursor_ mb) (digits_ mb) mb) as (m' & o & -> & E).
      { rewrite (float_digits_length _ Hd). lia. }
      eexists _, _, _, _. split; [reflexivity|]. split; [|apply edited_from_refl].
      rewrite E. apply inv_of_EF; [cbn; auto | cbn; rewrite Hsb; discriminate].
Qed.

Lemma case_EditInt_ok (r : Reads) (s : Key) (lp kc : bool)
  (g : Parameters.AllParams) (m : t) :
  EI m -> state_ m = EditInt ->
  exists d g' m' o,
    case_EditInt r s lp kc g m = Some (d, g', m', o) /\ inv m' /\ edited_from g g'.
Proof.
  intros HE Hs. unfold case_EditInt.
  assert (exists ma oa,
             (if needRedraw_ m
              then match updateIntEditor NONE m with
                   | None => None
                   | Some (m0, o) =>
                       Some (set_blink (MachInt.wrap_u32 (ms_redraw r)) false
                               (set_needRedraw false m0), o)
                   end
              else Some (m, [])) = Some (ma, oa) /\ EI ma /\ state_ ma = EditInt)
    as (ma & oa & -> & HEa & Hsa).
  { destruct (needRedraw_ m); [|eexists _, _; auto].
    destruct HE as (Hc & Hd & Hl).
    destruct (updateIntEditor_ok NONE m Hc Hd) as (m' & o & -> & Hc' & Hd' & E).
    eexists _, _. split; [reflexivity|]. rewrite E. cbn. rewrite E in Hc', Hd'. auto. }
  assert (exists mb ob,
             (if kc && is_arrow s
              then match updateIntEditor s ma with
                   | None => None
                   | Some (m0, o) =>
                       Some (set_blink (MachInt.wrap_u32 (ms_key r)) false m0, o)
                   end
              else Some (ma, [])) = Some (mb, ob) /\ EI mb /\ state_ mb = EditInt)
    as (mb & ob & -> & HEb & Hsb).
  { destruct (kc && is_arrow s); [|eexists _, _; auto].
    destruct HEa as (Hc & Hd & Hl).
    destruct (updateIntEditor_ok s ma Hc Hd) as (m' & o & -> & Hc' & Hd' & E).
    eexists _, _. split; [reflexivity|]. rewrite E. cbn. rewrite E in Hc', Hd'. auto. }
  clear HE Hs HEa Hsa m ma.
  pose proof (intFromDigits_range mb (proj1 (proj2 HEb))) as Hv.
  pose proof (store_int_edited _ mb g Hv) as Hg.
  destruct HEb as (Hc & Hd & Hl).
  assert (forall mc, icursor_ mc = icursor_ mb -> idigits_ mc = idigits_ mb ->
                     digits_ mc = digits_ mb -> state_ mc <> EditFloat ->
                     forall g' : Parameters.AllParams,
                     exists d m' o,
                       match blink r 2000 (icursor_ mc) (idigits_ mc) mc with
                       | None => None
                       | Some (m0, o3) => Some (false, g', m0, oa ++ ob ++ o3)
                       end = Some (d, g', m', o) /\ inv m') as Hblink.
  { intros mc E1 E2 E3 E4 g'.
    destruct (blink_ok r 2000 (icursor_ mc) (idigits_ mc) mc) as (m' & o & -> & E).
    { rewrite E1, E2, (int_digits_length _ Hd). lia. }
    eexists _, _, _. split; [reflexivity|].
    rewrite E. apply inv_of_EI; cbn; [rewrite E1, E2, E3; auto | exact E4]. }
  destruct lp; cbn [negb andb].
  - rewrite andb_false_r. cbv beta iota zeta.
    edestruct Hblink as (d & m' & o & -> & Hi);
      [| | | | eexists _, _, _, _; split; [reflexivity|]; split; [exact Hi|exact Hg]];
      cbn; auto; discriminate.
  - rewrite andb_true_r.
    destruct (kc && key_eqb s SELECT); cbv beta iota zeta.
    + edestruct Hblink as (d & m' & o & -> & Hi);
        [| | | | eexists _, _, _, _; split; [reflexivity|]; split; [exact Hi|exact Hg]];
        cbn; auto; discriminate.
    + edestruct Hblink as (d & m' & o & -> & Hi);
        [| | | | eexists _, _, _, _; split; [reflexivity|]; split;
                 [exact Hi|apply edited_from_refl]];
        auto. rewrite Hsb. discriminate.
Qed.

Lemma checkLongPress_core (s : Key) (now : Z) (m : t) :
  core (snd (checkLongPress s now m)) = core m.
Proof.
  unfold checkLongPress.
  destruct (key_eqb s SELECT); [|reflexivity].
  destruct (negb (selHeld_ m)); [reflexivity|].
  destruct (2000 <=? _); reflexivity.
Qed.

(** One call of [step()] stays inside the arrays, keeps the invariant and
    stores only what an editor can hold. *)
Lemma step_ok (r : Reads) (k : KeypadShield.t) (g : Parameters.AllParams) (m : t) :
  inv m ->
  exists k' d g' m' o,
    step r k g m = Some (k', (d, g', m', o)) /\ inv m' /\ edited_from g g'.
Proof.
  intros Hinv. unfold step.
  destruct (key_read r k m) as [s k'].
  destruct (checkLongPress s (MachInt.wrap_u32 (ms_now r)) (set_firstStep false m))
    as [lp m1] eqn:Ec.
  pose proof (checkLongPress_core s (MachInt.wrap_u32 (ms_now r)) (set_firstStep false m))
    as Hcore.
  rewrite Ec in Hcore. cbn [snd] in Hcore.
  set (m2 := set_lastKey s m1).
  assert (core m2 = core m) as Hc2
      by (transitivity (core m1); [reflexivity | rewrite Hcore; reflexivity]).
  pose proof (inv_core m m2 Hc2 Hinv) as (Hw & Hf & Hi).
  destruct (state_ m2) eqn:Hs.
  - destruct (case_SelectMode_ok s (lastKey_ m) lp (negb (key_eqb s (lastKey_ m))) g m2 Hw Hs)
      as (d & m' & o & -> & Hm').
    eexists _, _, _, _, _. split; [reflexivity|]. split; [exact Hm'|apply edited_from_refl].
  - destruct (case_SelectParam_ok r s lp (negb (key_eqb s (lastKey_ m))) g m2 Hw Hs)
      as (d & m' & o & -> & Hm').
    eexists _, _, _, _, _. split; [reflexivity|]. split; [exact Hm'|apply edited_from_refl].
  - destruct (Hf eq_refl) as [Hcur Hdig].
    destruct (case_EditFloat_ok r s lp (negb (key_eqb s (lastKey_ m))) g m2
                (conj Hcur (conj Hdig (proj2 Hw))) Hs)
      as (d & g' & m' & o & -> & Hm' & Hg).
    eexists _, _, _, _, _. split; [reflexivity|]. auto.
  - destruct (Hi eq_refl) as [Hcur Hdig].
    destruct (case_EditInt_ok r s lp (negb (key_eqb s (lastKey_ m))) g m2
                (conj Hcur (conj Hdig (proj1 Hw))) Hs)
      as (d & g' & m' & o & -> & Hm' & Hg).
    eexists _, _, _, _, _. split; [reflexivity|]. auto.
Qed.

Lemma run_ok (ins : list (Reads * KeypadShield.t)) :
  forall (g : Parameters.AllParams) (m : t),
    inv m ->
    exists d g' m', run ins g m = Some (d, g', m') /\ inv m' /\ edited_from g g'.
Proof.
  induction ins as [|[r k] ins IH]; intros g m Hinv.
  - eexists _, _, _. split; [reflexivity|]. split; [exact Hinv|apply edited_from_refl].
  - cbn [run].
    destruct (step_ok r k g m Hinv) as (k' & d & g1 & m1 & o & -> & Hi1 & Hg1).
    destruct d.
    + eexists _, _, _. split; [reflexivity|]. auto.
    + destruct (IH g1 m1 Hi1) as (d & g2 & m2 & -> & Hi2 & Hg2).
      eexists _, _, _. split; [reflexivity|]. split; [exact Hi2|].
      eapply edited_from_trans; eassumption.
Qed.

Lemma begin_inv_param (m : t) : wf m -> inv (fst (begin m)).
Proof. intros Hw. apply inv_select; [exact Hw | left; reflexivity]. Qed.

(** X21.  The parameter editor never leaves its digit arrays.  From
    [begin()], any sequence of calls of [step()], whatever the keys, the
    clock readings and the parameters, reads and writes the digits of both
    editors inside their arrays (7 and 3 characters): no call fails. *)
Theorem param_editor_stays_in_bounds (m0 : t) (g : Parameters.AllParams)
  (ins : list (Reads * KeypadShield.t)) :
  wf m0 ->
  exists d g' m', run ins g (fst (begin m0)) = Some (d, g', m') /\ wf m'.
Proof.
  intros Hw.
  destruct (run_ok ins g _ (begin_inv_param m0 Hw)) as (d & g' & m' & E & Hi & _).
  exists d, g', m'. split; [exact E|apply Hi].
Qed.

(** X22.  What the parameter editor can write.  Whatever is done on the
    keypad from [begin()] on, the off-time of the pulses is never changed;
    the pulse count is either the one before or from 0 to 999; and every
    other parameter is either the one before or a value the float editor
    can hold, [ip + fp / 1000.0f] with [ip] and [fp] from 0 to 999. *)
Theorem param_editor_stores_editor_values (m0 : t) (g : Parameters.AllParams)
  (ins : list (Reads * KeypadShield.t)) :
  wf m0 ->
  forall d g' m', run ins g (fst (begin m0)) = Some (d, g', m') -> edited_from g g'.
Proof.
  intros Hw d g' m' E.
  destruct (run_ok ins g _ (begin_inv_param m0 Hw)) as (d1 & g1 & m1 & E1 & _ & Hg).
  rewrite E in E1. injection E1 as -> -> ->. exact Hg.
Qed.

End ParamEditor.

Section LongPress.

Import KeypadShield ParametersMode.

Lemma updateFloatEditor_hold (k : Key) (m m' : t) (o : list Out) :
  updateFloatEditor k m = Some (m', o) -> hold m' = hold m.
Proof.
  unfold updateFloatEditor.
  set (m1 := if key_eqb k LEFT && _ then _ else m).
  assert (hold m1 = hold m) as E1 by (unfold m1; destruct (_ && _); reflexivity).
  clearbody m1.
  set (m2 := if key_eqb k RIGHT && _ then _ else m1).
  assert (hold m2 = hold m) as E2
      by (unfold m2; destruct (_ && _); [rewrite <- E1|]; auto).
  clearbody m2.
  destruct (key_eqb k UP || key_eqb k DOWN).
  - destruct (get (cursor_ m2) (digits_ m2)); [|discriminate].
    destruct (negb _); intros H; injection H as <- _; exact E2.
  - intros H; injection H as <- _; exact E2.
Qed.

Lemma updateIntEditor_hold (k : Key) (m m' : t) (o : list Out) :
  updateIntEditor k m = Some (m', o) -> hold m' = hold m.
Proof.
  unfold updateIntEditor.
  set (m1 := if key_eqb k LEFT && _ then _ else m).
  assert (hold m1 = hold m) as E1 by (unfold m1; destruct (_ && _); reflexivity).
  clearbody m1.
  set (m2 := if key_eqb k RIGHT && _ then _ else m1).
  assert (hold m2 = hold m) as E2
      by (unfold m2; destruct (_ && _); [rewrite <- E1|]; auto).
  clearbody m2.
  destruct (key_eqb k UP || key_eqb k DOWN).
  - destruct (get (icursor_ m2) (idigits_ m2)); [|discriminate].
    intros H; injection H as <- _; exact E2.
  - intros H; injection H as <- _; exact E2.
Qed.

Lemma blink_hold (r : Reads) (on_ms cursor : Z) (a : list Z) (m m' : t) (o : list Out) :
  blink r on_ms cursor a m = Some (m', o) -> hold m' = hold m.
Proof.
  unfold blink.
  destruct (negb (blinkBlock_ m) && _); [intros H; injection H as <- _; reflexivity|].
  destruct (blinkBlock_ m && _); [|intros H; injection H as <- _; reflexivity].
  destruct (get cursor a); [|discriminate].
  intros H; injection H as <- _; reflexivity.
Qed.

Lemma case_SelectMode_hold (s prev : Key) (lp kc : bool) (g : Parameters.AllParams) (m : t) :
  let res := case_SelectMode s prev lp kc g m in
  fst (fst (fst res)) = lp /\ hold (snd (fst res)) = hold m.
Proof.
  cbv zeta. unfold case_SelectMode.
  destruct (needRedraw_ m); cbv beta iota zeta;
    repeat match goal with
           | |- context [if ?c then _ else _] => destruct c
           end; split; reflexivity.
Qed.

Lemma case_SelectParam_hold (r : Reads) (s : Key) (lp kc : bool)
  (g : Parameters.AllParams) (m : t) :
  let res := case_SelectParam r s lp kc g m in
  fst (fst (fst res)) = false /\ hold (snd (fst res)) = hold m.
Proof.
  cbv zeta. unfold case_SelectParam.
  destruct (needRedraw_ m); cbv beta iota zeta;
    repeat match goal with
           | |- context [if ?c then _ else _] => destruct c
           end; split; reflexivity.
Qed.

Lemma case_EditFloat_hold (r : Reads) (s : Key) (lp kc : bool)
  (g g' : Parameters.AllParams) (m m' : t) (d : bool) (o : list Out) :
  case_EditFloat r s lp kc g m = Some (d, g', m', o) -> d = false /\ hold m' = hold m.
Proof.
  unfold case_EditFloat.
  destruct (if needRedraw_ m then _ else _) as [[ma oa]|] eqn:Ea; [|discriminate].
  assert (hold ma = hold m) as Ha.
  { destruct (needRedraw_ m); [|injection Ea as <- _; reflexivity].
    destruct (updateFloatEditor NONE m) as [[m0 o0]|] eqn:E; [|discriminate].
    injection Ea as <- _. exact (updateFloatEditor_hold _ _ _ _ E). }
  destruct (if kc && is_arrow s then _ else _) as [[mb ob]|] eqn:Eb; [|discriminate].
  assert (hold mb = hold m) as Hb.
  { rewrite <- Ha. destruct (kc && is_arrow s); [|injection Eb as <- _; reflexivity].
    destruct (updateFloatEditor s ma) as [[m0 o0]|] eqn:E; [|discriminate].
    injection Eb as <- _. exact (updateFloatEditor_hold _ _ _ _ E). }
  clear Ea Eb.
  destruct (kc && key_eqb s SELECT && negb lp); destruct lp; cbv beta iota zeta;
    cbn [state_ set_state set_needRedraw set_ignoreSelectRelease];
    try (intros H; injection H as <- _ <- _; split; [reflexivity|exact Hb]).
  destruct (state_ mb);
    try (intros H; injection H as <- _ <- _; split; [reflexivity|exact Hb]).
  destruct (blink r 1000 (cursor_ mb) (digits_ mb) mb) as [[m0 o0]|] eqn:E; [|discriminate].
  intros H; injection H as <- _ <- _. split; [reflexivity|].
  rewrite <- Hb. exact (blink_hold _ _ _ _ _ _ _ E).
Qed.

Lemma case_EditInt_hold (r : Reads) (s : Key) (lp kc : bool)
  (g g' : Parameters.AllParams) (m m' : t) (d : bool) (o : list Out) :
  case_EditInt r s lp kc g m = Some (d, g', m', o) -> d = false /\ hold m' = hold m.
Proof.
  unfold case_EditInt.
  destruct (if needRedraw_ m then _ else _) as [[ma oa]|] eqn:Ea; [|discriminate].
  assert (hold ma = hold m) as Ha.
  { destruct (needRedraw_ m); [|injection Ea as <- _; reflexivity].
    destruct (updateIntEditor NONE m) as [[m0 o0]|] eqn:E; [|discriminate].
    injection Ea as <- _. exact (updateIntEditor_hold _ _ _ _ E). }
  destruct (if kc && is_arrow s then _ else _) as [[mb ob]|] eqn:Eb; [|discriminate].
  assert (hold mb = hold m) as Hb.
  { rewrite <- Ha. destruct (kc && is_arrow s); [|injection Eb as <- _; reflexivity].
    destruct (updateIntEditor s ma) as [[m0 o0]|] eqn:E; [|discriminate].
    injection Eb as <- _. exact (updateIntEditor_hold _ _ _ _ E). }
  clear Ea Eb.
  destruct (kc && key_eqb s SELECT && negb lp); destruct lp; cbv beta iota zeta.
  all: match goal with
       | |- match blink ?r ?n ?c ?a ?mc with _ => _ end = _ -> _ =>
           destruct (blink r n c a mc) as [[m0 o0]|] eqn:E; [|discriminate];
           intros H; injection H as <- _ <- _; split; [reflexivity|];
           rewrite (blink_hold _ _ _ _ _ _ _ E); rewrite <- Hb; reflexivity
       end.
Qed.

(** What one call of [step()] does to the long-press detector, and when
    it returns true. *)
Lemma step_hold (r : Reads) (k k' : KeypadShield.t) (g g' : Parameters.AllParams)
  (m m' : t) (d : bool) (o : list Out) :
  step r k g m = Some (k', (d, g', m', o)) ->
  let c := checkLongPress (fst (key_read r k m)) (MachInt.wrap_u32 (ms_now r))
             (set_firstStep false m) in
  hold m' = hold (snd c) /\ (d = true -> fst c = true).
Proof.
  unfold step. destruct (key_read r k m) as [s k1]. cbn [fst].
  destruct (checkLongPress s (MachInt.wrap_u32 (ms_now r)) (set_firstStep false m))
    as [lp m1]. cbn [fst snd].
  set (m2 := set_lastKey s m1).
  assert (hold m2 = hold m1) as E2 by reflexivity.
  destruct (state_ m2).
  - pose proof (case_SelectMode_hold s (lastKey_ m) lp (negb (key_eqb s (lastKey_ m))) g m2)
      as [Hd Hh].
    intros H. injection H as _ H. rewrite H in Hd, Hh. cbn [fst snd] in Hd, Hh.
    split; [congruence|]. intros ->. auto.
  - pose proof (case_SelectParam_hold r s lp (negb (key_eqb s (lastKey_ m))) g m2)
      as [Hd Hh].
    intros H. injection H as _ H. rewrite H in Hd, Hh. cbn [fst snd] in Hd, Hh.
    split; [congruence|]. intros ->. discriminate.
  - destruct (case_EditFloat r s lp _ g m2) as [[[[d1 g1] m3] o1]|] eqn:E; [|discriminate].
    intros H. injection H as _ <- <- <- <-.
    destruct (case_EditFloat_hold _ _ _ _ _ _ _ _ _ _ E) as [-> Hh].
    split; [congruence|discriminate].
  - destruct (case_EditInt r s lp _ g m2) as [[[[d1 g1] m3] o1]|] eqn:E; [|discriminate].
    intros H. injection H as _ <- <- <- <-.
    destruct (case_EditInt_hold _ _ _ _ _ _ _ _ _ _ E) as [-> Hh].
    split; [congruence|discriminate].
Qed.

Lemma key_read_select (r : Reads) (k : KeypadShield.t) (m : t) :
  fst (key_read r k m) = SELECT -> select_held (r, k) = true.
Proof.
  unfold key_read, select_held. cbn [snd].
  destruct (firstStep_ m); [|cbn [fst]; intros ->; reflexivity].
  destruct (key_eqb (stable k) SELECT) eqn:E; [reflexivity|].
  cbn [fst]. intros H. rewrite H in E. discriminate.
Qed.

Lemma wrap_u32_sub (a b : Z) :
  MachInt.wrap_u32 (MachInt.wrap_u32 a - MachInt.wrap_u32 b) = MachInt.wrap_u32 (a - b).
Proof. unfold MachInt.wrap_u32. rewrite <- Zminus_mod. reflexivity. Qed.

(** One call of [step()] keeps track of the hold, and returns true only
    at the end of one of at least 2000 ms. *)
Lemma step_holding (seen : list (Reads * KeypadShield.t)) (r : Reads)
  (k k' : KeypadShield.t) (g g' : Parameters.AllParams) (m m' : t) (d : bool)
  (o : list Out) :
  holding seen m ->
  step r k g m = Some (k', (d, g', m', o)) ->
  holding (seen ++ [(r, k)]) m' /\
  (d = true ->
   exists pre e0 mid,
     seen = pre ++ e0 :: mid /\
     forallb select_held (e0 :: mid ++ [(r, k)]) = true /\
     2000 <= MachInt.wrap_u32 (ms_now r - ms_now (fst e0))).
Proof.
  intros Hh Hstep. destruct (step_hold _ _ _ _ _ _ _ _ _ Hstep) as [Hm' Hd].
  pose proof (key_read_select r k m) as Hsel.
  unfold checkLongPress in Hm', Hd.
  change (selHeld_ (set_firstStep false m)) with (selHeld_ m) in *.
  change (selDownMs_ (set_firstStep false m)) with (selDownMs_ m) in *.
  unfold holding in *. unfold hold in Hm'.
  destruct (fst (key_read r k m)) eqn:Ek; cbn [key_eqb] in Hm', Hd;
    try (injection Hm' as Hm1 Hm2; cbn in Hm1;
         split; [intros Hx; congruence | intros Hx; specialize (Hd Hx); discriminate]).
  specialize (Hsel eq_refl).
  destruct (selHeld_ m) eqn:Hheld; cbn [negb] in Hm', Hd.
  - destruct (Hh eq_refl) as (pre & e0 & mid & Es & Hall & Hms).
    assert (forallb select_held (e0 :: mid ++ [(r, k)]) = true) as Hall'.
    { change (e0 :: mid ++ [(r, k)]) with ((e0 :: mid) ++ [(r, k)]).
      rewrite forallb_app, Hall. cbn. rewrite Hsel. reflexivity. }
    destruct (2000 <=? _) eqn:Et; injection Hm' as Hm1 Hm2; cbn in Hm1, Hm2.
    + split; [intros Hx; congruence|]. intros _.
      exists pre, e0, mid. split; [exact Es|]. split; [exact Hall'|].
      apply Z.leb_le in Et. rewrite Hms, wrap_u32_sub in Et. exact Et.
    + split; [|intros Hx; specialize (Hd Hx); discriminate].
      intros _. exists pre, e0, (mid ++ [(r, k)]).
      split; [rewrite Es, <- app_assoc; reflexivity|].
      split; [exact Hall'|]. rewrite Hm2. exact Hms.
  - injection Hm' as Hm1 Hm2. cbn in Hm1, Hm2.
    split; [|intros Hx; specialize (Hd Hx); discriminate].
    intros _. exists seen, (r, k), []. split; [reflexivity|].
    split; [cbn; rewrite Hsel; reflexivity|]. exact Hm2.
Qed.

Lemma run_holding (ins : list (Reads * KeypadShield.t)) :
  forall (seen : list (Reads * KeypadShield.t)) (g g' : Parameters.AllParams) (m m' : t),
    holding seen m ->
    run ins g m = Some (true, g', m') ->
    held_2s (seen ++ ins).
Proof.
  induction ins as [|[r k] ins IH]; intros seen g g' m m' Hh Hrun.
  - discriminate.
  - cbn [run] in Hrun.
    destruct (step r k g m) as [[k' [[[d g1] m1] o]]|] eqn:Es; [|discriminate].
    destruct (step_holding seen _ _ _ _ _ _ _ _ _ Hh Es) as [Hh1 Hd].
    destruct d.
    + destruct (Hd eq_refl) as (pre & e0 & mid & E & Hall & Ht).
      exists pre, e0, mid, (r, k), ins. split; [|auto].
      rewrite E, <- app_assoc. reflexivity.
    + replace (seen ++ (r, k) :: ins) with ((seen ++ [(r, k)]) ++ ins)
        by (rewrite <- app_assoc; reflexivity).
      exact (IH _ _ _ _ _ Hh1 Hrun).
Qed.

(** X23.  The parameter mode is left by a long press only.  When a run of
    [step()] from [begin()] returns true, SELECT has been the stable key in
    at least two calls in a row, without a break since the first of them,
    and the readings of [millis()] of the first and the last of them are
    at least 2000 ms apart. *)
Theorem param_mode_exits_on_long_press (m0 : t) (g g' : Parameters.AllParams) (m' : t)
  (ins : list (Reads * KeypadShield.t)) :
  run ins g (fst (begin m0)) = Some (true, g', m') -> held_2s ins.
Proof.
  intros Hrun.
  apply (run_holding ins [] g g' (fst (begin m0)) m'); [|exact Hrun].
  unfold holding. cbn. discriminate.
Qed.

End LongPress.

Lemma param_editor_stays_in_bounds_witness :
  exists d g' m',
    ParametersMode.run ParametersMode.strokes_256 Parameters.gParams_default
      (fst (ParametersMode.begin ParametersMode.fresh)) = Some (d, g', m') /\
    ParametersMode.wf m'.
Proof.
  apply (param_editor_stays_in_bounds ParametersMode.fresh Parameters.gParams_default
           ParametersMode.strokes_256).
  split; reflexivity.
Defined.

Lemma param_editor_stores_editor_values_witness :
  ParametersMode.edited_from Parameters.gParams_default
    (Parameters.mkAllParams (Parameters.mod1 Parameters.gParams_default)
       (Parameters.mkMod2Params (F32.of_Z 4) (F32.lit 5 100) (F32.of_Z 3) 256
          (F32.lit 5 10) (F32.of_Z 2))).
Proof.
  eapply (param_editor_stores_editor_values ParametersMode.fresh Parameters.gParams_default
            ParametersMode.strokes_256).
  - split; reflexivity.
  - lazy. reflexivity.
Defined.

Lemma param_mode_exits_on_long_press_witness :
  ParametersMode.held_2s ParametersMode.long_select.
Proof.
  apply (param_mode_exits_on_long_press ParametersMode.fresh Parameters.gParams_default
           Parameters.gParams_default
           (ParametersMode.mk ParametersMode.SelectMode 0 0 (repeat 0 7) 0 (repeat 0 3) 0
              1000 false false KeypadShield.SELECT false 0 false false)
           ParametersMode.long_select).
  vm_compute. reflexivity.
Defined.

Section StepFrames.

Opaque StepperDriver.update StepperDriver.setSpeedMmPerSec StepperDriver.moveRelativeMm
  StepperDriver.moveToMm MovingAverage.update MovingAverage.reset.

(** A call of [step()] of an etching mode only appends to the output, and
    keeps the speed configuration. *)
Lemma Mod1_step_frame (i : Inputs) (m : Mod1Mode.t) (w : World.t) :
  (exists evs, World.trace (snd (Mod1Mode.step i m w)) = World.trace w ++ evs) /\
  StepperDriver.config_ok (World.stepper (snd (Mod1Mode.step i m w)))
  = StepperDriver.config_ok (World.stepper w) /\
  Mod1Mode.relayPin1_ (snd (fst (Mod1Mode.step i m w))) = Mod1Mode.relayPin1_ m /\
  Mod1Mode.relayPin2_ (snd (fst (Mod1Mode.step i m w))) = Mod1Mode.relayPin2_ m.
Proof.
  unfold Mod1Mode.step, Mod1Mode.abort.
  destruct (out_of_range _);
    [|destruct (Mod1Mode.st_ m);
      unfold Mod1Mode.step_MovingDownDetect, Mod1Mode.step_Wait1, Mod1Mode.step_MoveDown1,
        Mod1Mode.step_Wait2, Mod1Mode.step_Validate30V, Mod1Mode.step_RelayHold,
        Mod1Mode.step_Etching, Mod1Mode.step_FinalLift;
      cbv beta iota zeta delta [World.IavgS_update World.Iavg_update];
      repeat match goal with
             | |- context [if ?c then _ else _] => destruct c
             end].
  all: split; [eexists; simpl; rewrite <- ?app_assoc; reflexivity|].
  all: split; [|split; reflexivity].
  all: simpl;
    repeat first [rewrite update_config_ok | rewrite setSpeedMmPerSec_config_ok
                 | rewrite moveRelativeMm_config_ok];
    reflexivity.
Qed.

Lemma Mod2_step_frame (i : Inputs) (m : Mod2Mode.t) (w : World.t) :
  (exists evs, World.trace (snd (Mod2Mode.step i m w)) = World.trace w ++ evs) /\
  StepperDriver.config_ok (World.stepper (snd (Mod2Mode.step i m w)))
  = StepperDriver.config_ok (World.stepper w) /\
  Mod2Mode.relayPin1_ (snd (fst (Mod2Mode.step i m w))) = Mod2Mode.relayPin1_ m /\
  Mod2Mode.relayPin2_ (snd (fst (Mod2Mode.step i m w))) = Mod2Mode.relayPin2_ m.
Proof.
  unfold Mod2Mode.step, Mod2Mode.abort.
  destruct (out_of_range _);
    [|destruct (Mod2Mode.st_ m);
      unfold Mod2Mode.step_MovingDownDetect, Mod2Mode.step_Wait1, Mod2Mode.step_MoveDown1,
        Mod2Mode.step_Wait2, Mod2Mode.step_Validate30V, Mod2Mode.step_RelayHold,
        Mod2Mode.step_Wait3, Mod2Mode.step_MoveDown2, Mod2Mode.step_Wait4,
        Mod2Mode.step_RelayPulse, Mod2Mode.step_FinalLift;
      cbv beta iota zeta delta [World.IavgS_update World.Iavg_update];
      repeat match goal with
             | |- context [if ?c then _ else _] => destruct c
             end].
  all: split; [eexists; simpl; rewrite <- ?app_assoc; reflexivity|].
  all: split; [|split; reflexivity].
  all: simpl;
    repeat first [rewrite update_config_ok | rewrite setSpeedMmPerSec_config_ok
                 | rewrite moveRelativeMm_config_ok];
    reflexivity.
Qed.

End StepFrames.

Transparent StepperDriver.update StepperDriver.setSpeedMmPerSec StepperDriver.moveRelativeMm
  StepperDriver.moveToMm MovingAverage.update MovingAverage.reset.

Section SelectStops.

Import ModeController.

Variable modes : list (IMode SketchModes.W).

Local Abbreviation loop_with := (ModeController.loop_with SketchModes.W modes SketchModes.lcd).

Lemma lcd_fold (ops : list Arduino.LcdOp) :
  forall w : SketchModes.W,
    let w' := fold_left (fun w op => SketchModes.lcd op w) ops w in
    World.stepper (SketchModes.sk_world w') = World.stepper (SketchModes.sk_world w) /\
    World.current (SketchModes.sk_world w') = World.current (SketchModes.sk_world w) /\
    World.trace (SketchModes.sk_world w')
    = World.trace (SketchModes.sk_world w) ++ map Arduino.EvLcd ops.
Proof.
  induction ops as [|op ops IH]; intros w; cbn [fold_left map].
  - rewrite app_nil_r. auto.
  - destruct (IH (SketchModes.lcd op w)) as (A & B & C).
    cbv zeta. rewrite A, B, C. cbn. rewrite <- app_assoc. auto.
Qed.

Lemma lcd_events_relays (r1 r2 : Z) (ops : list Arduino.LcdOp) (q : Relays.Pair) :
  Relays.after r1 r2 q (map Arduino.EvLcd ops) = q.
Proof.
  revert q. induction ops as [|op ops IH]; intros q; [reflexivity|].
  cbn [map]. unfold Relays.after in *. cbn [fold_left Relays.apply]. apply IH.
Qed.

(** The end of a mode after any output [evs] of its last step, followed by
    the drawing of the menu, is a safe stop. *)
Lemma end_then_menu_safe (r1 r2 : Z) (w0 w1 w2 : World.t) (evs tr : Arduino.Trace)
  (ev : Arduino.Event) (ops : list Arduino.LcdOp) :
  StepperDriver.config_ok (World.stepper w1) = true ->
  World.trace w1 = World.trace w0 ++ evs ->
  World.stepper w2 = fst (StepperDriver.setSpeedMmPerSec F32.zero (World.stepper w1)) ->
  CurrentSensor.isEnabled (World.current w2) = false ->
  World.trace w2
  = (World.trace w1 ++ tr ++ [ev] ++ [Arduino.EvDigitalWrite r1 Arduino.HIGH]
     ++ [Arduino.EvDigitalWrite r2 Arduino.HIGH])
    ++ map Arduino.EvLcd ops ->
  safe_stop r1 r2 w0 w2.
Proof.
  intros Hc H1 Hs He Ht. destruct (setSpeedMmPerSec_zero _ Hc) as [Hv Hm].
  unfold safe_stop. rewrite Hs. split; [exact Hv|]. split; [exact Hm|]. split; [exact He|].
  intros p. erewrite emitted_app.
  2:{ rewrite Ht, H1, <- !app_assoc. reflexivity. }
  change ([Arduino.EvDigitalWrite r1 Arduino.HIGH] ++
          [Arduino.EvDigitalWrite r2 Arduino.HIGH] ++ map Arduino.EvLcd ops)
    with ([Arduino.EvDigitalWrite r1 Arduino.HIGH; Arduino.EvDigitalWrite r2 Arduino.HIGH]
          ++ map Arduino.EvLcd ops).
  rewrite !app_assoc. rewrite <- (app_assoc _ [_; _] _).
  apply relays_safe_after. intros q. apply lcd_events_relays.
Qed.

(** X24.  SELECT stops a running etching mode at once and safely.  While
    MOD1 or MOD2 is the running mode of the controller, an iteration of
    [ModeController::loop] that reads SELECT calls the mode's [step()] once
    more and then its [end()], and returns to the menu; in a sound speed
    configuration the commanded speed is then 0 and the axis idle, current
    sensing is disabled and both relay outputs are HIGH, whatever the state
    of the mode was and whatever its last step did. *)
Theorem select_stops_etching_mode (c : t) (w : SketchModes.W) (ms : IMode SketchModes.W) :
  ui_ c = RUNNING ->
  mode_at SketchModes.W modes (selected_ c) = Some ms ->
  StepperDriver.config_ok (World.stepper (SketchModes.sk_world w)) = true ->
  (mode_at SketchModes.W modes (running_ c) = Some SketchModes.mod1_mode ->
   exists c' w',
     loop_with KeypadShield.SELECT c w
     = Some (c', w', [CStep (running_ c); CEnd (running_ c)]) /\
     ui_ c' = MENU /\
     safe_stop (Mod1Mode.relayPin1_ (SketchModes.sk_mod1 w))
       (Mod1Mode.relayPin2_ (SketchModes.sk_mod1 w))
       (SketchModes.sk_world w) (SketchModes.sk_world w')) /\
  (mode_at SketchModes.W modes (running_ c) = Some SketchModes.mod2_mode ->
   exists c' w',
     loop_with KeypadShield.SELECT c w
     = Some (c', w', [CStep (running_ c); CEnd (running_ c)]) /\
     ui_ c' = MENU /\
     safe_stop (Mod2Mode.relayPin1_ (SketchModes.sk_mod2 w))
       (Mod2Mode.relayPin2_ (SketchModes.sk_mod2 w))
       (SketchModes.sk_world w) (SketchModes.sk_world w')).
Proof.
  intros Hui Hsel Hcfg. split; intros Hrun.
  - destruct (Mod1_step_frame (SketchModes.sk_in w) (SketchModes.sk_mod1 w)
                (SketchModes.sk_world w)) as ((evs & Ht) & Hc & Hp1 & Hp2).
    unfold ModeController.loop_with, stop_, drawMenu_.
    rewrite Hui, Hrun. cbn [step SketchModes.mod1_mode name end_ String.eqb Ascii.eqb
                              Bool.eqb orb negb andb KeypadShield.key_eqb
                              running_ selected_ n_ ui_].
    rewrite ?Hrun. cbn [end_ SketchModes.mod1_mode]. rewrite ?Hsel.
    eexists _, _. split; [reflexivity|]. split; [reflexivity|].
    match goal with
    | |- safe_stop _ _ _ (SketchModes.sk_world (fold_left _ ?ops ?w1)) =>
        destruct (lcd_fold ops w1) as (A & B & C)
    end.
    rewrite <- Hp1, <- Hp2.
    eapply end_then_menu_safe with (evs := evs);
      [rewrite Hc; exact Hcfg | exact Ht | rewrite A; reflexivity
      | rewrite B; reflexivity
      | rewrite C; apply (f_equal (fun l => l ++ _));
        cbn -[StepperDriver.setSpeedMmPerSec Mod1Mode.step];
        rewrite <- !app_assoc; reflexivity].
  - destruct (Mod2_step_frame (SketchModes.sk_in w) (SketchModes.sk_mod2 w)
                (SketchModes.sk_world w)) as ((evs & Ht) & Hc & Hp1 & Hp2).
    unfold ModeController.loop_with, stop_, drawMenu_.
    rewrite Hui, Hrun. cbn [step SketchModes.mod2_mode name end_ String.eqb Ascii.eqb
                              Bool.eqb orb negb andb KeypadShield.key_eqb
                              running_ selected_ n_ ui_].
    rewrite ?Hrun. cbn [end_ SketchModes.mod2_mode]. rewrite ?Hsel.
    eexists _, _. split; [reflexivity|]. split; [reflexivity|].
    match goal with
    | |- safe_stop _ _ _ (SketchModes.sk_world (fold_left _ ?ops ?w1)) =>
        destruct (lcd_fold ops w1) as (A & B & C)
    end.
    rewrite <- Hp1, <- Hp2.
    eapply end_then_menu_safe with (evs := evs);
      [rewrite Hc; exact Hcfg | exact Ht | rewrite A; reflexivity
      | rewrite B; reflexivity
      | rewrite C; apply (f_equal (fun l => l ++ _));
        cbn -[StepperDriver.setSpeedMmPerSec Mod2Mode.step];
        rewrite <- !app_assoc; reflexivity].
Qed.

End SelectStops.

Lemma select_stops_etching_mode_witness :
  exists c' w',
    ModeController.loop_with SketchModes.W [SketchModes.mod1_mode; SketchModes.mod2_mode]
      SketchModes.lcd KeypadShield.SELECT
      (ModeController.mk 2 ModeController.RUNNING 1 1) SketchModes.etching
    = Some (c', w', [ModeController.CStep 1; ModeController.CEnd 1]) /\
    ModeController.ui_ c' = ModeController.MENU /\
    safe_stop Sketch.PIN_RELAY1 Sketch.PIN_RELAY2 Examples.world_hold
      (SketchModes.sk_world w').
Proof.
  exact (proj2 (select_stops_etching_mode [SketchModes.mod1_mode; SketchModes.mod2_mode]
                  (ModeController.mk 2 ModeController.RUNNING 1 1) SketchModes.etching
                  SketchModes.mod2_mode eq_refl eq_refl eq_refl) eq_refl).
Defined.

Section FloatCanonical.

Local Abbreviation fexp32 := (fexp F32.prec F32.emax).


Lemma Zdigits2_unique (z n : Z) :
  2 ^ (n - 1) <= z < 2 ^ n -> 0 < n -> Zdigits2 z = n.
Proof.
  intros [Hl Hu] Hn.
  assert (0 < z) as Hz by (pose proof (Z.pow_pos_nonneg 2 (n - 1)); lia).
  destruct z as [|p|p]; try lia. cbn [Zdigits2].
  destruct (digits2_bounds p) as [Hl' Hu'].
  assert (n - 1 < Zpos (digits2_pos p)) as H1
      by (apply (Z.pow_lt_mono_r_iff 2); lia).
  assert (Zpos (digits2_pos p) - 1 < n) as H2
      by (apply (Z.pow_lt_mono_r_iff 2); lia).
  lia.
Qed.

Lemma Zdigits2_lower (z n : Z) : 0 <= n -> 2 ^ n <= z -> n < Zdigits2 z.
Proof.
  intros Hn Hz.
  assert (0 < z) as Hz0 by (pose proof (Z.pow_pos_nonneg 2 n); lia).
  destruct z as [|p|p]; try lia. cbn [Zdigits2].
  destruct (digits2_bounds p) as [_ Hu].
  apply (Z.pow_lt_mono_r_iff 2); lia.
Qed.

Lemma Zdigits2_pow2 (n : Z) : 0 <= n -> Zdigits2 (2 ^ n) = n + 1.
Proof.
  intros Hn. apply Zdigits2_unique; [|lia].
  replace (n + 1 - 1) with n by lia. split; [lia|].
  apply Z.pow_lt_mono_r; lia.
Qed.

(** The floor division by [2^k] of a number of [d] digits, [k < d], has
    [d - k] digits. *)
Lemma div_pow2_range (z d k : Z) :
  0 <= k < d -> 2 ^ (d - 1) <= z < 2 ^ d ->
  2 ^ (d - k - 1) <= z / 2 ^ k < 2 ^ (d - k).
Proof.
  intros Hk [Hl Hu].
  assert (0 < 2 ^ k) as Hp by (apply Z.pow_pos_nonneg; lia).
  split.
  - apply Z.div_le_lower_bound; [exact Hp|].
    rewrite <- Z.pow_add_r by lia. replace (k + (d - k - 1)) with (d - 1) by lia. exact Hl.
  - apply Z.div_lt_upper_bound; [exact Hp|].
    rewrite <- Z.pow_add_r by lia. replace (k + (d - k)) with d by lia. exact Hu.
Qed.

(** What [binary_round_aux] returns for a positive mantissa at an
    exponent not above the one of the format is in canonical form. *)
Lemma binary_round_aux_canonical (sx : bool) (mx ex : Z) (lx : location) :
  0 < mx -> ex <= fexp32 (Zdigits2 mx + ex) ->
  match binary_round_aux F32.prec F32.emax sx mx ex lx with
  | S754_zero s => s = sx
  | S754_finite s m e => s = sx /\ canonical m e
  | S754_infinity s => s = sx
  | S754_nan => False
  end.
Proof.
  intros Hm Hex.
  destruct (binary_round_aux_spec sx mx ex lx ltac:(lia)) as [Hr ->].
  set (e1 := exp_after mx ex) in *.
  set (m1 := rounded_m mx ex lx) in *.
  set (e2 := exp_after m1 e1).
  set (m2 := m1 / 2 ^ (e2 - e1)).
  set (dx := Zdigits2 mx) in *.
  assert (e1 = fexp32 (dx + ex)) as Ee1 by (unfold e1, exp_after; fold dx; lia).
  rewrite fexp32_eq in Ee1, Hex.
  assert (2 ^ (dx - 1) <= mx < 2 ^ dx /\ 0 < dx) as [Hdx Hdx0].
  { unfold dx. destruct mx as [|p|p]; try lia. cbn [Zdigits2].
    split; [apply digits2_bounds|lia]. }
  set (k := e1 - ex) in *.
  assert (0 <= k) as Hk by (unfold k; lia).
  assert (0 < 2 ^ k) as Hpk by (apply Z.pow_pos_nonneg; lia).
  assert (0 <= mx / 2 ^ k) as Hf0 by (apply Z.div_pos; lia).
  (* the rounded mantissa has at most 24 digits, or is 2^24 *)
  assert (m1 <= 2 ^ 24) as Hm1u.
  { assert (mx / 2 ^ k < 2 ^ 24); [|lia].
    apply Z.div_lt_upper_bound; [exact Hpk|].
    rewrite <- Z.pow_add_r by lia.
    eapply Z.lt_le_trans; [apply Hdx|]. apply Z.pow_le_mono_r; lia. }
  assert (e1 = -149 \/ 2 ^ 23 <= m1) as Hm1l.
  { destruct (Z.le_gt_cases (dx + ex - 24) (-149)) as [H | H]; [left; lia|right].
    assert (k = dx - 24) as Ek by lia.
    assert (2 ^ (dx - k - 1) <= mx / 2 ^ k) as Hl by (apply div_pow2_range; lia).
    replace (dx - k - 1) with 23 in Hl by lia. lia. }
  assert (-149 <= e1) as He1 by lia.
  unfold canonical.
  destruct (Z.eq_dec m1 (2 ^ 24)) as [E24 | N24].
  - (* the rounding carried into a 25th digit *)
    assert (Zdigits2 m1 = 25) as Ed by (rewrite E24; apply (Zdigits2_pow2 24); lia).
    assert (e2 = e1 + 1) as Ee2 by (unfold e2, exp_after; rewrite Ed, fexp32_eq; lia).
    assert (m2 = 2 ^ 23) as Em2.
    { unfold m2. rewrite Ee2, E24. replace (e1 + 1 - e1) with 1 by lia. reflexivity. }
    rewrite Em2. change (2 ^ 23) with (Zpos 8388608).
    destruct (e2 <=? 104); [|reflexivity].
    split; [reflexivity|]. change (Zpos (digits2_pos 8388608)) with 24.
    rewrite fexp32_eq. lia.
  - destruct (Z.eq_dec m1 0) as [E0 | N0].
    + assert (m2 = 0) as -> by (unfold m2; rewrite E0; apply Z.div_0_l;
                                 apply Z.pow_nonzero; unfold e2, exp_after; lia).
      reflexivity.
    + assert (0 < m1 < 2 ^ 24) as Hm1 by lia.
      assert (0 < Zdigits2 m1 <= 24) as Hd1.
      { destruct m1 as [|p|p]; try lia. cbn [Zdigits2]. split; [lia|].
        destruct (digits2_bounds p) as [Hl _].
        assert (Zpos (digits2_pos p) - 1 < 24); [|lia].
        apply (Z.pow_lt_mono_r_iff 2); lia. }
      assert (e1 = -149 \/ Zdigits2 m1 = 24) as Hcases.
      { destruct Hm1l as [H | H]; [left; exact H|right].
        apply Zdigits2_unique; lia. }
      assert (e2 = e1) as Ee2
          by (unfold e2, exp_after; rewrite fexp32_eq; lia).
      assert (m2 = m1) as Em2
          by (unfold m2; rewrite Ee2, Z.sub_diag; apply Z.div_1_r).
      rewrite Em2, Ee2. destruct m1 as [|p|p]; try lia.
      destruct (e1 <=? 104); [|reflexivity].
      split; [reflexivity|]. cbn [Zdigits2] in *. rewrite fexp32_eq. lia.
Qed.

(** The quotient [SFdiv_core_binary] hands to the rounding is positive and
    at an exponent not above the one of the format, unless the quotient
    underflows. *)
Lemma div_core_canonical (mx : positive) (ex : Z) (my : positive) (ey : Z) :
  let c := SFdiv_core_binary F32.prec F32.emax (Zpos mx) ex (Zpos my) ey in
  let q := fst (fst c) in
  let e' := snd (fst c) in
  -125 <= Zpos (digits2_pos mx) + ex - (Zpos (digits2_pos my) + ey) ->
  0 < q /\ e' <= fexp32 (Zdigits2 q + e').
Proof.
  unfold SFdiv_core_binary. cbn [Zdigits2].
  set (D := Zpos (digits2_pos mx) + ex - (Zpos (digits2_pos my) + ey)).
  set (e' := Z.min (fexp32 D) (ex - ey)).
  set (s := ex - ey - e').
  assert (0 <= s) as Hs by (unfold s, e'; lia).
  set (m' := match s with Zpos _ => Z.shiftl (Zpos mx) s | 0 => Zpos mx | Zneg _ => 0 end).
  assert (m' = Zpos mx * 2 ^ s) as Em'.
  { unfold m'. destruct s as [|p|p]; [simpl; lia| |lia].
    apply Z.shiftl_mul_pow2. lia. }
  pose proof (Z_div_mod m' (Zpos my) ltac:(lia)) as Hdm.
  pose proof (Zdiv.Zmod_eq_full m' (Zpos my) ltac:(lia)) as _.
  assert (fst (Z.div_eucl m' (Zpos my)) = m' / Zpos my) as Eq by reflexivity.
  destruct (Z.div_eucl m' (Zpos my)) as [q r]. cbn [fst snd] in *. subst q.
  intros HD.
  assert (e' <= D - 24) as He' by (unfold e'; rewrite fexp32_eq; lia).
  set (N := D - 1 - e').
  assert (23 <= N) as HN by (unfold N; lia).
  destruct (digits2_bounds mx) as [Hlx _]. destruct (digits2_bounds my) as [_ Huy].
  assert (2 ^ N <= m' / Zpos my) as Hq.
  { apply Z.div_le_lower_bound; [lia|].
    rewrite Em'.
    apply Z.le_trans with (2 ^ Zpos (digits2_pos my) * 2 ^ N);
      [apply Z.mul_le_mono_nonneg_r; [apply Z.pow_nonneg|]; lia|].
    rewrite <- Z.pow_add_r by lia.
    apply Z.le_trans with (2 ^ (Zpos (digits2_pos mx) - 1) * 2 ^ s);
      [|apply Z.mul_le_mono_nonneg_r; [apply Z.pow_nonneg|]; lia].
    rewrite <- Z.pow_add_r by lia.
    apply Z.pow_le_mono_r; [lia|]. unfold N, s, D. lia. }
  assert (0 < 2 ^ N) as HpN by (apply Z.pow_pos_nonneg; lia).
  split; [lia|].
  pose proof (Zdigits2_lower _ N ltac:(lia) Hq) as Hd.
  apply Z.le_trans with (fexp32 D); [unfold e'; lia|].
  apply fexp32_mono. unfold N in Hd. lia.
Qed.

(** The order of two positive canonical floats is the order of their
    values. *)
Lemma compare_canonical (m1 : positive) (e1 : Z) (m2 : positive) (e2 : Z) :
  canonical m1 e1 -> canonical m2 e2 ->
  SFcompare (S754_finite false m1 e1) (S754_finite false m2 e2)
  = Some (val (Zpos m1) e1 ?= val (Zpos m2) e2)%Q.
Proof.
  unfold canonical. rewrite !fexp32_eq. intros H1 H2.
  destruct (digits2_bounds m1) as [Hl1 Hu1]. destruct (digits2_bounds m2) as [Hl2 Hu2].
  destruct (val_digits m1 e1) as [Vl1 Vu1]. destruct (val_digits m2 e2) as [Vl2 Vu2].
  cbn [SFcompare]. f_equal.
  destruct (Z.compare_spec e1 e2) as [E | E | E].
  - subst e2. rewrite Pos.compare_cont_spec. cbn [Pos.switch_Eq].
    symmetry. destruct (Pos.compare_spec m1 m2) as [Em | Em | Em].
    + subst. apply Qeq_alt. reflexivity.
    + apply Qlt_alt. apply val_lt. lia.
    + apply Qgt_alt. apply val_lt. lia.
  - symmetry. apply Qlt_alt.
    apply Qlt_le_trans with (2 ^ (Zpos (digits2_pos m1) + e1))%Q; [exact Vu1|].
    apply Qle_trans with (2 ^ (Zpos (digits2_pos m2) - 1 + e2))%Q; [|exact Vl2].
    apply pow2_le. lia.
  - symmetry. apply Qgt_alt.
    apply Qlt_le_trans with (2 ^ (Zpos (digits2_pos m2) + e2))%Q; [exact Vu2|].
    apply Qle_trans with (2 ^ (Zpos (digits2_pos m1) - 1 + e1))%Q; [|exact Vl1].
    apply pow2_le. lia.
Qed.

Lemma leb_positive_finite (x y : F32.float) :
  positive_finite x -> positive_finite y ->
  (F32.leb x y = true <-> (F32.to_Q x <= F32.to_Q y)%Q) /\
  (F32.ltb x y = true <-> (F32.to_Q x < F32.to_Q y)%Q).
Proof.
  intros (m1 & e1 & -> & H1) (m2 & e2 & -> & H2).
  unfold F32.leb, F32.ltb, SFleb, SFltb.
  rewrite (compare_canonical m1 e1 m2 e2 H1 H2), !to_Q_finite. unfold signed.
  set (a := val (Zpos m1) e1). set (b := val (Zpos m2) e2).
  destruct (a ?= b)%Q eqn:E.
  - apply Qeq_alt in E. split; split; intros H; try reflexivity; try discriminate.
    + rewrite E. apply Qle_refl.
    + rewrite E in H. exfalso. exact (Qlt_irrefl _ H).
  - apply Qlt_alt in E. split; split; intros H; try reflexivity; try assumption.
    apply Qlt_le_weak. exact E.
  - apply Qgt_alt in E. split; split; intros H; try discriminate.
    + exfalso. exact (Qlt_irrefl _ (Qlt_le_trans _ _ _ E H)).
    + exfalso. exact (Qlt_irrefl _ (Qlt_trans _ _ _ E H)).
Qed.

End FloatCanonical.

Section SketchGear.

Import StepperDriver.

Local Abbreviation fexp32 := (fexp F32.prec F32.emax).


(** The gearing of the sketch: 200 full steps, 16 microsteps, 8 mm lead,
    that is 400 steps per millimetre. *)
Lemma sketch_stepsPerMm :
  exists my ey, stepsPerMm_ Sketch.stepper = S754_finite false my ey /\
                Zpos (digits2_pos my) + ey = 9 /\
                (val (Zpos my) ey == 400)%Q.
Proof.
  eexists _, _. split; [vm_compute; reflexivity|]. split; [reflexivity|].
  vm_compute. reflexivity.
Qed.

Lemma log2_Q (p : Z) :
  0 < p ->
  let P := 2 ^ Z.log2 p in
  P <= p < 2 * P /\ 0 < P /\
  forall j : Z, (2 ^ (Z.log2 p + j) == inject_Z P * 2 ^ j)%Q.
Proof.
  intros Hp P. destruct (Z.log2_spec p Hp) as [Hl Hu].
  rewrite Z.pow_succ_r in Hu by apply Z.log2_nonneg.
  split; [unfold P; lia|]. split; [apply Z.pow_pos_nonneg; [lia|apply Z.log2_nonneg]|].
  intros j. rewrite pow2_add. unfold P. rewrite pow2_Z by apply Z.log2_nonneg. reflexivity.
Qed.

(** The position in millimetres of a position of [p] steps, [0 < p < 2^24],
    in the gearing of the sketch: a positive float in canonical form, off
    [p / 400] by less than three parts in [2^30] of [p]. *)
Lemma positionMm_value (s : t) :
  stepsPerMm_ s = stepsPerMm_ Sketch.stepper ->
  0 < pos_steps_ s < 2 ^ 24 ->
  positive_finite (positionMm s) /\
  (Qabs (F32.to_Q (positionMm s) - inject_Z (pos_steps_ s) / 400)
   <= inject_Z (pos_steps_ s) * (3 # 1073741824))%Q.
Proof.
  intros Hg Hp. unfold positionMm. rewrite Hg.
  destruct sketch_stepsPerMm as (my & ey & -> & Hdy & Hy).
  set (p := pos_steps_ s) in *.
  destruct (of_Z_exact p Hp) as (mp & ep & Ep & Hv). rewrite Ep.
  destruct (log2_Q p ltac:(lia)) as (HP & HP0 & Hpow).
  set (P := 2 ^ Z.log2 p) in *.
  set (K := Z.log2 p - 7).
  assert (0 <= Z.log2 p < 24) as Hlog.
  { split; [apply Z.log2_nonneg|]. apply Z.log2_lt_pow2; lia. }
  assert (2 ^ K == inject_Z P * (1 # 128))%Q as EK
      by (unfold K; rewrite (Hpow (-7)); reflexivity).
  assert (2 ^ (K - 23) == inject_Z P * (1 # 1073741824))%Q as EB
      by (unfold K; replace (Z.log2 p - 7 - 23) with (Z.log2 p + -30) by lia;
          rewrite (Hpow (-30)); reflexivity).
  assert (0 < inject_Z P)%Q as HPq by (rewrite <- (Zlt_Qlt 0); exact HP0).
  assert (inject_Z P <= inject_Z p)%Q as HPp by (rewrite <- Zle_Qle; lia).
  assert (inject_Z p < 2 * inject_Z P)%Q as HpP.
  { change 2%Q with (inject_Z 2). rewrite <- inject_Z_mult, <- Zlt_Qlt. lia. }
  (* the error bound *)
  assert (F32.to_Q (S754_finite false mp ep) == inject_Z p)%Q as Ex
      by (rewrite to_Q_finite; exact Hv).
  destruct (div_bound (S754_finite false mp ep) my ey K (K - 23)) as [Hfin Herr].
  - reflexivity.
  - rewrite Ex, Hy, EK. rewrite Qabs_pos by lra.
    apply Qlt_shift_div_r; [reflexivity|]. lra.
  - rewrite fexp32_eq. unfold K. lia.
  - unfold K. lia.
  - rewrite Ex, Hy, EB in Herr.
    assert (Qabs (F32.to_Q (F32.div (S754_finite false mp ep) (S754_finite false my ey))
                  - inject_Z p / 400) <= inject_Z p * (3 # 1073741824))%Q as Hbound.
    { eapply Qle_trans; [exact Herr|]. lra. }
    split; [|exact Hbound].
    (* the shape of the quotient *)
    unfold F32.div, SFdiv in *.
    pose proof (div_core_canonical mp ep my ey) as Hc.
    destruct (SFdiv_core_binary F32.prec F32.emax (Zpos mp) ep (Zpos my) ey)
      as [[q e'] l].
    cbn [fst snd] in Hc.
    assert (0 < Zpos (digits2_pos mp) + ep) as Hdx.
    { destruct (val_digits mp ep) as [_ Hu]. rewrite Hv in Hu.
      apply pow2_lt_inv. eapply Qle_lt_trans; [|exact Hu].
      change (2 ^ 0)%Q with (inject_Z 1). rewrite <- Zle_Qle. lia. }
    destruct (Hc ltac:(lia)) as [Hq He'].
    pose proof (binary_round_aux_canonical (xorb false false) q e' l Hq He') as Hshape.
    destruct (binary_round_aux F32.prec F32.emax (xorb false false) q e' l)
      as [sz|sz| |sz mz ez]; try discriminate Hfin.
    + (* a zero quotient is too far from p / 400 *)
      exfalso. simpl F32.to_Q in Hbound.
      apply Qabs_Qle_condition in Hbound. destruct Hbound as [Hb _].
      assert (inject_Z P * (1 # 400) <= inject_Z p / 400)%Q
        by (unfold Qdiv; change (/ 400)%Q with (1 # 400)%Q; lra).
      lra.
    + destruct Hshape as [-> Hcan]. exists mz, ez. auto.
Qed.

End SketchGear.

Section SoftLimitSteps.

Import StepperDriver.

Lemma Z_MIN_value : positive_finite Z_MIN /\ (F32.to_Q Z_MIN == 3 # 2)%Q.
Proof.
  split.
  - eexists _, _. split; [vm_compute; reflexivity|]. reflexivity.
  - vm_compute. reflexivity.
Qed.

Lemma Z_MAX_value : positive_finite Z_MAX /\ (F32.to_Q Z_MAX == 75)%Q.
Proof.
  split.
  - eexists _, _. split; [vm_compute; reflexivity|]. reflexivity.
  - vm_compute. reflexivity.
Qed.

(** The soft limits in steps, in the gearing of the sketch: a position of
    [p] steps, [0 < p < 2^24], is at or below 1.5 mm exactly when
    [p <= 600], and at or above 75 mm exactly when [30000 <= p]. *)
Lemma limits_in_steps (s : t) :
  stepsPerMm_ s = stepsPerMm_ Sketch.stepper ->
  0 < pos_steps_ s < 2 ^ 24 ->
  let z := positionMm s in
  let p := pos_steps_ s in
  F32.leb z Z_MIN = (p <=? 600) /\ F32.gtb z Z_MIN = (600 <? p) /\
  F32.geb z Z_MAX = (30000 <=? p) /\ F32.ltb z Z_MAX = (p <? 30000).
Proof.
  intros Hg Hp z p.
  destruct (Z.eq_dec p 600) as [E600 | N600].
  { assert (z = Z_MIN) as ->.
    { unfold z, positionMm. fold p. rewrite Hg, E600. vm_compute. reflexivity. }
    rewrite E600. vm_compute. auto. }
  destruct (Z.eq_dec p 30000) as [E30 | N30].
  { assert (z = Z_MAX) as ->.
    { unfold z, positionMm. fold p. rewrite Hg, E30. vm_compute. reflexivity. }
    rewrite E30. vm_compute. auto. }
  destruct (positionMm_value s Hg Hp) as [Hz Hb]. fold z p in Hz, Hb.
  destruct Z_MIN_value as [Hmin Vmin]. destruct Z_MAX_value as [Hmax Vmax].
  destruct (leb_positive_finite z Z_MIN Hz Hmin) as [Lmin _].
  destruct (leb_positive_finite Z_MIN z Hmin Hz) as [_ Gmin].
  destruct (leb_positive_finite Z_MAX z Hmax Hz) as [Gmax _].
  destruct (leb_positive_finite z Z_MAX Hz Hmax) as [_ Lmax].
  unfold F32.gtb, F32.geb.
  change (SFltb Z_MIN z) with (F32.ltb Z_MIN z).
  change (SFleb Z_MAX z) with (F32.leb Z_MAX z).
  rewrite Vmin in Lmin, Gmin. rewrite Vmax in Gmax, Lmax.
  apply Qabs_Qle_condition in Hb. destruct Hb as [Hlo Hhi].
  set (v := F32.to_Q z) in *.
  assert (forall a b : bool, (a = true <-> b = true) -> a = b) as Hiff
      by (intros [] [] [H1 H2]; auto; symmetry; auto).
  assert (forall c : Z, p <= c -> (inject_Z p <= c # 1)%Q) as Hup
      by (intros c H; change (c # 1)%Q with (inject_Z c); rewrite <- Zle_Qle; exact H).
  assert (forall c : Z, c <= p -> (c # 1 <= inject_Z p)%Q) as Hdn
      by (intros c H; change (c # 1)%Q with (inject_Z c); rewrite <- Zle_Qle; exact H).
  assert (0 < inject_Z p)%Q as Hp0 by (rewrite <- (Zlt_Qlt 0); lia).
  unfold Qdiv in Hlo, Hhi. change (/ 400)%Q with (1 # 400)%Q in Hlo, Hhi.
  repeat split; apply Hiff.
  - rewrite Lmin, Z.leb_le. split; intros H.
    + destruct (Z.le_gt_cases p 600) as [Hc | Hc]; [exact Hc|exfalso].
      pose proof (Hdn 601 ltac:(lia)). lra.
    + pose proof (Hup 599 ltac:(lia)). lra.
  - rewrite Gmin, Z.ltb_lt. split; intros H.
    + destruct (Z.le_gt_cases p 600) as [Hc | Hc]; [exfalso|lia].
      pose proof (Hup 599 ltac:(lia)). lra.
    + pose proof (Hdn 601 ltac:(lia)). lra.
  - rewrite Gmax, Z.leb_le. split; intros H.
    + destruct (Z.le_gt_cases 30000 p) as [Hc | Hc]; [exact Hc|exfalso].
      pose proof (Hup 29999 ltac:(lia)). lra.
    + pose proof (Hdn 30001 ltac:(lia)). lra.
  - rewrite Lmax, Z.ltb_lt. split; intros H.
    + destruct (Z.le_gt_cases 30000 p) as [Hc | Hc]; [exfalso|lia].
      pose proof (Hdn 30001 ltac:(lia)). lra.
    + pose proof (Hup 29999 ltac:(lia)). lra.
Qed.

End SoftLimitSteps.

Section TravelFacts.

Import StepperDriver.

Lemma update_stepsPerMm (now : Z) (s : t) :
  stepsPerMm_ (fst (update now s)) = stepsPerMm_ s.
Proof.
  unfold update.
  destruct (idle s); [reflexivity|].
  destruct (period_us s); [|reflexivity].
  destruct (step_due now s); [|reflexivity].
  simpl. unfold check_target. simpl.
  destruct (motion_ s); try reflexivity.
  match goal with |- context [if ?c then _ else _] => destruct c end; reflexivity.
Qed.

Lemma setSpeedMmPerSec_stepsPerMm (v : F32.float) (s : t) :
  stepsPerMm_ (fst (setSpeedMmPerSec v s)) = stepsPerMm_ s.
Proof.
  unfold setSpeedMmPerSec.
  repeat match goal with
         | |- context [if ?c then _ else _] => destruct c
         end; reflexivity.
Qed.

Lemma update_geared (now : Z) (s : t) :
  Travel.geared s -> Travel.geared (fst (update now s)).
Proof.
  intros [A B]. split; [rewrite update_stepsPerMm|rewrite update_config_ok]; assumption.
Qed.

Lemma setSpeedMmPerSec_geared (v : F32.float) (s : t) :
  Travel.geared s -> Travel.geared (fst (setSpeedMmPerSec v s)).
Proof.
  intros [A B].
  split; [rewrite setSpeedMmPerSec_stepsPerMm|rewrite setSpeedMmPerSec_config_ok]; assumption.
Qed.

(** X25.  The position in millimetres is accurate.  In the gearing of
    the sketch (400 steps per millimetre) the position [positionMm()]
    reports for [p] steps, [0 < p < 2^24], is a positive finite number within
    [p * 3 / 2^30] mm of [p / 400] mm. *)
Theorem positionMm_accuracy (s : t) :
  stepsPerMm_ s = stepsPerMm_ Sketch.stepper ->
  0 < pos_steps_ s < 2 ^ 24 ->
  positive_finite (positionMm s) /\
  (Qabs (F32.to_Q (positionMm s) - inject_Z (pos_steps_ s) / 400)
   <= inject_Z (pos_steps_ s) * (3 # 1073741824))%Q.
Proof. exact (positionMm_value s). Qed.

(** The test the etching modes make, in steps. *)
Lemma out_of_range_steps (s : t) :
  Travel.geared s -> 0 < pos_steps_ s < 2 ^ 24 ->
  out_of_range (positionMm s) = (pos_steps_ s <=? 600) || (30000 <=? pos_steps_ s).
Proof.
  intros [Hg _] Hp. destruct (limits_in_steps s Hg Hp) as (A & _ & B & _).
  unfold out_of_range. rewrite A, B. reflexivity.
Qed.

(** X26.  The soft limits in steps.  In the gearing of the sketch (400
    steps per millimetre) a position of [p] steps, [0 < p < 2^24], reads as
    at or below 1.5 mm exactly when [p <= 600] and as at or above 75 mm
    exactly when [p >= 30000]: the etching modes abort exactly outside
    601..29999 steps, and jogging moves up exactly above 600 steps and down
    exactly below 30000 steps. *)
Theorem soft_limits_in_steps (s : t) :
  stepsPerMm_ s = stepsPerMm_ Sketch.stepper ->
  0 < pos_steps_ s < 2 ^ 24 ->
  let z := positionMm s in
  let p := pos_steps_ s in
  out_of_range z = (p <=? 600) || (30000 <=? p) /\
  JogMode.requested_speed KeypadShield.UP z
  = (if 600 <? p then F32.neg (F32.of_Z 2) else F32.zero) /\
  JogMode.requested_speed KeypadShield.DOWN z
  = (if p <? 30000 then F32.of_Z 2 else F32.zero).
Proof.
  intros Hg Hp z p.
  destruct (limits_in_steps s Hg Hp) as (A & B & C & D).
  fold z p in A, B, C, D.
  unfold out_of_range, JogMode.requested_speed. rewrite A, B, C, D. auto.
Qed.

(** One call of [JogMode::step] from inside the limits stays inside. *)
Lemma jog_step_inside (r : JogMode.Reads) (k : KeypadShield.t) (m : JogMode.t)
  (w : World.t) :
  Travel.geared (World.stepper w) ->
  Travel.inside (pos_steps_ (World.stepper w)) ->
  let w' := snd (JogMode.step r k m w) in
  Travel.geared (World.stepper w') /\ Travel.inside (pos_steps_ (World.stepper w')).
Proof.
  intros Hg Hin. cbv zeta.
  set (key := fst (JogMode.key_read r k m)).
  set (z := positionMm (World.stepper w)).
  assert (Hs' : World.stepper (snd (JogMode.step r k m w))
                = fst (update (JogMode.rd_micros r)
                         (fst (setSpeedMmPerSec (JogMode.requested_speed key z)
                                 (World.stepper w))))).
  { unfold JogMode.step, key, z.
    destruct (JogMode.key_read r k m) as [s0 k'].
    cbn [fst]. destruct (200 <=? _); reflexivity. }
  rewrite Hs'.
  destruct (limits_in_steps (World.stepper w) (proj1 Hg)) as (_ & Hup & _ & Hdn);
    [unfold Travel.inside, Travel.LOW_STEPS, Travel.HIGH_STEPS in Hin; lia|].
  fold z in Hup, Hdn.
  assert (Hv : JogMode.requested_speed key z = F32.zero \/
               (JogMode.requested_speed key z = S754_finite true 8388608 (-22) /\
                600 < pos_steps_ (World.stepper w)) \/
               (JogMode.requested_speed key z = S754_finite false 8388608 (-22) /\
                pos_steps_ (World.stepper w) < 30000)).
  { unfold JogMode.requested_speed. destruct key; auto.
    - rewrite Hup. destruct (Z.ltb_spec 600 (pos_steps_ (World.stepper w))); auto.
    - rewrite Hdn. destruct (Z.ltb_spec (pos_steps_ (World.stepper w)) 30000); auto. }
  generalize dependent (JogMode.requested_speed key z). intros v _ Hv.
  set (s1 := fst (setSpeedMmPerSec v (World.stepper w))).
  assert (Travel.geared s1) as Hg1 by (apply setSpeedMmPerSec_geared; exact Hg).
  split; [apply update_geared; exact Hg1|].
  assert (pos_steps_ s1 = pos_steps_ (World.stepper w)) as Hp1
      by apply setSpeedMmPerSec_pos.
  unfold Travel.inside, Travel.LOW_STEPS, Travel.HIGH_STEPS in *.
  destruct (update_moves_one_step (JogMode.rd_micros r) s1) as [H | [Hi H]];
    [rewrite H, Hp1; exact Hin|].
  rewrite H, Hp1.
  destruct Hv as [E | [[E Hc] | [E Hc]]]; subst v.
  - unfold s1 in Hi. rewrite (setSpeedMmPerSec_zero_idle _ (proj2 Hg)) in Hi.
    discriminate.
  - assert (dir_ s1 = false) as Hd
        by (apply setSpeedMmPerSec_negative; exact (proj2 Hg)).
    rewrite Hd, to_i32_small by lia. lia.
  - assert (dir_ s1 = true) as Hd
        by (apply setSpeedMmPerSec_positive; exact (proj2 Hg)).
    rewrite Hd, to_i32_small by lia. lia.
Qed.

(** X27.  Jogging never leaves the travel.  In the gearing of the sketch
    and a sound speed configuration, when the axis is between 600 and 30000
    steps (1.5 mm and 75 mm) when JOG begins, it is between them after any
    number of calls of [step()], whatever keys are held and for how long. *)
Theorem jog_never_leaves_travel (ins : list (JogMode.Reads * KeypadShield.t))
  (m0 : JogMode.t) (w0 : World.t) :
  Travel.geared (World.stepper w0) ->
  Travel.inside (pos_steps_ (World.stepper w0)) ->
  let b := JogMode.begin m0 w0 in
  Travel.inside (pos_steps_ (World.stepper (snd (Travel.run_jog ins (fst b) (snd b))))).
Proof.
  intros Hg Hin b.
  assert (Travel.geared (World.stepper (snd b)) /\
          Travel.inside (pos_steps_ (World.stepper (snd b)))) as Hb by (split; assumption).
  generalize dependent (snd b). generalize (fst b). clear b Hg Hin m0 w0.
  induction ins as [|[r k] ins IH]; intros m w [Hg Hin].
  - exact Hin.
  - cbn [Travel.run_jog].
    pose proof (jog_step_inside r k m w Hg Hin) as Hs.
    destruct (JogMode.step r k m w) as [[[d k'] m'] w']. cbn [snd] in Hs.
    destruct d; [exact (proj2 Hs)|]. apply IH. exact Hs.
Qed.

Lemma moveToMm_pos (x v : F32.float) (s : t) :
  pos_steps_ (fst (moveToMm x v s)) = pos_steps_ s /\
  stepsPerMm_ (fst (moveToMm x v s)) = stepsPerMm_ s.
Proof. split; reflexivity. Qed.

Lemma moveRelativeMm_pos (dx v : F32.float) (s : t) :
  pos_steps_ (fst (moveRelativeMm dx v s)) = pos_steps_ s.
Proof. reflexivity. Qed.

Lemma moveRelativeMm_stepsPerMm (dx v : F32.float) (s : t) :
  stepsPerMm_ (fst (moveRelativeMm dx v s)) = stepsPerMm_ s.
Proof. reflexivity. Qed.

Lemma moveRelativeMm_geared (dx v : F32.float) (s : t) :
  Travel.geared s -> Travel.geared (fst (moveRelativeMm dx v s)).
Proof.
  intros [A B].
  split; [rewrite moveRelativeMm_stepsPerMm|rewrite moveRelativeMm_config_ok]; assumption.
Qed.

Lemma guarded_step (now : Z) (s s' : t) :
  Travel.guarded s -> Travel.limit_checked now s s' -> Travel.guarded s'.
Proof.
  intros [Hg Hp] Hs. unfold Travel.limit_checked in Hs. cbv zeta in Hs.
  set (s1 := fst (update now s)) in *.
  assert (Travel.geared s1) as Hg1 by (apply update_geared; exact Hg).
  unfold Travel.inside, Travel.LOW_STEPS, Travel.HIGH_STEPS in *.
  assert (Hp1 : 600 <= pos_steps_ s1 <= 30000 /\
                (600 < pos_steps_ s < 30000 \/ pos_steps_ s1 = pos_steps_ s)).
  { destruct (update_moves_one_step now s) as [H | [Hi H]]; fold s1 in H.
    - rewrite H. split; [lia|auto].
    - destruct Hp as [Hp | [_ Hp]]; [|congruence].
      rewrite H. destruct (dir_ s); rewrite to_i32_small by lia; split; auto; lia. }
  destruct Hp1 as [Hin1 Hp1].
  pose proof (out_of_range_steps s1 Hg1 ltac:(lia)) as Ho.
  destruct Hs as [[Hout ->] | (Hout & Hpos & Hg')].
  - split; [apply setSpeedMmPerSec_geared; exact Hg1|].
    right. rewrite setSpeedMmPerSec_pos.
    split; [exact Hin1|]. apply setSpeedMmPerSec_zero_idle. exact (proj2 Hg1).
  - split; [exact (Hg' Hg1)|]. left. rewrite Hpos.
    rewrite Ho in Hout. apply orb_false_iff in Hout. destruct Hout as [A B].
    apply Z.leb_gt in A. apply Z.leb_gt in B.
    unfold Travel.LOW_STEPS, Travel.HIGH_STEPS. lia.
Qed.

Lemma Mod1_step_limit_checked (i : Inputs) (m : Mod1Mode.t) (w : World.t) :
  Travel.limit_checked (in_micros i) (World.stepper w)
    (World.stepper (snd (Mod1Mode.step i m w))).
Proof.
  unfold Travel.limit_checked. cbv zeta.
  unfold Mod1Mode.step, Mod1Mode.abort.
  change (World.stepper (World.stepper_call (update (in_micros i)) w))
    with (fst (update (in_micros i) (World.stepper w))).
  set (s1 := fst (update (in_micros i) (World.stepper w))).
  destruct (out_of_range (positionMm s1)); [left; split; reflexivity|].
  right. split; [reflexivity|].
  destruct (Mod1Mode.st_ m);
    unfold Mod1Mode.step_MovingDownDetect, Mod1Mode.step_Wait1, Mod1Mode.step_MoveDown1,
      Mod1Mode.step_Wait2, Mod1Mode.step_Validate30V, Mod1Mode.step_RelayHold,
      Mod1Mode.step_Etching, Mod1Mode.step_FinalLift;
    cbv beta iota zeta delta [World.IavgS_update World.Iavg_update];
    repeat match goal with
           | |- context [if ?c then _ else _] => destruct c
           end.
  all: cbn -[F32.of_Z F32.neg F32.lit F32.zero setSpeedMmPerSec moveRelativeMm update];
    fold s1.
  all: split;
    [rewrite ?moveRelativeMm_pos, ?setSpeedMmPerSec_pos; reflexivity
    |intros Hg;
     repeat first [apply moveRelativeMm_geared | apply setSpeedMmPerSec_geared];
     exact Hg].
Qed.

Lemma Mod2_step_limit_checked (i : Inputs) (m : Mod2Mode.t) (w : World.t) :
  Travel.limit_checked (in_micros i) (World.stepper w)
    (World.stepper (snd (Mod2Mode.step i m w))).
Proof.
  unfold Travel.limit_checked. cbv zeta.
  unfold Mod2Mode.step, Mod2Mode.abort.
  change (World.stepper (World.stepper_call (update (in_micros i)) w))
    with (fst (update (in_micros i) (World.stepper w))).
  set (s1 := fst (update (in_micros i) (World.stepper w))).
  destruct (out_of_range (positionMm s1)); [left; split; reflexivity|].
  right. split; [reflexivity|].
  destruct (Mod2Mode.st_ m);
    unfold Mod2Mode.step_MovingDownDetect, Mod2Mode.step_Wait1, Mod2Mode.step_MoveDown1,
      Mod2Mode.step_Wait2, Mod2Mode.step_Validate30V, Mod2Mode.step_RelayHold,
      Mod2Mode.step_Wait3, Mod2Mode.step_MoveDown2, Mod2Mode.step_Wait4,
      Mod2Mode.step_RelayPulse, Mod2Mode.step_FinalLift;
    cbv beta iota zeta delta [World.IavgS_update World.Iavg_update];
    repeat match goal with
           | |- context [if ?c then _ else _] => destruct c
           end.
  all: cbn -[F32.of_Z F32.neg F32.lit F32.zero setSpeedMmPerSec moveRelativeMm update];
    fold s1.
  all: split;
    [rewrite ?moveRelativeMm_pos, ?setSpeedMmPerSec_pos; reflexivity
    |intros Hg;
     repeat first [apply moveRelativeMm_geared | apply setSpeedMmPerSec_geared];
     exact Hg].
Qed.

(** What [guarded] says of the position. *)
Lemma guarded_position (s : t) :
  Travel.guarded s ->
  Travel.inside (pos_steps_ s) /\
  (pos_steps_ s = Travel.LOW_STEPS \/ pos_steps_ s = Travel.HIGH_STEPS -> idle s = true).
Proof.
  unfold Travel.guarded, Travel.inside, Travel.LOW_STEPS, Travel.HIGH_STEPS.
  intros [_ [H | [H Hi]]]; split; auto; lia.
Qed.

Lemma begin_speed_guarded (v : F32.float) (s : t) :
  Travel.geared s -> Travel.LOW_STEPS < pos_steps_ s < Travel.HIGH_STEPS ->
  Travel.guarded (fst (setSpeedMmPerSec v (fst (enable true s)))).
Proof.
  intros Hg Hp. split; [apply setSpeedMmPerSec_geared; exact Hg|].
  left. rewrite setSpeedMmPerSec_pos. exact Hp.
Qed.

Lemma run_mod1_guarded (tks : list Sketch.Tick) (m : Mod1Mode.t) (w : World.t) :
  Travel.guarded (World.stepper w) ->
  Travel.guarded (World.stepper (snd (ModeRuns.run_mod1 tks m w))).
Proof.
  revert m w. induction tks as [|tk tks IH]; intros m w H; [exact H|].
  cbn [ModeRuns.run_mod1].
  pose proof (guarded_step _ _ _ H
                (Mod1_step_limit_checked (Sketch.tk_in tk) m (Sketch.sensor_update tk w)))
    as Hs.
  fold (ModeRuns.loop_mod1 tk m w) in Hs.
  destruct (ModeRuns.loop_mod1 tk m w) as [[d m'] w']. cbn [snd] in Hs.
  destruct d; [exact Hs|]. apply IH. exact Hs.
Qed.

Lemma run_mod2_guarded (tks : list Sketch.Tick) (m : Mod2Mode.t) (w : World.t) :
  Travel.guarded (World.stepper w) ->
  Travel.guarded (World.stepper (snd (Sketch.run_mod2 tks m w))).
Proof.
  revert m w. induction tks as [|tk tks IH]; intros m w H; [exact H|].
  cbn [Sketch.run_mod2].
  pose proof (guarded_step _ _ _ H
                (Mod2_step_limit_checked (Sketch.tk_in tk) m (Sketch.sensor_update tk w)))
    as Hs.
  fold (Sketch.loop_mod2 tk m w) in Hs.
  destruct (Sketch.loop_mod2 tk m w) as [[d m'] w']. cbn [snd] in Hs.
  destruct d; [exact Hs|]. apply IH. exact Hs.
Qed.



End TravelFacts.

Lemma soft_limits_in_steps_witness :
  out_of_range (StepperDriver.positionMm (World.stepper (Travel.world_at 601))) = false /\
  out_of_range (StepperDriver.positionMm (World.stepper (Travel.world_at 600))) = true.
Proof.
  split.
  - exact (proj1 (soft_limits_in_steps (World.stepper (Travel.world_at 601))
                    eq_refl ltac:(cbn; lia))).
  - exact (proj1 (soft_limits_in_steps (World.stepper (Travel.world_at 600))
                    eq_refl ltac:(cbn; lia))).
Defined.

Lemma jog_never_leaves_travel_witness :
  let b := JogMode.begin (JogMode.mk 0 true) (Travel.world_at 602) in
  Travel.inside
    (StepperDriver.pos_steps_
       (World.stepper (snd (Travel.run_jog (Travel.holding_up 20) (fst b) (snd b))))).
Proof.
  apply (jog_never_leaves_travel (Travel.holding_up 20) (JogMode.mk 0 true)
           (Travel.world_at 602)).
  - split; reflexivity.
  - unfold Travel.inside, Travel.LOW_STEPS, Travel.HIGH_STEPS. cbn. lia.
Defined.



Lemma positionMm_accuracy_witness :
  (Qabs (F32.to_Q (StepperDriver.positionMm (World.stepper (Travel.world_at 601)))
         - inject_Z 601 / 400)
   <= inject_Z 601 * (3 # 1073741824))%Q.
Proof.
  exact (proj2 (positionMm_accuracy (World.stepper (Travel.world_at 601))
                  eq_refl ltac:(cbn; lia))).
Defined.
